(* ===== verification/_CoqProject ===== *)
-Q . S2P
Prelude.v
Bytes.v
Pagefit.v
Alloc.v
Ealloc.v
Umalloc.v
UmallocSpec.v
UmallocFree.v
UmallocThms.v
Spinlock.v
Xstring.v
Proc.v
ProcSpec.v
ProcThms.v
ProcSched.v
ProcInv.v
ProcDemo.v
Monitor.v
Sem.v
Rwlock.v
RwlockW.v
RwlockR.v
MasterWorker.v
Grep.v
Printf.v
Console.v
SsuShell.v
SsuRun.v
Sh.v
ShParse.v
ShPrint.v
ShRun.v
Pipe.v
Bio.v
BioList.v
BioSpec.v
BioOps.v
Log.v
LogSpec.v
LogLoops.v
LogCrash.v
LogCommit.v
LogRecover.v
LogThms.v
LogTx.v
LogSpace.v
Fs.v
FsInv.v
FsMap.v
FsFile.v
FsNode.v
FsWrite.v
FsLog.v
File.v
FileSpec.v
FsDir.v
FileCrash.v
FileDemo.v
FileThms.v
Syscall.v
Sysfile.v
SysRefs.v
Kalloc.v
Vm.v
VmInv.v
VmSteps.v
VmMap.v
VmFree.v
VmGrow.v
VmCopy.v
VmUser.v
VmThms.v
SsufsDisk.v
SsufsOps.v
SsufsView.v
SsufsRep.v
SsufsSpec.v
SsufsWrite.v
SsufsRead.v
Ssufs.v
