(* ===== verification/Prelude.v ===== *)
(** * A verification development for the 2020 SSU operating-systems assignments

    The repository holds six assignments: load generators (hw1), a Unix shell
    (hw2), the xv6 kernel with added system calls and a priority scheduler
    (hw3), thread synchronisation with pthreads (hw4), two page allocators
    (hw5) and a small file system in a host file (hw6).  This library is a
    shallow embedding of the C code, with theorems about it.  A definition that
    translates code is preceded by a comment with the C name and the lines.

    ** Conventions

    A C function is a computation of the state-and-failure monad [M] below: it
    returns a value and a state, or stops ([Panic], a failed assert, a [Fault]
    where C leaves the behaviour undefined, [Sleep], [Exit]).  Pure functions
    are plain functions; [option] stands for a fault where there is no state.
    Integers are [Z]; the wrap-around of [uint] is [u32], the overflow of [int]
    a fault.  Loops that are not structural have fuel, which [OutOfFuel]
    reports; the theorems show that the code returns, so the fuel that the
    definitions compute is enough (lengths of lines, sizes in blocks or pages,
    numbers of list elements).  [wp] is total correctness, [wpx] also says what
    holds after a failure.  Threads interleave at the calls that release a lock,
    as a step relation ([Monitor]); crashes are cuts of the sequence of disk
    writes.  Code outside src/ (mmap, malloc of the host, sbrk, fork, devices)
    is an argument of the definitions, with the documented behaviour as a
    hypothesis where a theorem needs one.

    ** Shared files

    - [Prelude]: the monad, [wp], machine integers, arrays, tactics.
    - [Bytes]: byte arrays, little-endian words, C strings.
    - [Xstring]: string.c and the string functions of ulib.c.

    ** hw2, the assignment's shell (ssu_shell.c)

    - [SsuShell]: tokenize on its arrays; executeCommand over the table of
      descriptors; main from a line and from a script.  The blocks of malloc
      hold any bytes, and the size of stdio's blocks is an argument.  tokenize
      returns the words of a string, and those among the bytes up to the next 0
      after its terminator, exactly when they fit.
    - [SsuRun]: a pipeline starts one child per command, connected in order, and
      leaves the shell's descriptors as they were; lines it miscounts; the read
      ends it holds while it waits.  The loop over a script ends, and a script is
      cut after its first block because the shell closes its descriptor.

    ** hw3, xv6: processes (proc.c, spinlock.c)

    - [Spinlock]: CPUs, interrupt nesting, acquire and release.
    - [Proc]: the process table and every function of proc.c, the added ones and
      the priority scheduler included; [KernelOps] is the interface to memory
      and files.  [ProcSpec], [ProcThms], [ProcSched], [ProcInv]: what the
      operations do, the turns that a pass of the scheduler gives to processes
      that use up their time slices, and the invariant of the table over all runs
      from boot.  [ProcDemo]: concrete runs.

    ** hw3, xv6: memory (kalloc.c, vm.c, umalloc.c)

    - [Kalloc], [Vm]: the free list inside the free pages; page tables as bytes
      in pages.  [VmInv], [VmSteps], [VmMap], [VmFree], [VmGrow],
      [VmCopy], [VmUser]: ownership of pages, and each function
      against it.  [VmThms]: freeing, growing, copying and writing address
      spaces, and what is left when memory runs out.
    - [Umalloc]: the Kernighan and Ritchie allocator on the words of its headers.
      [UmallocSpec]: the heap as a row of blocks and the circular list through
      it; [UmallocFree], [UmallocThms]: free and malloc against the row, and
      programs that use both with requests below 2^31 - 16 bytes.

    ** hw3, xv6: disk, log, files (bio.c, ide.c, sleeplock.c, log.c, fs.c,
    file.c, sysfile.c)

    - [Bio], [BioList], [BioSpec], [BioOps]: sleep locks, the disk queue, the
      buffer cache with its LRU list, and what its clients see.
    - [Log] with [LogSpec], [LogLoops], [LogCrash], [LogCommit], [LogRecover]:
      log.c on the bytes of the header block.  [LogThms], [LogTx]: transactions
      are atomic for a crash after any disk write and any crashes of recovery.
      [LogSpace]: log space for concurrent operations, counted in the different
      blocks that an operation logs, and the log of mkfs, which is one block too
      short.
    - [Fs]: fs.c over the interfaces [Buffers] and [Operations].  [FsInv],
      [FsMap], [FsFile], [FsNode], [FsWrite], [FsDir]: block allocation, the
      blocks of a file, reading and writing, inodes on the disk, directories as
      finite maps; all against the laws [BufferLaws] and [OperationLaws].
      [FsLog]: the buffer cache and the log satisfy the laws.
    - [File]: file.c and pipealloc over the interface [Pipes].  [FileSpec],
      [FileCrash], [FileThms]: a write stores its bytes, is read back, and
      survives crashes whole or not at all.  [FileDemo]: a booted kernel.
    - [Syscall], [Sysfile]: arguments of system calls, and sysfile.c for the
      process that makes the call.  [SysRefs]: proc.c and sysfile.c in one
      kernel, with file.c and fs.c as proc.c's [KernelOps]; the reference counts
      of open files are exact over all sequences of calls of all processes, fork
      and exit included.
    - [Pipe]: pipe.c over [Monitor]: first in first out, and wakeups.

    ** hw3, xv6: console and user programs

    - [Printf]: printf.c and cprintf; what printf prints, atoi reads.
    - [Console]: the line editor of consoleintr and consoleread on its ring
      buffer, and the screen.
    - [Sh], [ShParse], [ShPrint], [ShRun]: the parser of sh.c ends and stays
      inside the line (a read past its 0 is a fault), inverts printing, and the
      shell connects programs as the command says.
    - [Grep]: the matcher is a regular-expression matcher; grep prints the
      matching lines, for lines that fit its buffer.

    ** hw4, threads

    - [Monitor]: a mutex and condition variables, with and without barging and
      spurious wakeups; runs in which the wakeups without a signal, and the
      threads that get ahead of a signalled one, are counted.
    - [Sem], [Rwlock], [RwlockW], [RwlockR], [MasterWorker]: the semaphore, the
      two readers-writer locks and the bounded buffer: what they keep in every
      interleaving, and the interleavings that break them.

    ** hw5 and hw6

    - [Pagefit], [Alloc], [Ealloc]: first fit in a page; the two allocators, the
      second also when mmap fails.
    - [SsufsDisk], [SsufsOps]: the file system on the bytes of the host file.
      [SsufsView], [SsufsRep], [SsufsSpec], [SsufsWrite], [SsufsRead], [Ssufs]:
      it refines a table of named byte strings, and where it does not (long
      names, a block saved with strcpy, a write without room).

    ** Not modelled

    - Hardware: assembly, boot code, interrupt controllers, the serial port, the
      keyboard, port commands of disk and screen, segment and page-directory
      registers.  Their meaning is not in the C code.
    - trap.c dispatches on hardware state; sysproc.c fetches arguments for
      functions that are modelled; exec.c and sys_exec compose modelled functions
      of vm.c and fs.c along an ELF file, whose format is outside of the
      repository.
    - mkfs.c runs on the host; the disks it makes are the starting points of the
      invariants.
    - Kernel code runs one call at a time except where interleaving is the point
      (processes, log space, pipes); the disk reports no errors.
    - hw1, top.c, the short user programs and the tests compute nothing that
      other code relies on.  qemu is third-party code. *)

From stdpp Require Export base list gmap strings numbers option list_numbers.
From Stdlib Require Export Lia ZifyNat.

#[global] Set Default Goal Selector "!".
#[export] Set Warnings "-clear-no-such-hyp".

(** ** Failures and outcomes

    A C function of the repository either returns, or stops the program in
    one of a few ways.  [Panic] is xv6's [panic()], [Abort] a failed
    [assert()] of a user program, [Fault] an access outside an object (what C
    leaves undefined), [Sleep] a call that blocks the caller on a channel and
    [Exit] a call of [exit()].  The state reached is kept in every case. *)

Inductive failure : Type :=
  | Panic (msg : string)
  | Abort
  | Fault
  | Sleep (chan : Z)
  | Exit
  | OutOfFuel.

#[export] Instance failure_eq_dec : EqDecision failure.
Proof. solve_decision. Defined.

Inductive outcome (S A : Type) : Type :=
  | Ret (a : A) (s : S)
  | Fail (e : failure) (s : S).
Arguments Ret {S A} a s.
Arguments Fail {S A} e s.

(** ** The state-and-failure monad of the models *)

Definition M (S A : Type) : Type := S → outcome S A.

#[export] Instance M_ret {S} : MRet (M S) := λ A a s, Ret a s.
#[export] Instance M_bind {S} : MBind (M S) := λ A B f m s,
  match m s with
  | Ret a s' => f a s'
  | Fail e s' => Fail e s'
  end.
#[export] Instance M_fmap {S} : FMap (M S) := λ A B f m s,
  match m s with
  | Ret a s' => Ret (f a) s'
  | Fail e s' => Fail e s'
  end.

Definition fail {S A} (e : failure) : M S A := λ s, Fail e s.
Definition getS {S} : M S S := λ s, Ret s s.
Definition putS {S} (s' : S) : M S unit := λ _, Ret tt s'.
Definition gets {S A} (f : S → A) : M S A := λ s, Ret (f s) s.
Definition modify {S} (f : S → S) : M S unit := λ s, Ret tt (f s).

(** [assert(b)] of <assert.h>, and the kernel's [if(!b) panic(msg)]. *)
Definition assertb {S} (b : bool) : M S unit := if b then mret tt else fail Abort.
Definition panic_unless {S} (b : bool) (msg : string) : M S unit :=
  if b then mret tt else fail (Panic msg).

(** An access that is undefined behaviour unless it is in bounds. *)
Definition of_option {S A} (o : option A) : M S A :=
  match o with Some a => mret a | None => fail Fault end.

(** [zoom get set m] runs a component's operation on its part of a larger
    state. *)
Definition zoom {S T A} (get : S → T) (set : T → S → S) (m : M T A) : M S A :=
  λ s, match m (get s) with
       | Ret a t => Ret a (set t s)
       | Fail e t => Fail e (set t s)
       end.

(** ** Loops

    [for_ n i body] runs [body i], [body (i+1)], ..., [n] times at most; the
    body says [Some r] to leave the loop with [r] ([break] and [return]).
    [while_ fuel body] runs [body] until it gives [Some r]. *)

Fixpoint for_ {S R} (n : nat) (i : nat) (body : nat → M S (option R)) : M S (option R) :=
  match n with
  | O => mret None
  | Datatypes.S n' =>
      r ← body i;
      match r with
      | Some _ => mret r
      | None => for_ n' (Datatypes.S i) body
      end
  end.

Fixpoint while_ {S R} (fuel : nat) (body : M S (option R)) : M S R :=
  match fuel with
  | O => fail OutOfFuel
  | Datatypes.S fuel' =>
      r ← body;
      match r with
      | Some a => mret a
      | None => while_ fuel' body
      end
  end.

(** ** Weakest preconditions, total: the computation returns. *)

Definition wp {S A} (m : M S A) (Q : A → S → Prop) (s : S) : Prop :=
  match m s with Ret a s' => Q a s' | Fail _ _ => False end.

Section wp.
Context {S : Type}.
Implicit Types (s : S).

Lemma wp_ret {A} (a : A) Q s : Q a s → wp (mret a) Q s.
Proof. done. Qed.

Lemma wp_bind {A B} (m : M S A) (f : A → M S B) Q s :
  wp m (λ a s', wp (f a) Q s') s → wp (m ≫= f) Q s.
Proof. unfold wp, mbind, M_bind. by destruct (m s). Qed.

Lemma wp_mono {A} (m : M S A) (Q Q' : A → S → Prop) s :
  wp m Q s → (∀ a s', Q a s' → Q' a s') → wp m Q' s.
Proof. unfold wp. destruct (m s); naive_solver. Qed.

Lemma wp_gets {A} (f : S → A) Q s : Q (f s) s → wp (gets f) Q s.
Proof. done. Qed.

Lemma wp_modify (f : S → S) Q s : Q tt (f s) → wp (modify f) Q s.
Proof. done. Qed.

Lemma wp_assertb b Q s : b = true → Q tt s → wp (assertb b) Q s.
Proof. by intros ->. Qed.

Lemma wp_panic_unless b msg Q s : b = true → Q tt s → wp (panic_unless b msg) Q s.
Proof. by intros ->. Qed.

Lemma wp_of_option {A} (o : option A) a Q s : o = Some a → Q a s → wp (of_option o) Q s.
Proof. by intros ->. Qed.

Lemma wp_elim {A} (m : M S A) Q s : wp m Q s → ∃ a s', m s = Ret a s' ∧ Q a s'.
Proof. unfold wp. destruct (m s); naive_solver. Qed.

Lemma wp_intro {A} (m : M S A) (Q : A → S → Prop) s a s' : m s = Ret a s' → Q a s' → wp m Q s.
Proof. unfold wp. by intros ->. Qed.

(** The rule of a counted loop: [I i] holds before the round with index [i];
    a round either keeps the invariant or leaves with the loop's result. *)
Lemma wp_for {R} n i (body : nat → M S (option R)) (I : nat → S → Prop) Q s :
  I i s →
  (∀ j s', i ≤ j < i + n → I j s' →
     wp (body j) (λ r s'', match r with
                           | None => I (Datatypes.S j) s''
                           | Some _ => Q r s'' end) s') →
  (∀ s', I (i + n) s' → Q None s') →
  wp (for_ n i body) Q s.
Proof.
  revert i s. induction n as [|n IH]; intros i s HI Hbody Hend; simpl.
  { apply wp_ret, Hend. by rewrite Nat.add_0_r. }
  apply wp_bind. eapply wp_mono; [apply Hbody; [lia|done]|].
  intros [r|] s' Hr; [by apply wp_ret|].
  apply IH; [done| |].
  - intros j s'' Hj HI'. apply Hbody; [lia|done].
  - intros s'' HI'. apply Hend. by replace (i + Datatypes.S n) with (Datatypes.S i + n) by lia.
Qed.
End wp.

(** The computation stops with failure [e]. *)
Definition fails {S A} (m : M S A) (e : failure) (s : S) : Prop := ∃ s', m s = Fail e s'.

Lemma fails_bind_l {S A B} (m : M S A) (f : A → M S B) e s : fails m e s → fails (m ≫= f) e s.
Proof. intros [s' Hm]. exists s'. unfold mbind, M_bind. by rewrite Hm. Qed.

Lemma fails_bind {S A B} (m : M S A) (f : A → M S B) e s :
  wp m (λ a s', fails (f a) e s') s → fails (m ≫= f) e s.
Proof. unfold wp, fails, mbind, M_bind. by destruct (m s). Qed.

Lemma fails_fail {S A} e (s : S) : fails (fail e : M S A) e s.
Proof. by eexists. Qed.

Lemma fails_not_wp {S A} (m : M S A) e Q s : fails m e s → wp m Q s → False.
Proof. unfold wp. by intros [s' ->]. Qed.

(** Postconditions for both ways to end: [Q] after a return, [R] after a
    failure. *)
Definition wpx {S A} (m : M S A) (Q : A → S → Prop) (R : failure → S → Prop) (s : S) : Prop :=
  match m s with Ret a s' => Q a s' | Fail e s' => R e s' end.

Lemma wpx_ret {S A} (a : A) Q R (s : S) : Q a s → wpx (mret a) Q R s.
Proof. done. Qed.

Lemma wpx_fail {S A} e (Q : A → S → Prop) R (s : S) : R e s → wpx (fail e) Q R s.
Proof. done. Qed.

Lemma wpx_bind {S A B} (m : M S A) (f : A → M S B) Q R s :
  wpx m (λ a s', wpx (f a) Q R s') R s → wpx (m ≫= f) Q R s.
Proof. unfold wpx, mbind, M_bind. by destruct (m s). Qed.

Lemma wpx_wp {S A} (m : M S A) Q R s : wp m Q s → wpx m Q R s.
Proof. unfold wp, wpx. by destruct (m s). Qed.

Lemma wpx_bind_wp {S A B} (m : M S A) (f : A → M S B) Q R s :
  wp m (λ a s', wpx (f a) Q R s') s → wpx (m ≫= f) Q R s.
Proof. intros. by apply wpx_bind, wpx_wp. Qed.

Lemma wpx_mono {S A} (m : M S A) (Q Q' : A → S → Prop) (R R' : failure → S → Prop) s :
  wpx m Q R s → (∀ a s', Q a s' → Q' a s') → (∀ e s', R e s' → R' e s') → wpx m Q' R' s.
Proof. unfold wpx. destruct (m s); auto. Qed.

Lemma wpx_for {S R} n i (body : nat → M S (option R)) (I : nat → S → Prop) Q F s :
  I i s →
  (∀ j s', (i ≤ j < i + n)%nat → I j s' →
     wpx (body j) (λ r s'', match r with
                            | None => I (Datatypes.S j) s''
                            | Some _ => Q r s'' end) F s') →
  (∀ s', I (i + n)%nat s' → Q None s') →
  wpx (for_ n i body) Q F s.
Proof.
  revert i s. induction n as [|n IH]; intros i s HI Hbody Hend; cbn [for_].
  { apply wpx_ret, Hend. by rewrite Nat.add_0_r. }
  apply wpx_bind. eapply wpx_mono; [apply Hbody; [lia|done]| |done].
  intros [r|] s' Hr; [by apply wpx_ret|].
  apply IH; [done| |].
  - intros j s'' Hj HI'. apply Hbody; [lia|done].
  - intros s'' HI'. apply Hend. by replace (i + Datatypes.S n)%nat with (Datatypes.S i + n)%nat by lia.
Qed.

#[global] Arguments wpx : simpl never.

(** The state a run ends in, to build concrete states by running the code. *)
Definition final {S A} (m : M S A) (s : S) : S :=
  match m s with Ret _ s' => s' | Fail _ s' => s' end.

Lemma wp_final {S A} (m : M S A) Q s : wp m Q s → ∃ a, Q a (final m s).
Proof. unfold wp, final. destruct (m s) as [a s'|]; [by exists a|done]. Qed.

Lemma wp_zoom {S T A} (get : S → T) (set : T → S → S) (m : M T A) Q (s : S) :
  wp m (λ a t, Q a (set t s)) (get s) → wp (zoom get set m) Q s.
Proof. unfold wp, zoom. by destruct (m (get s)). Qed.

#[global] Arguments for_ : simpl never.
#[global] Arguments while_ : simpl never.
#[global] Arguments wp : simpl never.

(** ** Machine integers

    C's [uint] arithmetic wraps modulo 2^32; a value stored into an [int]
    keeps the representative of its class in [[-2^31, 2^31)]. *)

Open Scope Z_scope.

Definition u8 (z : Z) : Z := z mod 2 ^ 8.
Definition u16 (z : Z) : Z := z mod 2 ^ 16.
Definition u32 (z : Z) : Z := z mod 2 ^ 32.
Definition i32 (z : Z) : Z := (z + 2 ^ 31) mod 2 ^ 32 - 2 ^ 31.
Definition i16 (z : Z) : Z := (z + 2 ^ 15) mod 2 ^ 16 - 2 ^ 15.

Lemma u32_range z : 0 ≤ u32 z < 2 ^ 32.
Proof. apply Z.mod_pos_bound. lia. Qed.
Lemma u32_small z : 0 ≤ z < 2 ^ 32 → u32 z = z.
Proof. apply Z.mod_small. Qed.
Lemma i32_range z : - 2 ^ 31 ≤ i32 z < 2 ^ 31.
Proof. unfold i32. pose proof (Z.mod_pos_bound (z + 2 ^ 31) (2 ^ 32)). lia. Qed.
Lemma i32_small z : - 2 ^ 31 ≤ z < 2 ^ 31 → i32 z = z.
Proof. intros. unfold i32. rewrite Z.mod_small; lia. Qed.
Lemma i32_u32 z : i32 (u32 z) = i32 z.
Proof. unfold i32, u32. by rewrite Zplus_mod_idemp_l. Qed.
Lemma u32_i32 z : u32 (i32 z) = u32 z.
Proof.
  unfold i32, u32. rewrite Zminus_mod_idemp_l. f_equal. lia.
Qed.

(** The value of a signed [int] expression: overflow is undefined. *)
Definition int_ {S} (z : Z) : M S Z :=
  if (- 2 ^ 31 <=? z) && (z <? 2 ^ 31) then mret z else fail Fault.

Lemma wp_int {S} z Q (s : S) : - 2 ^ 31 ≤ z < 2 ^ 31 → Q z s → wp (int_ z) Q s.
Proof.
  intros ??. unfold int_. rewrite (proj2 (Z.leb_le _ _)), (proj2 (Z.ltb_lt _ _)) by lia. done.
Qed.

(** The value of a signed [int] expression, absent on overflow. *)
Definition chk (z : Z) : option Z := if (- 2 ^ 31 <=? z) && (z <? 2 ^ 31) then Some z else None.

Lemma chk_Some z v : chk z = Some v → v = z.
Proof. unfold chk. by destruct (_ && _); intros [= <-]. Qed.

(** ** Tactics *)

(** Split a wp goal along the binds and primitive steps of the program. *)
Create HintDb wp discriminated.
#[export] Hint Resolve wp_ret wp_gets wp_modify : wp.

Ltac wp_step :=
  lazymatch goal with
  | |- wp (mbind _ _) _ _ => apply wp_bind
  | |- wp (mret _) _ _ => apply wp_ret
  | |- wp (gets _) _ _ => apply wp_gets
  | |- wp (modify _) _ _ => apply wp_modify
  | |- wp (if ?b then _ else _) _ _ => let E := fresh "E" in destruct b eqn:E
  end.

(** Linear arithmetic with division and remainder. *)
Ltac dlia := Z.to_euclidean_division_equations; lia.
Ltac ndlia := zify; Z.to_euclidean_division_equations; lia.

(** Turn the boolean tests of the code into propositions, then solve. *)
Ltac bool_solve :=
  repeat match goal with
         | H : (_ && _)%bool = true |- _ => apply andb_true_iff in H; destruct H
         | H : (_ || _)%bool = false |- _ => apply orb_false_iff in H; destruct H
         | H : negb _ = true |- _ => apply negb_true_iff in H
         | H : negb _ = false |- _ => apply negb_false_iff in H
         | H : bool_decide _ = true |- _ => apply bool_decide_eq_true_1 in H
         | H : bool_decide _ = false |- _ => apply bool_decide_eq_false_1 in H
         | H : (_ =? _)%Z = true |- _ => apply Z.eqb_eq in H
         | H : (_ =? _)%Z = false |- _ => apply Z.eqb_neq in H
         | H : (_ <? _)%Z = true |- _ => apply Z.ltb_lt in H
         | H : (_ <? _)%Z = false |- _ => apply Z.ltb_ge in H
         | H : (_ <=? _)%Z = true |- _ => apply Z.leb_le in H
         | H : (_ <=? _)%Z = false |- _ => apply Z.leb_gt in H
         end; try lia; try done.

(** A rewrite rule for the bind of [option], for steps that conversion should
    not explore. *)
Lemma some_bind {A B} (f : A → option B) (a : A) : (Some a ≫= f) = f a.
Proof. done. Qed.

(** ** Arrays indexed by a C integer

    [getZ l i] is [l[i]], absent outside the array; [setZ l i x] is the array
    after [l[i] = x] for an index in range. *)

Definition getZ {A} (l : list A) (i : Z) : option A :=
  if 0 <=? i then l !! Z.to_nat i else None.
Definition setZ {A} (l : list A) (i : Z) (x : A) : list A :=
  if 0 <=? i then <[Z.to_nat i := x]> l else l.
Definition lenZ {A} (l : list A) : Z := Z.of_nat (length l).

Section arrays.
Context {A : Type}.
Implicit Types (l : list A) (i j : Z).

Lemma getZ_nat l (n : nat) : getZ l (Z.of_nat n) = l !! n.
Proof. unfold getZ. rewrite (proj2 (Z.leb_le _ _)) by lia. by rewrite Nat2Z.id. Qed.

Lemma getZ_is_Some l i : 0 ≤ i < lenZ l → ∃ x, getZ l i = Some x.
Proof.
  unfold getZ, lenZ. intros. rewrite (proj2 (Z.leb_le _ _)) by lia.
  apply lookup_lt_is_Some. lia.
Qed.

Lemma getZ_Some_range l i x : getZ l i = Some x → 0 ≤ i < lenZ l.
Proof.
  unfold getZ, lenZ. destruct (Z.leb_spec 0 i); [|done].
  intros Hx%lookup_lt_Some. lia.
Qed.

Lemma lenZ_setZ l i x : lenZ (setZ l i x) = lenZ l.
Proof. unfold lenZ, setZ. case_match; [by rewrite length_insert|done]. Qed.

Lemma getZ_setZ_eq l i x : 0 ≤ i < lenZ l → getZ (setZ l i x) i = Some x.
Proof.
  unfold getZ, setZ, lenZ. intros. rewrite !(proj2 (Z.leb_le _ _)) by lia.
  apply list_lookup_insert_eq. lia.
Qed.

Lemma getZ_setZ_ne l i j x : i ≠ j → getZ (setZ l i x) j = getZ l j.
Proof.
  unfold getZ, setZ. intros. case_match; [|done]. case_match; [|done].
  apply list_lookup_insert_ne. bool_solve.
Qed.

Lemma getZ_setZ l i j x :
  0 ≤ i < lenZ l → getZ (setZ l i x) j = if decide (i = j) then Some x else getZ l j.
Proof.
  intros. case_decide; subst; [by apply getZ_setZ_eq|by apply getZ_setZ_ne].
Qed.

Lemma setZ_setZ l i x y : setZ (setZ l i x) i y = setZ l i y.
Proof. unfold setZ. case_match; [|done]. by rewrite list_insert_insert_eq. Qed.

Lemma setZ_id l i x : getZ l i = Some x → setZ l i x = l.
Proof. unfold setZ, getZ. case_match; [|done]. apply list_insert_id. Qed.

Lemma getZ_replicate n (x : A) i : 0 ≤ i < Z.of_nat n → getZ (replicate n x) i = Some x.
Proof.
  unfold getZ. intros. rewrite (proj2 (Z.leb_le _ _)) by lia.
  apply lookup_replicate_2. lia.
Qed.

Lemma lenZ_replicate n (x : A) : lenZ (replicate n x) = Z.of_nat n.
Proof. unfold lenZ. by rewrite length_replicate. Qed.
End arrays.

Create Rewrite HintDb arr.
#[export] Hint Rewrite @lenZ_setZ @lenZ_replicate : arr.

(** How many elements satisfy a test, after one of them changed. *)
Lemma length_filter_insert {A} (P : A → Prop) `{∀ x, Decision (P x)} (l : list A) i x y :
  l !! i = Some x →
  (length (filter P (<[i := y]> l)) + (if decide (P x) then 1 else 0))%nat =
  (length (filter P l) + (if decide (P y) then 1 else 0))%nat.
Proof.
  revert i. induction l as [|z l IH]; intros [|i] Hx; try done.
  - injection Hx as ->. change (<[0%nat := y]> (x :: l)) with (y :: l). rewrite !filter_cons.
    repeat case_decide; cbn [length]; lia.
  - cbn in Hx. change (<[S i := y]> (z :: l)) with (z :: <[i := y]> l). rewrite !filter_cons.
    specialize (IH i Hx). repeat case_decide; cbn [length]; lia.
Qed.
