(* ===== verification/Bytes.v ===== *)
(** * Byte arrays, little-endian words and C strings

    Memory images and disk blocks are lists of bytes, each a [Z] in [0, 256).
    [get off n l] is the [n] bytes at offset [off]; [put off bs l] is the image
    after [bs] is copied to offset [off] (inside the image).  Words are stored
    with the least significant byte first, as on the x86. *)

From S2P Require Import Prelude.

Definition byte (z : Z) : Prop := 0 ≤ z < 256.
Abbreviation bytes := (Forall byte).

Definition get {A} (off n : nat) (l : list A) : list A := take n (drop off l).
Definition put {A} (off : nat) (bs l : list A) : list A :=
  take off l ++ bs ++ drop (off + length bs) l.

Create Rewrite HintDb bytes.

Section slices.
Context {A : Type}.
Implicit Types (l bs : list A) (off n : nat).

Lemma length_get off n l : (off + n ≤ length l)%nat → length (get off n l) = n.
Proof. intros. unfold get. rewrite length_take, length_drop. lia. Qed.

Lemma length_put off bs l : (off + length bs ≤ length l)%nat → length (put off bs l) = length l.
Proof. intros. unfold put. rewrite !length_app, length_take, length_drop. lia. Qed.

Lemma lookup_get off n l i : get off n l !! i = if decide (i < n)%nat then l !! (off + i)%nat else None.
Proof.
  unfold get. case_decide; [by rewrite lookup_take_lt, lookup_drop by done|].
  apply lookup_take_ge. lia.
Qed.

Lemma lookup_put off bs l i :
  (off + length bs ≤ length l)%nat →
  put off bs l !! i =
    if decide (off ≤ i < off + length bs)%nat then bs !! (i - off)%nat else l !! i.
Proof.
  intros Hlen. unfold put. case_decide as Hd.
  - rewrite lookup_app_r by (rewrite length_take; lia). rewrite length_take.
    rewrite lookup_app_l by lia. f_equal. lia.
  - destruct (decide (i < off)%nat).
    + rewrite lookup_app_l by (rewrite length_take; lia). by rewrite lookup_take_lt.
    + rewrite lookup_app_r by (rewrite length_take; lia). rewrite length_take.
      rewrite lookup_app_r by lia. rewrite lookup_drop. f_equal. lia.
Qed.

Lemma get_put_eq off n bs l :
  (off + n ≤ length l)%nat → length bs = n → get off n (put off bs l) = bs.
Proof.
  intros Hl <-. apply list_eq. intros i. rewrite lookup_get.
  case_decide; [|symmetry; apply lookup_ge_None; lia].
  rewrite lookup_put by done. rewrite decide_True by lia. f_equal. lia.
Qed.

Lemma get_put_ne off off' n bs l :
  (off + length bs ≤ length l)%nat →
  (off' + n ≤ off ∨ off + length bs ≤ off')%nat → get off' n (put off bs l) = get off' n l.
Proof.
  intros Hl Hd. apply list_eq. intros i. rewrite !lookup_get. case_decide; [|done].
  rewrite lookup_put by done. rewrite decide_False by lia. done.
Qed.

Lemma put_put off bs bs' l :
  (off + length bs ≤ length l)%nat → length bs = length bs' → put off bs' (put off bs l) = put off bs' l.
Proof.
  intros Hl He. apply list_eq. intros i.
  rewrite !lookup_put by (rewrite ?length_put by done; lia). rewrite He. by case_decide.
Qed.

Lemma put_comm off1 off2 bs1 bs2 l :
  (off1 + length bs1 ≤ length l)%nat → (off2 + length bs2 ≤ length l)%nat →
  (off1 + length bs1 ≤ off2 ∨ off2 + length bs2 ≤ off1)%nat →
  put off1 bs1 (put off2 bs2 l) = put off2 bs2 (put off1 bs1 l).
Proof.
  intros H1 H2 Hd. apply list_eq. intros i.
  rewrite !lookup_put by (rewrite ?length_put by done; lia). repeat case_decide; try done. lia.
Qed.

Lemma get_app_get l off m n : get off m l ++ get (off + m) n l = get off (m + n) l.
Proof. unfold get. rewrite <- drop_drop. by rewrite take_take_drop. Qed.

Lemma put_get off n l : (off + n ≤ length l)%nat → put off (get off n l) l = l.
Proof.
  intros Hl. apply list_eq. intros i. rewrite lookup_put by (rewrite length_get; lia).
  rewrite length_get by done. case_decide; [|done]. rewrite lookup_get, decide_True by lia.
  f_equal. lia.
Qed.

Lemma get_get off n off' n' l :
  (off' + n' ≤ n)%nat → get off' n' (get off n l) = get (off + off') n' l.
Proof.
  intros. apply list_eq. intros i. rewrite !lookup_get. case_decide; [|done].
  rewrite decide_True by lia. f_equal. lia.
Qed.

(** A store inside a larger object that is itself stored back. *)
Lemma put_inside off n off' bs l :
  (off + n ≤ length l)%nat → (off' + length bs ≤ n)%nat →
  put off (put off' bs (get off n l)) l = put (off + off') bs l.
Proof.
  intros Hl Hb. apply list_eq. intros i.
  assert (length (get off n l) = n) as Hg by (by apply length_get).
  rewrite (lookup_put off); rewrite length_put by lia; [|lia]. rewrite Hg.
  rewrite (lookup_put (off + off')), (lookup_put off') by lia.
  repeat case_decide; try lia; [f_equal; lia| |done].
  rewrite lookup_get, decide_True by lia. f_equal. lia.
Qed.

Lemma insert_put off (x : A) l : (off < length l)%nat → <[off := x]> l = put off [x] l.
Proof.
  intros. apply list_eq. intros i. rewrite list_lookup_insert, lookup_put by (simpl; lia). simpl.
  repeat case_decide; try lia; try done; by replace (i - off)%nat with 0%nat by lia.
Qed.

Lemma put_cons off (x : A) bs l :
  (off + S (length bs) ≤ length l)%nat → put (S off) bs (put off [x] l) = put off (x :: bs) l.
Proof.
  intros. apply list_eq. intros i. rewrite (lookup_put (S off)) by (rewrite length_put; simpl; lia).
  rewrite !lookup_put by (simpl; lia). cbn [length].
  repeat case_decide; try lia; try done.
  - by replace (i - off)%nat with (S (i - S off)) by lia.
  - by replace (i - off)%nat with 0%nat by lia.
Qed.

Lemma get_cons off n (x : A) l : l !! off = Some x → get off (S n) l = x :: get (S off) n l.
Proof. intros. unfold get. by rewrite (drop_S l x off) by done. Qed.

Lemma get_0 off l : get off 0 l = [].
Proof. done. Qed.

Lemma get_all l : get 0 (length l) l = l.
Proof. unfold get. rewrite drop_0. by apply take_ge. Qed.

Lemma Forall_get (P : A → Prop) off n l : Forall P l → Forall P (get off n l).
Proof. intros. by apply Forall_take, Forall_drop. Qed.

Lemma Forall_put (P : A → Prop) off bs l : Forall P bs → Forall P l → Forall P (put off bs l).
Proof. intros. unfold put. rewrite !Forall_app. split; [by apply Forall_take|]. split; [done|by apply Forall_drop]. Qed.
End slices.

(** ** Little-endian words *)

Fixpoint le_dec (l : list Z) : Z :=
  match l with [] => 0 | x :: l' => x + 256 * le_dec l' end.
Fixpoint le_enc (n : nat) (z : Z) : list Z :=
  match n with O => [] | S n' => z `mod` 256 :: le_enc n' (z / 256) end.

Lemma length_le_enc n z : length (le_enc n z) = n.
Proof. revert z. induction n; intros; simpl; auto. Qed.

Lemma bytes_le_enc n z : bytes (le_enc n z).
Proof.
  revert z. induction n; intros; simpl; constructor; [|done].
  unfold byte. apply Z.mod_pos_bound. lia.
Qed.

Lemma le_dec_enc n z : le_dec (le_enc n z) = z `mod` 256 ^ Z.of_nat n.
Proof.
  revert z. induction n as [|n IH]; intros z.
  { simpl. by rewrite Z.mod_1_r. }
  cbn [le_enc le_dec]. rewrite IH, Nat2Z.inj_succ, Z.pow_succ_r by lia.
  rewrite Z.rem_mul_r by lia. done.
Qed.

Lemma le_dec_bound l : bytes l → 0 ≤ le_dec l < 256 ^ Z.of_nat (length l).
Proof.
  induction 1 as [|x l Hx Hl IH]; cbn [le_dec length]; [simpl; lia|].
  rewrite Nat2Z.inj_succ, Z.pow_succ_r by lia. unfold byte in Hx. lia.
Qed.

Lemma le_enc_dec l : bytes l → le_enc (length l) (le_dec l) = l.
Proof.
  induction 1 as [|x l Hx Hl IH]; [done|]. cbn [le_enc le_dec length]. unfold byte in Hx.
  replace (x + 256 * le_dec l) with (x + le_dec l * 256) by lia.
  rewrite Z.mod_add, Z.div_add by lia. rewrite Z.mod_small, Z.div_small, Z.add_0_l by lia.
  by rewrite IH.
Qed.

Lemma le_enc_mod n z : le_enc n (z `mod` 256 ^ Z.of_nat n) = le_enc n z.
Proof.
  pose proof (le_enc_dec (le_enc n z) (bytes_le_enc n z)) as H.
  by rewrite length_le_enc, le_dec_enc in H.
Qed.

(** A 4-byte field read as [uint] and as [int], and its store. *)
Definition get_u32 (off : nat) (l : list Z) : Z := le_dec (get off 4 l).
Definition get_i32 (off : nat) (l : list Z) : Z := i32 (le_dec (get off 4 l)).
Definition put_u32 (off : nat) (z : Z) (l : list Z) : list Z := put off (le_enc 4 z) l.
Definition get_u16 (off : nat) (l : list Z) : Z := le_dec (get off 2 l).
Definition get_i16 (off : nat) (l : list Z) : Z := i16 (le_dec (get off 2 l)).
Definition put_u16 (off : nat) (z : Z) (l : list Z) : list Z := put off (le_enc 2 z) l.

Lemma get_put_u32 off z l : (off + 4 ≤ length l)%nat → get_u32 off (put_u32 off z l) = u32 z.
Proof.
  intros. unfold get_u32, put_u32. rewrite get_put_eq by (rewrite ?length_le_enc; done).
  by rewrite le_dec_enc.
Qed.

Lemma get_i32_put off z l : (off + 4 ≤ length l)%nat → get_i32 off (put_u32 off z l) = i32 z.
Proof.
  intros. change (get_i32 off ?x) with (i32 (get_u32 off x)). rewrite get_put_u32 by done. apply i32_u32.
Qed.

Lemma get_put_u16 off z l : (off + 2 ≤ length l)%nat → get_u16 off (put_u16 off z l) = u16 z.
Proof.
  intros. unfold get_u16, put_u16. rewrite get_put_eq by (rewrite ?length_le_enc; done).
  by rewrite le_dec_enc.
Qed.

Lemma get_u32_put_ne off off' bs l :
  (off + length bs ≤ length l)%nat → (off' + 4 ≤ off ∨ off + length bs ≤ off')%nat →
  get_u32 off' (put off bs l) = get_u32 off' l.
Proof. intros. unfold get_u32. by rewrite get_put_ne. Qed.

Lemma length_put_u32 off z l : (off + 4 ≤ length l)%nat → length (put_u32 off z l) = length l.
Proof. intros. unfold put_u32. by rewrite length_put; rewrite ?length_le_enc. Qed.

Lemma bytes_put_u32 off z l : bytes l → bytes (put_u32 off z l).
Proof. intros. apply Forall_put; [apply bytes_le_enc|done]. Qed.

(** ** C strings inside a buffer

    The functions of <string.h> that read up to the terminating 0; [None] when
    they run past the end of the buffer. *)

Fixpoint strlen (b : list Z) : option nat :=
  match b with
  | [] => None
  | c :: b' => if c =? 0 then Some O else S <$> strlen b'
  end.

Fixpoint strcmp (p q : list Z) : option Z :=
  match p, q with
  | x :: p', y :: q' =>
      if (negb (x =? 0)) && (x =? y) then strcmp p' q' else Some (x - y)
  | _, _ => None
  end.

(** [strcpy] to offset [off] of an object: the string with its 0. *)
Definition strcpy (off : nat) (src dst : list Z) : option (list Z) :=
  match strlen src with
  | Some n => if decide (off + S n ≤ length dst)%nat then Some (put off (take (S n) src) dst) else None
  | None => None
  end.

(** The C string [s], with its terminator. *)
Definition cstr (s : list Z) : list Z := s ++ [0].
Definition nonul (s : list Z) : Prop := Forall (λ c, c ≠ 0) s.

Lemma strlen_app s r : nonul s → strlen (s ++ 0 :: r) = Some (length s).
Proof.
  induction 1 as [|c s Hc Hs IH]; [done|]. simpl. destruct (Z.eqb_spec c 0); [done|].
  by rewrite IH.
Qed.

Lemma strlen_cstr s : nonul s → strlen (cstr s) = Some (length s).
Proof. apply (strlen_app s []). Qed.

Lemma length_cstr s : length (cstr s) = S (length s).
Proof. unfold cstr. rewrite length_app. simpl. lia. Qed.

Lemma strcmp_app s t r r' :
  nonul s → nonul t →
  (strcmp (s ++ 0 :: r) (t ++ 0 :: r') = Some 0 ↔ s = t) ∧
  is_Some (strcmp (s ++ 0 :: r) (t ++ 0 :: r')).
Proof.
  intros Hs. revert t. induction Hs as [|c s Hc Hs IH]; intros t Ht.
  - destruct t as [|d t]; simpl; (split; [|by eexists]); [done|].
    apply Forall_cons in Ht as [Hd Ht]. split; [|done]. intros [= ?]. lia.
  - destruct t as [|d t]; simpl.
    + destruct (Z.eqb_spec c 0); [done|]. simpl. split; [|by eexists]. split; [|done].
      intros [= ?]. lia.
    + apply Forall_cons in Ht as [Hd Ht]. destruct (Z.eqb_spec c 0); [done|]. simpl.
      destruct (Z.eqb_spec c d) as [->|].
      * destruct (IH t Ht) as [IH1 IH2]. split; [|done]. rewrite IH1. split; [by intros ->|by intros [= ->]].
      * split; [|by eexists]. split; [intros [= ?]; lia|by intros [= ->]].
Qed.
