(* ===== verification/Pagefit.v ===== *)
(** * First fit inside one page (the search loops of hw5/alloc and hw5/ealloc)

    alloc.c and ealloc.c hold the same two nested loops over a table
    [struct mm mem[NUM]]; they differ in the macros [MINALLOC] and [NUM], which
    are parameters here.  A page is cut into [NUM] slots of [MINALLOC] bytes.
    [mem[i]] describes the chunk that starts at slot [i]; only the first slot
    of a live chunk has its flag set, so the outer loop jumps over a live
    chunk and the inner one stops at the next set flag. *)

From S2P Require Import Prelude.

Definition NULL : Z := 0.
Definition MAP_FAILED : Z := -1.

(** [struct mm], src/hw5/alloc/alloc.c:5-9 *)
Record mm := MM { adr : Z; size : Z; flag : Z }.

(** [start, mem], src/hw5/alloc/alloc.c:10-13 *)
Record page := Page { start : Z; mem : list mm }.

Definition read_mem (i : Z) : M page mm :=
  st ← getS; of_option (getZ (mem st) i).
Definition write_mem (i : Z) (x : mm) : M page unit :=
  st ← getS;
  _ ← of_option (getZ (mem st) i);
  putS (Page (start st) (setZ (mem st) i x)).

Section page.
Context (MINALLOC NUM : Z).

(** [init_alloc: mem initialisation loop], src/hw5/alloc/alloc.c:17-21 *)
Definition reset_mem : list mm := replicate (Z.to_nat NUM) (MM NULL MINALLOC 0).

(** [alloc: inner loop over j], src/hw5/alloc/alloc.c:58-75 *)
Fixpoint fit (fuel : nat) (sz j valid : Z) : M page (option Z) :=
  match fuel with
  | O => fail OutOfFuel
  | S fuel' =>
      if j <? NUM then
        m ← read_mem j;
        if flag m =? 1 then mret None
        else
          let valid' := valid + MINALLOC in
          if sz <=? valid' then mret (Some valid')
          else fit fuel' sz (j + 1) valid'
      else mret None
  end.

(** [alloc: outer loop over i], src/hw5/alloc/alloc.c:53-85 *)
Fixpoint search (fuel : nat) (sz i : Z) : M page (option Z) :=
  match fuel with
  | O => fail OutOfFuel
  | S fuel' =>
      if i <? NUM then
        m ← read_mem i;
        if flag m =? 0 then
          r ← fit (S (Z.to_nat NUM)) sz i 0;
          match r with
          | Some valid =>
              st ← getS;
              let a := i * MINALLOC + start st in
              write_mem i (MM a valid 1);;
              mret (Some a)
          | None => search fuel' sz (i + 1)
          end
        else if negb (size m =? MINALLOC) then
          let i' := i + (Z.quot (size m) MINALLOC - 1) in
          if NUM <=? i' then mret None else search fuel' sz (i' + 1)
        else search fuel' sz (i + 1)
      else mret None
  end.

(** [dealloc: search of the table], src/hw5/alloc/alloc.c:94-101 *)
Definition dealloc_loop (a : Z) : M page unit :=
  for_ (Z.to_nat NUM) 0 (λ i,
    m ← read_mem (Z.of_nat i);
    if adr m =? a then write_mem (Z.of_nat i) (MM NULL MINALLOC 0);; mret (Some tt)
    else mret None);;
  mret tt.

(** ** Invariant and abstraction *)

Definition slots (m : mm) : Z := size m / MINALLOC.

Record wf_mm (st : page) (i : Z) (m : mm) : Prop := {
  wf_flag : flag m = 0 ∨ flag m = 1;
  wf_free : flag m = 0 → m = MM NULL MINALLOC 0;
  wf_adr : flag m = 1 → adr m = i * MINALLOC + start st;
  wf_size : flag m = 1 → size m = slots m * MINALLOC ∧ 1 ≤ slots m ∧ i + slots m ≤ NUM;
  wf_excl : flag m = 1 →
    ∀ j mj, i < j < i + slots m → getZ (mem st) j = Some mj → flag mj = 0 }.

Record inv (st : page) : Prop := {
  inv_len : lenZ (mem st) = NUM;
  inv_mm : ∀ i m, getZ (mem st) i = Some m → wf_mm st i m }.

(** A live chunk: [n] slots from slot [i]. *)
Definition chunk (st : page) (i n : Z) : Prop :=
  ∃ m, getZ (mem st) i = Some m ∧ flag m = 1 ∧ slots m = n.
Definition occupied (st : page) (k : Z) : Prop :=
  ∃ i n, chunk st i n ∧ i ≤ k < i + n.
(** [n] consecutive free slots from slot [i]. *)
Definition free_run (st : page) (i n : Z) : Prop :=
  0 ≤ i ∧ i + n ≤ NUM ∧ ∀ k, i ≤ k < i + n → ¬ occupied st k.
(** Slots needed for a request of [sz] bytes. *)
Definition need (sz : Z) : Z := Z.max 1 ((sz + MINALLOC - 1) / MINALLOC).

Context (Hmin : 0 < MINALLOC) (Hnum : 0 ≤ NUM).

Lemma need_spec sz k : 1 ≤ k → sz ≤ k * MINALLOC ↔ need sz ≤ k.
Proof.
  intros Hk. unfold need. split; intros H.
  - apply Z.max_lub; [done|]. apply Z.lt_succ_r, Z.div_lt_upper_bound; nia.
  - assert ((sz + MINALLOC - 1) / MINALLOC ≤ k) as Hd by lia.
    pose proof (Z.div_mod (sz + MINALLOC - 1) MINALLOC).
    pose proof (Z.mod_pos_bound (sz + MINALLOC - 1) MINALLOC). nia.
Qed.

Lemma chunk_range st i n : inv st → chunk st i n → 0 ≤ i ∧ 1 ≤ n ∧ i + n ≤ NUM.
Proof.
  intros Hinv (m & Hm & Hf & <-). pose proof (getZ_Some_range _ _ _ Hm).
  destruct (wf_size _ _ _ (inv_mm _ Hinv _ _ Hm) Hf) as (_ & ? & ?). lia.
Qed.

(** Live chunks do not overlap. *)
Lemma chunk_disjoint st i n j k :
  inv st → chunk st i n → chunk st j k → i < j → i + n ≤ j.
Proof.
  intros Hinv (m & Hm & Hf & <-) (m' & Hm' & Hf' & <-) Hij.
  destruct (Z.le_gt_cases (i + slots m) j) as [|Hlt]; [done|].
  exfalso. pose proof (wf_excl _ _ _ (inv_mm _ Hinv _ _ Hm) Hf _ _ (conj Hij Hlt) Hm'). lia.
Qed.

Lemma inv_reset a : inv (Page a reset_mem).
Proof.
  split; simpl.
  - unfold reset_mem. rewrite lenZ_replicate. lia.
  - intros i m Hm. unfold reset_mem in Hm.
    pose proof (getZ_Some_range _ _ _ Hm) as Hr. rewrite lenZ_replicate in Hr.
    rewrite getZ_replicate in Hm by lia. simplify_eq. by split; simpl; auto.
Qed.

(** ** Reading the table *)

Lemma read_mem_ok st i (Q : mm → page → Prop) :
  inv st → 0 ≤ i < NUM →
  (∀ m, getZ (mem st) i = Some m → wf_mm st i m → Q m st) → wp (read_mem i) Q st.
Proof.
  intros Hinv Hi HQ. destruct (getZ_is_Some (mem st) i) as [m Hm].
  { by rewrite (inv_len _ Hinv). }
  unfold read_mem. apply wp_bind, (wp_intro _ _ _ st st); [done|].
  eapply wp_of_option; [done|]. by apply HQ, (inv_mm _ Hinv).
Qed.

(** [i] is not strictly inside a live chunk. *)
Definition boundary (st : page) (i : Z) : Prop :=
  ∀ j n, chunk st j n → j < i → j + n ≤ i.

Lemma free_slot st i j m :
  inv st → boundary st i → i ≤ j → (∀ k, i ≤ k < j → ¬ occupied st k) →
  getZ (mem st) j = Some m → flag m = 0 → ¬ occupied st j.
Proof.
  intros Hinv Hb Hij Hfree Hm Hf (c & n & Hc & Hcj).
  destruct (Z.eq_dec c j) as [->|Hne].
  { destruct Hc as (m' & Hm' & Hf' & _). simplify_eq. congruence. }
  destruct (Z.lt_ge_cases c i) as [Hlt|Hge].
  { specialize (Hb _ _ Hc Hlt). lia. }
  apply (Hfree c); [lia|]. exists c, n. split; [done|]. pose proof (chunk_range _ _ _ Hinv Hc). lia.
Qed.

(** The inner loop answers whether the run of free slots at [i] is long
    enough. *)
Lemma fit_spec fuel st sz i j :
  inv st → boundary st i → 0 ≤ i ≤ j → j ≤ NUM → NUM - j < Z.of_nat fuel →
  (∀ k, i ≤ k < j → ¬ occupied st k) → j - i < need sz →
  wp (fit fuel sz j ((j - i) * MINALLOC)) (λ r st', st' = st ∧
     match r with
     | Some v => v = need sz * MINALLOC ∧ free_run st i (need sz)
     | None => ¬ free_run st i (need sz)
     end) st.
Proof.
  intros Hinv Hb. revert j. induction fuel as [|fuel IH]; intros j Hij Hj Hfuel Hfree Hneed; [lia|].
  cbn [fit]. destruct (Z.ltb_spec j NUM) as [Hlt|Hge].
  2: { apply wp_ret. split; [done|]. intros (_ & H & _). lia. }
  apply wp_bind, read_mem_ok; [done|lia|]. intros m Hm Hwf.
  destruct (Z.eqb_spec (flag m) 1) as [Hf|Hf].
  { apply wp_ret. split; [done|]. intros (_ & _ & H). apply (H j); [lia|].
    exists j, (slots m). split; [by exists m|].
    destruct (wf_size _ _ _ Hwf Hf). lia. }
  assert (flag m = 0) as Hf0 by (destruct (wf_flag _ _ _ Hwf); lia).
  assert (∀ k, i ≤ k < j + 1 → ¬ occupied st k) as Hfree'.
  { intros k Hk. destruct (Z.eq_dec k j) as [->|]; [by eapply free_slot; eauto; lia|].
    apply Hfree. lia. }
  replace ((j - i) * MINALLOC + MINALLOC) with ((j + 1 - i) * MINALLOC) by lia.
  pose proof (need_spec sz (j + 1 - i)) as Hns.
  destruct (Z.leb_spec sz ((j + 1 - i) * MINALLOC)).
  - apply wp_ret. assert (need sz = j + 1 - i) as -> by (apply Z.le_antisymm; lia).
    split; [done|]. split; [done|]. split_and!; [lia|lia|]. intros k Hk. apply Hfree'. lia.
  - apply IH; [lia..|done|]. apply Z.nle_gt. intros Hle. apply Hns in Hle; lia.
Qed.

(** The page after the chunk of [n] slots at [i] has been recorded. *)
Definition add_chunk (st : page) (i n : Z) : page :=
  Page (start st) (setZ (mem st) i (MM (i * MINALLOC + start st) (n * MINALLOC) 1)).

Lemma slots_mul a n f : slots (MM a (n * MINALLOC) f) = n.
Proof. unfold slots. simpl. apply Z.div_mul. lia. Qed.

Lemma chunk_add st i n j k :
  inv st → free_run st i n → 1 ≤ n →
  chunk (add_chunk st i n) j k ↔ (j = i ∧ k = n) ∨ chunk st j k.
Proof.
  intros Hinv (Hi & Hin & Hfree) Hn. unfold chunk, add_chunk. simpl.
  rewrite getZ_setZ by (rewrite (inv_len _ Hinv); lia). case_decide as Hd.
  - subst j. split.
    + intros (m & [= <-] & _ & Hs). rewrite slots_mul in Hs. auto.
    + intros [[_ ->]|(m & Hm & Hf & Hs)].
      * eexists. split; [done|]. by rewrite slots_mul.
      * exfalso. apply (Hfree i); [lia|]. exists i, (slots m). split; [by exists m|].
        destruct (wf_size _ _ _ (inv_mm _ Hinv _ _ Hm) Hf). lia.
  - split; [by right|]. by intros [[-> _]|?].
Qed.

Lemma inv_add st i n : inv st → free_run st i n → 1 ≤ n → inv (add_chunk st i n).
Proof.
  intros Hinv Hrun Hn. pose proof Hrun as (Hi & Hin & Hfree).
  split; [simpl; rewrite lenZ_setZ; apply (inv_len _ Hinv)|].
  intros j m Hm. simpl in Hm. rewrite getZ_setZ in Hm by (rewrite (inv_len _ Hinv); lia).
  case_decide as Hd; simplify_eq.
  - split; simpl; [auto|lia|done|by rewrite slots_mul; intros; lia|].
    rewrite slots_mul. intros _ k mk Hk Hmk. rewrite getZ_setZ_ne in Hmk by lia.
    destruct (wf_flag _ _ _ (inv_mm _ Hinv _ _ Hmk)) as [|Hf]; [done|].
    exfalso. apply (Hfree k); [lia|]. exists k, (slots mk). split; [by exists mk|].
    destruct (wf_size _ _ _ (inv_mm _ Hinv _ _ Hmk) Hf). lia.
  - destruct (inv_mm _ Hinv _ _ Hm) as [H1 H2 H3 H4 H5]. split; simpl; auto.
    intros Hf k mk Hk Hmk. rewrite getZ_setZ in Hmk by (rewrite (inv_len _ Hinv); lia).
    case_decide; simplify_eq; [|by eapply H5].
    exfalso. apply (Hfree k); [lia|]. exists j, (slots m). split; [by exists m|lia].
Qed.

(** The outer loop finds the lowest run of free slots that is long enough, or
    leaves the page as it is when there is none. *)
Definition search_post (st : page) (sz : Z) (r : option Z) (st' : page) : Prop :=
  match r with
  | Some a => ∃ i, a = i * MINALLOC + start st ∧ free_run st i (need sz) ∧
                   (∀ i', i' < i → ¬ free_run st i' (need sz)) ∧
                   st' = add_chunk st i (need sz)
  | None => (∀ i, ¬ free_run st i (need sz)) ∧ st' = st
  end.

Lemma need_pos sz : 1 ≤ need sz.
Proof. unfold need. lia. Qed.

Lemma search_spec fuel st sz i :
  inv st → boundary st i → 0 ≤ i ≤ NUM → NUM - i < Z.of_nat fuel →
  (∀ i', i' < i → ¬ free_run st i' (need sz)) →
  wp (search fuel sz i) (search_post st sz) st.
Proof.
  intros Hinv. pose proof (need_pos sz) as Hpos.
  revert i. induction fuel as [|fuel IH]; intros i Hb Hi Hfuel Hno; [lia|].
  cbn [search]. destruct (Z.ltb_spec i NUM) as [Hlt|Hge].
  2: { apply wp_ret. split; [|done]. intros i' Hr. destruct (Z.lt_ge_cases i' i); [by apply (Hno i')|].
       destruct Hr as (_ & ? & _). lia. }
  apply wp_bind, read_mem_ok; [done|lia|]. intros m Hm Hwf.
  destruct (Z.eqb_spec (flag m) 0) as [Hf|Hf].
  - apply wp_bind. replace 0 with ((i - i) * MINALLOC) by lia.
    eapply wp_mono; [apply (fit_spec _ st sz i i); [done|done|lia|lia|lia|intros; lia|lia]|].
    intros [v|] st' [-> Hv].
    + destruct Hv as [-> Hrun]. apply wp_bind, (wp_intro _ _ _ st st); [done|].
      apply wp_bind, (wp_intro _ _ _ tt (add_chunk st i (need sz))).
      { unfold write_mem, getS, putS, mbind, M_bind. by rewrite Hm. }
      apply wp_ret. by exists i.
    + apply IH; [|lia|lia|].
      * intros j n Hc Hj. pose proof (chunk_range _ _ _ Hinv Hc).
        destruct (Z.eq_dec j i) as [->|]; [|specialize (Hb j n Hc); lia].
        destruct Hc as (m' & Hm' & Hf' & _). simplify_eq. lia.
      * intros i' Hi'. destruct (Z.eq_dec i' i) as [->|]; [done|]. apply Hno. lia.
  - assert (flag m = 1) as Hf1 by (destruct (wf_flag _ _ _ Hwf); lia).
    destruct (wf_size _ _ _ Hwf Hf1) as (Hsz & Hs1 & Hs2).
    assert (chunk st i (slots m)) as Hc by by exists m.
    assert (Hjump : wp (search fuel sz (i + slots m)) (search_post st sz) st).
    { apply IH; [|lia|lia|].
      - intros j n Hcj Hj. destruct (Z.lt_trichotomy j i) as [|[->|]].
        + specialize (Hb j n Hcj). lia.
        + destruct Hcj as (m' & Hm' & _ & <-). simplify_eq. lia.
        + pose proof (chunk_disjoint _ _ _ _ _ Hinv Hc Hcj). lia.
      - intros i' Hi' Hr. destruct (Z.lt_ge_cases i' i); [by apply (Hno i')|].
        destruct Hr as (_ & _ & Hr). apply (Hr i'); [lia|]. exists i, (slots m). split; [done|lia]. }
    assert (Z.quot (size m) MINALLOC = slots m) as Hq by (unfold slots; apply Z.quot_div_nonneg; nia).
    destruct (Z.eqb_spec (size m) MINALLOC) as [He|He]; simpl.
    + assert (slots m = 1) as Hone by nia. by rewrite Hone in Hjump.
    + rewrite Hq. destruct (Z.leb_spec NUM (i + (slots m - 1))); [lia|].
      by replace (i + (slots m - 1) + 1) with (i + slots m) by lia.
Qed.

Lemma search_ok st sz :
  inv st → wp (search (S (Z.to_nat NUM)) sz 0) (search_post st sz) st.
Proof.
  intros Hinv. apply search_spec; [done| |lia|lia|].
  - intros j n Hc ?. pose proof (chunk_range _ _ _ Hinv Hc). lia.
  - intros i' ? (? & _). lia.
Qed.

(** ** Freeing *)

Definition remove_chunk (st : page) (i : Z) : page :=
  Page (start st) (setZ (mem st) i (MM NULL MINALLOC 0)).

Lemma chunk_remove st i n j k :
  inv st → chunk st i n → chunk (remove_chunk st i) j k ↔ j ≠ i ∧ chunk st j k.
Proof.
  intros Hinv Hc. pose proof (chunk_range _ _ _ Hinv Hc).
  unfold chunk, remove_chunk. simpl.
  rewrite getZ_setZ by (rewrite (inv_len _ Hinv); lia). case_decide as Hd; subst.
  - split; [|by intros []]. intros (m & [= <-] & Hf & _). discriminate Hf.
  - split; [intros H'; split; [by intros ->|exact H']|by intros []].
Qed.

Lemma inv_remove st i n : inv st → chunk st i n → inv (remove_chunk st i).
Proof.
  intros Hinv Hc. pose proof (chunk_range _ _ _ Hinv Hc).
  split; [simpl; rewrite lenZ_setZ; apply (inv_len _ Hinv)|].
  intros j m Hm. simpl in Hm. rewrite getZ_setZ in Hm by (rewrite (inv_len _ Hinv); lia).
  case_decide as Hd; simplify_eq; [split; simpl; auto; lia|].
  destruct (inv_mm _ Hinv _ _ Hm) as [H1 H2 H3 H4 H5]. split; simpl; auto.
  intros Hf k mk Hk Hmk. rewrite getZ_setZ in Hmk by (rewrite (inv_len _ Hinv); lia).
  case_decide; simplify_eq; [done|by eapply H5].
Qed.

Lemma remove_add st i n : inv st → free_run st i n → 1 ≤ n → remove_chunk (add_chunk st i n) i = st.
Proof.
  intros Hinv (Hi & Hin & Hfree) Hn. unfold remove_chunk, add_chunk. simpl.
  rewrite setZ_setZ. destruct (getZ_is_Some (mem st) i) as [m Hm]; [rewrite (inv_len _ Hinv); lia|].
  assert (flag m = 0) as Hf.
  { destruct (wf_flag _ _ _ (inv_mm _ Hinv _ _ Hm)) as [|Hf]; [done|].
    exfalso. apply (Hfree i); [lia|]. exists i, (slots m). split; [by exists m|].
    destruct (wf_size _ _ _ (inv_mm _ Hinv _ _ Hm) Hf). lia. }
  rewrite setZ_id; [by destruct st|]. rewrite Hm. f_equal.
  by apply (wf_free _ _ _ (inv_mm _ Hinv _ _ Hm)).
Qed.

(** [a] is the address of the live chunk at slot [i]. *)
Definition chunk_at (st : page) (a i n : Z) : Prop := chunk st i n ∧ a = i * MINALLOC + start st.

Lemma chunk_not_null st i n : inv st → 0 < start st → ¬ chunk_at st NULL i n.
Proof.
  intros Hinv Hst [Hc Hn]. pose proof (chunk_range _ _ _ Hinv Hc). unfold NULL in Hn. nia.
Qed.

Lemma dealloc_spec st a :
  inv st → (∀ i n, ¬ chunk_at st NULL i n) →
  wp (dealloc_loop a) (λ _ st',
    (∃ i n, chunk_at st a i n ∧ st' = remove_chunk st i) ∨
    ((∀ i n, ¬ chunk_at st a i n) ∧ st' = st)) st.
Proof.
  intros Hinv Hnull. unfold dealloc_loop. apply wp_bind.
  apply wp_for with (I := λ i st', st' = st ∧ ∀ j n, chunk_at st a j n → Z.of_nat i ≤ j).
  - split; [done|]. intros j n [Hc _]. pose proof (chunk_range _ _ _ Hinv Hc). lia.
  - intros i st' Hi [-> Hno]. apply wp_bind, read_mem_ok; [done|lia|]. intros m Hm Hwf.
    destruct (Z.eqb_spec (adr m) a) as [Ha|Ha].
    + apply wp_bind, (wp_intro _ _ _ tt (remove_chunk st (Z.of_nat i))).
      { unfold write_mem, getS, putS, mbind, M_bind. by rewrite Hm. }
      apply wp_ret. apply wp_ret.
      destruct (wf_flag _ _ _ Hwf) as [Hf|Hf].
      * right. rewrite (wf_free _ _ _ Hwf Hf) in Ha, Hm. simpl in Ha. subst a.
        split; [|by unfold remove_chunk; rewrite setZ_id; destruct st].
        intros j n. apply Hnull.
      * left. exists (Z.of_nat i), (slots m). split; [|done].
        split; [by exists m|]. rewrite <- Ha. by apply (wf_adr _ _ _ Hwf).
    + apply wp_ret. split; [done|]. intros j n Hc.
      specialize (Hno j n Hc). destruct (Z.eq_dec j (Z.of_nat i)) as [->|]; [|lia].
      destruct Hc as [(m' & Hm' & Hf' & _) Hc]. simplify_eq.
      exfalso. apply Ha. by apply (wf_adr _ _ _ Hwf).
  - intros st' [-> Hno]. apply wp_ret. right. split; [|done].
    intros i n Hc. pose proof (Hno _ _ Hc). destruct Hc as [Hc _].
    pose proof (chunk_range _ _ _ Hinv Hc). lia.
Qed.

(** Freeing the chunk recorded last restores the page. *)
Lemma dealloc_added st i n :
  inv st → 0 < start st → free_run st i n → 1 ≤ n →
  dealloc_loop (i * MINALLOC + start st) (add_chunk st i n) = Ret tt st.
Proof.
  intros Hinv Hst Hrun Hn.
  assert (Hinv' : inv (add_chunk st i n)) by by apply inv_add.
  destruct (wp_elim _ _ _ (dealloc_spec _ (i * MINALLOC + start st) Hinv'
              (λ j k, chunk_not_null _ j k Hinv' Hst)))
    as ([] & st2 & Hd & [(j & k & [Hc Hj] & ->)|[Hno ->]]); rewrite Hd.
  - simpl in Hj. assert (j = i) as -> by nia. f_equal. by eapply remove_add.
  - exfalso. apply (Hno i n). split; [|done]. apply chunk_add; [done..|]. by left.
Qed.

(** ** The page in bytes, as a caller sees it *)

(** [live st a n]: the [n] bytes at address [a] are allocated. *)
Definition live (st : page) (a n : Z) : Prop :=
  ∃ i k, chunk st i k ∧ a = i * MINALLOC + start st ∧ n = k * MINALLOC.
(** [n] bytes at [a] are inside the page and overlap no live chunk. *)
Definition free_bytes (st : page) (a n : Z) : Prop :=
  start st ≤ a ∧ a + n ≤ start st + NUM * MINALLOC ∧
  ∀ a' n', live st a' n' → a + n ≤ a' ∨ a' + n' ≤ a.
(** Bytes reserved for a request. *)
Definition rounded (sz : Z) : Z := need sz * MINALLOC.

Lemma rounded_bounds sz : 0 < rounded sz ∧ sz ≤ rounded sz.
Proof.
  unfold rounded. pose proof (need_pos sz). split; [nia|]. by apply need_spec.
Qed.

Lemma free_run_bytes st a k :
  free_bytes st a (k * MINALLOC) → free_run st ((a - start st) / MINALLOC) k.
Proof.
  intros (Ha & Hak & Hfree).
  pose proof (Z.div_mod (a - start st) MINALLOC).
  pose proof (Z.mod_pos_bound (a - start st) MINALLOC).
  set (i := (a - start st) / MINALLOC) in *.
  split_and!; [nia..|]. intros x Hx (c & n & Hc & Hcx).
  destruct (Hfree (c * MINALLOC + start st) (n * MINALLOC)); [by exists c, n|nia..].
Qed.

Lemma bytes_free_run st i k :
  inv st → free_run st i k → 1 ≤ k → free_bytes st (i * MINALLOC + start st) (k * MINALLOC).
Proof.
  intros Hinv (Hi & Hik & Hfree) Hk. split_and!; [nia..|]. intros a' n' (c & n & Hc & -> & ->).
  pose proof (chunk_range _ _ _ Hinv Hc).
  destruct (Z.le_gt_cases (i + k) c); [left; nia|].
  destruct (Z.le_gt_cases (c + n) i); [right; nia|].
  exfalso. apply (Hfree (Z.max c i)); [lia|]. exists c, n. split; [done|lia].
Qed.

Lemma live_add st i k a n :
  inv st → free_run st i k → 1 ≤ k →
  live (add_chunk st i k) a n ↔
  (a = i * MINALLOC + start st ∧ n = k * MINALLOC) ∨ live st a n.
Proof.
  intros Hinv Hrun Hk. unfold live. setoid_rewrite chunk_add; [|done..]. simpl. split.
  - intros (j & m & [[-> ->]|Hc] & -> & ->); [by left|]. right. by exists j, m.
  - intros [[-> ->]|(j & m & Hc & -> & ->)]; [exists i, k; auto|]. exists j, m. auto.
Qed.

Lemma live_remove st i k a n :
  inv st → chunk st i k →
  live (remove_chunk st i) a n ↔ a ≠ i * MINALLOC + start st ∧ live st a n.
Proof.
  intros Hinv Hc. unfold live. setoid_rewrite chunk_remove; [|done..]. simpl. split.
  - intros (j & m & [Hj Hcj] & -> & ->). split; [nia|]. by exists j, m.
  - intros (Hb & j & m & Hcj & -> & ->). exists j, m. split_and!; [congruence|done..].
Qed.

Lemma live_bounds st a n : inv st → live st a n →
  start st ≤ a ∧ 0 < n ∧ a + n ≤ start st + NUM * MINALLOC.
Proof.
  intros Hinv (i & k & Hc & -> & ->). pose proof (chunk_range _ _ _ Hinv Hc). nia.
Qed.

Lemma live_not_null st n : inv st → 0 < start st → ¬ live st NULL n.
Proof. intros Hinv Hst Hl. pose proof (live_bounds _ _ _ Hinv Hl). unfold NULL in *. lia. Qed.

Lemma live_disjoint st a n b k : inv st → live st a n → live st b k → a ≠ b → a + n ≤ b ∨ b + k ≤ a.
Proof.
  intros Hinv (i & m & Hc & -> & ->) (j & l & Hd & -> & ->) Hne.
  destruct (Z.lt_trichotomy i j) as [|[->|]]; [|lia|].
  - pose proof (chunk_disjoint _ _ _ _ _ Hinv Hc Hd). nia.
  - pose proof (chunk_disjoint _ _ _ _ _ Hinv Hd Hc). nia.
Qed.

(** The outcome of the search in bytes: the lowest free place that is large
    enough, or the proof that there is none. *)
Lemma search_bytes st sz :
  inv st →
  wp (search (S (Z.to_nat NUM)) sz 0) (λ r st', inv st' ∧ start st' = start st ∧
    match r with
    | Some a => free_bytes st a (rounded sz) ∧
                (∀ a', a' < a → ¬ free_bytes st a' (rounded sz)) ∧
                (∀ b n, live st' b n ↔ (b = a ∧ n = rounded sz) ∨ live st b n)
    | None => st' = st ∧ ∀ a, ¬ free_bytes st a (rounded sz)
    end) st.
Proof.
  intros Hinv. eapply wp_mono; [by apply search_ok|]. pose proof (need_pos sz).
  intros [a|] st'.
  - intros (i & -> & Hrun & Hlow & ->). split_and!; [by apply inv_add|done| | |].
    + by apply bytes_free_run.
    + intros a' Ha Hb. apply (Hlow ((a' - start st) / MINALLOC)).
      * apply Z.div_lt_upper_bound; lia.
      * by apply free_run_bytes.
    + intros b n. by apply live_add.
  - intros [Hno ->]. split_and!; [done..|].
    intros a Hb. by eapply Hno, free_run_bytes.
Qed.

Lemma dealloc_bytes st a :
  inv st → (∀ n, ¬ live st NULL n) →
  wp (dealloc_loop a) (λ _ st', inv st' ∧ start st' = start st ∧
    (∀ b n, live st' b n ↔ b ≠ a ∧ live st b n) ∧ ((∀ n, ¬ live st a n) → st' = st)) st.
Proof.
  intros Hinv Hnull. eapply wp_mono.
  { apply dealloc_spec; [done|]. intros i n [Hc Hn]. apply (Hnull (n * MINALLOC)). by exists i, n. }
  intros _ st' [(i & k & [Hc ->] & ->)|[Hno ->]].
  - split_and!; [by eapply inv_remove|done| |].
    + intros b n. by eapply live_remove.
    + intros Hn. exfalso. apply (Hn (k * MINALLOC)). by exists i, k.
  - split_and!; [done..| |done]. intros b n. split; [|by intros []]. intros Hl. split; [|done].
    intros ->. destruct Hl as (i & k & Hc & Ha & _). by apply (Hno i k).
Qed.

Lemma live_reset a b n : ¬ live (Page a reset_mem) b n.
Proof.
  intros (i & k & (m & Hm & Hf & _) & _). simpl in Hm.
  pose proof (getZ_Some_range _ _ _ Hm) as Hr. unfold reset_mem in Hr, Hm.
  rewrite lenZ_replicate in Hr. rewrite getZ_replicate in Hm by lia. by simplify_eq.
Qed.

End page.

#[global] Arguments search : simpl never.
#[global] Arguments fit : simpl never.
#[global] Arguments reset_mem : simpl never.
