(* ===== verification/Alloc.v ===== *)
(** * The fixed-page allocator of hw5/alloc (alloc.c)

    One 4096-byte page from [mmap], cut into 512 slots of 8 bytes.  The search
    loops are those of [Pagefit]; this file has the four functions of the
    interface and what they promise a caller: chunks never overlap, first fit
    is exact, and freeing a chunk undoes its allocation. *)

From S2P Require Import Prelude Pagefit.

Definition PAGESIZE : Z := 4096.
Definition MINALLOC : Z := 8.
Definition NUM : Z := 512.

(** [init_alloc], src/hw5/alloc/alloc.c:15-29 *)
Definition init_alloc (mmap : Z) : M page Z :=
  putS (Page mmap (reset_mem MINALLOC NUM));;
  if mmap =? MAP_FAILED then mret 1 else mret 0.

(** [cleanup], src/hw5/alloc/alloc.c:31-42 *)
Definition cleanup (munmap : Z → Z) : M page Z :=
  st ← getS;
  putS (Page (start st) (reset_mem MINALLOC NUM));;
  if munmap (start st) =? -1 then mret 1 else mret 0.

(** [alloc], src/hw5/alloc/alloc.c:44-88 *)
Definition alloc (sz : Z) : M page Z :=
  if (PAGESIZE <? sz) || negb (Z.rem sz 8 =? 0) then mret NULL
  else
    r ← search MINALLOC NUM (S (Z.to_nat NUM)) sz 0;
    match r with
    | Some a => mret a
    | None => mret NULL
    end.

(** [dealloc], src/hw5/alloc/alloc.c:90-103 *)
Definition dealloc (a : Z) : M page unit := dealloc_loop MINALLOC NUM a.

(** The invariant of the allocator: the page's table is well formed and the
    page lies at a valid address. *)
Definition ainv (st : page) : Prop := inv MINALLOC NUM st ∧ 0 < start st.
Abbreviation alive := (live MINALLOC).
Abbreviation afree := (free_bytes MINALLOC NUM).
Abbreviation around := (rounded MINALLOC).

(** C31. [alloc], for every request and every page state its callers can
    produce, returns; the invariant (table well formed, live chunks inside the
    page and pairwise disjoint) is kept.  It gives NULL and changes nothing
    exactly when the request is larger than a page, not a multiple of 8, or
    nowhere fits; otherwise it gives the lowest address at which the rounded
    request fits, and that chunk is the only change to the live chunks. *)
Theorem alloc_first_fit st sz :
  ainv st →
  wp (alloc sz) (λ p st', ainv st' ∧
    ((p = NULL ∧ st' = st ∧
      (PAGESIZE < sz ∨ sz `mod` 8 ≠ 0 ∨ ∀ a, ¬ afree st a (around sz))) ∨
     (p ≠ NULL ∧ sz ≤ PAGESIZE ∧ sz `mod` 8 = 0 ∧ afree st p (around sz) ∧
      (∀ a, a < p → ¬ afree st a (around sz)) ∧
      ∀ a n, alive st' a n ↔ (a = p ∧ n = around sz) ∨ alive st a n))) st.
Proof.
  intros [Hinv Hst]. unfold alloc.
  destruct (Z.ltb_spec PAGESIZE sz); [apply wp_ret; split; [done|]; left; auto|]. simpl.
  assert (Z.rem sz 8 = 0 ↔ sz `mod` 8 = 0) as Hrem.
  { by rewrite Z.rem_divide, Z.mod_divide by lia. }
  destruct (Z.eqb_spec (Z.rem sz 8) 0) as [Hz|Hz]; simpl.
  2: { apply wp_ret. split; [done|]. left. rewrite Hrem in Hz. auto. }
  apply Hrem in Hz. apply wp_bind. eapply wp_mono; [by apply (search_bytes MINALLOC NUM)|].
  intros [p|] st' (Hinv' & Hst' & Hp); apply wp_ret;
    (split; [split; [done|by rewrite Hst']|]).
  - right. destruct Hp as (Hp & Hmin & Hl). pose proof Hp as (? & _ & _).
    split_and!; [unfold NULL; lia|done..].
  - left. destruct Hp as [-> Hno]. auto.
Qed.

Lemma ainv_init a : 0 < a → ainv (Page a (reset_mem MINALLOC NUM)).
Proof. split; [by apply inv_reset|done]. Qed.

Example alloc_first_fit_witness :
  ainv (Page 65536 (reset_mem MINALLOC NUM)) ∧
  wp (alloc 24) (λ p st', ainv st' ∧ p = 65536 ∧ alive st' 65536 24) (Page 65536 (reset_mem MINALLOC NUM)).
Proof.
  assert (ainv (Page 65536 (reset_mem MINALLOC NUM))) as H by by apply ainv_init.
  split; [exact H|].
  destruct (wp_elim _ _ _ (alloc_first_fit _ 24 H)) as (p & st' & He & Hi & Hp).
  eapply wp_intro; [exact He|]. split; [exact Hi|].
  assert (p = 65536) as -> by (vm_compute in He; congruence).
  destruct Hp as [(Hn & _)|(_ & _ & _ & _ & _ & Hl)]; [discriminate Hn|].
  split; [reflexivity|]. apply Hl. left. split; reflexivity.
Defined.

(** [dealloc] frees exactly the chunk whose address it is given: a live
    chunk disappears and every other one stays; any other argument, NULL
    included, changes nothing.  The invariant is kept. *)
Theorem dealloc_exact st a :
  ainv st →
  wp (dealloc a) (λ _ st', ainv st' ∧
    (∀ b n, alive st' b n ↔ b ≠ a ∧ alive st b n) ∧
    ((∀ n, ¬ alive st a n) → st' = st)) st.
Proof.
  intros [Hinv Hst]. eapply wp_mono.
  { apply (dealloc_bytes MINALLOC NUM); [done..|]. intros n. by apply (live_not_null MINALLOC NUM). }
  intros _ st' (Hinv' & Hst' & Hl & Hn). split_and!; [split; [done|by rewrite Hst']|done..].
Qed.

Example dealloc_exact_witness :
  ainv (Page 65536 (reset_mem MINALLOC NUM)) ∧
  wp (dealloc 65544) (λ _ st', st' = Page 65536 (reset_mem MINALLOC NUM)) (Page 65536 (reset_mem MINALLOC NUM)).
Proof.
  assert (ainv (Page 65536 (reset_mem MINALLOC NUM))) as H by by apply ainv_init.
  split; [exact H|]. eapply wp_mono; [apply (dealloc_exact _ 65544 H)|].
  intros _ st' (_ & _ & Hn). apply Hn. intros n. by apply live_reset.
Defined.

(** Freeing what was just allocated restores the allocator exactly. *)
Theorem alloc_dealloc_roundtrip st sz p st' :
  ainv st → alloc sz st = Ret p st' → p ≠ NULL → dealloc p st' = Ret tt st.
Proof.
  intros [Hinv Hst] Halloc Hp. unfold alloc in Halloc.
  destruct (_ || _); [by injection Halloc as <- _|].
  destruct (wp_elim _ _ _ (search_ok MINALLOC NUM eq_refl ltac:(done) st sz Hinv)) as (r & st1 & Hs & Hpost).
  unfold mbind, M_bind in Halloc. rewrite Hs in Halloc.
  destruct r as [a|]; injection Halloc as <- <-; [|done].
  destruct Hpost as (i & -> & Hrun & _ & ->). pose proof (need_pos MINALLOC eq_refl sz).
  by apply (dealloc_added MINALLOC NUM).
Qed.

Example alloc_dealloc_roundtrip_witness :
  let st := Page 65536 (reset_mem MINALLOC NUM) in
  ∃ p st', alloc 40 st = Ret p st' ∧ dealloc p st' = Ret tt st.
Proof.
  intros st.
  destruct (alloc 40 st) as [p st'|] eqn:He; [|by vm_compute in He].
  exists p, st'. split; [reflexivity|].
  apply (alloc_dealloc_roundtrip st 40 p st'); [by apply ainv_init|exact He|].
  intros ->. vm_compute in He. discriminate He.
Defined.
