(* ===== verification/Ealloc.v ===== *)
(** * The expanding allocator of hw5/ealloc (ealloc.c)

    Four pages, each mapped when the search first reaches it, each cut into 16
    chunks of 256 bytes and searched with the loops of [Pagefit].  The results
    of successive [mmap] calls are the parameter [mmap]; the model counts the
    calls. *)

From S2P Require Import Prelude Pagefit.

Definition PAGESIZE : Z := 4096.
Definition MINALLOC : Z := 256.
Definition NUM : Z := 16.
Definition PNUM : nat := 4.

(** [start, mem], src/hw5/ealloc/ealloc.c:11-15 *)
Record state := St {
  starts : list Z;            (* char *start[PNUM] *)
  mems : list (list mm);      (* struct mm mem[PNUM][NUM] *)
  nmap : nat                  (* calls of mmap so far *)
}.

(** [init_alloc], src/hw5/ealloc/ealloc.c:17-29 *)
Definition init_alloc : M state unit :=
  modify (λ st, St (replicate PNUM NULL) (replicate PNUM (reset_mem MINALLOC NUM)) (nmap st)).

(** [cleanup], src/hw5/ealloc/ealloc.c:31-42 *)
Definition cleanup : M state unit :=
  modify (λ st, St (replicate PNUM NULL) (replicate PNUM (reset_mem MINALLOC NUM)) (nmap st)).

(** Row [p] of the tables, as the search loops of one page use it. *)
Definition read_page (p : nat) : M state page :=
  st ← getS;
  a ← of_option (starts st !! p);
  m ← of_option (mems st !! p);
  mret (Page a m).
Definition write_page (p : nat) (g : page) : M state unit :=
  modify (λ st, St (<[p := start g]> (starts st)) (<[p := mem g]> (mems st)) (nmap st)).
Definition on_page {A} (p : nat) (m : M page A) : M state A :=
  g ← read_page p;
  match m g with
  | Ret a g' => write_page p g';; mret a
  | Fail e g' => write_page p g';; fail e
  end.

Section ealloc.
Context (mmap : nat → Z).

Definition call_mmap : M state Z :=
  st ← getS;
  putS (St (starts st) (mems st) (S (nmap st)));;
  mret (mmap (nmap st)).

(** [alloc: one round of the loop over pages], src/hw5/ealloc/ealloc.c:53-95 *)
Definition alloc_page (sz : Z) (p : nat) : M state (option Z) :=
  g ← read_page p;
  mapped ← (if start g =? NULL then
              a ← call_mmap;
              write_page p (Page a (mem g));;
              mret (negb (a =? MAP_FAILED))
            else mret true);
  if mapped : bool then on_page p (search MINALLOC NUM (S (Z.to_nat NUM)) sz 0)
  else mret (Some NULL).

(** [alloc], src/hw5/ealloc/ealloc.c:44-98 *)
Definition alloc (sz : Z) : M state Z :=
  if (PAGESIZE <? sz) || negb (Z.rem sz 8 =? 0) then mret NULL
  else
    r ← for_ PNUM 0 (alloc_page sz);
    match r with
    | Some a => mret a
    | None => mret NULL
    end.
End ealloc.

(** [dealloc], src/hw5/ealloc/ealloc.c:100-115 *)
Definition dealloc (a : Z) : M state unit :=
  _ ← for_ (R := unit) PNUM 0 (λ p, on_page p (dealloc_loop MINALLOC NUM a);; mret None);
  mret tt.

(** ** Invariant

    The pages with index below [k] are mapped, in the order of the [mmap]
    calls since the last (re)initialisation; the others are unmapped and
    empty. *)

Abbreviation elive := (live MINALLOC).
Abbreviation efree := (free_bytes MINALLOC NUM).
Abbreviation eround := (rounded MINALLOC).

Definition page_at (st : state) (p : nat) (g : page) : Prop :=
  starts st !! p = Some (start g) ∧ mems st !! p = Some (mem g).
Definition live_at (st : state) (a n : Z) : Prop :=
  ∃ p g, page_at st p g ∧ elive g a n.

Record einv (mmap : nat → Z) (k : nat) (st : state) : Prop := {
  e_starts : length (starts st) = PNUM;
  e_mems : length (mems st) = PNUM;
  e_k : (k ≤ PNUM)%nat;
  e_base : (k ≤ nmap st)%nat;
  e_ok : ∀ j, (nmap st - k ≤ j < nmap st)%nat → mmap j ≠ MAP_FAILED;
  e_mapped : ∀ p g, page_at st p g → (p < k)%nat →
    inv MINALLOC NUM g ∧ start g = mmap (nmap st - k + p)%nat;
  e_unmapped : ∀ p g, page_at st p g → (k ≤ p)%nat →
    g = Page NULL (reset_mem MINALLOC NUM) }.

(** What the code relies on in [mmap]: it fails, or gives an address that is not
    NULL and a page that does not overlap those mapped before. *)
Record mmap_ok (mmap : nat → Z) : Prop := {
  mmap_addr : ∀ n, mmap n ≠ MAP_FAILED → 0 < mmap n;
  mmap_disjoint : ∀ m n, m ≠ n → mmap m ≠ MAP_FAILED → mmap n ≠ MAP_FAILED →
    mmap m + PAGESIZE ≤ mmap n ∨ mmap n + PAGESIZE ≤ mmap m }.

(** The calls that mapped the pages did not fail. *)
Lemma mapped_ok mmap k st p : einv mmap k st → (p < k)%nat → mmap (nmap st - k + p)%nat ≠ MAP_FAILED.
Proof. intros H Hp. apply (e_ok _ _ _ H). pose proof (e_base _ _ _ H). lia. Qed.

Definition upd (p : nat) (g : page) (st : state) : state :=
  St (<[p := start g]> (starts st)) (<[p := mem g]> (mems st)) (nmap st).

Lemma page_at_upd st p g q h :
  length (starts st) = PNUM → length (mems st) = PNUM → (p < PNUM)%nat →
  page_at (upd p g st) q h ↔ (q = p ∧ h = g) ∨ (q ≠ p ∧ page_at st q h).
Proof.
  intros Hs Hm Hp. unfold page_at, upd. simpl.
  rewrite !list_lookup_insert_Some, Hs, Hm. split.
  - intros [[(-> & ? & _)|(? & ?)] [(? & ? & _)|(? & ?)]]; [left|lia|lia|right; auto].
    split; [done|]. destruct h, g; simpl in *; congruence.
  - intros [[-> ->]|[? [? ?]]]; auto.
Qed.

Lemma page_at_fun st p g h : page_at st p g → page_at st p h → g = h.
Proof. intros [? ?] [? ?]. destruct g, h; simpl in *; congruence. Qed.

Lemma read_page_ok st p (Q : page → state → Prop) :
  length (starts st) = PNUM → length (mems st) = PNUM → (p < PNUM)%nat →
  (∀ g, page_at st p g → Q g st) → wp (read_page p) Q st.
Proof.
  intros Hs Hm Hp HQ.
  destruct (lookup_lt_is_Some_2 (starts st) p) as [a Ha]; [lia|].
  destruct (lookup_lt_is_Some_2 (mems st) p) as [m Hm']; [lia|].
  unfold read_page. apply wp_bind, (wp_intro _ _ _ st st); [done|].
  apply wp_bind. eapply wp_of_option; [done|]. apply wp_bind. eapply wp_of_option; [done|].
  apply wp_ret, HQ. done.
Qed.

Lemma on_page_ok {A} st p (m : M page A) (Q : A → state → Prop) :
  length (starts st) = PNUM → length (mems st) = PNUM → (p < PNUM)%nat →
  (∀ g, page_at st p g → wp m (λ a g', Q a (upd p g' st)) g) → wp (on_page p m) Q st.
Proof.
  intros Hs Hm Hp HQ. unfold on_page. apply wp_bind, read_page_ok; [done..|].
  intros g Hg. specialize (HQ g Hg). unfold wp in HQ. destruct (m g); [|done]. exact HQ.
Qed.

Section proofs.
Context (mmap : nat → Z) (Hmmap : mmap_ok mmap).

Lemma einv_upd k st p g g' :
  einv mmap k st → (p < k)%nat → page_at st p g →
  inv MINALLOC NUM g' → start g' = start g → einv mmap k (upd p g' st).
Proof.
  intros [H1 H2 H3 H4 Hok H5 H6] Hp Hg Hinv Hst.
  split; simpl; [by rewrite length_insert..|done|done|done| |].
  - intros q h Hh Hq. apply page_at_upd in Hh; [|lia..].
    destruct Hh as [[-> ->]|[? Hh]]; [|by apply H5]. split; [done|].
    rewrite Hst. by apply (H5 p g).
  - intros q h Hh Hq. apply page_at_upd in Hh; [|lia..].
    destruct Hh as [[-> ->]|[? Hh]]; [lia|by apply (H6 q h)].
Qed.

Lemma live_at_upd st p g g' (P : Z → Z → Prop) :
  length (starts st) = PNUM → length (mems st) = PNUM → (p < PNUM)%nat → page_at st p g →
  (∀ b n, elive g' b n ↔ P b n ∨ elive g b n) →
  ∀ b n, live_at (upd p g' st) b n ↔ P b n ∨ live_at st b n.
Proof.
  intros Hs Hm Hp Hg Hl b n. unfold live_at. split.
  - intros (q & h & Hh & Hlive). apply page_at_upd in Hh; [|done..].
    destruct Hh as [[-> ->]|[? Hh]].
    + apply Hl in Hlive as [?|?]; [by left|]. right. by exists p, g.
    + right. by exists q, h.
  - assert (page_at (upd p g' st) p g') as Hg' by (apply page_at_upd; auto).
    intros [HP|(q & h & Hh & Hlive)]; [exists p, g'; split; [done|]; apply Hl; auto|].
    destruct (decide (q = p)) as [->|]; [exists p, g'|exists q, h].
    + split; [done|]. apply Hl. right. by rewrite (page_at_fun _ _ _ _ Hg Hh).
    + split; [|done]. apply page_at_upd; auto.
Qed.

(** Chunks of different pages never overlap. *)
Lemma pages_disjoint k st p q g h a n b m :
  einv mmap k st → page_at st p g → page_at st q h → p ≠ q → (p < k)%nat →
  start g ≤ a ∧ a + n ≤ start g + NUM * MINALLOC → elive h b m → a + n ≤ b ∨ b + m ≤ a.
Proof.
  intros Hinv Hg Hh Hpq Hp Ha Hl.
  destruct (decide (q < k)%nat) as [Hq|Hq].
  - destruct (e_mapped _ _ _ Hinv _ _ Hg Hp) as [_ Hsg].
    destruct (e_mapped _ _ _ Hinv _ _ Hh Hq) as [Hih Hsh].
    pose proof (live_bounds MINALLOC NUM eq_refl _ _ _ Hih Hl).
    destruct (mmap_disjoint _ Hmmap (nmap st - k + p) (nmap st - k + q)); [lia|by apply (mapped_ok mmap)..| |];
      rewrite <- Hsg, <- Hsh in *; unfold PAGESIZE, NUM, MINALLOC in *; lia.
  - rewrite (e_unmapped _ _ _ Hinv _ _ Hh) in Hl by lia. by apply live_reset in Hl.
Qed.

(** What one call of [alloc] leaves: the pages mapped so far keep their
    chunks, and the new chunk, if any, overlaps none. *)
Definition found (st st' : state) (sz : Z) (a : Z) : Prop :=
  a ≠ NULL ∧ (∀ b n, live_at st' b n ↔ (b = a ∧ n = eround sz) ∨ live_at st b n) ∧
  (∀ b n, live_at st b n → a + eround sz ≤ b ∨ b + n ≤ a).
Definition full (st : state) (sz : Z) (p : nat) : Prop :=
  ∀ q g, page_at st q g → (q < p)%nat → ∀ b, ¬ efree g b (eround sz).

(** The state of the loop over pages before round [p]. *)
Definition loop_inv (k : nat) (st : state) (sz : Z) (p : nat) (st' : state) : Prop :=
  ∃ k', (k ≤ k')%nat ∧ (p ≤ k')%nat ∧ einv mmap k' st' ∧ (nmap st ≤ nmap st')%nat ∧ full st' sz p ∧
        ∀ b n, live_at st' b n ↔ live_at st b n.

Lemma search_page k' k st0 st sz p g :
  einv mmap k' st → (k ≤ k')%nat → (p < k')%nat → page_at st p g → (nmap st0 ≤ nmap st)%nat →
  (∀ b n, live_at st b n ↔ live_at st0 b n) → full st sz p →
  wp (on_page p (search MINALLOC NUM (S (Z.to_nat NUM)) sz 0)) (λ r st',
    match r with
    | None => loop_inv k st0 sz (S p) st'
    | Some a => ∃ k'', (k ≤ k'')%nat ∧ einv mmap k'' st' ∧ found st0 st' sz a
    end) st.
Proof.
  intros Hinv Hk Hp Hg Hnm Hlive Hfull. pose proof (e_k _ _ _ Hinv).
  pose proof (e_starts _ _ _ Hinv). pose proof (e_mems _ _ _ Hinv).
  apply on_page_ok; [done..|lia|]. intros h Hh. rewrite <- (page_at_fun _ _ _ _ Hg Hh). clear h Hh.
  destruct (e_mapped _ _ _ Hinv _ _ Hg Hp) as [Hig Hsg].
  eapply wp_mono; [by apply (search_bytes MINALLOC NUM)|].
  intros [a|] g' (Hig' & Hsg' & Hr).
  - destruct Hr as (Hfree & _ & Hl). exists k'. split_and!; [done|by eapply einv_upd|].
    pose proof Hfree as (Ha1 & Ha2 & Hdis). pose proof (mmap_addr _ Hmmap _ (mapped_ok _ _ _ _ Hinv Hp)).
    split_and!; [unfold NULL; lia| |].
    + intros b n. rewrite <- Hlive. revert b n.
      apply (live_at_upd st p g g' (λ b n, b = a ∧ n = eround sz)); [done..|lia|done|done].
    + intros b n Hb. apply Hlive in Hb as (q & h & Hh & Hl').
      destruct (decide (p = q)) as [<-|Hpq].
      * rewrite <- (page_at_fun _ _ _ _ Hg Hh) in Hl'. by apply Hdis.
      * by eapply (pages_disjoint k' st p q g h).
  - destruct Hr as [-> Hno]. exists k'. split_and!; [done|lia|by eapply einv_upd|done| |].
    + intros q h Hh Hq. apply page_at_upd in Hh; [|done..|lia].
      destruct Hh as [[-> ->]|[? Hh]]; [done|]. apply (Hfull q h Hh). lia.
    + intros b n. rewrite <- Hlive.
      rewrite (live_at_upd st p g g (λ _ _, False)); [|done..|lia|done|]; [tauto|tauto].
Qed.

(** Mapping the next page. *)
Lemma einv_map k st g :
  einv mmap k st → (k < PNUM)%nat → page_at st k g → mmap (nmap st) ≠ MAP_FAILED →
  einv mmap (S k) (upd k (Page (mmap (nmap st)) (mem g)) (St (starts st) (mems st) (S (nmap st)))).
Proof.
  intros [H1 H2 H3 H4 Hok H5 H6] Hk Hg Hm.
  split; simpl; [by rewrite length_insert..|lia|lia| | |].
  - intros j Hj. destruct (decide (j = nmap st)) as [->|]; [done|]. apply Hok. lia.
  - intros q h Hh Hq. apply page_at_upd in Hh; [|simpl; lia..].
    destruct Hh as [[-> ->]|[? Hh]]; simpl.
    + rewrite (H6 _ _ Hg) by lia. split; [by apply inv_reset|f_equal; lia].
    + destruct (H5 q h) as [? ->]; [exact Hh|lia|]. split; [done|f_equal; lia].
  - intros q h Hh Hq. apply page_at_upd in Hh; [|simpl; lia..].
    destruct Hh as [[-> ->]|[? Hh]]; [lia|]. apply (H6 q h); [exact Hh|lia].
Qed.

(** A call of mmap failed: NULL, and no chunk has changed. *)
Definition out_of_pages (st st' : state) (a : Z) : Prop :=
  a = NULL ∧ (∀ b n, live_at st' b n ↔ live_at st b n) ∧
  ∃ j, (nmap st ≤ j)%nat ∧ nmap st' = S j ∧ mmap j = MAP_FAILED.

Lemma alloc_page_ok k st sz p st1 :
  (p < PNUM)%nat → loop_inv k st sz p st1 →
  wp (alloc_page mmap sz p) (λ r st',
    match r with
    | None => loop_inv k st sz (S p) st'
    | Some a => (∃ k'', (k ≤ k'')%nat ∧ einv mmap k'' st' ∧ found st st' sz a) ∨ out_of_pages st st' a
    end) st1.
Proof.
  intros Hp (k' & Hk & Hpk & Hinv & Hnm & Hfull & Hlive). unfold alloc_page.
  pose proof (e_starts _ _ _ Hinv). pose proof (e_mems _ _ _ Hinv).
  apply wp_bind, read_page_ok; [done..|]. intros g Hg. apply wp_bind.
  destruct (decide (p < k')%nat) as [Hlt|Hge].
  - destruct (e_mapped _ _ _ Hinv _ _ Hg Hlt) as [_ Hsg].
    pose proof (mmap_addr _ Hmmap _ (mapped_ok _ _ _ _ Hinv Hlt)).
    destruct (Z.eqb_spec (start g) NULL) as [He|He]; [unfold NULL in He; lia|].
    apply wp_ret. eapply wp_mono; [by apply (search_page k' k st st1 sz p g)|]. intros [a|] st' Hr; [by left|done].
  - assert (k' = p) as -> by lia.
    pose proof (e_unmapped _ _ _ Hinv _ _ Hg ltac:(lia)) as ->. simpl.
    unfold call_mmap. apply wp_bind, (wp_intro _ _ _ (mmap (nmap st1)) (St (starts st1) (mems st1) (S (nmap st1)))); [done|].
    apply wp_bind, wp_modify, wp_ret.
    assert (∀ x, live_at (upd p (Page x (reset_mem MINALLOC NUM)) (St (starts st1) (mems st1) (S (nmap st1)))) = live_at
      (upd p (Page x (reset_mem MINALLOC NUM)) st1)) as Hsame by done.
    assert (∀ x b n, live_at (upd p (Page x (reset_mem MINALLOC NUM)) st1) b n ↔ live_at st b n) as Hlive'.
    { intros x b n. rewrite <- Hlive. rewrite (live_at_upd _ p (Page NULL (reset_mem MINALLOC NUM)) _ (λ _ _, False)); [tauto|done..|].
      intros c m. split; [intros Hl; by apply live_reset in Hl|intros [[]|Hl]; by apply live_reset in Hl]. }
    destruct (Z.eqb_spec (mmap (nmap st1)) MAP_FAILED) as [He|He]; simpl.
    { apply wp_ret. right. split; [done|]. split; [|by exists (nmap st1)]. intros b n. rewrite He. apply Hlive'. }
    pose proof (einv_map _ _ _ Hinv ltac:(lia) Hg He) as Hinv'.
    match type of Hinv' with einv _ _ (upd _ ?g ?s) =>
      eapply wp_mono; [apply (search_page (S p) k st (upd p g s) sz p g)|] end;
      [exact Hinv'|lia|lia|by apply page_at_upd; auto|simpl; lia|apply Hlive'| |intros [a|] st' Hr; [by left|done]].
    intros q h Hh Hq. apply page_at_upd in Hh; [|done..].
    destruct Hh as [[-> ->]|[? Hh]]; [lia|]. by apply (Hfull q h).
Qed.

(** C30. The expanding allocator: [alloc] returns for every request, also when
    mmap fails.  A result that is not NULL is a chunk of at least the requested
    size that overlaps no live chunk of any page, and it is the only change to
    the live chunks.  NULL leaves the live chunks alone and means one of four
    things: a request over one page; one that is not a multiple of 8; all four
    pages are mapped and none has room; or an mmap of this call failed.  In all
    cases but the last the invariant is kept. *)
Theorem ealloc_alloc_spec k st sz :
  einv mmap k st →
  wp (alloc mmap sz) (λ a st',
    (∃ k', (k ≤ k')%nat ∧ einv mmap k' st' ∧
      (found st st' sz a ∧ sz ≤ eround sz ∨
       a = NULL ∧ (∀ b n, live_at st' b n ↔ live_at st b n) ∧
       (PAGESIZE < sz ∨ sz `mod` 8 ≠ 0 ∨ k' = PNUM ∧ full st' sz PNUM))) ∨
    out_of_pages st st' a) st.
Proof.
  intros Hinv. unfold alloc.
  destruct (Z.ltb_spec PAGESIZE sz); [apply wp_ret; left; exists k; naive_solver|].
  destruct (Z.eqb_spec (Z.rem sz 8) 0) as [Hz|Hz]; simpl.
  2: { apply wp_ret. left. exists k. split_and!; [done..|]. right. split_and!; [done..|].
       right; left. intros Hm. by rewrite Z.mod_divide, <- Z.rem_divide in Hm by lia. }
  apply wp_bind, wp_for with (I := loop_inv k st sz).
  - exists k. split_and!; [lia..|done|lia| |done]. intros ?????. lia.
  - intros p st' Hp Hloop. eapply wp_mono; [by apply alloc_page_ok; [lia|]|].
    intros [a|] st''; [|done]. intros [(k' & ? & ? & Hf)|Ho]; apply wp_ret; [left|by right]. exists k'. split_and!; [done..|].
    left. split; [done|]. by apply (rounded_bounds MINALLOC).
  - intros st' (k' & ? & ? & Hinv' & _ & Hfull & Hlive). apply wp_ret. left. exists k'. split_and!; [done..|].
    right. split_and!; [done..|]. right; right. pose proof (e_k _ _ _ Hinv'). split; [lia|done].
Qed.
End proofs.

Lemma einv_init mmap st : einv mmap 0 (St (replicate PNUM NULL) (replicate PNUM (reset_mem MINALLOC NUM)) (nmap st)).
Proof.
  split; [done|done|lia|simpl; lia|simpl; lia|lia|].
  intros p g [Hs Hm] _. cbn [starts mems] in Hs, Hm. apply lookup_replicate in Hs as [Hs _].
  apply lookup_replicate in Hm as [Hm _]. destruct g; simpl in *. by subst.
Qed.

(** The second call fails. *)
Definition mmap_demo (n : nat) : Z := if (n =? 1)%nat then MAP_FAILED else 65536 + 4096 * Z.of_nat n.
Definition empty_demo : state := St (replicate PNUM NULL) (replicate PNUM (reset_mem MINALLOC NUM)) 0.

Lemma mmap_demo_ok : mmap_ok mmap_demo.
Proof.
  split; unfold mmap_demo, PAGESIZE, MAP_FAILED; intros *; repeat case_match; lia.
Qed.

Example ealloc_alloc_spec_witness :
  mmap_ok mmap_demo ∧ einv mmap_demo 0 empty_demo ∧
  wp (alloc mmap_demo 4096) (λ a st', a = 65536 ∧ ∃ k', einv mmap_demo k' st') empty_demo.
Proof.
  assert (einv mmap_demo 0 empty_demo) as Hinv by exact (einv_init _ empty_demo).
  split; [exact mmap_demo_ok|]. split; [exact Hinv|].
  destruct (wp_elim _ _ _ (ealloc_alloc_spec mmap_demo mmap_demo_ok 0 empty_demo 4096 Hinv)) as (a & st' & He & [(k' & _ & Hk & _)|(Ha & _)]).
  - eapply wp_intro; [exact He|]. split; [vm_compute in He; congruence|]. by exists k'.
  - vm_compute in He, Ha. congruence.
Defined.

(** Facts shared by mapped and unmapped pages. *)
Lemma page_lt mmap k st p g : einv mmap k st → page_at st p g → (p < PNUM)%nat.
Proof. intros Hinv [Hs _]. apply lookup_lt_Some in Hs. by rewrite (e_starts _ _ _ Hinv) in Hs. Qed.

Lemma page_ex mmap k st p : einv mmap k st → (p < PNUM)%nat → ∃ g, page_at st p g.
Proof.
  intros Hinv Hp. destruct (lookup_lt_is_Some_2 (starts st) p) as [a Ha]; [by rewrite (e_starts _ _ _ Hinv)|].
  destruct (lookup_lt_is_Some_2 (mems st) p) as [m Hm]; [by rewrite (e_mems _ _ _ Hinv)|].
  by exists (Page a m).
Qed.

Lemma page_inv mmap k st p g :
  mmap_ok mmap → einv mmap k st → page_at st p g →
  inv MINALLOC NUM g ∧ ∀ n, ¬ elive g NULL n.
Proof.
  intros Hmmap Hinv Hg. destruct (decide (p < k)%nat) as [Hp|Hp].
  - destruct (e_mapped _ _ _ Hinv _ _ Hg Hp) as [Hi Hs]. split; [done|].
    intros n. apply (live_not_null MINALLOC NUM); [done..|]. rewrite Hs. by apply (mmap_addr _ Hmmap), (mapped_ok mmap).
  - rewrite (e_unmapped _ _ _ Hinv _ _ Hg) by lia. split; [by apply inv_reset|]. intros n. apply live_reset.
Qed.

Lemma upd_same mmap k st p g : einv mmap k st → page_at st p g → einv mmap k (upd p g st).
Proof.
  intros Hinv [Hs Hm]. assert (upd p g st = st) as ->; [|done].
  unfold upd. rewrite !list_insert_id by done. by destruct st.
Qed.

(** [dealloc] of the expanding allocator frees exactly the chunk at the
    given address, whatever page it is in, and keeps the invariant. *)
Theorem ealloc_dealloc_exact mmap k st a :
  mmap_ok mmap → einv mmap k st →
  wp (dealloc a) (λ _ st', einv mmap k st' ∧
    ∀ b n, live_at st' b n ↔ b ≠ a ∧ live_at st b n) st.
Proof.
  intros Hmmap Hinv. unfold dealloc.
  apply wp_bind, wp_for with (I := λ p st', einv mmap k st' ∧
    (∀ q g, page_at st' q g → (p ≤ q)%nat → page_at st q g) ∧
    (∀ q g, page_at st q g → (q < p)%nat → ∃ g', page_at st' q g' ∧
       ∀ b n, elive g' b n ↔ b ≠ a ∧ elive g b n)).
  - split_and!; [done|done|lia].
  - intros p st' Hp (Hinv' & Hrest & Hdone).
    pose proof (e_starts _ _ _ Hinv'). pose proof (e_mems _ _ _ Hinv').
    apply wp_bind, on_page_ok; [done|done|lia|]. intros g Hg.
    pose proof (page_inv _ _ _ _ _ Hmmap Hinv' Hg) as [Hig Hnull].
    eapply wp_mono; [by apply (dealloc_bytes MINALLOC NUM)|].
    intros _ g' (Hig' & Hsg' & Hl & Hsame). apply wp_ret. split_and!.
    + destruct (decide (p < k)%nat); [by eapply einv_upd|].
      pose proof (e_unmapped _ _ _ Hinv' _ _ Hg ltac:(lia)) as ->.
      rewrite Hsame by (intros ?; apply live_reset). by eapply upd_same.
    + intros q h Hh Hq. apply page_at_upd in Hh; [|done|done|lia].
      destruct Hh as [[-> ->]|[? Hh]]; [lia|]. apply (Hrest q h Hh). lia.
    + intros q h Hh Hq. destruct (decide (q = p)) as [->|].
      * exists g'. split; [apply page_at_upd; auto with lia|].
        by rewrite (page_at_fun _ _ _ _ Hh (Hrest _ _ Hg (le_n _))).
      * destruct (Hdone q h Hh) as (h' & Hh' & ?); [lia|]. exists h'. split; [|done].
        apply page_at_upd; auto with lia.
  - intros st' (Hinv' & _ & Hdone). apply wp_ret. split; [done|]. intros b n. split.
    + intros (q & g' & Hg' & Hl). pose proof (page_lt _ _ _ _ _ Hinv' Hg').
      destruct (page_ex _ _ _ q Hinv) as [g Hg]; [done|].
      destruct (Hdone _ _ Hg) as (g'' & Hg'' & Hiff); [lia|].
      rewrite (page_at_fun _ _ _ _ Hg' Hg'') in Hl. apply Hiff in Hl as [? ?].
      split; [done|]. by exists q, g.
    + intros (Hb & q & g & Hg & Hl). pose proof (page_lt _ _ _ _ _ Hinv Hg).
      destruct (Hdone _ _ Hg) as (g' & Hg' & Hiff); [lia|]. exists q, g'. split; [done|]. by apply Hiff.
Qed.

Example ealloc_dealloc_exact_witness :
  wp (dealloc 65536) (λ _ st', ∀ n, ¬ live_at st' 65536 n) empty_demo.
Proof.
  eapply wp_mono; [apply (ealloc_dealloc_exact mmap_demo 0)|].
  - exact mmap_demo_ok.
  - exact (einv_init _ empty_demo).
  - intros _ st' [_ Hl] n Hn. apply Hl in Hn as [Hn _]. by apply Hn.
Defined.

(** A failed [mmap] is remembered as a mapped page: the call that fails
    gives NULL, but the next one, for any request that fits a page, returns
    the address MAP_FAILED as if it were memory. *)
Theorem ealloc_mmap_failure_reused sz :
  sz ≤ PAGESIZE → sz `mod` 8 = 0 →
  wp (alloc (λ _, MAP_FAILED) sz) (λ a st',
    a = NULL ∧ wp (alloc (λ _, MAP_FAILED) sz) (λ a' _, a' = MAP_FAILED) st') empty_demo.
Proof.
  intros Hsz Hz. assert (Z.rem sz 8 = 0) as Hr by (by rewrite Z.rem_divide, <- Z.mod_divide by lia).
  unfold alloc. rewrite (proj2 (Z.ltb_ge _ _)), Hr by done. simpl.
  apply wp_bind, (wp_intro _ _ _ (Some NULL)
    (upd 0 (Page MAP_FAILED (reset_mem MINALLOC NUM)) (St (starts empty_demo) (mems empty_demo) 1))); [done|].
  apply wp_ret. split; [done|]. apply wp_bind. unfold PNUM. cbn [for_].
  apply wp_bind. unfold alloc_page. apply wp_bind, read_page_ok; [done|done|compute; lia|].
  intros g Hg. apply page_at_upd in Hg; [|done|done|compute; lia]. destruct Hg as [[_ ->]|[Hne _]]; [|done]. simpl.
  apply wp_bind, wp_ret, on_page_ok; [done|done|compute; lia|].
  intros g Hg. apply page_at_upd in Hg; [|done|done|compute; lia]. destruct Hg as [[_ ->]|[Hne _]]; [|done].
  assert (free_run MINALLOC NUM (Page MAP_FAILED (reset_mem MINALLOC NUM)) 0 (need MINALLOC sz)) as Hrun.
  { split_and!; [done| |].
    - unfold need, MINALLOC, NUM, PAGESIZE in *. dlia.
    - intros x _ (i & n & Hc & _). by apply (live_reset MINALLOC NUM MAP_FAILED (i * MINALLOC + MAP_FAILED) (n * MINALLOC)); exists i, n. }
  eapply wp_mono; [by apply (search_ok MINALLOC NUM), inv_reset|].
  intros [a|] g'; [|intros [Hno _]; by destruct (Hno 0)].
  intros (i & -> & (? & _ & _) & Hlow & _). do 2 apply wp_ret. simpl.
  destruct (Z.eq_dec i 0) as [->|]; [done|]. destruct (Hlow 0); [lia|done].
Qed.

Example ealloc_mmap_failure_witness :
  wp (alloc (λ _, MAP_FAILED) 256) (λ a st',
    a = NULL ∧ wp (alloc (λ _, MAP_FAILED) 256) (λ a' _, a' = -1) st') empty_demo.
Proof. apply (ealloc_mmap_failure_reused 256); [unfold PAGESIZE; lia|reflexivity]. Defined.
