(* ===== verification/Umalloc.v ===== *)
(** * The user-level allocator (xv6: umalloc.c)

    The free blocks are a circular list, in the order of their addresses, that
    goes through the headers in memory and through [base].  Memory is words: a
    header has its ptr at its address and its size, in units of 8 bytes, in the
    next word.  An access outside of [base] and the heap is a fault. *)

From S2P Require Import Prelude.

(** sizeof(Header) *)
Definition HDR : Z := 8.

(** [base, freep], src/hw3/xv6/umalloc.c:21-22
    With the memory and the end of the heap. *)
Record heap := Heap { word : Z → Z; brk : Z; freep : Z }.
Definition set_word w (s : heap) := Heap w (brk s) (freep s).
Definition set_brk b (s : heap) := Heap (word s) b (freep s).
Definition set_freep p (s : heap) := Heap (word s) (brk s) p.

Section umalloc.
(** Where the linker put [base], where the heap begins, and whether the kernel
    grants sbrk(n) when the heap ends at a given address. *)
Context (base lo : Z) (grant : Z → Z → bool).

Definition valid (s : heap) (a : Z) : bool :=
  (base <=? a) && (a <=? base + 4) || (lo <=? a) && (a + 4 <=? brk s).
Definition load (a : Z) : M heap Z := s ← getS; if valid s a then mret (word s a) else fail Fault.
Definition store (a v : Z) : M heap unit :=
  s ← getS; if valid s a then putS (set_word (λ x, if x =? a then v else word s x) s) else fail Fault.

(** [union header], src/hw3/xv6/umalloc.c:11-17
    The fields of the header at [p]. *)
Definition ptr (p : Z) : M heap Z := load p.
Definition size (p : Z) : M heap Z := load (p + 4).
Definition set_ptr (p v : Z) : M heap unit := store p v.
Definition set_size (p v : Z) : M heap unit := store (p + 4) v.

(** sbrk: the old end of the heap, or -1. *)
Definition sbrk (n : Z) : M heap Z :=
  b ← gets brk;
  if grant b n then modify (set_brk (b + n));; mret b else mret (-1).

(** [free: finding the place], src/hw3/xv6/umalloc.c:30-32 *)
Fixpoint find_place (fuel : nat) (bp p : Z) : M heap Z :=
  match fuel with
  | O => fail OutOfFuel
  | S fuel' =>
      nx ← ptr p;
      if (p <? bp) && (bp <? nx) then mret p
      else if (nx <=? p) && ((p <? bp) || (bp <? nx)) then mret p
      else find_place fuel' bp nx
  end.

(** A bound on the number of free blocks. *)
Definition max_blocks (s : heap) : nat := S (Z.to_nat ((brk s - lo) / HDR)).

(** [free], src/hw3/xv6/umalloc.c:24-44 *)
Definition free (ap : Z) : M heap unit :=
  let bp := ap - HDR in
  s ← getS;
  p ← find_place (max_blocks s) bp (freep s);
  bs ← size bp;
  nx ← ptr p;
  (if bp + HDR * bs =? nx then
     ns ← size nx;
     set_size bp (u32 (bs + ns));;
     nn ← ptr nx;
     set_ptr bp nn
   else set_ptr bp nx);;
  ps ← size p;
  (if p + HDR * ps =? bp then
     bs ← size bp;
     set_size p (u32 (ps + bs));;
     bn ← ptr bp;
     set_ptr p bn
   else set_ptr p bp);;
  modify (set_freep p).

(** [morecore], src/hw3/xv6/umalloc.c:46-61 *)
Definition morecore (nu : Z) : M heap Z :=
  let nu := if nu <? 4096 then 4096 else nu in
  p ← sbrk (i32 (nu * HDR));
  if p =? -1 then mret 0
  else
    set_size p nu;;
    free (p + HDR);;
    gets freep.

(** [malloc: the loop], src/hw3/xv6/umalloc.c:74-89 *)
Fixpoint malloc_loop (fuel : nat) (nunits prevp p : Z) : M heap Z :=
  match fuel with
  | O => fail OutOfFuel
  | S fuel' =>
      sz ← size p;
      if nunits <=? sz then
        p ← (if sz =? nunits then
               nx ← ptr p;
               set_ptr prevp nx;;
               mret p
             else
               set_size p (u32 (sz - nunits));;
               let p := p + HDR * (sz - nunits) in
               set_size p nunits;;
               mret p);
        modify (set_freep prevp);;
        mret (p + HDR)
      else
        f ← gets freep;
        if p =? f then
          p ← morecore nunits;
          if p =? 0 then mret 0
          else nx ← ptr p; malloc_loop fuel' nunits p nx
        else nx ← ptr p; malloc_loop fuel' nunits p nx
  end.

(** [malloc], src/hw3/xv6/umalloc.c:63-90 *)
Definition malloc (nbytes : Z) : M heap Z :=
  let nunits := u32 (nbytes + HDR - 1) / HDR + 1 in
  f ← gets freep;
  prevp ← (if f =? 0 then
             set_ptr base base;;
             modify (set_freep base);;
             set_size base 0;;
             mret base
           else mret f);
  p ← ptr prevp;
  s ← getS;
  malloc_loop (2 * max_blocks s + 4) nunits prevp p.
End umalloc.
