(* ===== verification/UmallocSpec.v ===== *)
(** * The heap of the user-level allocator as a row of blocks (xv6: umalloc.c) *)

From stdpp Require Import sorting.
From S2P Require Import Prelude Umalloc.

(** ** Blocks side by side *)

Record seg := Seg { sat : Z; sun : Z; sfree : bool }.

(** The blocks fill the memory from [a] to [e]. *)
Fixpoint tiles (a : Z) (t : list seg) (e : Z) : Prop :=
  match t with
  | [] => a = e
  | x :: t' => sat x = a ∧ 1 ≤ sun x ∧ tiles (a + HDR * sun x) t' e
  end.

Definition free_nodes (t : list seg) : list (Z * Z) := (λ x, (sat x, sun x)) <$> filter (λ x, sfree x = true) t.
Definition used_blocks (t : list seg) : list (Z * Z) := (λ x, (sat x, sun x)) <$> filter (λ x, sfree x = false) t.

(** No two free blocks touch; [b] says whether the block before is free. *)
Fixpoint coalesced (b : bool) (t : list seg) : Prop :=
  match t with [] => True | x :: t' => b && sfree x = false ∧ coalesced (sfree x) t' end.
Definition last_free (b : bool) (t : list seg) : bool := match last t with Some x => sfree x | None => b end.

Lemma tiles_app a t1 t2 e : tiles a (t1 ++ t2) e ↔ ∃ m, tiles a t1 m ∧ tiles m t2 e.
Proof.
  revert a. induction t1 as [|x t1 IH]; intros a; cbn [app tiles]; [naive_solver|]. rewrite IH. naive_solver.
Qed.
Lemma tiles_range a t e : tiles a t e → a ≤ e ∧ Forall (λ x, a ≤ sat x ∧ 1 ≤ sun x ∧ sat x + HDR * sun x ≤ e) t.
Proof.
  unfold HDR. revert a. induction t as [|x t IH]; intros a; cbn [tiles]; [intros ->; split; [lia|by apply Forall_nil]|].
  unfold HDR. intros (<- & H1 & H2%IH). destruct H2 as [H2 H3]. split; [lia|]. apply Forall_cons. split; [lia|].
  eapply Forall_impl; [done|]. cbn. lia.
Qed.
Lemma tiles_count a t e : tiles a t e → HDR * lenZ t ≤ e - a.
Proof.
  unfold HDR, lenZ. revert a. induction t as [|x t IH]; intros a; cbn [tiles length]; [lia|]. unfold HDR. intros (_ & H1 & H2%IH). lia.
Qed.

Lemma coalesced_app b t1 t2 : coalesced b (t1 ++ t2) ↔ coalesced b t1 ∧ coalesced (last_free b t1) t2.
Proof.
  revert b. induction t1 as [|x t1 IH]; intros b; cbn [app coalesced]; [naive_solver|]. rewrite IH.
  assert (last_free b (x :: t1) = last_free (sfree x) t1) as ->; [|tauto]. unfold last_free. destruct t1 as [|y t1]; [done|]. rewrite last_cons_cons.
  destruct (last (y :: t1)) eqn:E; [done|]. by apply last_None in E.
Qed.

Lemma free_nodes_app t1 t2 : free_nodes (t1 ++ t2) = free_nodes t1 ++ free_nodes t2.
Proof. unfold free_nodes. by rewrite filter_app, fmap_app. Qed.
Lemma free_nodes_cons x t : free_nodes (x :: t) = if sfree x then (sat x, sun x) :: free_nodes t else free_nodes t.
Proof. unfold free_nodes. rewrite filter_cons. destruct (sfree x); cbn; done. Qed.
Lemma used_blocks_app t1 t2 : used_blocks (t1 ++ t2) = used_blocks t1 ++ used_blocks t2.
Proof. unfold used_blocks. by rewrite filter_app, fmap_app. Qed.
Lemma used_blocks_cons x t : used_blocks (x :: t) = if sfree x then used_blocks t else (sat x, sun x) :: used_blocks t.
Proof. unfold used_blocks. rewrite filter_cons. destruct (sfree x); cbn; done. Qed.
Lemma elem_free_nodes t a u : (a, u) ∈ free_nodes t ↔ Seg a u true ∈ t.
Proof.
  unfold free_nodes. rewrite list_elem_of_fmap. split.
  - intros (x & Hx & Hf). apply list_elem_of_filter in Hf as [Hf Hin]. destruct x as [a' u' f]. cbn in *. by simplify_eq.
  - intros Hin. exists (Seg a u true). split; [done|]. by apply list_elem_of_filter.
Qed.
Lemma elem_used_blocks t a u : (a, u) ∈ used_blocks t ↔ Seg a u false ∈ t.
Proof.
  unfold used_blocks. rewrite list_elem_of_fmap. split.
  - intros (x & Hx & Hf). apply list_elem_of_filter in Hf as [Hf Hin]. destruct x as [a' u' f]. cbn in *. by simplify_eq.
  - intros Hin. exists (Seg a u false). split; [done|]. by apply list_elem_of_filter.
Qed.

(** A block and the others. *)
Lemma tiles_apart a t1 x t2 e y : tiles a (t1 ++ x :: t2) e → y ∈ t1 ++ t2 →
  sat y + HDR * sun y ≤ sat x ∨ sat x + HDR * sun x ≤ sat y.
Proof.
  rewrite tiles_app. intros (m & H1 & H2). cbn [tiles] in H2. destruct H2 as (<- & Hx & H2). apply tiles_range in H1 as [_ H1]. apply tiles_range in H2 as [_ H2].
  rewrite elem_of_app. intros [Hy|Hy]; [left|right].
  - rewrite Forall_forall in H1. apply H1 in Hy. lia.
  - rewrite Forall_forall in H2. apply H2 in Hy. lia.
Qed.

(** ** The list through memory *)

Definition nxt (L : list (Z * Z)) (z : Z) : Z := match L with [] => z | (a, _) :: _ => a end.

Fixpoint lseg (w : Z → Z) (L : list (Z * Z)) (z : Z) : Prop :=
  match L with
  | [] => True
  | (a, u) :: L' => w a = nxt L' z ∧ w (a + 4) = u ∧ lseg w L' z
  end.

Lemma lseg_app w A B z : lseg w (A ++ B) z ↔ lseg w A (nxt B z) ∧ lseg w B z.
Proof.
  induction A as [|[a u] A IH]; cbn [app lseg]; [naive_solver|]. rewrite IH. assert (nxt (A ++ B) z = nxt A (nxt B z)) as -> by (by destruct A as [|[]]). naive_solver.
Qed.
Lemma lseg_frame w w' L z : lseg w L z → (∀ a u, (a, u) ∈ L → w' a = w a ∧ w' (a + 4) = w (a + 4)) → lseg w' L z.
Proof.
  induction L as [|[a u] L IH]; [done|]. cbn [lseg]. intros (H1 & H2 & H3) Hf. destruct (Hf a u) as [E1 E2]; [by left|].
  rewrite E1, E2. split_and!; [done|done|]. apply IH; [done|]. intros b v Hb. apply (Hf b v). by right.
Qed.
(** Going round from another block. *)
Lemma lseg_rotate w A B z : lseg w (A ++ B) (nxt (A ++ B) z) → lseg w (B ++ A) (nxt (B ++ A) z).
Proof.
  destruct A as [|[a u] A], B as [|[b v] B]; rewrite ?app_nil_r; [done..|]. rewrite !lseg_app. naive_solver.
Qed.

Section spec.
Context (base lo : Z).
Hypothesis (Hbase : 0 < base ∧ base + 8 ≤ lo).

Definition nodes (t : list seg) : list (Z * Z) := (base, 0) :: free_nodes t.

Record hinv (s : heap) (t : list seg) : Prop := {
  hi_tiles : tiles lo t (brk s);
  hi_brk : brk s < 2 ^ 31;
  hi_ring : lseg (word s) (nodes t) base;
  hi_freep : freep s ∈ (nodes t).*1;
  hi_used a u : Seg a u false ∈ t → word s (a + 4) = u;
  hi_coal : coalesced false t
}.

Lemma nodes_app t1 t2 : nodes (t1 ++ t2) = nodes t1 ++ free_nodes t2.
Proof. unfold nodes. by rewrite free_nodes_app. Qed.

Lemma node_range s t a u : hinv s t → (a, u) ∈ nodes t → (a = base ∧ u = 0) ∨ (lo ≤ a ∧ 1 ≤ u ∧ a + HDR * u ≤ brk s).
Proof.
  intros H. unfold nodes. rewrite elem_of_cons. intros [[= -> ->]|Hin]; [by left|right]. apply elem_free_nodes in Hin.
  destruct (tiles_range _ _ _ (hi_tiles _ _ H)) as [_ Hr]. rewrite Forall_forall in Hr. apply Hr in Hin. cbn in Hin. lia.
Qed.

Lemma wp_heap_load s a Q : valid base lo s a = true → Q (word s a) s → wp (load base lo a) Q s.
Proof. intros Hv HQ. unfold load. wp_step. eapply wp_intro; [done|]. cbn beta. rewrite Hv. by apply wp_ret. Qed.
Lemma wp_heap_store s a v Q : valid base lo s a = true → Q tt (set_word (λ x, if x =? a then v else word s x) s) → wp (store base lo a v) Q s.
Proof. intros Hv HQ. unfold store. wp_step. eapply wp_intro; [done|]. cbn beta. rewrite Hv. done. Qed.

(** Both words of a header can be accessed. *)
Definition header_ok (s : heap) (a : Z) : Prop := a = base ∨ lo ≤ a ∧ a + HDR ≤ brk s.
Lemma header_valid s a : header_ok s a → valid base lo s a = true ∧ valid base lo s (a + 4) = true.
Proof. unfold header_ok, valid, HDR. intros H. rewrite !orb_true_iff, !andb_true_iff, !Z.leb_le. lia. Qed.
Lemma node_ok s t a u : hinv s t → (a, u) ∈ nodes t → header_ok s a.
Proof. intros H Hin. destruct (node_range s t a u H Hin) as [[-> _]|Hr]; [by left|right]. unfold HDR in *. lia. Qed.

Lemma wp_ptr s a Q : header_ok s a → Q (word s a) s → wp (ptr base lo a) Q s.
Proof. intros [H1 H2]%header_valid HQ. by apply wp_heap_load. Qed.
Lemma wp_size s a Q : header_ok s a → Q (word s (a + 4)) s → wp (size base lo a) Q s.
Proof. intros [H1 H2]%header_valid HQ. by apply wp_heap_load. Qed.
Lemma wp_set_ptr s a v Q : header_ok s a → Q tt (set_word (λ x, if x =? a then v else word s x) s) → wp (set_ptr base lo a v) Q s.
Proof. intros [H1 H2]%header_valid HQ. by apply wp_heap_store. Qed.
Lemma wp_set_size s a v Q : header_ok s a → Q tt (set_word (λ x, if x =? a + 4 then v else word s x) s) → wp (set_size base lo a v) Q s.
Proof. intros [H1 H2]%header_valid HQ. by apply wp_heap_store. Qed.

(** ** Where a block goes *)

(** In the order of the addresses. *)
Definition before (x y : Z * Z) : Prop := x.1 + 8 ≤ y.1 ∧ x.1 + HDR * x.2 ≤ y.1.

Lemma free_nodes_sorted a t e : tiles a t e → StronglySorted before (free_nodes t).
Proof.
  revert a. induction t as [|x t IH]; intros a; cbn [tiles]; [intros _; constructor|]. intros (Ha & Hu & Ht). rewrite free_nodes_cons.
  destruct (sfree x); [|by eapply IH]. constructor; [by eapply IH|]. apply Forall_forall. intros [b v] Hb%elem_free_nodes.
  destruct (tiles_range _ _ _ Ht) as [_ Hr]. rewrite Forall_forall in Hr. apply Hr in Hb. unfold before, HDR in *. cbn in *. lia.
Qed.
Lemma nodes_sorted t e : tiles lo t e → StronglySorted before (nodes t).
Proof using Hbase.
  intros Ht. constructor; [by eapply free_nodes_sorted|]. apply Forall_forall. intros [b v] Hb%elem_free_nodes.
  destruct (tiles_range _ _ _ Ht) as [_ Hr]. rewrite Forall_forall in Hr. apply Hr in Hb. unfold before, HDR in *. cbn in *. lia.
Qed.

(** From a block below [bp]. *)
Lemma place_up s bp p u Y Q X : ∀ fuel,
  (length X < fuel)%nat → lseg (word s) (X ++ (p, u) :: Y) base → Forall (λ x, header_ok s x.1) (X ++ [(p, u)]) →
  StronglySorted before (X ++ (p, u) :: Y) → base ≤ p < bp → Forall (λ y, bp < y.1) Y →
  Q p s → wp (find_place base lo fuel bp (nxt (X ++ [(p, u)]) 0)) Q s.
Proof.
  induction X as [|[a v] X IH]; intros [|fuel] Hf HL Hok Hs Hp HY HQ; cbn [length] in Hf; try lia; cbn [app nxt find_place].
  - cbn [app lseg] in HL. destruct HL as (E & _ & _). apply Forall_cons in Hok as [Hok _]. wp_step. apply wp_ptr; [done|]. rewrite E.
    destruct Y as [|[y v] Y]; cbn [nxt].
    + rewrite (proj2 (Z.ltb_ge bp base)), andb_false_r by lia. rewrite (proj2 (Z.leb_le base p)), (proj2 (Z.ltb_lt p bp)) by lia. by apply wp_ret.
    + apply Forall_cons in HY as [HY _]. cbn in HY. rewrite (proj2 (Z.ltb_lt p bp)), (proj2 (Z.ltb_lt bp y)) by lia. by apply wp_ret.
  - cbn [app lseg] in HL. destruct HL as (E & _ & HL). apply Forall_cons in Hok as [Hok1 Hok]. inversion Hs as [|? ? Hs' Hall]; subst.
    wp_step. apply wp_ptr; [done|]. rewrite E.
    assert (nxt (X ++ (p, u) :: Y) base = nxt (X ++ [(p, u)]) 0) as -> by (by destruct X as [|[]]).
    assert (a < nxt (X ++ [(p, u)]) 0 ≤ p) as Hn.
    { destruct X as [|[b v'] X]; cbn [app nxt] in *.
      - apply Forall_cons in Hall as [Hb _]. unfold before in Hb. cbn in Hb. lia.
      - apply Forall_cons in Hall as [Hb _]. inversion Hs' as [|? ? _ Hall']; subst. apply Forall_app in Hall' as [_ Hb'].
        apply Forall_cons in Hb' as [Hb' _]. unfold before in *. cbn in *. lia. }
    rewrite (proj2 (Z.ltb_ge bp _)), andb_false_r by lia. rewrite (proj2 (Z.leb_gt _ a)) by lia. cbn [andb]. apply IH; auto; lia.
Qed.

(** From a block above [bp]: the search goes round. *)
Lemma place_round s bp Q Y : ∀ fuel k,
  (length Y + k ≤ fuel)%nat → Y ≠ [] → lseg (word s) Y base → Forall (λ x, header_ok s x.1) Y → StronglySorted before Y →
  base < bp → Forall (λ y, bp < y.1) Y →
  (∀ fuel', (k ≤ fuel')%nat → wp (find_place base lo fuel' bp base) Q s) → wp (find_place base lo fuel bp (nxt Y 0)) Q s.
Proof.
  induction Y as [|[a v] Y IH]; intros fuel k Hf Hne HL Hok Hs Hb HY HQ; [done|]. destruct fuel as [|fuel]; cbn [length] in Hf; [lia|].
  cbn [nxt find_place]. cbn [lseg] in HL. destruct HL as (E & _ & HL). apply Forall_cons in Hok as [Hok1 Hok]. inversion Hs as [|? ? Hs' Hall]; subst.
  apply Forall_cons in HY as [Ha HY]. cbn in Ha. wp_step. apply wp_ptr; [done|]. rewrite E. rewrite (proj2 (Z.ltb_ge a bp)) by lia. cbn [andb orb].
  destruct Y as [|[b v'] Y]; cbn [nxt].
  - rewrite (proj2 (Z.ltb_ge bp base)), andb_false_r by lia. apply HQ. cbn in Hf. lia.
  - apply Forall_cons in Hall as [Hb' _]. unfold before in Hb'. cbn in Hb'. rewrite (proj2 (Z.leb_gt b a)) by lia. cbn [andb].
    apply (IH fuel k); auto. lia.
Qed.
End spec.
