(* ===== verification/UmallocFree.v ===== *)
(** * free of the user-level allocator (xv6: umalloc.c) *)

From stdpp Require Import sorting.
From S2P Require Import Prelude Umalloc UmallocSpec.

(** ** The blocks after free *)

(** The block of [n] units takes in a free block after it, and one before it. *)
Definition join_right (n : Z) (t2 : list seg) : Z * list seg :=
  match t2 with Seg _ v true :: t2' => (n + v, t2') | _ => (n, t2) end.
Definition join_left (t1 : list seg) (a n : Z) (t2 : list seg) : list seg :=
  match last t1 with
  | Some (Seg p u true) => removelast t1 ++ Seg p (u + n) true :: t2
  | _ => t1 ++ Seg a n true :: t2
  end.
Definition freed (t1 : list seg) (a n : Z) (t2 : list seg) : list seg :=
  join_left t1 a (join_right n t2).1 (join_right n t2).2.

Lemma used_freed t1 a n t2 : used_blocks (freed t1 a n t2) = used_blocks (t1 ++ t2).
Proof.
  unfold freed. assert (used_blocks (join_right n t2).2 = used_blocks t2) as E.
  { destruct t2 as [|[q v [|]] t2]; cbn [join_right snd]; rewrite ?used_blocks_cons; done. }
  destruct (join_right n t2) as [n' t2']. cbn [fst snd] in *. unfold join_left. destruct (last t1) as [[p u [|]]|] eqn:El.
  - apply last_Some in El as [t1' ->]. rewrite removelast_last, !used_blocks_app, !used_blocks_cons, E. cbn. by rewrite app_nil_r.
  - rewrite !used_blocks_app, used_blocks_cons, E. done.
  - rewrite !used_blocks_app, used_blocks_cons, E. done.
Qed.

Section free.
Context (base lo : Z).
Hypothesis (Hbase : 0 < base ∧ base + 8 ≤ lo).
Abbreviation hinv := (hinv base lo).
Abbreviation nodes := (nodes base).
Abbreviation header_ok := (header_ok base lo).

Section block.
Context (s : heap) (t1 : list seg) (bp n : Z) (t2 : list seg) (A : list (Z * Z)) (p u : Z).
Hypothesis (H : hinv s (t1 ++ Seg bp n false :: t2)) (Hn : nodes t1 = A ++ [(p, u)]).

Lemma block_tiles : tiles lo t1 bp ∧ 1 ≤ n ∧ tiles (bp + HDR * n) t2 (brk s) ∧ lo ≤ bp ∧ bp + HDR * n ≤ brk s.
Proof.
  pose proof (hi_tiles _ _ _ _ H) as Ht. apply tiles_app in Ht as (m & H1 & H2). cbn [tiles sat sun] in H2. destruct H2 as (-> & H2 & H3).
  pose proof (tiles_range _ _ _ H1). pose proof (tiles_range _ _ _ H3). naive_solver.
Qed.
Lemma block_nodes : nodes (t1 ++ Seg bp n false :: t2) = A ++ (p, u) :: free_nodes t2.
Proof. rewrite nodes_app, Hn, free_nodes_cons. cbn [sfree]. by rewrite <- app_assoc. Qed.
Lemma nodes_below a v : (a, v) ∈ nodes t1 → base ≤ a ∧ a + 8 ≤ bp ∧ 0 ≤ v ∧ a + HDR * v ≤ bp ∧ header_ok s a.
Proof.
  intros Hin. destruct block_tiles as (Ht & ? & ? & ? & ?). unfold UmallocSpec.nodes in Hin. apply elem_of_cons in Hin as [[= -> ->]|Hin].
  - unfold HDR. split_and!; try lia. by left.
  - apply elem_free_nodes in Hin. apply tiles_range in Ht as [_ Hr]. rewrite Forall_forall in Hr. apply Hr in Hin. unfold HDR in *. cbn in Hin.
    split_and!; try lia. right. unfold HDR. lia.
Qed.
Lemma nodes_above a v : (a, v) ∈ free_nodes t2 → bp + HDR * n ≤ a ∧ 1 ≤ v ∧ a + HDR * v ≤ brk s ∧ header_ok s a.
Proof.
  intros Hin%elem_free_nodes. destruct block_tiles as (_ & ? & Ht & ? & ?). apply tiles_range in Ht as [_ Hr]. rewrite Forall_forall in Hr. apply Hr in Hin.
  unfold HDR in *. cbn in Hin. split_and!; try lia. right. unfold HDR. lia.
Qed.
Lemma pred_below : (p, u) ∈ nodes t1.
Proof. rewrite Hn. apply elem_of_app. right. by left. Qed.

Lemma nodes_count : (length (A ++ (p, u) :: free_nodes t2) ≤ max_blocks lo s)%nat.
Proof.
  rewrite <- block_nodes. pose proof (tiles_count _ _ _ (hi_tiles _ _ _ _ H)) as Hc. unfold max_blocks.
  assert (length (nodes (t1 ++ Seg bp n false :: t2)) ≤ S (length (t1 ++ Seg bp n false :: t2)))%nat as Hl.
  { unfold UmallocSpec.nodes, free_nodes. cbn [length]. rewrite length_fmap. pose proof (length_filter (λ x, sfree x = true) (t1 ++ Seg bp n false :: t2)). lia. }
  assert (length (t1 ++ Seg bp n false :: t2) ≤ Z.to_nat ((brk s - lo) / HDR))%nat; [|lia].
  unfold HDR, lenZ in *. assert (Z.of_nat (length (t1 ++ Seg bp n false :: t2)) ≤ (brk s - lo) / 8) by (apply Z.div_le_lower_bound; lia). lia.
Qed.

Lemma wp_find_place Q : Q p s → wp (find_place base lo (max_blocks lo s) bp (freep s)) Q s.
Proof.
  intros HQ. pose proof nodes_count as Hc. pose proof (hi_ring _ _ _ _ H) as HL. rewrite block_nodes in HL.
  pose proof (nodes_sorted base lo Hbase _ _ (hi_tiles _ _ _ _ H)) as Hs. rewrite block_nodes in Hs. pose proof (hi_freep _ _ _ _ H) as Hf. rewrite block_nodes in Hf.
  destruct (nodes_below p u pred_below) as (Hp1 & Hp2 & _). rewrite length_app in Hc. cbn [length] in Hc.
  assert (Forall (λ x, header_ok s x.1) (A ++ [(p, u)])) as Hok1 by (rewrite <- Hn; apply Forall_forall; intros [a v] Ha; apply (nodes_below a v Ha)).
  assert (Forall (λ x, header_ok s x.1) (free_nodes t2)) as Hok2 by (apply Forall_forall; intros [a v] Ha; apply (nodes_above a v Ha)).
  assert (Forall (λ y, bp < y.1) (free_nodes t2)) as HY.
  { apply Forall_forall. intros [a v] Ha. destruct block_tiles as (_ & ? & _). destruct (nodes_above a v Ha) as (? & _). unfold HDR in *. cbn. lia. }
  assert (∀ X fuel, (∃ A1, A = A1 ++ X) → (length X < fuel)%nat → wp (find_place base lo fuel bp (nxt (X ++ [(p, u)]) 0)) Q s) as Hup.
  { intros X fuel [A1 ->] Hfu. rewrite <- !app_assoc in *. apply (place_up base lo s bp p u (free_nodes t2) Q X); try done; try lia.
    - by apply lseg_app in HL as [_ HL].
    - by apply Forall_app in Hok1 as [_ Hok1].
    - by apply StronglySorted_app_1_r in Hs. }
  apply list_elem_of_fmap in Hf as ([f v] & Ef & Hf). cbn in Ef. rewrite Ef. rewrite cons_middle, app_assoc in Hf. apply elem_of_app in Hf as [Hf|Hf].
  - apply elem_of_app in Hf as [Hf|Hf].
    + apply list_elem_of_split in Hf as (A1 & A2 & EA). apply (Hup ((f, v) :: A2)); [by exists A1|]. rewrite EA, length_app in Hc. cbn [length] in *. lia.
    + apply list_elem_of_singleton in Hf as [= -> ->]. apply (Hup []); [exists A; by rewrite app_nil_r|cbn; lia].
  - apply list_elem_of_split in Hf as (Y1 & Y2 & EY). rewrite EY in *. rewrite length_app in Hc. cbn [length] in Hc.
    apply (place_round base lo s bp Q ((f, v) :: Y2) _ (S (length A))); try done; try (cbn [length]; lia).
    + apply lseg_app in HL as [_ HL]. cbn [lseg] in HL. destruct HL as (_ & _ & HL). by apply lseg_app in HL as [_ HL].
    + by apply Forall_app in Hok2 as [_ ?].
    + apply StronglySorted_app_1_r in Hs. inversion Hs as [|? ? Hs' _]. by apply StronglySorted_app_1_r in Hs'.
    + by apply Forall_app in HY as [_ ?].
    + intros fuel' Hf'. assert (base = nxt (A ++ [(p, u)]) 0) as -> by (by rewrite <- Hn). apply (Hup A); [by exists []|lia].
Qed.

(** The tests for neighbours. *)
Lemma right_test : (bp + HDR * n =? nxt (free_nodes t2) base) = match t2 with Seg _ _ true :: _ => true | _ => false end.
Proof.
  destruct block_tiles as (_ & Hn1 & Ht & Hlo & _). destruct t2 as [|[q v [|]] t2'] eqn:Et.
  - cbn. apply Z.eqb_neq. unfold HDR. lia.
  - rewrite free_nodes_cons. cbn [tiles sat sun sfree nxt] in *. apply Z.eqb_eq. lia.
  - apply Z.eqb_neq. rewrite free_nodes_cons. cbn [sfree tiles sat sun] in *. destruct Ht as (_ & Hv & Ht). destruct (free_nodes t2') as [|[a w] L] eqn:EL.
    + cbn. unfold HDR. lia.
    + assert (Seg a w true ∈ t2') as Hin by (apply elem_free_nodes; rewrite EL; by left). apply tiles_range in Ht as [_ Hr].
      rewrite Forall_forall in Hr. apply Hr in Hin. cbn in *. unfold HDR in *. lia.
Qed.
Lemma left_test : (p + HDR * u =? bp) = match last t1 with Some (Seg _ _ true) => true | _ => false end.
Proof.
  destruct block_tiles as (Ht & _). destruct (last t1) as [x|] eqn:El.
  - apply last_Some in El as [t1' E]. rewrite E in *. apply tiles_app in Ht as (m & Ht1 & Ht2). cbn [tiles] in Ht2. destruct Ht2 as (<- & Hx & Ex).
    rewrite nodes_app, free_nodes_cons in Hn. destruct x as [a v [|]]; cbn [sat sun sfree] in *.
    + apply app_inj_tail in Hn as [_ [= -> ->]]. by apply Z.eqb_eq.
    + change (free_nodes []) with (@nil (Z * Z)) in Hn. rewrite app_nil_r in Hn. apply Z.eqb_neq. assert ((p, u) ∈ nodes t1') as Hin by (rewrite Hn; apply elem_of_app; right; by left).
      unfold UmallocSpec.nodes in Hin. apply elem_of_cons in Hin as [[= -> ->]|Hin].
      * apply tiles_range in Ht1 as [? _]. unfold HDR in *. lia.
      * apply elem_free_nodes in Hin. apply tiles_range in Ht1 as [_ Hr]. rewrite Forall_forall in Hr. apply Hr in Hin. cbn in Hin. unfold HDR in *. lia.
  - apply last_None in El. rewrite El in Hn. cbn in Hn. destruct A as [|? [|]]; [|done..]. injection Hn as <- <-. apply Z.eqb_neq.
    rewrite El in Ht. cbn in Ht. unfold HDR. lia.
Qed.

(** The words of the list at the place. *)
Lemma place_words : lseg (word s) A p ∧ word s p = nxt (free_nodes t2) base ∧ word s (p + 4) = u ∧ lseg (word s) (free_nodes t2) base.
Proof.
  pose proof (hi_ring _ _ _ _ H) as HL. rewrite block_nodes in HL. apply lseg_app in HL as [H1 H2]. cbn [lseg nxt] in *. tauto.
Qed.

Abbreviation n' := (join_right n t2).1.
Abbreviation t2' := (join_right n t2).2.

Lemma wp_right Q :
  (∀ s1, brk s1 = brk s → freep s1 = freep s → word s1 bp = nxt (free_nodes t2') base → word s1 (bp + 4) = n' →
     (∀ x, x ≠ bp → x ≠ bp + 4 → word s1 x = word s x) → Q tt s1) →
  wp (if bp + HDR * n =? nxt (free_nodes t2) base then
        ns ← size base lo (nxt (free_nodes t2) base); set_size base lo bp (u32 (n + ns));; nn ← ptr base lo (nxt (free_nodes t2) base); set_ptr base lo bp nn
      else set_ptr base lo bp (nxt (free_nodes t2) base)) Q s.
Proof.
  intros HQ. destruct block_tiles as (_ & Hn1 & Ht & Hlo & Hhi). assert (header_ok s bp) as Hok by (right; unfold HDR in *; lia).
  rewrite right_test. destruct place_words as (_ & _ & _ & HL). pose proof nodes_above as Hab. pose proof (hi_brk _ _ _ _ H) as Hbrk.
  pose proof (hi_used _ _ _ _ H bp n ltac:(apply elem_of_app; right; by left)) as Hsz.
  assert (∀ v, wp (set_ptr base lo bp v) (λ _ s1, brk s1 = brk s ∧ freep s1 = freep s ∧ word s1 bp = v ∧ word s1 (bp + 4) = n ∧ (∀ x, x ≠ bp → x ≠ bp + 4 → word s1 x = word s x)) s) as Hset.
  { intros v. apply wp_set_ptr; [done|]. cbn [set_word brk freep word]. rewrite Z.eqb_refl, (proj2 (Z.eqb_neq (bp + 4) bp)) by lia.
    split_and!; [done..|]. intros x ? _. by rewrite (proj2 (Z.eqb_neq x bp)). }
  destruct t2 as [|[q v [|]] t2'']; cbn [join_right fst snd] in *.
  1, 3: eapply wp_mono; [apply Hset|]; intros [] s1 (? & ? & ? & ? & ?); by apply HQ.
  rewrite free_nodes_cons in *. cbn [sfree sat sun nxt lseg] in *. destruct HL as (E1 & E2 & HL). destruct (Hab q v) as (Hq1 & Hq2 & Hq3 & Hq4); [by left|].
  unfold HDR in *. wp_step. apply wp_size; [done|]. rewrite E2. wp_step. apply wp_set_size; [done|]. wp_step. apply wp_ptr; [done|].
  cbn [set_word word brk freep]. rewrite (proj2 (Z.eqb_neq q (bp + 4))), E1 by lia. apply wp_set_ptr; [done|].
  apply HQ; cbn [set_word word brk freep]; [done|done|by rewrite Z.eqb_refl| |].
  - rewrite (proj2 (Z.eqb_neq (bp + 4) bp)), Z.eqb_refl by lia. apply u32_small. lia.
  - intros x H1 H2. by rewrite (proj2 (Z.eqb_neq x bp)), (proj2 (Z.eqb_neq x (bp + 4))) by done.
Qed.

(** What [free] stores. *)
Definition stores (w : Z → Z) : Prop :=
  (∀ x, x ≠ bp → x ≠ bp + 4 → x ≠ p → x ≠ p + 4 → w x = word s x) ∧
  match last t1 with
  | Some (Seg _ _ true) => w p = nxt (free_nodes t2') base ∧ w (p + 4) = u + n'
  | _ => w p = bp ∧ w (p + 4) = u ∧ w bp = nxt (free_nodes t2') base ∧ w (bp + 4) = n'
  end.

Lemma join_right_bound : n ≤ n' ∧ bp + HDR * n' ≤ brk s.
Proof.
  destruct block_tiles as (_ & Hn1 & Ht & Hlo & Hhi). destruct t2 as [|[q v [|]] t2'']; cbn [join_right fst snd tiles sat sun] in *; try lia.
  destruct Ht as (-> & Hv & Ht). apply tiles_range in Ht as [Ht _]. unfold HDR in *. lia.
Qed.

Lemma wp_free Q : (∀ w, stores w → Q tt (Heap w (brk s) p)) → wp (free base lo (bp + HDR)) Q s.
Proof.
  intros HQ. unfold free. replace (bp + HDR - HDR) with bp by (unfold HDR; lia). wp_step. eapply wp_intro; [done|]. cbn beta. wp_step. apply wp_find_place.
  destruct block_tiles as (_ & Hn1 & Ht & Hlo & Hhi). assert (header_ok s bp) as Hok by (right; unfold HDR in *; lia).
  destruct (nodes_below p u pred_below) as (Hp1 & Hp2 & Hp3 & Hp4 & Hokp). destruct place_words as (_ & Ep & Eu & _). pose proof join_right_bound as [Hj1 Hj2].
  pose proof (hi_brk _ _ _ _ H) as Hbrk. pose proof (hi_used _ _ _ _ H bp n ltac:(apply elem_of_app; right; by left)) as Hsz. pose proof left_test as Hleft.
  wp_step. apply wp_size; [done|]. rewrite Hsz. wp_step. apply wp_ptr; [done|]. rewrite Ep. wp_step. apply wp_right. intros s1 Hb Hf E1 E2 Hfr.
  assert (header_ok s1 bp) as Hok' by (unfold UmallocSpec.header_ok in *; by rewrite Hb). assert (header_ok s1 p) as Hokp' by (unfold UmallocSpec.header_ok in *; by rewrite Hb).
  wp_step. apply wp_size; [done|]. rewrite (Hfr (p + 4)), Eu by lia. rewrite Hleft. unfold stores in HQ. destruct (last t1) as [[a v [|]]|].
  1: { wp_step. wp_step. apply wp_size; [done|]. rewrite E2. wp_step. apply wp_set_size; [done|]. wp_step. apply wp_ptr; [done|]. cbn [set_word word].
    rewrite (proj2 (Z.eqb_neq bp (p + 4))), E1 by lia. apply wp_set_ptr; [done|]. wp_step. unfold set_freep. cbn [set_word word brk]. rewrite Hb. apply HQ. split.
    - intros x X1 X2 X3 X4. by rewrite (proj2 (Z.eqb_neq x p)), (proj2 (Z.eqb_neq x (p + 4))), Hfr by done.
    - rewrite Z.eqb_refl, (proj2 (Z.eqb_neq (p + 4) p)), Z.eqb_refl by lia. split; [done|]. apply u32_small. unfold HDR in *. lia. }
  all: wp_step; apply wp_set_ptr; [done|]; wp_step; unfold set_freep; cbn [set_word word brk]; rewrite Hb; apply HQ; split.
  all: try (intros x X1 X2 X3 X4; by rewrite (proj2 (Z.eqb_neq x p)), Hfr by done).
  all: rewrite Z.eqb_refl, (proj2 (Z.eqb_neq (p + 4) p)), (proj2 (Z.eqb_neq bp p)), (proj2 (Z.eqb_neq (bp + 4) p)), Hfr by lia; done.
Qed.

(** The words of the blocks in use, this one apart, stay. *)
Lemma used_apart a v x : Seg a v false ∈ t1 ++ t2 → a ≤ x < a + HDR * v → x ≠ bp ∧ x ≠ bp + 4 ∧ x ≠ p ∧ x ≠ p + 4.
Proof.
  intros Hin Hx. pose proof (hi_tiles _ _ _ _ H) as Ht. pose proof (tiles_apart _ _ _ _ _ _ Ht Hin) as Hap. cbn [sat sun] in Hap.
  destruct block_tiles as (_ & Hn1 & _). assert (a + HDR * v ≤ p ∨ p + 8 ≤ a); [|unfold HDR in *; lia].
  pose proof pred_below as Hp. unfold UmallocSpec.nodes in Hp. apply elem_of_cons in Hp as [[= -> ->]|Hp].
  - right. apply tiles_range in Ht as [_ Hr]. rewrite Forall_forall in Hr. assert (Seg a v false ∈ t1 ++ Seg bp n false :: t2) as Hin2.
    { apply elem_of_app in Hin as [|]; apply elem_of_app; [by left|right; by right]. }
    apply Hr in Hin2. cbn in Hin2. lia.
  - apply elem_free_nodes, list_elem_of_split in Hp as (L1 & L2 & E). rewrite E in *. rewrite <- app_assoc in Ht. cbn [app] in Ht.
    assert (Seg a v false ∈ L1 ++ (L2 ++ Seg bp n false :: t2)) as Hin2.
    { rewrite <- app_assoc in Hin. cbn [app] in Hin. apply elem_of_app in Hin as [Hin|Hin]; [apply elem_of_app; by left|]. apply elem_of_cons in Hin as [[=]|Hin].
      apply elem_of_app. right. apply elem_of_app in Hin as [|]; apply elem_of_app; [by left|right; by right]. }
    apply (tiles_apart _ _ _ _ _ _ Ht) in Hin2. cbn [sat sun] in Hin2. assert (1 ≤ u); [|unfold HDR in *; lia].
    apply tiles_range in Ht as [_ Hr]. apply Forall_app in Hr as [_ Hr]. apply Forall_cons in Hr as [Hr _]. cbn in Hr. lia.
Qed.

Lemma freed_tiles : tiles lo (freed t1 bp n t2) (brk s).
Proof.
  destruct block_tiles as (Ht1 & Hn1 & Ht2 & _). unfold freed. pose proof join_right_bound as [Hj _].
  assert (tiles (bp + HDR * n') t2' (brk s)) as Htr.
  { destruct t2 as [|[q v [|]] t2'']; cbn [join_right fst snd] in *; [done| |done]. cbn [tiles sat sun] in Ht2. destruct Ht2 as (-> & _ & Ht2).
    by replace (bp + HDR * (n + v)) with (bp + HDR * n + HDR * v) by (unfold HDR; lia). }
  set (nn := n') in *. set (tt := t2') in *. unfold join_left. destruct (last t1) as [[a v [|]]|] eqn:El.
  - apply last_Some in El as [L E]. rewrite E, removelast_last in *. apply tiles_app in Ht1 as (m & Hm & Hx). cbn [tiles sat sun] in Hx. destruct Hx as (-> & Hv & Hx).
    apply tiles_app. exists m. split; [done|]. cbn [tiles sat sun]. split_and!; [done|lia|]. by replace (m + HDR * (v + nn)) with (bp + HDR * nn) by (unfold HDR in *; lia).
  - apply tiles_app. exists bp. split; [done|]. cbn [tiles sat sun]. split_and!; [done|lia|done].
  - apply tiles_app. exists bp. split; [done|]. cbn [tiles sat sun]. split_and!; [done|lia|done].
Qed.

Lemma freed_coalesced : coalesced false (freed t1 bp n t2).
Proof.
  pose proof (hi_coal _ _ _ _ H) as Hc. apply coalesced_app in Hc as [Hc1 Hc2]. cbn [coalesced sfree] in Hc2. destruct Hc2 as [_ Hc2]. unfold freed.
  assert (coalesced true t2') as Hr.
  { destruct t2 as [|[q v [|]] t2'']; cbn [join_right fst snd coalesced sfree] in *; tauto. }
  set (nn := n') in *. set (tt := t2') in *. unfold join_left. destruct (last t1) as [[a v [|]]|] eqn:El.
  - apply last_Some in El as [L E]. rewrite E, removelast_last in *. apply coalesced_app in Hc1 as [Hc1 Hx]. apply coalesced_app. cbn [coalesced sfree] in *. tauto.
  - apply coalesced_app. split; [done|]. unfold last_free. rewrite El. cbn [coalesced sfree]. done.
  - apply coalesced_app. split; [done|]. unfold last_free. rewrite El. cbn [coalesced sfree]. done.
Qed.

Lemma freed_ring w : stores w → lseg w (nodes (freed t1 bp n t2)) base ∧ p ∈ (nodes (freed t1 bp n t2)).*1.
Proof.
  intros [Hfr Hw]. destruct place_words as (HA & _ & _ & HL). destruct block_tiles as (_ & Hn1 & _). pose proof (nodes_below p u pred_below) as (_ & Hpb & _).
  pose proof (nodes_sorted base lo Hbase _ _ (hi_tiles _ _ _ _ H)) as Hs. rewrite block_nodes in Hs.
  assert (lseg w A p) as HA'.
  { eapply lseg_frame; [exact HA|]. intros a v Ha. destruct (nodes_below a v) as (_ & Hab & _); [rewrite Hn; apply elem_of_app; by left|].
    pose proof (StronglySorted_app_1_elem_of _ _ _ (a, v) (p, u) Hs Ha ltac:(by left)) as [Hb _]. cbn in Hb. split; apply Hfr; lia. }
  assert (lseg w (free_nodes t2') base) as HL'.
  { eapply (lseg_frame (word s)).
    - destruct t2 as [|[q v [|]] t2'']; cbn [join_right fst snd] in *; [done| |done]. rewrite free_nodes_cons in HL. cbn in HL. tauto.
    - intros a v Ha. destruct (nodes_above a v) as (Hab & _).
      { destruct t2 as [|[q v' [|]] t2'']; cbn [join_right fst snd] in *; [done| |done]. rewrite free_nodes_cons. by right. }
      unfold HDR in *. split; apply Hfr; lia. }
  unfold freed. set (nn := n') in *. set (tt := t2') in *. unfold join_left. destruct (last t1) as [[a v [|]]|] eqn:El.
  - apply last_Some in El as [L E]. rewrite E in *. rewrite removelast_last. rewrite nodes_app, free_nodes_cons in Hn. cbn [sfree sat sun] in Hn. apply app_inj_tail in Hn as [E1 [= <- <-]].
    rewrite nodes_app, free_nodes_cons, E1. cbn [sfree sat sun]. split.
    + apply lseg_app. cbn [lseg nxt]. naive_solver.
    + rewrite fmap_app. apply elem_of_app. right. by left.
  - rewrite nodes_app, free_nodes_cons, Hn, <- app_assoc. cbn [sfree sat sun app]. split; [apply lseg_app; cbn [lseg nxt]; naive_solver|].
    rewrite fmap_app. apply elem_of_app. right. by left.
  - rewrite nodes_app, free_nodes_cons, Hn, <- app_assoc. cbn [sfree sat sun app]. split; [apply lseg_app; cbn [lseg nxt]; naive_solver|].
    rewrite fmap_app. apply elem_of_app. right. by left.
Qed.

Lemma freed_hinv w : stores w → hinv (Heap w (brk s) p) (freed t1 bp n t2).
Proof.
  intros Hw. destruct (freed_ring w Hw) as [H1 H2]. constructor; cbn [brk word freep]; [apply freed_tiles|apply (hi_brk _ _ _ _ H)|done|done| |apply freed_coalesced].
  intros a v Hin. apply elem_used_blocks in Hin. rewrite used_freed in Hin. apply elem_used_blocks in Hin.
  assert (Seg a v false ∈ t1 ++ Seg bp n false :: t2) as Hin2 by (apply elem_of_app in Hin as [|]; apply elem_of_app; [by left|right; by right]).
  rewrite <- (hi_used _ _ _ _ H a v Hin2). pose proof (tiles_range _ _ _ (hi_tiles _ _ _ _ H)) as [_ Hr]. rewrite Forall_forall in Hr. apply Hr in Hin2. cbn in Hin2.
  destruct (used_apart a v (a + 4) Hin) as (? & ? & ? & ?); [unfold HDR in *; lia|]. by apply Hw.
Qed.
End block.

(** [free] of a block in use: the block is free and joined with its free
    neighbours, and the other blocks in use keep their words. *)
Lemma wp_free_spec s t1 bp n t2 : hinv s (t1 ++ Seg bp n false :: t2) →
  wp (free base lo (bp + HDR)) (λ _ s', hinv s' (freed t1 bp n t2) ∧ brk s' = brk s ∧
    ∀ a v x, (a, v) ∈ used_blocks (t1 ++ t2) → a ≤ x < a + HDR * v → word s' x = word s x) s.
Proof.
  intros H. assert (nodes t1 ≠ []) as Hne by done. destruct (exists_last Hne) as (A & [p u] & Hn).
  apply (wp_free s t1 bp n t2 A p u H Hn). intros w Hw. split; [by apply (freed_hinv s t1 bp n t2 A p u)|]. split; [done|].
  intros a v x Hin%elem_used_blocks Hx. cbn [word]. destruct (used_apart s t1 bp n t2 A p u H Hn a v x Hin Hx) as (? & ? & ? & ?). by apply Hw.
Qed.
End free.
