(* ===== verification/UmallocThms.v ===== *)
(** * malloc of the user-level allocator, and programs that use it (xv6: umalloc.c) *)

From stdpp Require Import sorting.
From S2P Require Import Prelude Umalloc UmallocSpec UmallocFree.

(** The first element of a list that passes a test. *)
Lemma first_split {A} (P : A → Prop) `{∀ x, Decision (P x)} (l : list A) :
  Exists P l → ∃ l1 x l2, l = l1 ++ x :: l2 ∧ Forall (λ y, ¬ P y) l1 ∧ P x.
Proof.
  induction l as [|x l IH]; [by intros ?%Exists_nil|]. intros He. destruct (decide (P x)) as [Hx|Hx].
  - exists [], x, l. split_and!; [done|by apply Forall_nil|done].
  - apply Exists_cons in He as [?|He]; [done|]. destruct (IH He) as (l1 & y & l2 & -> & H1 & H2). exists (x :: l1), y, l2. split_and!; [done|by apply Forall_cons|done].
Qed.

Lemma lseg_lookup w L z i a u : lseg w L z → L !! i = Some (a, u) → w a = match L !! S i with Some (b, _) => b | None => z end ∧ w (a + 4) = u.
Proof.
  revert i. induction L as [|[b v] L IH]; intros i HL Hi; [done|]. cbn [lseg] in HL. destruct HL as (H1 & H2 & H3). destruct i as [|i].
  - injection Hi as -> ->. split; [|done]. rewrite H1. by destruct L as [|[]].
  - by apply IH.
Qed.

Lemma sorted_inj L i j a u v : StronglySorted before L → L !! i = Some (a, u) → L !! j = Some (a, v) → i = j.
Proof.
  intros Hs. revert i j. induction Hs as [|x L Hs IH Hall]; intros i j Hi Hj; [done|]. rewrite Forall_forall in Hall. destruct i as [|i], j as [|j]; [done|..].
  - injection Hi as ->. rewrite lookup_cons_ne_0 in Hj by done. apply list_elem_of_lookup_2, Hall in Hj. unfold before in Hj. cbn in Hj. lia.
  - injection Hj as ->. rewrite lookup_cons_ne_0 in Hi by done. apply list_elem_of_lookup_2, Hall in Hi. unfold before in Hi. cbn in Hi. lia.
  - f_equal. by apply IH.
Qed.

Definition last_addr (d : Z) (V : list (Z * Z)) : Z := match last V with Some (a, _) => a | None => d end.
Lemma last_addr_cons d a u V : last_addr d ((a, u) :: V) = last_addr a V.
Proof. unfold last_addr. rewrite last_cons. by destruct (last V) as [[]|]. Qed.

Section malloc.
Context (base lo : Z).
Hypothesis (Hbase : 0 < base ∧ base + 8 ≤ lo).
Abbreviation hinv := (hinv base lo).
Abbreviation nodes := (nodes base).
Abbreviation header_ok := (header_ok base lo).

Lemma nodes_bound s t : hinv s t → (length (nodes t) ≤ max_blocks lo s)%nat.
Proof.
  intros H. pose proof (tiles_count _ _ _ (hi_tiles _ _ _ _ H)) as Hc. unfold max_blocks, UmallocSpec.nodes, free_nodes. cbn [length]. rewrite length_fmap.
  pose proof (length_filter (λ x, sfree x = true) t). unfold HDR, lenZ in *. assert (Z.of_nat (length t) ≤ (brk s - lo) / 8) by (apply Z.div_le_lower_bound; lia). lia.
Qed.

(** A block in use and a free one. *)
Lemma used_free_apart s t a v b u : hinv s t → (a, v) ∈ used_blocks t → (b, u) ∈ nodes t → a + HDR * v ≤ b ∨ (b + 8 ≤ a ∧ b + HDR * u ≤ a).
Proof.
  intros H Ha%elem_used_blocks Hb. pose proof (hi_tiles _ _ _ _ H) as Ht. unfold UmallocSpec.nodes in Hb. apply elem_of_cons in Hb as [[= -> ->]|Hb].
  - apply tiles_range in Ht as [_ Hr]. rewrite Forall_forall in Hr. apply Hr in Ha. cbn in Ha. unfold HDR in *. right. lia.
  - apply elem_free_nodes, list_elem_of_split in Hb as (L1 & L2 & ->). assert (1 ≤ u).
    { apply tiles_range in Ht as [_ Hr]. apply Forall_app in Hr as [_ Hr]. apply Forall_cons in Hr as [Hr _]. cbn in Hr. lia. }
    assert (Seg a v false ∈ L1 ++ L2) as Hin.
    { apply elem_of_app in Ha as [Ha|Ha]; [apply elem_of_app; by left|]. apply elem_of_cons in Ha as [[=]|Ha]. apply elem_of_app. by right. }
    apply (tiles_apart _ _ _ _ _ _ Ht) in Hin. cbn [sat sun] in Hin. unfold HDR in *. lia.
Qed.

(** ** Going round the free list *)

Lemma rotation s t : hinv s t → ∃ R v, (freep s, v) :: R ≡ₚ nodes t ∧ lseg (word s) ((freep s, v) :: R) (freep s).
Proof.
  intros H. pose proof (hi_freep _ _ _ _ H) as Hf. apply list_elem_of_fmap in Hf as ([f v] & Ef & Hf). cbn in Ef. apply list_elem_of_split in Hf as (A & B & E).
  exists (B ++ A), v. rewrite Ef. split; [rewrite E; by rewrite (Permutation_app_comm A)|].
  pose proof (hi_ring _ _ _ _ H) as HL. change (lseg (word s) (nodes t) (nxt (nodes t) 0)) in HL. rewrite E in HL. by apply lseg_rotate in HL.
Qed.

Lemma scan_to grant nunits s Q V : ∀ fuel prevp z,
  lseg (word s) V z → Forall (λ x, header_ok s x.1 ∧ x.2 < nunits ∧ x.1 ≠ freep s) V →
  wp (malloc_loop base lo grant fuel nunits (last_addr prevp V) z) Q s →
  wp (malloc_loop base lo grant (length V + fuel) nunits prevp (nxt V z)) Q s.
Proof.
  induction V as [|[a u] V IH]; intros fuel prevp z HL HV HQ; [done|]. cbn [lseg] in HL. destruct HL as (H1 & H2 & HL).
  apply Forall_cons in HV as [(Hok & Hu & Hf) HV]. cbn in Hok, Hu, Hf. cbn [length Nat.add malloc_loop nxt]. wp_step. apply wp_size; [done|].
  rewrite H2, (proj2 (Z.leb_gt nunits u)) by lia. wp_step. wp_step. rewrite (proj2 (Z.eqb_neq a (freep s)) Hf). wp_step. apply wp_ptr; [done|]. rewrite H1.
  apply IH; [done|done|]. by rewrite last_addr_cons in HQ.
Qed.

(** ** Taking a block *)

Definition taken (s : heap) (t : list seg) (n r : Z) (s' : heap) : Prop :=
  ∃ t1 t2 a, r = a + HDR ∧ hinv s' (t1 ++ Seg a n false :: t2) ∧ used_blocks (t1 ++ t2) = used_blocks t ∧
    ∀ b v x, (b, v) ∈ used_blocks t → b ≤ x < b + HDR * v → word s' x = word s x.

Lemma coalesced_use b t1 x t2 y : coalesced b (t1 ++ x :: t2) → sfree y = false → coalesced b (t1 ++ y :: t2).
Proof.
  intros Hc Hy. apply coalesced_app in Hc as [H1 H2]. apply coalesced_app. split; [done|]. cbn [coalesced] in *. rewrite Hy, andb_false_r. split; [done|].
  destruct t2 as [|z t2]; [done|]. cbn [coalesced] in *. tauto.
Qed.

(** The block before [p] in the list. *)
Lemma pred_unique s t1 p u t2 q : hinv s (t1 ++ Seg p u true :: t2) → q ∈ (nodes (t1 ++ Seg p u true :: t2)).*1 → word s q = p →
  ∃ A x, nodes t1 = A ++ [(q, x)].
Proof.
  intros H Hq Hw. assert (nodes t1 ≠ []) as Hne by done. destruct (exists_last Hne) as (A & [q' x] & EA). exists A, x. rewrite EA. do 3 f_equal.
  pose proof (nodes_sorted base lo Hbase _ _ (hi_tiles _ _ _ _ H)) as Hs. pose proof (hi_ring _ _ _ _ H) as HL.
  assert (nodes (t1 ++ Seg p u true :: t2) = A ++ (q', x) :: (p, u) :: free_nodes t2) as E by (rewrite nodes_app, EA, free_nodes_cons, <- app_assoc; done).
  assert (nodes (t1 ++ Seg p u true :: t2) !! S (length A) = Some (p, u)) as Hp by (rewrite E, lookup_app_r, Nat.sub_succ_l, Nat.sub_diag by lia; done).
  assert (nodes (t1 ++ Seg p u true :: t2) !! length A = Some (q', x)) as Hq' by (rewrite E, lookup_app_r, Nat.sub_diag by lia; done).
  apply list_elem_of_fmap in Hq as ([b v] & Eb & Hb). cbn in Eb. apply list_elem_of_lookup in Hb as [i Hi].
  destruct (lseg_lookup _ _ _ _ _ _ HL Hi) as [Hn _]. rewrite <- Eb, Hw in Hn.
  destruct (nodes (t1 ++ Seg p u true :: t2) !! S i) as [[c w]|] eqn:Ec.
  - subst c. pose proof (sorted_inj _ _ _ _ _ _ Hs Hp Ec) as [= <-]. rewrite Hq' in Hi. injection Hi as <- _. done.
  - destruct (node_range base lo _ _ p u H) as [[_ ->]|Hr]; [rewrite E; apply elem_of_app; right; right; by left| |lia].
    pose proof (tiles_range _ _ _ (hi_tiles _ _ _ _ H)) as [_ Hr]. apply Forall_app in Hr as [_ Hr]. apply Forall_cons in Hr as [Hr _]. cbn in Hr. lia.
Qed.

(** The block is used whole. *)
Lemma take_whole s t1 p u t2 q : hinv s (t1 ++ Seg p u true :: t2) → q ∈ (nodes (t1 ++ Seg p u true :: t2)).*1 → word s q = p →
  hinv (Heap (λ x, if x =? q then word s p else word s x) (brk s) q) (t1 ++ Seg p u false :: t2).
Proof.
  intros H Hq Hw. destruct (pred_unique s t1 p u t2 q H Hq Hw) as (A & x & EA). pose proof (hi_tiles _ _ _ _ H) as Ht.
  pose proof (nodes_sorted base lo Hbase _ _ Ht) as Hs. pose proof (hi_ring _ _ _ _ H) as HL.
  assert (nodes (t1 ++ Seg p u true :: t2) = A ++ (q, x) :: (p, u) :: free_nodes t2) as E by (rewrite nodes_app, EA, free_nodes_cons, <- app_assoc; done).
  rewrite E in HL, Hs. apply lseg_app in HL as [HA HL]. cbn [lseg nxt] in HA, HL. destruct HL as (_ & Hx & Hp & Hu & HL).
  assert (∀ a v, (a, v) ∈ A → a + 8 ≤ q) as HAq by (intros a v Ha; pose proof (StronglySorted_app_1_elem_of _ _ _ (a, v) (q, x) Hs Ha ltac:(by left)) as [Hb _]; done).
  assert (∀ a v, (a, v) ∈ free_nodes t2 → q + 8 ≤ a) as HqB.
  { intros a v Ha. apply StronglySorted_app_1_r in Hs. inversion Hs as [|? ? _ Hall]; subst. rewrite Forall_forall in Hall. apply (Hall (a, v)). by right. }
  constructor; cbn [brk word freep].
  - apply tiles_app in Ht as (m & H1 & H2). apply tiles_app. by exists m.
  - apply (hi_brk _ _ _ _ H).
  - rewrite nodes_app, EA, free_nodes_cons, <- app_assoc. cbn [sfree app]. apply lseg_app. cbn [lseg nxt]. rewrite Z.eqb_refl, (proj2 (Z.eqb_neq (q + 4) q)) by lia. split_and!; [|done|done|].
    + eapply lseg_frame; [exact HA|]. intros a v Ha%HAq. by rewrite (proj2 (Z.eqb_neq a q)), (proj2 (Z.eqb_neq (a + 4) q)) by lia.
    + eapply lseg_frame; [exact HL|]. intros a v Ha%HqB. by rewrite (proj2 (Z.eqb_neq a q)), (proj2 (Z.eqb_neq (a + 4) q)) by lia.
  - rewrite nodes_app, EA, fmap_app. apply elem_of_app. left. rewrite fmap_app. apply elem_of_app. right. by left.
  - intros a v Ha. assert (a + 4 ≠ q ∧ word s (a + 4) = v) as [Hne ->]; [|by rewrite (proj2 (Z.eqb_neq _ _) Hne)].
    apply elem_of_app in Ha as [Ha|Ha]; [|apply elem_of_cons in Ha as [[= -> ->]|Ha]].
    2: { split; [|done]. assert (before (q, x) (p, u)) as [Hb _]; [|cbn in Hb; lia]. apply StronglySorted_app_1_r in Hs. inversion Hs as [|? ? _ Hall]; subst. by apply Forall_cons in Hall as [? _]. }
    all: assert (Seg a v false ∈ t1 ++ Seg p u true :: t2) as Hin by (apply elem_of_app; first [by left|right; by right]).
    all: split; [|by apply (hi_used _ _ _ _ H)]; apply elem_used_blocks in Hin.
    all: destruct (used_free_apart s _ a v q x H Hin) as [Hd|Hd]; [rewrite E; apply elem_of_app; right; by left| |lia].
    all: apply elem_used_blocks in Hin; pose proof (tiles_range _ _ _ Ht) as [_ Hr]; rewrite Forall_forall in Hr; apply Hr in Hin; cbn in Hin; unfold HDR in *; lia.
  - eapply coalesced_use; [apply (hi_coal _ _ _ _ H)|done].
Qed.

(** The end of the block is used. *)
Lemma take_part s t1 p u t2 q n w : hinv s (t1 ++ Seg p u true :: t2) → q ∈ (nodes (t1 ++ Seg p u true :: t2)).*1 → 1 ≤ n < u →
  w (p + 4) = u - n → w (p + HDR * (u - n) + 4) = n → (∀ x, x ≠ p + 4 → x ≠ p + HDR * (u - n) + 4 → w x = word s x) →
  hinv (Heap w (brk s) q) (t1 ++ Seg p (u - n) true :: Seg (p + HDR * (u - n)) n false :: t2).
Proof.
  intros H Hq Hn W1 W2 Wf. pose proof (hi_tiles _ _ _ _ H) as Ht. pose proof (hi_ring _ _ _ _ H) as HL. rewrite nodes_app, free_nodes_cons in Hq, HL. cbn [sfree sat sun] in Hq, HL.
  apply lseg_app in HL as [H1 H2]. cbn [lseg nxt] in H1, H2. destruct H2 as (Hp & _ & HL).
  pose proof Ht as Ht'. apply tiles_app in Ht' as (m & T1 & T2). cbn [tiles sat sun] in T2. destruct T2 as (-> & _ & T2).
  assert (∀ a v, (a, v) ∈ nodes t1 → a + 8 ≤ m) as Hlow.
  { intros a v Ha. unfold UmallocSpec.nodes in Ha. apply elem_of_cons in Ha as [[= -> ->]|Ha]; [apply tiles_range in T1 as [? _]; lia|].
    apply elem_free_nodes in Ha. apply tiles_range in T1 as [_ Hr]. rewrite Forall_forall in Hr. apply Hr in Ha. cbn in Ha. unfold HDR in *. lia. }
  assert (∀ x, x ∈ t2 → m + HDR * u ≤ sat x) as Hhigh.
  { intros x Hx. apply tiles_range in T2 as [_ Hr]. rewrite Forall_forall in Hr. apply Hr in Hx. lia. }
  assert (∀ x, x ∈ t1 → sat x + 8 ≤ m) as Hlow'.
  { intros x Hx. apply tiles_range in T1 as [_ Hr]. rewrite Forall_forall in Hr. apply Hr in Hx. unfold HDR in *. lia. }
  unfold HDR in *. constructor; cbn [brk word freep].
  - apply tiles_app. exists m. split; [done|]. cbn [tiles sat sun]. unfold HDR. split_and!; try lia. by replace (m + 8 * (u - n) + 8 * n) with (m + 8 * u) by lia.
  - apply (hi_brk _ _ _ _ H).
  - rewrite nodes_app, !free_nodes_cons. cbn [sfree sat sun]. apply lseg_app. cbn [lseg nxt]. split_and!; [| |done|].
    + eapply lseg_frame; [exact H1|]. intros a v Ha%Hlow. by rewrite !Wf by lia.
    + by rewrite Wf by lia.
    + eapply lseg_frame; [exact HL|]. intros a v Ha%elem_free_nodes%Hhigh. cbn in Ha. by rewrite !Wf by lia.
  - rewrite nodes_app, !free_nodes_cons. cbn [sfree sat sun]. by rewrite !fmap_app in *.
  - intros a v Ha. apply elem_of_app in Ha as [Ha|Ha]; [|apply elem_of_cons in Ha as [[=]|Ha]; apply elem_of_cons in Ha as [[= -> ->]|Ha]; [done|]].
    + rewrite Wf by (apply Hlow' in Ha; cbn in Ha; lia). apply (hi_used _ _ _ _ H). apply elem_of_app. by left.
    + rewrite Wf by (apply Hhigh in Ha; cbn in Ha; lia). apply (hi_used _ _ _ _ H). apply elem_of_app. right. by right.
  - pose proof (hi_coal _ _ _ _ H) as Hc. apply coalesced_app in Hc as [C1 C2]. apply coalesced_app. split; [done|]. cbn [coalesced sfree] in *.
    split_and!; [tauto|done|]. destruct C2 as [_ C2]. destruct t2 as [|y t2]; [done|]. cbn [coalesced] in *. tauto.
Qed.

Lemma wp_take grant fuel s t n q p u : hinv s t → 1 ≤ n ≤ u → (p, u) ∈ nodes t → q ∈ (nodes t).*1 → word s q = p → word s (p + 4) = u →
  wp (malloc_loop base lo grant (S fuel) n q p) (λ r s', taken s t n r s') s.
Proof.
  intros H Hn Hp Hq Hw Hu. pose proof (node_ok base lo s t p u H Hp) as Hokp. assert (header_ok s q) as Hokq.
  { apply list_elem_of_fmap in Hq as ([b v] & -> & Hb). by apply (node_ok base lo s t b v). }
  pose proof (used_free_apart s t) as Hap. pose proof (node_range base lo s t p u H Hp) as Hr. pose proof Hp as Hp0. unfold UmallocSpec.nodes in Hp.
  apply elem_of_cons in Hp as [[= -> ->]|Hp]; [lia|]. apply elem_free_nodes, list_elem_of_split in Hp as (t1 & t2 & Et).
  pose proof (hi_brk _ _ _ _ H) as Hbrk.
  cbn [malloc_loop]. wp_step. apply wp_size; [done|]. rewrite Hu, (proj2 (Z.leb_le n u)) by lia. wp_step. destruct (Z.eqb_spec u n) as [->|Hne].
  - wp_step. apply wp_ptr; [done|]. wp_step. apply wp_set_ptr; [done|]. wp_step. wp_step. wp_step. wp_step. exists t1, t2, p. split; [done|]. split.
    + rewrite Et in *. exact (take_whole s t1 p n t2 q H Hq Hw).
    + split; [rewrite Et, !used_blocks_app, used_blocks_cons; done|]. intros b v x Hb Hx. cbn [set_freep set_word word].
      apply list_elem_of_fmap in Hq as ([b' v'] & Eq & Hq). cbn in Eq. destruct (Hap b v b' v' H Hb Hq); by rewrite (proj2 (Z.eqb_neq x q)) by lia.
  - destruct Hr as [[_ ->]|Hr]; [lia|]. assert (header_ok s (p + HDR * (u - n))) as Hok' by (right; unfold HDR in *; lia).
    wp_step. apply wp_set_size; [done|]. wp_step. apply wp_set_size; [done|]. wp_step. wp_step. wp_step. wp_step.
    unfold set_freep, set_word. cbn [word brk]. rewrite (u32_small (u - n)) by (unfold HDR in *; lia).
    exists (t1 ++ [Seg p (u - n) true]), t2, (p + HDR * (u - n)). split; [done|]. split; [|split].
    + rewrite <- app_assoc. cbn [app]. rewrite Et in *. apply (take_part s t1 p u t2 q n); try done; try lia.
      * rewrite (proj2 (Z.eqb_neq (p + 4) _)), Z.eqb_refl by (unfold HDR; lia). done.
      * by rewrite Z.eqb_refl.
      * intros x X1 X2. by rewrite (proj2 (Z.eqb_neq x (p + HDR * (u - n) + 4))), (proj2 (Z.eqb_neq x (p + 4))) by done.
    + rewrite Et, <- app_assoc, !used_blocks_app, !used_blocks_cons. done.
    + intros b v x Hb Hx. cbn [word]. destruct (Hap b v p u H Hb Hp0); unfold HDR in *;
        by rewrite (proj2 (Z.eqb_neq x (p + 8 * (u - n) + 4))), (proj2 (Z.eqb_neq x (p + 4))) by lia.
Qed.

(** A search that finds a block. *)
Lemma wp_search grant s t n fuel : hinv s t → 1 ≤ n → (∃ p u, (p, u) ∈ nodes t ∧ n ≤ u) → (length (nodes t) ≤ fuel)%nat →
  wp (malloc_loop base lo grant fuel n (freep s) (word s (freep s))) (λ r s', taken s t n r s') s.
Proof.
  intros H Hn Hex Hf. destruct (rotation s t H) as (R & v & HP & HL). cbn [lseg] in HL. destruct HL as (E1 & E2 & HL).
  assert (lseg (word s) (R ++ [(freep s, v)]) (nxt R (freep s))) as HV by (apply lseg_app; cbn [lseg nxt]; done).
  assert (word s (freep s) = nxt (R ++ [(freep s, v)]) 0) as Estart by (rewrite E1; by destruct R as [|[]]).
  assert (Exists (λ x, n ≤ x.2) (R ++ [(freep s, v)])) as He.
  { destruct Hex as (p & u & Hin & Hu). apply Exists_exists. exists (p, u). split; [|done]. rewrite <- HP in Hin.
    apply elem_of_app. apply elem_of_cons in Hin as [->|Hin]; [right; by left|by left]. }
  destruct (first_split _ _ He) as (V1 & [p u] & V2 & EV & HV1 & Hu). cbn in Hu.
  assert (∀ x, x ∈ V1 ++ (p, u) :: V2 → x ∈ nodes t) as Hin.
  { intros x Hx. rewrite <- EV in Hx. rewrite <- HP. apply elem_of_app in Hx as [Hx|Hx]; [by right|]. apply list_elem_of_singleton in Hx as ->. by left. }
  assert (NoDup ((freep s, v) :: R).*1) as Hnd.
  { rewrite HP. pose proof (nodes_sorted base lo Hbase _ _ (hi_tiles _ _ _ _ H)) as Hs. apply NoDup_alt. intros i j x Hi Hj.
    apply list_lookup_fmap_Some in Hi as ([a b] & -> & Hi). apply list_lookup_fmap_Some in Hj as ([a' b'] & Ea & Hj). cbn in Ea. subst a'. by eapply sorted_inj. }
  assert (Forall (λ x, header_ok s x.1 ∧ x.2 < n ∧ x.1 ≠ freep s) V1) as Hall.
  { apply Forall_forall. intros [a b] Ha. rewrite Forall_forall in HV1. specialize (HV1 _ Ha). cbn in *. split; [apply (node_ok base lo s t a b H), Hin, elem_of_app; by left|]. split; [lia|].
    assert ((a, b) ∈ R) as HaR.
    { destruct (exists_last (l := (p, u) :: V2)) as (V2' & y & EV2); [done|]. rewrite EV2, app_assoc in EV. apply app_inj_tail in EV as [-> _]. apply elem_of_app. by left. }
    cbn in Hnd. apply NoDup_cons in Hnd as [Hnd _]. intros ->. apply Hnd. apply list_elem_of_fmap. by exists (freep s, b). }
  rewrite EV in HV. apply lseg_app in HV as [HVa HVb]. cbn [lseg nxt] in HVa, HVb. destruct HVb as (_ & Hsz & _).
  assert (word s (last_addr (freep s) V1) = p ∧ last_addr (freep s) V1 ∈ (nodes t).*1) as [Hpw Hpn].
  { unfold last_addr. destruct (last V1) as [[a b]|] eqn:El.
    - apply last_Some in El as [V1' ->]. apply lseg_app in HVa as [_ HVa]. cbn in HVa. split; [tauto|]. apply list_elem_of_fmap. exists (a, b). split; [done|]. apply Hin. apply elem_of_app. left. apply elem_of_app. right. by left.
    - apply last_None in El as ->. rewrite Estart, EV. split; [done|]. apply (hi_freep _ _ _ _ H). }
  assert (length V1 < length (nodes t))%nat as Hl.
  { rewrite <- HP. cbn [length]. assert (length (R ++ [(freep s, v)]) = length (V1 ++ (p, u) :: V2)) as El by (by rewrite EV). rewrite !length_app in El. cbn [length] in El. lia. }
  replace fuel with (length V1 + S (fuel - length V1 - 1))%nat by lia. rewrite Estart, EV. replace (nxt (V1 ++ (p, u) :: V2) 0) with (nxt V1 p) by (by destruct V1 as [|[]]).
  apply scan_to; [done|done|]. apply (wp_take grant _ s t n _ p u); try done. apply Hin. apply elem_of_app. right. by left.
Qed.

(** ** More memory *)

Context (grant : Z → Z → bool).
(** The kernel lets a process grow below KERNBASE only. *)
Hypothesis (Hgrant : ∀ b k, 0 ≤ k → grant b k = true → b + k < 2 ^ 31).

(** The heap with a new block in use at its end. *)
Lemma grown_hinv s t nu : hinv s t → 1 ≤ nu → brk s + HDR * nu < 2 ^ 31 →
  hinv (Heap (λ x, if x =? brk s + 4 then nu else word s x) (brk s + HDR * nu) (freep s)) (t ++ [Seg (brk s) nu false]).
Proof.
  intros H Hnu Hb. pose proof (hi_tiles _ _ _ _ H) as Ht. constructor; cbn [brk word freep].
  - apply tiles_app. exists (brk s). split; [done|]. cbn [tiles sat sun]. done.
  - done.
  - rewrite nodes_app, free_nodes_cons. cbn [sfree]. change (free_nodes []) with (@nil (Z * Z)). rewrite app_nil_r. eapply lseg_frame; [apply (hi_ring _ _ _ _ H)|].
    intros a u Ha. pose proof (tiles_range _ _ _ Ht) as [? _]. destruct (node_range base lo s t a u H Ha) as [[-> _]|Hr]; unfold HDR in *; by rewrite !(proj2 (Z.eqb_neq _ (brk s + 4))) by lia.
  - rewrite nodes_app, fmap_app. apply elem_of_app. left. apply (hi_freep _ _ _ _ H).
  - intros a u Ha. apply elem_of_app in Ha as [Ha|Ha].
    + rewrite <- (hi_used _ _ _ _ H a u Ha). apply tiles_range in Ht as [_ Hr]. rewrite Forall_forall in Hr. apply Hr in Ha. cbn in Ha. unfold HDR in *.
      by rewrite (proj2 (Z.eqb_neq _ (brk s + 4))) by lia.
    + apply list_elem_of_singleton in Ha as [= -> ->]. by rewrite Z.eqb_refl.
  - apply coalesced_app. split; [apply (hi_coal _ _ _ _ H)|]. cbn [coalesced sfree]. by rewrite andb_false_r.
Qed.

Lemma freed_room t a n : ∃ p u, (p, u) ∈ nodes (freed t a n []) ∧ (Forall (λ x, 1 ≤ sun x) t → n ≤ u) ∧ (length (nodes (freed t a n [])) ≤ S (length (nodes t)))%nat.
Proof.
  unfold freed, join_left. cbn [join_right fst snd]. destruct (last t) as [[p u [|]]|] eqn:El.
  - apply last_Some in El as [L ->]. rewrite removelast_last. exists p, (u + n). rewrite !nodes_app, !free_nodes_cons. cbn [sfree sat sun]. rewrite !length_app. cbn [length]. split_and!.
    + apply elem_of_app. right. by left.
    + intros Hu. apply Forall_app in Hu as [_ Hu]. apply Forall_cons in Hu as [Hu _]. cbn in Hu. lia.
    + lia.
  - exists a, n. rewrite !nodes_app, !free_nodes_cons. cbn [sfree sat sun]. change (free_nodes []) with (@nil (Z * Z)). rewrite !length_app. cbn [length]. split_and!; [apply elem_of_app; right; by left|lia|]. lia.
  - exists a, n. rewrite !nodes_app, !free_nodes_cons. cbn [sfree sat sun]. change (free_nodes []) with (@nil (Z * Z)). rewrite !length_app. cbn [length]. split_and!; [apply elem_of_app; right; by left|lia|]. lia.
Qed.

(** morecore: nothing, or a free block of [n] units at least. *)
Lemma wp_morecore s t n : hinv s t → 1 ≤ n < 2 ^ 28 →
  wp (morecore base lo grant n) (λ p s',
    p = 0 ∧ s' = s ∨
    p = freep s' ∧ p ≠ 0 ∧ header_ok s' p ∧ ∃ t', hinv s' t' ∧ used_blocks t' = used_blocks t ∧ (∃ q u, (q, u) ∈ nodes t' ∧ n ≤ u) ∧
      (length (nodes t') ≤ S (length (nodes t)))%nat ∧ (∀ b v x, (b, v) ∈ used_blocks t → b ≤ x < b + HDR * v → word s' x = word s x)) s.
Proof.
  intros H Hn. unfold morecore. set (nu := if n <? 4096 then 4096 else n). assert (n ≤ nu < 2 ^ 28) as Hnu by (unfold nu; destruct (Z.ltb_spec n 4096); lia). clearbody nu.
  wp_step. unfold sbrk. wp_step. wp_step. rewrite i32_small by (unfold HDR; lia). pose proof (tiles_range _ _ _ (hi_tiles _ _ _ _ H)) as [Hlo Hall].
  destruct (grant (brk s) (nu * HDR)) eqn:Hg; [|wp_step; cbn; left; done]. apply Hgrant in Hg; [|unfold HDR; lia]. wp_step. wp_step. wp_step.
  rewrite (proj2 (Z.eqb_neq (brk s) (-1))) by lia. wp_step. apply wp_set_size; [right; cbn; unfold HDR; lia|]. wp_step.
  replace (nu * HDR) with (HDR * nu) in * by lia. pose proof (grown_hinv s t nu H ltac:(lia) Hg) as Hgrown.
  eapply wp_mono; [exact (wp_free_spec base lo Hbase (Heap (λ x, if x =? brk s + 4 then nu else word s x) (brk s + HDR * nu) (freep s)) t (brk s) nu [] Hgrown)|].
  intros _ s' (Hi & Hb & Hc). wp_step. right. destruct (freed_room t (brk s) nu) as (q & u & Hin & Hu & Hlen). split; [done|].
  pose proof (hi_freep _ _ _ _ Hi) as Hf. apply list_elem_of_fmap in Hf as ([f v] & Ef & Hf). cbn in Ef. split_and!.
  - destruct (node_range base lo s' _ f v Hi Hf) as [[? _]|?]; lia.
  - rewrite Ef. by apply (node_ok base lo s' _ f v Hi).
  - exists (freed t (brk s) nu []). split; [done|]. split; [by rewrite used_freed, app_nil_r|]. split; [|split; [done|]].
    + exists q, u. split; [done|]. specialize (Hu ltac:(eapply Forall_impl; [exact Hall|]; cbn; lia)). lia.
    + intros b v' x Hbv Hx. rewrite (Hc b v' x) by (rewrite ?app_nil_r; done). cbn [word]. apply elem_used_blocks in Hbv. rewrite Forall_forall in Hall. apply Hall in Hbv. cbn in Hbv.
      by rewrite (proj2 (Z.eqb_neq x (brk s + 4))) by lia.
Qed.

(** A search that finds nothing. *)
Lemma wp_search_more s t n fuel : hinv s t → 1 ≤ n < 2 ^ 28 → Forall (λ x, x.2 < n) (nodes t) → (2 * length (nodes t) + 2 ≤ fuel)%nat →
  wp (malloc_loop base lo grant fuel n (freep s) (word s (freep s))) (λ r s', (r = 0 ∧ s' = s) ∨ taken s t n r s') s.
Proof.
  intros H Hn Hsm Hf. destruct (rotation s t H) as (R & v & HP & HL). cbn [lseg] in HL. destruct HL as (E1 & E2 & HL). rewrite <- HP in Hsm.
  apply Forall_cons in Hsm as [Hv HR]. cbn in Hv. assert (length (nodes t) = S (length R)) as Hlen by (by rewrite <- HP).
  assert (NoDup ((freep s, v) :: R).*1) as Hnd.
  { rewrite HP. pose proof (nodes_sorted base lo Hbase _ _ (hi_tiles _ _ _ _ H)) as Hs. apply NoDup_alt. intros i j x Hi Hj.
    apply list_lookup_fmap_Some in Hi as ([a b] & -> & Hi). apply list_lookup_fmap_Some in Hj as ([a' b'] & Ea & Hj). cbn in Ea. subst a'. by eapply sorted_inj. }
  cbn in Hnd. apply NoDup_cons in Hnd as [Hnd _]. replace fuel with (length R + S (fuel - length R - 1))%nat by lia. rewrite E1. apply scan_to; [done| |].
  { apply Forall_forall. intros [a b] Ha. rewrite Forall_forall in HR. split; [|split; [by apply (HR _ Ha)|]].
    - apply (node_ok base lo s t a b H). rewrite <- HP. by right.
    - cbn. intros ->. apply Hnd. apply list_elem_of_fmap. by exists (freep s, b). }
  cbn [malloc_loop]. assert (header_ok s (freep s)) as Hok by (apply (node_ok base lo s t (freep s) v H); rewrite <- HP; by left).
  wp_step. apply wp_size; [done|]. rewrite E2, (proj2 (Z.leb_gt n v)) by lia. wp_step. wp_step. rewrite Z.eqb_refl. wp_step.
  eapply wp_mono; [by apply (wp_morecore s t n)|]. intros p s' [[-> ->]|(Ep & Hp & Hok' & t' & H' & Hu & Hex & Hl & Hc)]; [rewrite Z.eqb_refl; wp_step; by left|].
  rewrite (proj2 (Z.eqb_neq p 0) Hp). wp_step. apply wp_ptr; [done|]. rewrite Ep. eapply wp_mono; [apply (wp_search grant s' t' n); [done|lia|done|lia]|].
  intros r s2 (t1 & t2 & a & Hr & Hi & Hub & Hc'). right. exists t1, t2, a. split_and!; [done|done|by rewrite Hub|]. intros b w x Hb Hx. rewrite (Hc' b w x), (Hc b w x); [done|done|done|by rewrite Hu|done].
Qed.

Lemma wp_malloc_spec s t nbytes : hinv s t → 0 ≤ nbytes ≤ 2 ^ 31 - 17 →
  wp (malloc base lo grant nbytes) (λ r s', (r = 0 ∧ s' = s) ∨ taken s t ((nbytes + 7) / 8 + 1) r s') s.
Proof.
  intros H Hn. unfold malloc, HDR. rewrite u32_small by lia. replace (nbytes + 8 - 1) with (nbytes + 7) by lia. set (n := (nbytes + 7) / 8 + 1).
  assert (1 ≤ n < 2 ^ 28) as Hnr by (unfold n; dlia). clearbody n. pose proof (nodes_bound s t H) as Hl. wp_step. wp_step. wp_step.
  pose proof (hi_freep _ _ _ _ H) as Hf. apply list_elem_of_fmap in Hf as ([f v] & Ef & Hf). cbn in Ef. assert (f ≠ 0) as Hf0 by (destruct (node_range base lo s t f v H Hf) as [[? _]|?]; lia).
  rewrite Ef, (proj2 (Z.eqb_neq f 0) Hf0). wp_step. wp_step. apply wp_ptr; [by apply (node_ok base lo s t f v H)|]. wp_step. eapply wp_intro; [done|]. cbn beta. rewrite <- Ef.
  destruct (decide (Exists (λ x, n ≤ x.2) (nodes t))) as [He|He].
  - apply Exists_exists in He as ([p u] & Hin & Hu). eapply wp_mono; [apply (wp_search grant s t n); [done|lia|by exists p, u|lia]|]. intros r s' Hr. by right.
  - apply wp_search_more; [done|done| |lia]. apply Forall_forall. intros x Hx. destruct (Z.le_gt_cases n x.2); [|lia]. exfalso. apply He. apply Exists_exists. by exists x.
Qed.

(** The first call. *)
Lemma wp_malloc_first s nbytes : freep s = 0 → brk s = lo → lo < 2 ^ 31 → 0 ≤ nbytes ≤ 2 ^ 31 - 17 →
  wp (malloc base lo grant nbytes) (λ r s', hinv s' [] ∧ r = 0 ∨ taken (Heap (word s) lo base) [] ((nbytes + 7) / 8 + 1) r s') s.
Proof.
  intros Hf Hb Hlo Hn. set (w := λ x, if x =? base + 4 then 0 else if x =? base then base else word s x).
  assert (hinv (Heap w lo base) []) as H.
  { constructor; cbn [brk word freep tiles coalesced]; [done|done| |by left|by intros a u ?%not_elem_of_nil|done]. unfold w. cbn. rewrite !Z.eqb_refl.
    by rewrite (proj2 (Z.eqb_neq base (base + 4))) by lia. }
  pose proof (wp_malloc_spec (Heap w lo base) [] nbytes H Hn) as Hspec. unfold malloc in *. wp_step. wp_step. rewrite Hf, Z.eqb_refl. wp_step.
  wp_step. apply wp_set_ptr; [by left|]. wp_step. wp_step. wp_step. apply wp_set_size; [by left|]. wp_step.
  unfold set_freep, set_word. cbn [word brk freep]. rewrite Hb. change (λ x, if x =? base + 4 then 0 else if x =? base then base else word s x) with w.
  apply (wp_mono _ (λ r s', (r = 0 ∧ s' = Heap w lo base) ∨ taken (Heap w lo base) [] ((nbytes + 7) / 8 + 1) r s')).
  2: { intros r s' [[-> ->]|(t1 & t2 & a & ? & ? & ? & _)]; [by left|right]. exists t1, t2, a. split_and!; [done..|]. by intros b v x ?%not_elem_of_nil. }
  unfold wp in Hspec |- *. revert Hspec. unfold mbind, M_bind, gets at 1. cbn [freep]. rewrite (proj2 (Z.eqb_neq base 0)) by lia. done.
Qed.
End malloc.

Section runs.
Context (base lo : Z) (grant : Z → Z → bool).

(** The states of a program that allocates, frees what it allocated and writes
    words inside its blocks.  [live] has the pointers that it has, each with the
    number of bytes it asked for. *)
Inductive uruns : heap → list (Z * Z) → Prop :=
  | uruns_start w : uruns (Heap w lo 0) []
  | uruns_malloc s live n r s' : uruns s live → 0 ≤ n ≤ 2 ^ 31 - 17 → malloc base lo grant n s = Ret r s' → r ≠ 0 → uruns s' ((r, n) :: live)
  | uruns_null s live n s' : uruns s live → 0 ≤ n ≤ 2 ^ 31 - 17 → malloc base lo grant n s = Ret 0 s' → uruns s' live
  | uruns_free s l1 r n l2 u s' : uruns s (l1 ++ (r, n) :: l2) → free base lo r s = Ret u s' → uruns s' (l1 ++ l2)
  | uruns_write s live r n x v : uruns s live → (r, n) ∈ live → r ≤ x → x + 4 ≤ r + n → (x - r) mod 4 = 0 →
      uruns (set_word (λ y, if y =? x then v else word s y) s) live.

(** The words of the blocks [live] are the same. *)
Definition keeps (live : list (Z * Z)) (s s' : heap) : Prop := ∀ r n x, (r, n) ∈ live → r ≤ x < r + n → word s' x = word s x.

Hypothesis (Hbase : 0 < base ∧ base + 8 ≤ lo) (Hlo : lo < 2 ^ 31).
Hypothesis (Hgrant : ∀ b k, 0 ≤ k → grant b k = true → b + k < 2 ^ 31).
Abbreviation hinv := (hinv base lo).

(** The block of a pointer. *)
Definition block_of (x : Z * Z) : Z * Z := (x.1 - HDR, (x.2 + 7) / 8 + 1).

(** The state of the allocator for the pointers [live]. *)
Definition serves (s : heap) (live : list (Z * Z)) : Prop :=
  Forall (λ x, 0 ≤ x.2) live ∧
  ((live = [] ∧ freep s = 0 ∧ brk s = lo) ∨ ∃ t, hinv s t ∧ used_blocks t ≡ₚ (block_of <$> live)).

Lemma block_range r n : 0 ≤ n → (block_of (r, n)).1 + 8 = r ∧ r + n ≤ (block_of (r, n)).1 + HDR * (block_of (r, n)).2.
Proof. unfold block_of, HDR. cbn [fst snd]. intros. split; dlia. Qed.

Lemma keeps_blocks s s' live t : Forall (λ x, 0 ≤ x.2) live → used_blocks t ≡ₚ (block_of <$> live) →
  (∀ b v x, (b, v) ∈ used_blocks t → b ≤ x < b + HDR * v → word s' x = word s x) → keeps live s s'.
Proof.
  intros Hl Hp Hc r n x Hin Hx. rewrite Forall_forall in Hl. specialize (Hl _ Hin). cbn in Hl. destruct (block_range r n Hl) as [H1 H2].
  apply (Hc (block_of (r, n)).1 (block_of (r, n)).2); [|lia]. rewrite <- surjective_pairing, Hp. apply list_elem_of_fmap. by exists (r, n).
Qed.

Lemma wp_malloc_serves s live n : serves s live → 0 ≤ n ≤ 2 ^ 31 - 17 →
  wp (malloc base lo grant n) (λ r s', keeps live s s' ∧ serves s' (if r =? 0 then live else (r, n) :: live)) s.
Proof.
  intros [Hl Hs] Hn.
  assert (∀ s0 t r s', used_blocks t ≡ₚ (block_of <$> live) → taken base lo s0 t ((n + 7) / 8 + 1) r s' → serves s' (if r =? 0 then live else (r, n) :: live)) as Htaken.
  { intros s0 t r s' Hp (t1 & t2 & a & -> & Hi & Hu & _). pose proof (tiles_range _ _ _ (hi_tiles _ _ _ _ Hi)) as [_ Hr]. apply Forall_app in Hr as [_ Hr].
    apply Forall_cons in Hr as [Hr _]. cbn in Hr. unfold HDR in *. rewrite (proj2 (Z.eqb_neq (a + 8) 0)) by lia. split; [apply Forall_cons; split; [cbn; lia|done]|]. right.
    exists (t1 ++ Seg a ((n + 7) / 8 + 1) false :: t2). split; [done|]. rewrite used_blocks_app, used_blocks_cons. cbn [sfree sat sun].
    cbn [fmap list_fmap]. rewrite <- Hp, <- Hu, used_blocks_app. unfold block_of at 1. cbn [fst snd]. unfold HDR. replace (a + 8 - 8) with a by lia. symmetry. apply Permutation_middle. }
  destruct Hs as [(-> & Hf & Hb)|(t & Hi & Hp)].
  - eapply wp_mono; [by apply (wp_malloc_first base lo Hbase grant Hgrant)|]. intros r s' [[Hi ->]|Ht].
    + split; [by intros ? ? ? ?%not_elem_of_nil|]. split; [done|]. right. by exists [].
    + split; [by intros ? ? ? ?%not_elem_of_nil|]. by apply (Htaken (Heap (word s) lo base) [] r s').
  - eapply wp_mono; [by apply (wp_malloc_spec base lo Hbase grant Hgrant s t)|]. intros r s' [[-> ->]|Ht].
    + split; [done|]. split; [done|]. right. by exists t.
    + split; [|by apply (Htaken s t)]. destruct Ht as (t1 & t2 & a & _ & _ & _ & Hc). by eapply keeps_blocks.
Qed.

Lemma wp_free_serves s l1 r n l2 : serves s (l1 ++ (r, n) :: l2) →
  wp (free base lo r) (λ _ s', keeps (l1 ++ l2) s s' ∧ serves s' (l1 ++ l2)) s.
Proof.
  intros [Hl [(He & _)|(t & Hi & Hp)]]; [by destruct l1|]. assert (block_of (r, n) ∈ used_blocks t) as Hin.
  { rewrite Hp, fmap_app. apply elem_of_app. right. by left. }
  unfold block_of in Hin. cbn [fst snd] in Hin. apply elem_used_blocks, list_elem_of_split in Hin as (t1 & t2 & ->).
  pose proof (wp_free_spec base lo Hbase s t1 (r - HDR) ((n + 7) / 8 + 1) t2 Hi) as Hw. replace (r - HDR + HDR) with r in Hw by lia.
  rewrite used_blocks_app, used_blocks_cons, fmap_app in Hp. cbn [sfree sat sun fmap list_fmap] in Hp. unfold block_of at 2 in Hp. cbn [fst snd] in Hp.
  rewrite <- !Permutation_middle in Hp. apply Permutation_cons_inv in Hp. rewrite <- used_blocks_app in Hp. rewrite <- fmap_app in Hp.
  apply Forall_app in Hl as [Hl1 Hl2]. apply Forall_cons in Hl2 as [_ Hl2]. assert (Forall (λ x, 0 ≤ x.2) (l1 ++ l2)) as Hl by (by apply Forall_app).
  eapply wp_mono; [exact Hw|]. intros _ s' (Hi' & _ & Hc). split.
  - by eapply keeps_blocks.
  - split; [done|]. right. exists (freed t1 (r - HDR) ((n + 7) / 8 + 1) t2). split; [done|]. by rewrite used_freed.
Qed.

(** A program's own write. *)
Lemma write_serves s live r n x v : serves s live → (r, n) ∈ live → r ≤ x → x + 4 ≤ r + n →
  serves (set_word (λ y, if y =? x then v else word s y) s) live.
Proof.
  intros [Hl Hs] Hin H1 H2. split; [done|]. destruct Hs as [(-> & _)|(t & Hi & Hp)]; [by apply not_elem_of_nil in Hin|]. right. exists t. split; [|done].
  rewrite Forall_forall in Hl. specialize (Hl _ Hin). cbn in Hl. destruct (block_range r n Hl) as [R1 R2].
  assert (block_of (r, n) ∈ used_blocks t) as Hb by (rewrite Hp; apply list_elem_of_fmap; by exists (r, n)). destruct (block_of (r, n)) as [a m]. cbn [fst snd] in *.
  pose proof (hi_tiles _ _ _ _ Hi) as Ht. pose proof (used_free_apart base lo Hbase s t a m) as Hap. constructor; cbn [set_word brk freep word]; try apply Hi.
  - eapply lseg_frame; [apply (hi_ring _ _ _ _ Hi)|]. intros b u Hbu. destruct (Hap b u Hi Hb Hbu); unfold HDR in *; by rewrite !(proj2 (Z.eqb_neq _ x)) by lia.
  - intros b u Hbu. rewrite <- (hi_used _ _ _ _ Hi b u Hbu). rewrite (proj2 (Z.eqb_neq _ x)); [done|].
    apply elem_used_blocks, list_elem_of_split in Hb as (t1 & t2 & ->). apply elem_of_app in Hbu as [Hbu|Hbu]; [|apply elem_of_cons in Hbu as [[= -> ->]|Hbu]; [lia|]].
    all: pose proof (tiles_apart _ _ _ _ _ (Seg b u false) Ht) as Hd; cbn [sat sun] in Hd; pose proof (tiles_range _ _ _ Ht) as [_ Hr]; rewrite Forall_forall in Hr.
    all: specialize (Hr (Seg b u false)); cbn in Hr; rewrite !elem_of_app, !elem_of_cons in *; unfold HDR in *; destruct Hd; [naive_solver| |]; destruct Hr; [naive_solver|lia|naive_solver|lia].
Qed.

Lemma uruns_serves s live : uruns s live → serves s live.
Proof.
  induction 1 as [w|s live n r s' _ IH Hn Hm Hr|s live n s' _ IH Hn Hm|s l1 r n l2 u s' _ IH Hf|s live r n x v _ IH Hin H1 H2 _].
  - split; [by apply Forall_nil|]. by left.
  - pose proof (wp_malloc_serves s live n IH Hn) as Hw. unfold wp in Hw. rewrite Hm, (proj2 (Z.eqb_neq r 0) Hr) in Hw. apply Hw.
  - pose proof (wp_malloc_serves s live n IH Hn) as Hw. unfold wp in Hw. rewrite Hm in Hw. apply Hw.
  - pose proof (wp_free_serves s l1 r n l2 IH) as Hw. unfold wp in Hw. rewrite Hf in Hw. apply Hw.
  - by eapply write_serves.
Qed.

(** ** Blocks do not overlap *)

Lemma used_sorted a t e : tiles a t e → StronglySorted before (used_blocks t).
Proof.
  revert a. induction t as [|x t IH]; intros a; cbn [tiles]; [intros _; constructor|]. intros (Ha & Hu & Ht). rewrite used_blocks_cons.
  destruct (sfree x); [by eapply IH|]. constructor; [by eapply IH|]. apply Forall_forall. intros [b v] Hb%elem_used_blocks.
  destruct (tiles_range _ _ _ Ht) as [_ Hr]. rewrite Forall_forall in Hr. apply Hr in Hb. unfold before, HDR in *. cbn in *. lia.
Qed.
Lemma sorted_apart L x y : StronglySorted before L → x ∈ L → y ∈ L → x ≠ y → before x y ∨ before y x.
Proof.
  induction 1 as [|z L Hs IH Hall]; [by intros ?%not_elem_of_nil|]. rewrite Forall_forall in Hall. rewrite !elem_of_cons.
  intros [->|Hx] [->|Hy] Hne; [done|left; by apply Hall|right; by apply Hall|by apply IH].
Qed.
Lemma sorted_nodup L : StronglySorted before L → NoDup L.
Proof.
  induction 1 as [|z L Hs IH Hall]; [constructor|]. constructor; [|done]. intros Hz. rewrite Forall_forall in Hall. apply Hall in Hz. unfold before in Hz. lia.
Qed.

Lemma serves_apart s live i j r n q m : serves s live → live !! i = Some (r, n) → live !! j = Some (q, m) → i ≠ j → r + n ≤ q ∨ q + m ≤ r.
Proof.
  intros [Hl [(-> & _)|(t & Hi & Hp)]] Hri Hqj Hne; [done|]. pose proof (used_sorted _ _ _ (hi_tiles _ _ _ _ Hi)) as Hs.
  pose proof (sorted_nodup _ Hs) as Hnd. rewrite Hp in Hnd. rewrite Forall_lookup in Hl. pose proof (Hl _ _ Hri) as Hn0. pose proof (Hl _ _ Hqj) as Hm0. cbn in Hn0, Hm0.
  assert (block_of (r, n) ≠ block_of (q, m)) as Hb.
  { intros E. apply Hne. eapply (NoDup_lookup _ i j (block_of (r, n)) Hnd); rewrite list_lookup_fmap; [by rewrite Hri|by rewrite Hqj, E]. }
  destruct (sorted_apart _ (block_of (r, n)) (block_of (q, m)) Hs) as [[_ Hd]|[_ Hd]]; [| |done|..].
  1, 2: rewrite Hp; apply list_elem_of_fmap; eexists; (split; [done|]); by eapply list_elem_of_lookup_2.
  all: destruct (block_range r n Hn0), (block_range q m Hm0); lia.
Qed.

Lemma serves_inside s live r n : serves s live → (r, n) ∈ live → lo + 8 ≤ r ∧ r + n ≤ brk s.
Proof.
  intros [Hl [(-> & _)|(t & Hi & Hp)]] Hin; [by apply not_elem_of_nil in Hin|]. rewrite Forall_forall in Hl. pose proof (Hl _ Hin) as Hn0. cbn in Hn0.
  destruct (block_range r n Hn0) as [R1 R2]. assert (block_of (r, n) ∈ used_blocks t) as Hb by (rewrite Hp; apply list_elem_of_fmap; by exists (r, n)).
  destruct (block_of (r, n)) as [a m]. cbn [fst snd] in *. apply elem_used_blocks in Hb. pose proof (tiles_range _ _ _ (hi_tiles _ _ _ _ Hi)) as [_ Hr].
  rewrite Forall_forall in Hr. apply Hr in Hb. cbn in Hb. lia.
Qed.
End runs.

(** C12. The user-level allocator is sound.  A program makes any sequence of
    calls with requests of at most 2^31 - 17 bytes (larger ones make the
    argument of sbrk negative, or wrap around), frees only what it got and has
    not freed, and writes aligned words inside of its blocks; the heap stays
    below 2^31.  Then the blocks it has lie in the heap and do not overlap; the
    next malloc of that size returns NULL or a block of its own, and a free of
    any block returns, both without an access outside of the heap or an endless
    search, and both leave the contents of every other block alone. *)
Theorem umalloc_sound base lo grant s live :
  0 < base ∧ base + 8 ≤ lo → lo < 2 ^ 31 → (∀ b k, 0 ≤ k → grant b k = true → b + k < 2 ^ 31) → uruns base lo grant s live →
  (∀ r n, (r, n) ∈ live → lo + 8 ≤ r ∧ r + n ≤ brk s) ∧
  (∀ i j r n q m, live !! i = Some (r, n) → live !! j = Some (q, m) → i ≠ j → r + n ≤ q ∨ q + m ≤ r) ∧
  (∀ n, 0 ≤ n ≤ 2 ^ 31 - 17 → wp (malloc base lo grant n) (λ r s', keeps live s s' ∧ (r ≠ 0 → uruns base lo grant s' ((r, n) :: live))) s) ∧
  (∀ l1 r n l2, live = l1 ++ (r, n) :: l2 → wp (free base lo r) (λ _ s', keeps (l1 ++ l2) s s' ∧ uruns base lo grant s' (l1 ++ l2)) s).
Proof.
  intros Hb Hlo Hg H. pose proof (uruns_serves base lo grant Hb Hlo Hg s live H) as Hs. split_and!.
  - intros r n Hin. by apply (serves_inside base lo s live).
  - intros i j r n q m Hi Hj Hne. by apply (serves_apart base lo s live i j r n q m).
  - intros n Hn. destruct (wp_elim _ _ _ (wp_malloc_serves base lo grant Hb Hlo Hg s live n Hs Hn)) as (r & s' & E & Hk & _).
    eapply wp_intro; [exact E|]. split; [done|]. intros Hr. by eapply uruns_malloc.
  - intros l1 r n l2 ->. destruct (wp_elim _ _ _ (wp_free_serves base lo Hb s l1 r n l2 Hs)) as ([] & s' & E & Hk & _).
    eapply wp_intro; [exact E|]. split; [done|]. by eapply uruns_free.
Qed.

Lemma umalloc_sound_witness :
  let g b k := b + k <? 2 ^ 31 in
  let s := final (malloc 4096 8192 g 20) (Heap (λ _, 0) 8192 0) in
  wp (malloc 4096 8192 g 100) (λ r s', keeps [(40936, 20)] s s' ∧ (r ≠ 0 → uruns 4096 8192 g s' [(r, 100); (40936, 20)])) s.
Proof.
  intros g s. assert (uruns 4096 8192 g s [(40936, 20)]) as H.
  { apply (uruns_malloc 4096 8192 g (Heap (λ _, 0) 8192 0) [] 20 40936 s); [constructor|lia|vm_compute; reflexivity|done]. }
  clearbody s. destruct (umalloc_sound 4096 8192 g s [(40936, 20)]) as (_ & _ & Hm & _); [lia|lia| |exact H|apply (Hm 100); lia].
  intros b k _ Hk. by apply Z.ltb_lt.
Defined.

(** A request of almost 2^32 bytes wraps around: malloc hands out a block of one
    unit, its header, for it. *)
Theorem malloc_wraps : ∃ r s', malloc 4096 8192 (λ b k, b + k <? 2 ^ 31) (2 ^ 32 - 1) (Heap (λ _, 0) 8192 0) = Ret r s' ∧
  r ≠ 0 ∧ r = brk s' ∧ word s' (r - 4) = 1.
Proof. eexists _, _. split; [vm_compute; reflexivity|]. split; [discriminate|]. split; vm_compute; reflexivity. Qed.
