(* ===== verification/Spinlock.v ===== *)
(** * CPUs, interrupt nesting and spin locks (xv6: spinlock.c, proc.c)

    The machine is seen from the CPU that executes: its interrupt flag, the
    table [cpus] and all initialised spin locks, by address.  A CPU that finds
    a lock taken by another one spins; in the model this is the outcome
    [Sleep], with the lock's address. *)

From S2P Require Import Prelude.

(** [struct cpu], src/hw3/xv6/proc.h:2-11 *)
Record cpu := Cpu {
  apicid : Z;
  ncli : Z;                 (* depth of pushcli nesting *)
  intena : bool;            (* were interrupts enabled before pushcli? *)
  cproc : option nat        (* the process running on this cpu or null *)
}.

(** [struct spinlock], src/hw3/xv6/spinlock.h:2-10 *)
Record lock := Lock { locked : bool; lcpu : option nat }.

Record machine := Machine {
  cpus : list cpu;
  eflags_if : bool;         (* FL_IF of the executing CPU *)
  lapicid : Z;              (* APIC id of the executing CPU *)
  locks : gmap Z lock
}.

Definition set_cpus (c : list cpu) (m : machine) : machine := Machine c (eflags_if m) (lapicid m) (locks m).
Definition set_if (b : bool) (m : machine) : machine := Machine (cpus m) b (lapicid m) (locks m).
Definition set_locks (l : gmap Z lock) (m : machine) : machine := Machine (cpus m) (eflags_if m) (lapicid m) l.

Definition set_ncli (n : Z) (c : cpu) : cpu := Cpu (apicid c) n (intena c) (cproc c).
Definition set_intena (b : bool) (c : cpu) : cpu := Cpu (apicid c) (ncli c) b (cproc c).
Definition set_cproc (p : option nat) (c : cpu) : cpu := Cpu (apicid c) (ncli c) (intena c) p.

(** [sti, cli], src/hw3/xv6/x86.h:108-118 *)
Definition set_interrupts (b : bool) : M machine unit := modify (set_if b).

(** The index in [cpus] of the CPU with the executing CPU's APIC id. *)
Definition find_cpu (m : machine) : option nat :=
  fst <$> list_find (λ c, apicid c = lapicid m) (cpus m).

(** [mycpu], src/hw3/xv6/proc.c:40-56 *)
Definition mycpu : M machine nat :=
  m ← getS;
  if eflags_if m then fail (Panic "mycpu called with interrupts enabled")
  else match find_cpu m with
       | Some i => mret i
       | None => fail (Panic "unknown apicid")
       end.

(** [cpuid], src/hw3/xv6/proc.c:33-36 *)
Definition cpuid : M machine Z := i ← mycpu; mret (Z.of_nat i).

Definition get_cpu (i : nat) : M machine cpu := m ← getS; of_option (cpus m !! i).
Definition upd_cpu (i : nat) (f : cpu → cpu) : M machine unit :=
  c ← get_cpu i; modify (λ m, set_cpus (<[i := f c]> (cpus m)) m).

(** [pushcli], src/hw3/xv6/spinlock.c:104-114 *)
Definition pushcli : M machine unit :=
  eflags ← gets eflags_if;
  set_interrupts false;;
  i ← mycpu;
  c ← get_cpu i;
  (if ncli c =? 0 then upd_cpu i (set_intena eflags) else mret tt);;
  upd_cpu i (λ c, set_ncli (ncli c + 1) c).

(** [popcli], src/hw3/xv6/spinlock.c:116-125 *)
Definition popcli : M machine unit :=
  eflags ← gets eflags_if;
  if (eflags : bool) then fail (Panic "popcli - interruptible")
  else
    i ← mycpu;
    upd_cpu i (λ c, set_ncli (ncli c - 1) c);;
    c ← get_cpu i;
    if ncli c <? 0 then fail (Panic "popcli")
    else if (ncli c =? 0) && intena c then set_interrupts true else mret tt.

(** [myproc], src/hw3/xv6/proc.c:60-69 *)
Definition myproc : M machine (option nat) :=
  pushcli;; i ← mycpu; c ← get_cpu i; popcli;; mret (cproc c).

Definition get_lock (a : Z) : M machine lock := m ← getS; of_option (locks m !! a).
Definition set_lock (a : Z) (l : lock) : M machine unit := modify (λ m, set_locks (<[a := l]> (locks m)) m).

(** [initlock], src/hw3/xv6/spinlock.c:12-18 *)
Definition initlock (a : Z) : M machine unit := set_lock a (Lock false None).

(** [holding], src/hw3/xv6/spinlock.c:89-97 *)
Definition holding (a : Z) : M machine bool :=
  pushcli;; i ← mycpu; l ← get_lock a; popcli;;
  mret (locked l && bool_decide (lcpu l = Some i)).

(** [acquire], src/hw3/xv6/spinlock.c:24-43 *)
Definition acquire (a : Z) : M machine unit :=
  pushcli;;
  h ← holding a;
  if (h : bool) then fail (Panic "acquire")
  else
    l ← get_lock a;
    if locked l then fail (Sleep a) (* while(xchg(&lk->locked, 1) != 0) ; *)
    else
      set_lock a (Lock true (lcpu l));;
      i ← mycpu;
      set_lock a (Lock true (Some i)).

(** [release], src/hw3/xv6/spinlock.c:46-68 *)
Definition release (a : Z) : M machine unit :=
  h ← holding a;
  if negb h then fail (Panic "release")
  else
    set_lock a (Lock true None);;
    set_lock a (Lock false None);;
    popcli.

Definition KERNBASE : Z := 0x80000000.

(** [getcallerpcs: the loops], src/hw3/xv6/spinlock.c:78-85
    [rd a] is the word at kernel address [a]. *)
Fixpoint getcallerpcs_loop (rd : Z → Z) (n : nat) (ebp : Z) : list Z :=
  match n with
  | O => []
  | S n' =>
      if (ebp =? 0) || (ebp <? KERNBASE) || (ebp =? 0xffffffff) then replicate n 0
      else rd (u32 (ebp + 4)) :: getcallerpcs_loop rd n' (rd ebp)
  end.
(** [getcallerpcs], src/hw3/xv6/spinlock.c:70-86 *)
Definition getcallerpcs (rd : Z → Z) (v : Z) : list Z := getcallerpcs_loop rd 10 (u32 (v - 8)).

(** ** Machine states *)

(** The executing CPU is [cpus[i]], with record [c]. *)
Definition on_cpu (m : machine) (i : nat) (c : cpu) : Prop :=
  find_cpu m = Some i ∧ cpus m !! i = Some c.

(** The invariant of interrupt nesting: interrupts are off inside. *)
Definition nest_ok (m : machine) (c : cpu) : Prop :=
  0 ≤ ncli c ∧ (0 < ncli c → eflags_if m = false).

(** The CPU's record after pushcli and after the matching popcli. *)
Definition pushed (m : machine) (c : cpu) : cpu :=
  set_ncli (ncli c + 1) (if ncli c =? 0 then set_intena (eflags_if m) c else c).

Lemma find_cpu_lookup m i : find_cpu m = Some i → ∃ c, cpus m !! i = Some c ∧ apicid c = lapicid m.
Proof.
  unfold find_cpu. intros ([j c] & Hf & ->)%fmap_Some. apply list_find_Some in Hf as (? & ? & _). by exists c.
Qed.

(** Updates that keep the APIC ids keep the executing CPU. *)
Lemma find_cpu_insert m i c c' :
  cpus m !! i = Some c → apicid c' = apicid c →
  find_cpu (set_cpus (<[i := c']> (cpus m)) m) = find_cpu m.
Proof.
  intros Hc Ha. unfold find_cpu. cbn [cpus lapicid set_cpus].
  generalize (lapicid m) as x. revert i Hc. generalize (cpus m) as l.
  induction l as [|d l IH]; intros i Hc x; [done|].
  destruct i as [|i]; cbn [list_find insert list_insert].
  - injection Hc as ->. cbn. rewrite Ha. by destruct (decide (apicid c = x)).
  - cbn. destruct (decide (apicid d = x)); [done|]. specialize (IH i Hc x).
    destruct (list_find _ (<[i:=c']> l)) as [[]|], (list_find _ l) as [[]|]; simpl in *; congruence.
Qed.

Lemma on_cpu_upd m i c c' :
  on_cpu m i c → apicid c' = apicid c → on_cpu (set_cpus (<[i := c']> (cpus m)) m) i c'.
Proof.
  intros [Hf Hc] Ha. split; [by rewrite (find_cpu_insert m i c c')|].
  apply list_lookup_insert_eq. by eapply lookup_lt_Some.
Qed.

Lemma wp_mycpu m i c Q : on_cpu m i c → eflags_if m = false → Q i m → wp mycpu Q m.
Proof. intros [Hf _] He HQ. unfold mycpu. apply wp_bind. unfold wp, getS. rewrite He, Hf. done. Qed.

Lemma wp_upd_cpu m i c f Q :
  on_cpu m i c → Q tt (set_cpus (<[i := f c]> (cpus m)) m) → wp (upd_cpu i f) Q m.
Proof.
  intros [_ Hc] HQ. unfold upd_cpu, get_cpu. apply wp_bind, wp_bind, wp_of_option with c; [done|]. done.
Qed.

Lemma wp_get_cpu m i c Q : on_cpu m i c → Q c m → wp (get_cpu i) Q m.
Proof. intros [_ Hc] HQ. apply wp_bind, wp_of_option with c; done. Qed.

Lemma set_cpus_twice m i c c' :
  set_cpus (<[i := c']> (cpus (set_cpus (<[i := c]> (cpus m)) m))) (set_cpus (<[i := c]> (cpus m)) m)
  = set_cpus (<[i := c']> (cpus m)) m.
Proof. unfold set_cpus. simpl. by rewrite list_insert_insert_eq. Qed.

Lemma wp_pushcli m i c Q :
  on_cpu m i c → Q tt (set_cpus (<[i := pushed m c]> (cpus m)) (set_if false m)) → wp pushcli Q m.
Proof.
  intros Hon HQ. unfold pushcli. apply wp_bind, wp_gets, wp_bind, wp_modify.
  assert (on_cpu (set_if false m) i c) as Hon1 by exact Hon.
  apply wp_bind, (wp_mycpu _ i c); [done..|]. apply wp_bind, (wp_get_cpu _ i c); [done|].
  unfold pushed in HQ. destruct (ncli c =? 0).
  - apply wp_bind, (wp_upd_cpu _ i c); [done|].
    apply wp_upd_cpu with (set_intena (eflags_if m) c); [by apply on_cpu_upd with c|].
    by rewrite set_cpus_twice.
  - apply wp_bind, wp_ret. by apply wp_upd_cpu with c.
Qed.

Lemma wp_popcli m i c Q :
  on_cpu m i c → eflags_if m = false → 1 ≤ ncli c →
  Q tt (set_cpus (<[i := set_ncli (ncli c - 1) c]> (cpus m)) (set_if ((ncli c =? 1) && intena c) m)) →
  wp popcli Q m.
Proof.
  intros Hon He Hn HQ. unfold popcli. apply wp_bind, wp_gets. rewrite He.
  apply wp_bind, (wp_mycpu _ i c); [done..|]. apply wp_bind, (wp_upd_cpu _ i c); [done|].
  set (c1 := set_ncli (ncli c - 1) c) in *.
  assert (on_cpu (set_cpus (<[i := c1]> (cpus m)) m) i c1) as Hon1 by (by apply on_cpu_upd with c).
  apply wp_bind, (wp_get_cpu _ i c1); [done|]. cbn [ncli c1 set_ncli intena] in *.
  rewrite (proj2 (Z.ltb_ge _ _)) by lia.
  destruct (Z.eqb_spec (ncli c) 1), (Z.eqb_spec (ncli c - 1) 0); try lia; cbn [andb] in *;
    [destruct (intena c)|]; cbn in *; rewrite ?He in *; unfold set_cpus, set_if in *; cbn in *;
    try (apply wp_modify); try apply wp_ret; rewrite <- ?He in HQ; destruct m; cbn in *; by subst.
Qed.

(** ** Nesting *)

(** Inside an outer pushcli, a matched pair changes nothing. *)
Lemma wp_bracket {A} m i c (f : M machine A) Q :
  on_cpu m i c → eflags_if m = false → 1 ≤ ncli c →
  (∀ m1, on_cpu m1 i (set_ncli (ncli c + 1) c) → eflags_if m1 = false → locks m1 = locks m →
     wp f (λ a m2, m2 = m1 ∧ Q a m) m1) →
  wp (pushcli;; a ← f; popcli;; mret a) Q m.
Proof.
  intros Hon He Hn Hf. set (c1 := set_ncli (ncli c + 1) c).
  apply wp_bind, (wp_pushcli _ i c); [done|].
  assert (pushed m c = c1) as -> by (unfold pushed; by rewrite (proj2 (Z.eqb_neq _ _)) by lia).
  assert (on_cpu (set_cpus (<[i := c1]> (cpus m)) (set_if false m)) i c1) as Hon1
    by (exact (on_cpu_upd (set_if false m) i c c1 Hon eq_refl)).
  apply wp_bind. eapply wp_mono; [apply Hf; done|]. intros a m2 [-> HQ].
  apply wp_bind, (wp_popcli _ i c1); [done|done|cbn; lia|]. apply wp_ret.
  cbn [ncli c1 set_ncli intena]. rewrite (proj2 (Z.eqb_neq _ _)) by lia. cbn [andb].
  assert (cpus m !! i = Some c) as Hc by apply Hon.
  replace (set_cpus _ _) with m; [done|]. destruct m as [cs b l lk], c. cbn in *. subst b.
  unfold set_cpus, set_if. cbn. rewrite list_insert_insert_eq.
  replace (ncli0 + 1 - 1) with ncli0 by lia. by rewrite list_insert_id.
Qed.

Fixpoint nested (n : nat) : M machine unit :=
  match n with
  | O => mret tt
  | S n' => pushcli;; nested n';; popcli
  end.

Lemma wp_nested n m i c Q :
  on_cpu m i c → eflags_if m = false → 1 ≤ ncli c → Q tt m → wp (nested n) Q m.
Proof.
  revert m c Q. induction n as [|n IH]; intros m c Q Hon He Hn HQ; [by apply wp_ret|].
  assert (wp (pushcli;; a ← nested n; popcli;; mret a) Q m) as H.
  { apply (wp_bracket m i c); [done..|]. intros m1 Hon1 He1 _.
    apply (IH m1 (set_ncli (ncli c + 1) c)); [done|done|cbn; lia|done]. }
  revert H. unfold wp. cbn [nested]. unfold mbind, M_bind, mret, M_ret.
  destruct (pushcli m) as [[] m1|]; [|done]. destruct (nested n m1) as [[] m2|]; [|done].
  by destruct (popcli m2) as [[] m3|].
Qed.

(** ** Locks *)

Lemma wp_get_lock m a l Q : locks m !! a = Some l → Q l m → wp (get_lock a) Q m.
Proof. intros Hl HQ. apply wp_bind, wp_of_option with l; done. Qed.

Lemma wp_holding m i c a l Q :
  on_cpu m i c → eflags_if m = false → 1 ≤ ncli c → locks m !! a = Some l →
  Q (locked l && bool_decide (lcpu l = Some i)) m → wp (holding a) Q m.
Proof.
  intros Hon He Hn Hl HQ.
  assert (wp (pushcli;; x ← (i ← mycpu; l ← get_lock a; mret (locked l && bool_decide (lcpu l = Some i)));
              popcli;; mret x) Q m) as H.
  { apply (wp_bracket m i c); [done..|]. intros m1 Hon1 He1 Hl1.
    apply wp_bind, (wp_mycpu _ i _ _ Hon1 He1). apply wp_bind, wp_get_lock with l; [congruence|]. done. }
  revert H. unfold wp, holding, mbind, M_bind, mret, M_ret.
  destruct (pushcli m) as [[] m1|]; [|done]. destruct (mycpu m1) as [j m2|]; [|done].
  destruct (get_lock a m2) as [l' m3|]; [|done]. by destruct (popcli m3) as [[] m4|].
Qed.

Definition free_lock : lock := Lock false None.

(** The machine after the executing CPU [i] took the lock at [a]. *)
Definition acquired (a : Z) (i : nat) (c : cpu) (m : machine) : machine :=
  set_locks (<[a := Lock true (Some i)]> (locks m))
    (set_cpus (<[i := pushed m c]> (cpus m)) (set_if false m)).

Lemma on_pushed m i c : on_cpu m i c → on_cpu (set_cpus (<[i := pushed m c]> (cpus m)) (set_if false m)) i (pushed m c).
Proof.
  intros Hon. apply (on_cpu_upd (set_if false m) i c); [exact Hon|]. unfold pushed. by destruct (_ =? _).
Qed.

Lemma ncli_pushed m c : ncli (pushed m c) = ncli c + 1.
Proof. unfold pushed. by destruct (_ =? _). Qed.

Lemma wp_acquire m i c a l Q :
  on_cpu m i c → 0 ≤ ncli c → locks m !! a = Some l → locked l = false →
  Q tt (acquired a i c m) → wp (acquire a) Q m.
Proof.
  intros Hon Hn Hl Hfree HQ. apply wp_bind, (wp_pushcli _ i c); [done|].
  set (m1 := set_cpus _ _). pose proof (on_pushed m i c Hon) as Hon1. fold m1 in Hon1.
  apply wp_bind, (wp_holding _ i (pushed m c) a l); [done|done|rewrite ncli_pushed; lia|done|].
  rewrite Hfree. cbn [andb]. apply wp_bind, wp_get_lock with l; [done|]. rewrite Hfree.
  apply wp_bind, wp_modify, wp_bind, (wp_mycpu _ i (pushed m c)); [done..|]. apply wp_modify.
  unfold acquired in HQ. cbn [set_locks locks cpus]. by rewrite insert_insert_eq.
Qed.

Lemma wp_release m i c a Q :
  on_cpu m i c → eflags_if m = false → 1 ≤ ncli c → locks m !! a = Some (Lock true (Some i)) →
  Q tt (set_cpus (<[i := set_ncli (ncli c - 1) c]> (cpus m))
         (set_if ((ncli c =? 1) && intena c) (set_locks (<[a := free_lock]> (locks m)) m))) →
  wp (release a) Q m.
Proof.
  intros Hon He Hn Hl HQ. apply wp_bind, (wp_holding _ i c a (Lock true (Some i))); [done..|].
  cbn [locked lcpu andb]. rewrite bool_decide_eq_true_2 by done. cbn [negb].
  apply wp_bind, wp_modify, wp_bind, wp_modify. apply (wp_popcli _ i c); [exact Hon|done|done|].
  cbn [set_locks locks cpus]. unfold set_lock, set_locks. cbn. by rewrite insert_insert_eq.
Qed.

(** What a critical section relies on, without the details of the CPU table:
    [idle] before, [inside] while the lock is held. *)
Definition idle_on (i : nat) (a : Z) (p : option nat) (b : bool) (m : machine) : Prop :=
  ∃ c, on_cpu m i c ∧ ncli c = 0 ∧ cproc c = p ∧ eflags_if m = b ∧ locks m !! a = Some free_lock.
Definition inside_on (i : nat) (a : Z) (p : option nat) (b : bool) (m : machine) : Prop :=
  ∃ c, on_cpu m i c ∧ ncli c = 1 ∧ cproc c = p ∧ intena c = b ∧ eflags_if m = false ∧
    locks m !! a = Some (Lock true (Some i)).
Definition idle (a : Z) (p : option nat) (b : bool) (m : machine) : Prop := ∃ i, idle_on i a p b m.
Definition inside (a : Z) (p : option nat) (b : bool) (m : machine) : Prop := ∃ i, inside_on i a p b m.

Lemma wp_enter_on i a p b m Q :
  idle_on i a p b m → (∀ m', inside_on i a p b m' → Q tt m') → wp (acquire a) Q m.
Proof.
  intros (c & Hon & Hn & Hp & Hb & Hl) HQ. apply (wp_acquire _ i c a free_lock); [done|lia|done|done|].
  apply HQ. exists (pushed m c). split; [exact (on_pushed m i c Hon)|]. rewrite ncli_pushed.
  unfold pushed. rewrite Hn. cbn. split_and!; [done..|]. apply lookup_insert_eq.
Qed.

Lemma wp_leave_on i a p b m Q :
  inside_on i a p b m → (∀ m', idle_on i a p b m' → Q tt m') → wp (release a) Q m.
Proof.
  intros (c & Hon & Hn & Hp & Hb & He & Hl) HQ. apply (wp_release _ i c a); [done|done|lia|done|].
  apply HQ. exists (set_ncli (ncli c - 1) c). rewrite Hn. cbn. split_and!; [|done..|].
  - exact (on_cpu_upd (set_if _ (set_locks _ m)) i c (set_ncli 0 c) Hon eq_refl).
  - apply lookup_insert_eq.
Qed.

Lemma wp_enter a p b m Q : idle a p b m → (∀ m', inside a p b m' → Q tt m') → wp (acquire a) Q m.
Proof. intros [i Hi] HQ. apply (wp_enter_on i a p b); [done|]. intros m' Hm'. apply HQ. by exists i. Qed.

Lemma wp_leave a p b m Q : inside a p b m → (∀ m', idle a p b m' → Q tt m') → wp (release a) Q m.
Proof. intros [i Hi] HQ. apply (wp_leave_on i a p b); [done|]. intros m' Hm'. apply HQ. by exists i. Qed.

(** The process of the executing CPU is changed. *)
Lemma wp_set_cproc i a p p' b m Q :
  inside_on i a p b m → (∀ m', inside_on i a p' b m' → Q tt m') → wp (upd_cpu i (set_cproc p')) Q m.
Proof.
  intros (c & Hon & Hn & Hp & Hb & He & Hl) HQ. apply wp_upd_cpu with c; [done|]. apply HQ.
  exists (set_cproc p' c). split; [by apply (on_cpu_upd m i c)|]. done.
Qed.

Lemma wp_myproc_inside a p b m Q : inside a p b m → Q p m → wp myproc Q m.
Proof.
  intros (i & c & Hon & Hn & <- & Hb & He & Hl) HQ.
  assert (wp (pushcli;; x ← (i ← mycpu; c ← get_cpu i; mret (cproc c)); popcli;; mret x) Q m) as H.
  { apply (wp_bracket m i c); [done|done|lia|]. intros m1 Hon1 He1 _.
    apply wp_bind, (wp_mycpu _ i _ _ Hon1 He1). by apply wp_bind, (wp_get_cpu _ _ _ _ Hon1). }
  revert H. unfold wp, myproc, mbind, M_bind, mret, M_ret.
  destruct (pushcli m) as [[] m1|]; [|done]. destruct (mycpu m1) as [j m2|]; [|done].
  destruct (get_cpu j m2) as [c' m3|]; [|done]. by destruct (popcli m3) as [[] m4|].
Qed.

Lemma wp_myproc_idle a p b m Q : idle a p b m → (∀ m', idle a p b m' → Q p m') → wp myproc Q m.
Proof.
  intros (i & c & Hon & Hn & <- & Hb & Hl) HQ. unfold myproc. apply wp_bind, (wp_pushcli _ i c); [done|].
  pose proof (on_pushed m i c Hon) as Hon1. apply wp_bind, (wp_mycpu _ i _ _ Hon1 eq_refl).
  apply wp_bind, (wp_get_cpu _ _ _ _ Hon1). apply wp_bind, (wp_popcli _ i _ _ Hon1 eq_refl); [rewrite ncli_pushed; lia|].
  apply wp_ret. assert (cproc (pushed m c) = cproc c) as -> by (unfold pushed; by destruct (_ =? _)).
  apply HQ. exists i, (set_ncli (ncli (pushed m c) - 1) (pushed m c)).
  set (m1 := set_cpus _ (set_if false m)) in *.
  split; [apply (on_cpu_upd (set_if ((ncli (pushed m c) =? 1) && intena (pushed m c)) m1) i (pushed m c)); [exact Hon1|done]|].
  rewrite ncli_pushed. unfold pushed. rewrite Hn. cbn.
  split_and!; done.
Qed.

(** Taking a second lock and dropping the first, as sleep does. *)
Lemma wp_swap_locks l a p b m Q :
  inside l p b m → a ≠ l → locks m !! a = Some free_lock →
  (∀ m', inside a p b m' → locks m' !! l = Some free_lock → Q tt m') →
  wp (acquire a;; release l) Q m.
Proof.
  intros (i & c & Hon & Hn & Hp & Hb & He & Hl) Hne Ha HQ.
  apply wp_bind, (wp_acquire _ i c a free_lock); [done|lia|done|done|].
  pose proof (on_pushed m i c Hon) as Hon1.
  assert (pushed m c = set_ncli (ncli c + 1) c) as Hpu
    by (unfold pushed; by rewrite (proj2 (Z.eqb_neq _ _)) by lia).
  set (m1 := acquired a i c m). assert (on_cpu m1 i (pushed m c)) as Hon2 by exact Hon1.
  assert (locks m1 !! l = Some (Lock true (Some i))) as Hl1.
  { unfold m1, acquired. cbn. by rewrite lookup_insert_ne by done. }
  apply (wp_release _ i (pushed m c) l); [done|done|rewrite ncli_pushed; lia|done|].
  apply HQ.
  - exists i, (set_ncli (ncli (pushed m c) - 1) (pushed m c)). rewrite ncli_pushed, Hpu, Hn. cbn.
    split_and!; try done.
    + apply (on_cpu_upd (set_if false (set_locks (<[l := free_lock]> (locks m1)) m1)) i (pushed m c)); [exact Hon2|].
      by rewrite Hpu.
    + rewrite lookup_insert_ne by done. apply lookup_insert_eq.
  - cbn. apply lookup_insert_eq.
Qed.

(** ** Properties *)

(** pushcli and popcli are matched, to any depth: after [n] nested pairs
    the interrupt flag, the locks and the nesting depth are as before; only
    the saved flag of the CPU records the outermost interrupt state. *)
Theorem cli_nesting_matched n m i c :
  on_cpu m i c → nest_ok m c →
  wp (nested n) (λ _ m', eflags_if m' = eflags_if m ∧ locks m' = locks m ∧ lapicid m' = lapicid m ∧
    ∃ c', cpus m' = <[i := c']> (cpus m) ∧ ncli c' = ncli c ∧ cproc c' = cproc c ∧
      (0 < ncli c → c' = c)) m.
Proof.
  intros Hon [Hn Hif]. assert (cpus m !! i = Some c) as Hc by apply Hon.
  assert (Hself : ∃ c', cpus m = <[i := c']> (cpus m) ∧ ncli c' = ncli c ∧ cproc c' = cproc c ∧ (0 < ncli c → c' = c))
    by (exists c; rewrite list_insert_id; done).
  destruct (decide (0 < ncli c)) as [Hpos|Hz].
  { apply (wp_nested n m i c); [done|by apply Hif|lia|]. done. }
  destruct n as [|n]; [by apply wp_ret|]. cbn [nested].
  apply wp_bind, (wp_pushcli _ i c); [done|]. pose proof (on_pushed m i c Hon) as Hon1.
  apply wp_bind, (wp_nested n _ i _ _ Hon1 eq_refl); [rewrite ncli_pushed; lia|].
  apply (wp_popcli _ i _ _ Hon1 eq_refl); [rewrite ncli_pushed; lia|]. rewrite ncli_pushed.
  unfold pushed. replace (ncli c) with 0 by lia. cbn. rewrite list_insert_insert_eq.
  split_and!; [done..|]. eexists. split_and!; [done|done|done|lia].
Qed.

Definition demo_machine : machine :=
  Machine [Cpu 0 0 false None; Cpu 1 0 false (Some 3%nat)] true 1 {[ 500 := free_lock ]}.

Example cli_nesting_witness :
  wp (nested 5) (λ _ m', eflags_if m' = true ∧ locks m' = locks demo_machine) demo_machine.
Proof.
  eapply wp_mono; [apply (cli_nesting_matched 5 demo_machine 1 (Cpu 1 0 false (Some 3%nat)))|].
  - done.
  - split; [done|]. intros H. by apply Z.lt_irrefl in H.
  - intros [] m' (-> & -> & _). done.
Defined.

(** The machine as CPU number [j], with record [d] and interrupt flag [b], sees it. *)
Definition seen_from (d : cpu) (b : bool) (m : machine) : machine := Machine (cpus m) b (apicid d) (locks m).

(** An acquire of a lock held by CPU [o], executed by CPU [j]. *)
Lemma acquire_held m j d a o :
  on_cpu m j d → 0 ≤ ncli d → locks m !! a = Some (Lock true (Some o)) →
  fails (acquire a) (if decide (o = j) then Panic "acquire" else Sleep a) m.
Proof.
  intros Hon Hn Hl. apply fails_bind, (wp_pushcli _ j d); [done|]. pose proof (on_pushed m j d Hon) as Hon1.
  apply fails_bind, (wp_holding _ j (pushed m d) a (Lock true (Some o))); [done|done|rewrite ncli_pushed; lia|done|].
  cbn [locked lcpu andb]. case_decide.
  - subst o. rewrite bool_decide_eq_true_2 by done. apply fails_fail.
  - rewrite bool_decide_eq_false_2 by congruence.
    apply fails_bind, wp_get_lock with (Lock true (Some o)); [done|]. apply fails_fail.
Qed.

(** A spin lock excludes: after CPU [i] acquires a free lock, [i] holds it
    with interrupts off; a second acquire by [i] panics, an acquire from any
    other CPU spins, and a release by [i] frees the lock and restores the
    interrupt flag. *)
Theorem spinlock_excludes m i c a :
  on_cpu m i c → nest_ok m c → locks m !! a = Some free_lock →
  wp (acquire a) (λ _ m1, eflags_if m1 = false ∧ locks m1 !! a = Some (Lock true (Some i)) ∧
    fails (acquire a) (Panic "acquire") m1 ∧
    (∀ j d b, j ≠ i → on_cpu (seen_from d b m1) j d → 0 ≤ ncli d →
       fails (acquire a) (Sleep a) (seen_from d b m1)) ∧
    wp (release a) (λ _ m2, eflags_if m2 = eflags_if m ∧ locks m2 = locks m) m1) m.
Proof.
  intros Hon [Hn Hif] Hl. apply (wp_acquire _ i c a free_lock); [done..|].
  pose proof (on_pushed m i c Hon) as Hon1. pose proof (ncli_pushed m c) as Hnp.
  assert (locks (acquired a i c m) !! a = Some (Lock true (Some i))) as Hla by apply lookup_insert_eq.
  split; [done|]. split; [done|]. split; [|split].
  - pose proof (acquire_held (acquired a i c m) i (pushed m c) a i Hon1) as H.
    rewrite decide_True in H by done. apply H; [lia|done].
  - intros j d b Hne Honj Hnj. pose proof (acquire_held _ j d a i Honj Hnj Hla) as H.
    by rewrite decide_False in H.
  - apply (wp_release _ i (pushed m c) a); [done|done|lia|done|]. cbn [eflags_if locks set_cpus set_if set_locks acquired].
    rewrite insert_insert_eq, insert_id by done. split; [|done]. rewrite Hnp. unfold pushed.
    destruct (Z.eqb_spec (ncli c) 0) as [->|]; [by destruct (eflags_if m)|].
    rewrite (proj2 (Z.eqb_neq _ _)) by lia. cbn. symmetry. apply Hif. lia.
Qed.

Example spinlock_excludes_witness :
  wp (acquire 500) (λ _ m1, fails (acquire 500) (Panic "acquire") m1) demo_machine.
Proof.
  eapply wp_mono; [apply (spinlock_excludes demo_machine 1 (Cpu 1 0 false (Some 3%nat)) 500)|].
  - done.
  - split; [done|]. intros H. by apply Z.lt_irrefl in H.
  - done.
  - intros [] m1 (_ & _ & H & _). exact H.
Defined.
