(* ===== verification/Xstring.v ===== *)
(** * The string and memory functions of xv6 (string.c, ulib.c)

    The functions that may be given overlapping areas ([memmove], [memset])
    run on one flat memory, a list of bytes indexed by address.  The string
    functions read and write separate objects: [None] stands for an access
    outside the object, or a signed overflow. *)

From S2P Require Import Prelude Bytes.

(** ** Memory *)

Definition load (m : list Z) (a : nat) : option Z := m !! a.
Definition store (a : nat) (x : Z) (m : list Z) : option (list Z) :=
  if decide (a < length m)%nat then Some (<[a := x]> m) else None.

(** [stosb], src/hw3/xv6/x86.h:42-49 *)
Fixpoint stosb (dst : nat) (c : Z) (n : nat) (m : list Z) : option (list Z) :=
  match n with
  | O => Some m
  | S n' => m' ← store dst (u8 c) m; stosb (S dst) c n' m'
  end.

(** [stosl], src/hw3/xv6/x86.h:51-58 *)
Fixpoint stosl (dst : nat) (w : Z) (n : nat) (m : list Z) : option (list Z) :=
  match n with
  | O => Some m
  | S n' =>
      if decide (dst + 4 ≤ length m)%nat then stosl (dst + 4) w n' (put dst (le_enc 4 w) m) else None
  end.

(** [memset], src/hw3/xv6/string.c:4-13 *)
Definition memset (dst : nat) (c : Z) (n : nat) (m : list Z) : option (list Z) :=
  if (dst `mod` 4 =? 0)%nat && (n `mod` 4 =? 0)%nat then
    let c := Z.land c 0xFF in
    stosl dst (Z.lor (Z.lor (Z.lor (Z.shiftl c 24) (Z.shiftl c 16)) (Z.shiftl c 8)) c) (n / 4) m
  else stosb dst c n m.

(** [memcmp], src/hw3/xv6/string.c:15-29 *)
Fixpoint memcmp (s1 s2 : list Z) (n : nat) : option Z :=
  match n with
  | O => Some 0
  | S n' =>
      match s1, s2 with
      | x :: s1', y :: s2' => if negb (x =? y) then Some (x - y) else memcmp s1' s2' n'
      | _, _ => None
      end
  end.

(** [memmove: copying upwards], src/hw3/xv6/string.c:45-46 *)
Fixpoint copy_up (d s n : nat) (m : list Z) : option (list Z) :=
  match n with
  | O => Some m
  | S n' => x ← load m s; m' ← store d x m; copy_up (S d) (S s) n' m'
  end.

(** [memmove: copying downwards], src/hw3/xv6/string.c:40-43
    [d] and [s] are one past the last byte. *)
Fixpoint copy_down (d s n : nat) (m : list Z) : option (list Z) :=
  match n with
  | O => Some m
  | S n' => x ← load m (s - 1); m' ← store (d - 1) x m; copy_down (d - 1) (s - 1) n' m'
  end.

(** [memmove], src/hw3/xv6/string.c:31-49 *)
Definition memmove (dst src n : nat) (m : list Z) : option (list Z) :=
  if (src <? dst)%nat && (dst <? src + n)%nat then copy_down (dst + n) (src + n) n m
  else copy_up dst src n m.

(** [memcpy], src/hw3/xv6/string.c:51-56 *)
Definition memcpy (dst src n : nat) (m : list Z) : option (list Z) := memmove dst src n m.

(** [memmove], src/hw3/xv6/ulib.c:95-106 *)
Definition umemmove (dst src : nat) (n : Z) (m : list Z) : option (list Z) := copy_up dst src (Z.to_nat n) m.

(** [memset], src/hw3/xv6/ulib.c:36-41 *)
Definition umemset (dst : nat) (c : Z) (n : nat) (m : list Z) : option (list Z) := stosb dst c n m.

(** ** Strings *)

(** [strncmp], src/hw3/xv6/string.c:58-66 *)
Fixpoint strncmp (p q : list Z) (n : nat) : option Z :=
  match n with
  | O => Some 0
  | S n' =>
      match p, q with
      | x :: p', y :: q' => if negb (x =? 0) && (x =? y) then strncmp p' q' n' else Some (x - y)
      | _, _ => None
      end
  end.

(** [strncpy: padding], src/hw3/xv6/string.c:76-77 *)
Fixpoint zero_fill (off n : nat) (s : list Z) : option (list Z) :=
  match n with
  | O => Some s
  | S n' => s' ← store off 0 s; zero_fill (S off) n' s'
  end.

(** [strncpy: copying], src/hw3/xv6/string.c:74-77 *)
Fixpoint strncpy_loop (off : nat) (s t : list Z) (n : nat) : option (list Z) :=
  match n with
  | O => Some s
  | S n' =>
      match t with
      | [] => None
      | c :: t' => s' ← store off c s; if c =? 0 then zero_fill (S off) n' s' else strncpy_loop (S off) s' t' n'
      end
  end.
(** [strncpy], src/hw3/xv6/string.c:68-79 *)
Definition strncpy (s t : list Z) (n : Z) : option (list Z) := strncpy_loop 0 s t (Z.to_nat n).

(** [safestrcpy: copying], src/hw3/xv6/string.c:90-92 *)
Fixpoint safestrcpy_loop (off : nat) (s t : list Z) (n : nat) : option (list Z) :=
  match n with
  | O => None
  | S O => store off 0 s
  | S n' =>
      match t with
      | [] => None
      | c :: t' => s' ← store off c s; if c =? 0 then store (S off) 0 s' else safestrcpy_loop (S off) s' t' n'
      end
  end.
(** [safestrcpy], src/hw3/xv6/string.c:81-94 *)
Definition safestrcpy (s t : list Z) (n : Z) : option (list Z) :=
  if n <=? 0 then Some s else safestrcpy_loop 0 s t (Z.to_nat n).

(** [strlen: the loop], src/hw3/xv6/string.c:101-102 *)
Fixpoint strlen_from (n : nat) (s : list Z) : option nat :=
  match s with
  | [] => None
  | c :: s' => if c =? 0 then Some n else strlen_from (S n) s'
  end.
(** [strlen], src/hw3/xv6/string.c:96-104 *)
Definition strlen (s : list Z) : option nat := strlen_from 0 s.

(** [strlen], src/hw3/xv6/ulib.c:26-34 *)
Definition ustrlen (s : list Z) : option Z := Z.of_nat <$> strlen_from 0 s.

(** [strcpy], src/hw3/xv6/ulib.c:7-16
    From offset [off] of the destination on. *)
Fixpoint ustrcpy_loop (off : nat) (s t : list Z) : option (list Z) :=
  match t with
  | [] => None
  | c :: t' => s' ← store off c s; if c =? 0 then Some s' else ustrcpy_loop (S off) s' t'
  end.

(** [strcmp], src/hw3/xv6/ulib.c:18-24 *)
Fixpoint ustrcmp (p q : list Z) : option Z :=
  match p, q with
  | x :: p', y :: q' => if negb (x =? 0) && (x =? y) then ustrcmp p' q' else Some (x - y)
  | _, _ => None
  end.

(** [strchr: the loop], src/hw3/xv6/ulib.c:46-49 *)
Fixpoint strchr_from (n : nat) (s : list Z) (c : Z) : option (option nat) :=
  match s with
  | [] => None
  | x :: s' => if x =? 0 then Some None else if x =? c then Some (Some n) else strchr_from (S n) s' c
  end.
(** [strchr], src/hw3/xv6/ulib.c:43-50
    The offset of the character found; [Some None] is the null pointer. *)
Definition strchr (s : list Z) (c : Z) : option (option nat) := strchr_from 0 s c.

(** [gets: the loop], src/hw3/xv6/ulib.c:58-66
    [input] is what successive reads of one byte give, up to end of file; the
    result is the bytes stored in the buffer and the input left. *)
Fixpoint ugets_loop (n : nat) (input acc : list Z) : list Z * list Z :=
  match n, input with
  | S n', c :: input' =>
      if (c =? 10) || (c =? 13) then (acc ++ [c; 0], input') else ugets_loop n' input' (acc ++ [c])
  | _, _ => (acc ++ [0], input)
  end.
(** [gets], src/hw3/xv6/ulib.c:52-68 *)
Definition ugets (max : Z) (input : list Z) : list Z * list Z := ugets_loop (Z.to_nat (max - 1)) input [].

(** A signed int expression. *)
Definition int_chk (z : Z) : option Z := if (- 2 ^ 31 <=? z) && (z <? 2 ^ 31) then Some z else None.
(** [atoi: the loop], src/hw3/xv6/ulib.c:90-91 *)
Fixpoint atoi_loop (n : Z) (s : list Z) : option Z :=
  match s with
  | [] => None
  | c :: s' =>
      if (48 <=? c) && (c <=? 57) then
        a ← int_chk (n * 10); b ← int_chk (a + c); n' ← int_chk (b - 48); atoi_loop n' s'
      else Some n
  end.
(** [atoi], src/hw3/xv6/ulib.c:84-93 *)
Definition atoi (s : list Z) : option Z := atoi_loop 0 s.

(** ** Memory: the copies and fills are the block operations of [Bytes] *)

Lemma store_put a x m : (a < length m)%nat → store a x m = Some (put a [x] m).
Proof. intros. unfold store. rewrite decide_True by done. by rewrite insert_put. Qed.

Lemma copy_up_spec n : ∀ d s m,
  (d + n ≤ length m)%nat → (s + n ≤ length m)%nat → (d ≤ s ∨ s + n ≤ d)%nat →
  copy_up d s n m = Some (put d (get s n m) m).
Proof.
  induction n as [|n IH]; intros d s m Hd Hs Hdis; cbn [copy_up].
  { rewrite get_0. unfold put. simpl. by rewrite Nat.add_0_r, take_drop. }
  destruct (lookup_lt_is_Some_2 m s) as [x Hx]; [lia|].
  unfold load. rewrite Hx. cbn [mbind option_bind]. rewrite store_put by lia. cbn [mbind option_bind].
  assert (length (put d [x] m) = length m) as Hl by (rewrite length_put; simpl; lia).
  rewrite IH by lia. f_equal. rewrite (get_cons s n x) by done.
  assert (get (S s) n (put d [x] m) = get (S s) n m) as -> by (apply get_put_ne; simpl; lia).
  apply put_cons. rewrite length_get by lia. lia.
Qed.

Lemma put_snoc off x bs (m : list Z) :
  (off + length bs + 1 ≤ length m)%nat →
  put off bs (put (off + length bs) [x] m) = put off (bs ++ [x]) m.
Proof.
  intros H. apply list_eq. intros i.
  rewrite (lookup_put off bs) by (rewrite length_put; simpl; lia).
  rewrite !lookup_put by (rewrite ?length_app; simpl; lia). rewrite length_app. cbn [length].
  repeat case_decide; try lia; try done.
  - by rewrite lookup_app_l by lia.
  - rewrite lookup_app_r by lia. by replace (i - off - length bs)%nat with (i - (off + length bs))%nat by lia.
Qed.

Lemma get_snoc off n x (m : list Z) : m !! (off + n)%nat = Some x → get off (S n) m = get off n m ++ [x].
Proof. intros. unfold get. apply take_S_r. by rewrite lookup_drop. Qed.

Lemma copy_down_spec n : ∀ d s m,
  (d + n ≤ length m)%nat → (s ≤ d)%nat →
  copy_down (d + n) (s + n) n m = Some (put d (get s n m) m).
Proof.
  induction n as [|n IH]; intros d s m Hd Hs; cbn [copy_down].
  { rewrite get_0. unfold put. simpl. by rewrite Nat.add_0_r, take_drop. }
  replace (s + S n - 1)%nat with (s + n)%nat by lia. replace (d + S n - 1)%nat with (d + n)%nat by lia.
  destruct (lookup_lt_is_Some_2 m (s + n)) as [x Hx]; [lia|].
  unfold load. rewrite Hx. cbn [mbind option_bind]. rewrite store_put by lia. cbn [mbind option_bind].
  assert (length (put (d + n) [x] m) = length m) as Hl by (rewrite length_put; simpl; lia).
  rewrite IH by lia. f_equal. rewrite (get_snoc s n x) by done.
  assert (get s n (put (d + n) [x] m) = get s n m) as -> by (apply get_put_ne; simpl; lia).
  rewrite <- put_snoc by (rewrite length_get; lia). by rewrite length_get by lia.
Qed.

(** The kernel's [memmove] moves correctly whatever the overlap: the
    destination gets the source's old contents and nothing else changes. *)
Theorem memmove_overlap dst src n m :
  (dst + n ≤ length m)%nat → (src + n ≤ length m)%nat →
  memmove dst src n m = Some (put dst (get src n m) m).
Proof.
  intros Hd Hs. unfold memmove. destruct (Nat.ltb_spec src dst), (Nat.ltb_spec dst (src + n)); cbn [andb].
  - by apply copy_down_spec; [|lia].
  - by apply copy_up_spec; try lia.
  - by apply copy_up_spec; try lia.
  - by apply copy_up_spec; try lia.
Qed.

Example memmove_overlap_witness : memmove 2 0 5 [1; 2; 3; 4; 5; 6; 7; 8] = Some [1; 2; 1; 2; 3; 4; 5; 8].
Proof. rewrite (memmove_overlap 2 0 5); [reflexivity|simpl; lia|simpl; lia]. Defined.

(** The user library's [memmove] only copies upwards: it is right when the
    destination starts at or below the source or past its end, and an overlap
    from below smears the first bytes. *)
Theorem umemmove_forward_only :
  (∀ dst src n m, (dst + n ≤ length m)%nat → (src + n ≤ length m)%nat → (dst ≤ src ∨ src + n ≤ dst)%nat →
     umemmove dst src (Z.of_nat n) m = Some (put dst (get src n m) m)) ∧
  (let m := [1; 2; 3; 4] in
   umemmove 1 0 3 m = Some [1; 1; 1; 1] ∧ memmove 1 0 3 m = Some [1; 1; 2; 3]).
Proof.
  split; [|done]. intros dst src n m Hd Hs Hdis. unfold umemmove. rewrite Nat2Z.id. by apply copy_up_spec.
Qed.

Lemma stosb_spec n : ∀ dst c m, (dst + n ≤ length m)%nat → stosb dst c n m = Some (put dst (replicate n (u8 c)) m).
Proof.
  induction n as [|n IH]; intros dst c m H; cbn [stosb replicate].
  { unfold put. simpl. by rewrite Nat.add_0_r, take_drop. }
  rewrite store_put by lia. cbn [mbind option_bind].
  rewrite IH by (rewrite length_put; simpl; lia). f_equal. apply put_cons. rewrite length_replicate. lia.
Qed.

Lemma fill_word c :
  let b := Z.land c 0xFF in
  le_enc 4 (Z.lor (Z.lor (Z.lor (Z.shiftl b 24) (Z.shiftl b 16)) (Z.shiftl b 8)) b) = replicate 4 (u8 c).
Proof.
  intros b. assert (b = u8 c) as Hb by (apply (Z.land_ones c 8); lia).
  assert (0 ≤ u8 c < 256) as Hr by (unfold u8; apply Z.mod_pos_bound; lia). rewrite <- Hb in *. clearbody b.
  assert (forallb (λ b, bool_decide (le_enc 4 (Z.lor (Z.lor (Z.lor (Z.shiftl b 24) (Z.shiftl b 16)) (Z.shiftl b 8)) b)
                       = replicate 4 b)) (seqZ 0 256) = true) as H by (vm_compute; reflexivity).
  rewrite forallb_forall in H. eapply bool_decide_eq_true_1, H.
  apply list_elem_of_In, elem_of_seqZ. lia.
Qed.

Lemma stosl_spec n : ∀ dst w b m, le_enc 4 w = replicate 4 b → (dst + 4 * n ≤ length m)%nat →
  stosl dst w n m = Some (put dst (replicate (4 * n) b) m).
Proof.
  induction n as [|n IH]; intros dst w b m Hw H; cbn [stosl].
  { unfold put. simpl. by rewrite Nat.add_0_r, take_drop. }
  rewrite decide_True by lia. rewrite Hw.
  rewrite (IH _ w b) by (rewrite ?length_put; rewrite ?length_replicate; lia || done). f_equal.
  replace (4 * S n)%nat with (4 + 4 * n)%nat by lia. rewrite replicate_add.
  apply list_eq. intros i.
  rewrite (lookup_put (dst + 4)) by (rewrite length_put; rewrite ?length_replicate; lia).
  rewrite !lookup_put by (rewrite ?length_app, ?length_replicate; lia).
  rewrite length_app, !length_replicate. repeat case_decide; try lia; try done.
  - rewrite lookup_app_r by (rewrite length_replicate; lia). rewrite length_replicate. f_equal. lia.
  - by rewrite lookup_app_l by (rewrite length_replicate; lia).
Qed.

(** [memset] fills exactly its area with the low byte of [c], whether it
    takes the word-wise or the byte-wise path. *)
Theorem memset_fills dst c n m :
  (dst + n ≤ length m)%nat → memset dst c n m = Some (put dst (replicate n (u8 c)) m).
Proof.
  intros H. unfold memset. destruct (Nat.eqb_spec (dst `mod` 4) 0), (Nat.eqb_spec (n `mod` 4) 0); cbn [andb];
    try by apply stosb_spec.
  assert (4 * (n / 4) = n)%nat as Hn by ndlia.
  rewrite (stosl_spec (n / 4) dst _ (u8 c)) by (apply fill_word || lia). by rewrite Hn.
Qed.

Example memset_fills_witness :
  memset 4 257 8 (replicate 14 9) = Some (replicate 4 9 ++ replicate 8 1 ++ replicate 2 9).
Proof. rewrite (memset_fills 4 257 8); [reflexivity|simpl; lia]. Defined.

(** ** Strings *)

Lemma store_ok off x s : (off < length s)%nat → ∃ s', store off x s = Some s' ∧ s' = <[off := x]> s.
Proof. intros. unfold store. rewrite decide_True by done. by eexists. Qed.

Lemma zero_fill_spec n : ∀ off s, (off + n ≤ length s)%nat → zero_fill off n s = Some (put off (replicate n 0) s).
Proof.
  induction n as [|n IH]; intros off s H; cbn [zero_fill replicate].
  { unfold put. simpl. by rewrite Nat.add_0_r, take_drop. }
  rewrite store_put by lia. cbn [mbind option_bind].
  rewrite IH by (rewrite length_put; simpl; lia). f_equal. apply put_cons. rewrite length_replicate. lia.
Qed.

(** xv6's strlen, strcmp and strcpy agree with those of <string.h>. *)
Lemma strlen_from_libc l : ∀ k, strlen_from k l = (λ j, (k + j)%nat) <$> Bytes.strlen l.
Proof.
  induction l as [|y l IH]; intros k; [done|]. cbn [strlen_from Bytes.strlen].
  destruct (y =? 0); [simpl; f_equal; lia|]. rewrite IH. destruct (Bytes.strlen l); [|done]. simpl. f_equal. lia.
Qed.

Lemma strlen_libc l : strlen l = Bytes.strlen l.
Proof. unfold strlen. rewrite strlen_from_libc. by destruct (Bytes.strlen l). Qed.

Lemma ustrcmp_libc p : ∀ q, ustrcmp p q = strcmp p q.
Proof. induction p as [|x p IH]; intros [|y q]; [done..|]. cbn. by rewrite IH. Qed.

(** The [n] bytes strncpy writes for the string [w]. *)
Definition padded (n : nat) (w : list Z) : list Z := take n (w ++ replicate n 0).

Lemma length_padded n w : length (padded n w) = n.
Proof. unfold padded. rewrite length_take, length_app, length_replicate. lia. Qed.

Lemma strncpy_loop_spec w r n : ∀ off s, nonul w → (off + n ≤ length s)%nat →
  strncpy_loop off s (w ++ 0 :: r) n = Some (put off (padded n w) s).
Proof.
  revert n. induction w as [|c w IH]; intros n off s Hw H; (destruct n as [|n]; cbn [strncpy_loop app];
    [unfold put; simpl; by rewrite Nat.add_0_r, take_drop|]); rewrite store_put by lia; cbn [mbind option_bind].
  - cbn. rewrite zero_fill_spec by (rewrite length_put; simpl; lia). f_equal.
    unfold padded. cbn [app]. rewrite take_ge by (by rewrite length_replicate).
    apply put_cons. rewrite length_replicate. lia.
  - apply Forall_cons in Hw as [Hc Hw]. rewrite (proj2 (Z.eqb_neq _ _)) by done.
    rewrite IH by (try done; rewrite length_put; simpl; lia). f_equal.
    rewrite put_cons by (rewrite length_padded; lia). f_equal. unfold padded. cbn. f_equal.
    change (0 :: replicate n 0) with (replicate (S n) 0).
    rewrite !take_app. f_equal. rewrite !take_replicate. f_equal. lia.
Qed.

(** [strncpy] writes exactly [n] bytes: the string, cut at [n], then zeros. *)
Theorem strncpy_pads s w r n :
  nonul w → (n ≤ length s)%nat → strncpy s (w ++ 0 :: r) (Z.of_nat n) = Some (padded n w ++ drop n s).
Proof.
  intros Hw Hn. unfold strncpy. rewrite Nat2Z.id, strncpy_loop_spec by done.
  unfold put. cbn [take]. by rewrite length_padded, app_nil_l.
Qed.

Lemma safestrcpy_loop_spec w r n : ∀ off s, nonul w → (0 < n)%nat → (off + n ≤ length s)%nat →
  ∃ tail, safestrcpy_loop off s (w ++ 0 :: r) n = Some (put off (take (n - 1) w ++ 0 :: tail) s) ∧
    (length (take (n - 1) w) + S (length tail) ≤ n)%nat.
Proof.
  revert n. induction w as [|c w IH]; intros n off s Hw Hn H; (destruct n as [|[|n]]; [lia|..]); cbn [safestrcpy_loop app].
  - exists []. rewrite store_put by lia. done.
  - rewrite store_put by lia. cbn [mbind option_bind Z.eqb]. rewrite store_put by (rewrite length_put; simpl; lia).
    exists [0]. rewrite take_nil. cbn [app]. split; [|simpl; lia]. f_equal. apply put_cons. simpl. lia.
  - exists []. rewrite store_put by lia. done.
  - apply Forall_cons in Hw as [Hc Hw]. rewrite store_put by lia. cbn [mbind option_bind].
    rewrite (proj2 (Z.eqb_neq _ _)) by done.
    destruct (IH (S n) (S off) (put off [c] s)) as (tail & -> & Hl); [done|lia|rewrite length_put; simpl; lia|].
    exists tail. replace (S n - 1)%nat with n in * by lia. replace (S (S n) - 1)%nat with (S n) by lia.
    cbn [take app length]. split; [|lia]. f_equal. apply put_cons. rewrite length_app. simpl. lia.
Qed.

(** [safestrcpy] always leaves a terminated string: for a positive size [n]
    within the destination, the result starts with the source cut at [n-1]
    bytes and a 0, and bytes from [n] on are untouched. *)
Theorem safestrcpy_terminates s w r n :
  nonul w → (0 < n ≤ length s)%nat →
  ∃ s' tail, safestrcpy s (w ++ 0 :: r) (Z.of_nat n) = Some s' ∧ length s' = length s ∧
    s' = take (n - 1) w ++ 0 :: tail ∧ strlen s' = Some (length w `min` (n - 1))%nat ∧ drop n s' = drop n s.
Proof.
  intros Hw Hn. unfold safestrcpy. rewrite (proj2 (Z.leb_gt _ _)) by lia. rewrite Nat2Z.id.
  destruct (safestrcpy_loop_spec w r n 0 s) as (tail & -> & Hl); [done|lia|lia|].
  set (p := take (n - 1) w ++ 0 :: tail) in *. exists (put 0 p s), (tail ++ drop (length p) s).
  assert (length p ≤ n)%nat as Hp by (unfold p; rewrite length_app; simpl; lia).
  split; [done|]. split; [by apply length_put; lia|].
  assert (put 0 p s = take (n - 1) w ++ 0 :: tail ++ drop (length p) s) as Hput.
  { unfold put, p. cbn [take app]. by rewrite <- app_assoc. }
  split; [done|]. split.
  - rewrite strlen_libc, Hput, strlen_app by (by apply Forall_take).
    rewrite length_take. f_equal. lia.
  - unfold put. rewrite take_0, app_nil_l. rewrite drop_app_ge by lia. rewrite drop_drop. f_equal. lia.
Qed.

Definition demo_buf : list Z := replicate 8 88.

Example strncpy_pads_witness :
  strncpy demo_buf [104; 105; 0; 7] 5 = Some [104; 105; 0; 0; 0; 88; 88; 88].
Proof. exact (strncpy_pads demo_buf [104; 105] [7] 5 ltac:(by repeat constructor) ltac:(simpl; lia)). Defined.

Example safestrcpy_witness :
  ∃ s', safestrcpy demo_buf [104; 105; 106; 0] 3 = Some s' ∧ strlen s' = Some 2%nat.
Proof.
  destruct (safestrcpy_terminates demo_buf [104; 105; 106] [] 3) as (s' & tail & Hs & _ & _ & Hl & _);
    [by repeat constructor|simpl; lia|]. by exists s'.
Defined.
