(* ===== verification/Proc.v ===== *)
(** * The process table of xv6 and its operations (proc.c)

    The state is the machine of [Spinlock], the table [ptable], [nextpid],
    [initproc] and the rest of the kernel.  The memory, file and log layers
    are reached through the interface [KernelOps]; each function takes
    ptable.lock with the real [acquire] and [release].

    [swtch] leaves the kernel thread: a function that calls it stops there
    with the outcome [Sleep 0], and what it does when it is resumed is a
    definition of its own ([sleep_post], [sched_post]). *)

From S2P Require Import Prelude Bytes Xstring Spinlock.

Definition NPROC : nat := 64.
Definition NOFILE : nat := 16.
Definition KSTACKSIZE : Z := 4096.
Definition PGSIZE : Z := 4096.
Definition ROOTDEV : Z := 1.
Definition PTLOCK : Z := 1.        (* address of ptable.lock *)

(** [enum procstate], src/hw3/xv6/proc.h:35-35 *)
Inductive procstate := UNUSED | EMBRYO | SLEEPING | RUNNABLE | RUNNING | ZOMBIE.

#[export] Instance procstate_eq_dec : EqDecision procstate.
Proof. solve_decision. Defined.

(** [struct trapframe], src/hw3/xv6/x86.h:150-183 *)
Record trapframe := Tf {
  t_edi : Z; t_esi : Z; t_ebp : Z; t_oesp : Z; t_ebx : Z; t_edx : Z; t_ecx : Z; t_eax : Z;
  t_gs : Z; t_fs : Z; t_es : Z; t_ds : Z; t_trapno : Z;
  t_err : Z; t_eip : Z; t_cs : Z; t_eflags : Z; t_esp : Z; t_ss : Z
}.
Definition tf_size : Z := 76.
Definition context_size : Z := 20.
Definition tf_zero : trapframe := Tf 0 0 0 0 0 0 0 0 0 0 0 0 0 0 0 0 0 0 0.
Definition set_eax (x : Z) (t : trapframe) : trapframe :=
  Tf (t_edi t) (t_esi t) (t_ebp t) (t_oesp t) (t_ebx t) (t_edx t) (t_ecx t) x
     (t_gs t) (t_fs t) (t_es t) (t_ds t) (t_trapno t)
     (t_err t) (t_eip t) (t_cs t) (t_eflags t) (t_esp t) (t_ss t).

(** [struct proc], src/hw3/xv6/proc.h:38-54
    The trap frame and the saved context live on the kernel stack; their
    addresses and their contents are both kept. *)
Record proc := Proc {
  sz : Z; pgdir : Z; kstack : Z; state : procstate; pid : Z; parent : option nat;
  tf_at : Z; tf : trapframe; ctx_at : Z; ctx_eip : Z;
  chan : Z; killed : Z; ofile : list Z; cwd : Z; name : list Z;
  switch_cnt : Z; priority : Z
}.

Section setters.
Variable p : proc.
Definition set_sz x := Proc x (pgdir p) (kstack p) (state p) (pid p) (parent p) (tf_at p) (tf p) (ctx_at p) (ctx_eip p) (chan p) (killed p) (ofile p) (cwd p) (name p) (switch_cnt p) (priority p).
Definition set_pgdir x := Proc (sz p) x (kstack p) (state p) (pid p) (parent p) (tf_at p) (tf p) (ctx_at p) (ctx_eip p) (chan p) (killed p) (ofile p) (cwd p) (name p) (switch_cnt p) (priority p).
Definition set_kstack x := Proc (sz p) (pgdir p) x (state p) (pid p) (parent p) (tf_at p) (tf p) (ctx_at p) (ctx_eip p) (chan p) (killed p) (ofile p) (cwd p) (name p) (switch_cnt p) (priority p).
Definition set_state x := Proc (sz p) (pgdir p) (kstack p) x (pid p) (parent p) (tf_at p) (tf p) (ctx_at p) (ctx_eip p) (chan p) (killed p) (ofile p) (cwd p) (name p) (switch_cnt p) (priority p).
Definition set_pid x := Proc (sz p) (pgdir p) (kstack p) (state p) x (parent p) (tf_at p) (tf p) (ctx_at p) (ctx_eip p) (chan p) (killed p) (ofile p) (cwd p) (name p) (switch_cnt p) (priority p).
Definition set_parent x := Proc (sz p) (pgdir p) (kstack p) (state p) (pid p) x (tf_at p) (tf p) (ctx_at p) (ctx_eip p) (chan p) (killed p) (ofile p) (cwd p) (name p) (switch_cnt p) (priority p).
Definition set_tf x := Proc (sz p) (pgdir p) (kstack p) (state p) (pid p) (parent p) (tf_at p) x (ctx_at p) (ctx_eip p) (chan p) (killed p) (ofile p) (cwd p) (name p) (switch_cnt p) (priority p).
Definition set_stack tfa t ca eip := Proc (sz p) (pgdir p) (kstack p) (state p) (pid p) (parent p) tfa t ca eip (chan p) (killed p) (ofile p) (cwd p) (name p) (switch_cnt p) (priority p).
Definition set_chan x := Proc (sz p) (pgdir p) (kstack p) (state p) (pid p) (parent p) (tf_at p) (tf p) (ctx_at p) (ctx_eip p) x (killed p) (ofile p) (cwd p) (name p) (switch_cnt p) (priority p).
Definition set_killed x := Proc (sz p) (pgdir p) (kstack p) (state p) (pid p) (parent p) (tf_at p) (tf p) (ctx_at p) (ctx_eip p) (chan p) x (ofile p) (cwd p) (name p) (switch_cnt p) (priority p).
Definition set_ofile x := Proc (sz p) (pgdir p) (kstack p) (state p) (pid p) (parent p) (tf_at p) (tf p) (ctx_at p) (ctx_eip p) (chan p) (killed p) x (cwd p) (name p) (switch_cnt p) (priority p).
Definition set_cwd x := Proc (sz p) (pgdir p) (kstack p) (state p) (pid p) (parent p) (tf_at p) (tf p) (ctx_at p) (ctx_eip p) (chan p) (killed p) (ofile p) x (name p) (switch_cnt p) (priority p).
Definition set_name x := Proc (sz p) (pgdir p) (kstack p) (state p) (pid p) (parent p) (tf_at p) (tf p) (ctx_at p) (ctx_eip p) (chan p) (killed p) (ofile p) (cwd p) x (switch_cnt p) (priority p).
Definition set_switch_cnt x := Proc (sz p) (pgdir p) (kstack p) (state p) (pid p) (parent p) (tf_at p) (tf p) (ctx_at p) (ctx_eip p) (chan p) (killed p) (ofile p) (cwd p) (name p) x (priority p).
Definition set_priority x := Proc (sz p) (pgdir p) (kstack p) (state p) (pid p) (parent p) (tf_at p) (tf p) (ctx_at p) (ctx_eip p) (chan p) (killed p) (ofile p) (cwd p) (name p) (switch_cnt p) x.
End setters.

(** ** What the process table asks of the rest of the kernel *)

Class KernelOps (E : Type) := {
  kalloc : M E Z;                       (* a page, or 0 *)
  kfree : Z → M E unit;
  setupkvm : M E Z;                     (* a page directory, or 0 *)
  inituvm : Z → list Z → M E unit;
  allocuvm : Z → Z → Z → M E Z;         (* the new size, or 0 *)
  deallocuvm : Z → Z → Z → M E Z;
  copyuvm : Z → Z → M E Z;              (* a page directory, or 0 *)
  freevm : Z → M E unit;
  switchuvm : Z → Z → M E unit;         (* page directory and kernel stack *)
  switchkvm : M E unit;
  filedup : Z → M E Z;
  fileclose : Z → M E unit;
  idup : Z → M E Z;
  iput : Z → M E unit;
  begin_op : M E unit;
  end_op : M E unit;
  namei : list Z → M E Z;
  iinit : Z → M E unit;
  initlog : Z → M E unit
}.

Section proc.
Context {E : Type} `{KernelOps E}.
(** Addresses of the code a new process starts in, the first user program, and
    the contents of a fresh kernel stack. *)
Context (forkret_at : Z) (initcode : list Z) (fresh_tf : trapframe).

(** [ptable, initproc, nextpid], src/hw3/xv6/proc.c:12-20 *)
Record kernel := Kernel {
  mach : machine;
  ptable : list proc;
  nextpid : Z;
  initproc : option nat;
  first : bool;                  (* the static variable of forkret *)
  env : E
}.

Definition set_mach (m : machine) (k : kernel) := Kernel m (ptable k) (nextpid k) (initproc k) (first k) (env k).
Definition set_ptable (t : list proc) (k : kernel) := Kernel (mach k) t (nextpid k) (initproc k) (first k) (env k).
Definition set_nextpid (n : Z) (k : kernel) := Kernel (mach k) (ptable k) n (initproc k) (first k) (env k).
Definition set_initproc (p : option nat) (k : kernel) := Kernel (mach k) (ptable k) (nextpid k) p (first k) (env k).
Definition set_first (b : bool) (k : kernel) := Kernel (mach k) (ptable k) (nextpid k) (initproc k) b (env k).
Definition set_env (e : E) (k : kernel) := Kernel (mach k) (ptable k) (nextpid k) (initproc k) (first k) e.

Definition onm {A} (m : M machine A) : M kernel A := zoom mach set_mach m.
Definition one {A} (m : M E A) : M kernel A := zoom env set_env m.

Definition get_proc (i : nat) : M kernel proc := k ← getS; of_option (ptable k !! i).
Definition upd_proc (i : nat) (f : proc → proc) : M kernel unit :=
  p ← get_proc i; modify (λ k, set_ptable (<[i := f p]> (ptable k)) k).

(** The address of a slot, as a sleep channel. *)
Definition proc_addr (i : nat) : Z := 0x1000 + Z.of_nat i.
Definition parent_addr (p : option nat) : Z := match p with Some i => proc_addr i | None => 0 end.

Definition curproc : M kernel nat := o ← onm myproc; of_option o.

(** [pinit], src/hw3/xv6/proc.c:26-30 *)
Definition pinit : M kernel unit := onm (initlock PTLOCK).

(** [allocproc: search for a slot], src/hw3/xv6/proc.c:84-86 *)
Definition find_unused : M kernel (option nat) :=
  for_ NPROC 0 (λ i, p ← get_proc i; if decide (state p = UNUSED) then mret (Some i) else mret None).

(** [allocproc], src/hw3/xv6/proc.c:76-124 *)
Definition allocproc : M kernel (option nat) :=
  onm (acquire PTLOCK);;
  r ← find_unused;
  match r with
  | None => onm (release PTLOCK);; mret None
  | Some i =>
      upd_proc i (λ p, set_state p EMBRYO);;
      n ← gets nextpid;
      upd_proc i (λ p, set_pid p n);;
      n' ← int_ (n + 1);
      modify (set_nextpid n');;
      upd_proc i (λ p, set_switch_cnt p 0);;
      upd_proc i (λ p, set_priority p 0);;
      onm (release PTLOCK);;
      ks ← one kalloc;
      upd_proc i (λ p, set_kstack p ks);;
      if ks =? 0 then upd_proc i (λ p, set_state p UNUSED);; mret None
      else
        let tfa := ks + KSTACKSIZE - tf_size in
        let ca := tfa - 4 - context_size in
        upd_proc i (λ p, set_stack p tfa fresh_tf ca forkret_at);;
        mret (Some i)
  end.

(** [userinit], src/hw3/xv6/proc.c:128-162 *)
Definition userinit : M kernel unit :=
  r ← allocproc;
  modify (set_initproc r);;
  i ← of_option r;
  pg ← one setupkvm;
  upd_proc i (λ p, set_pgdir p pg);;
  if pg =? 0 then fail (Panic "userinit: out of memory?")
  else
    one (inituvm pg initcode);;
    upd_proc i (λ p, set_sz p PGSIZE);;
    (* cs = (SEG_UCODE << 3) | DPL_USER, the data segments SEG_UDATA *)
    upd_proc i (λ p, set_tf p (Tf 0 0 0 0 0 0 0 0 0 0 0x23 0x23 0 0 0 0x1b 0x200 PGSIZE 0x23));;
    p ← get_proc i;
    nm ← of_option (safestrcpy (name p) (cstr [105; 110; 105; 116; 99; 111; 100; 101]) 16);
    upd_proc i (λ p, set_name p nm);;
    dir ← one (namei (cstr [47]));
    upd_proc i (λ p, set_cwd p dir);;
    onm (acquire PTLOCK);;
    upd_proc i (λ p, set_state p RUNNABLE);;
    onm (release PTLOCK).

(** [growproc], src/hw3/xv6/proc.c:166-183 *)
Definition growproc (n : Z) : M kernel Z :=
  cur ← curproc;
  p ← get_proc cur;
  r ← (if 0 <? n then one (allocuvm (pgdir p) (sz p) (u32 (sz p + n)))
       else if n <? 0 then one (deallocuvm (pgdir p) (sz p) (u32 (sz p + n)))
       else mret (sz p));
  if negb (n =? 0) && (r =? 0) then mret (-1)
  else
    upd_proc cur (λ p, set_sz p r);;
    one (switchuvm (pgdir p) (kstack p));;
    mret 0.

(** [fork: copying the open files], src/hw3/xv6/proc.c:214-216 *)
Definition dup_files (np cur : nat) : M kernel unit :=
  for_ (R := unit) NOFILE 0 (λ fd,
    p ← get_proc cur;
    f ← of_option (ofile p !! fd);
    if negb (f =? 0) then
      g ← one (filedup f); upd_proc np (λ q, set_ofile q (<[fd := g]> (ofile q)));; mret None
    else mret None);;
  mret tt.

(** [fork], src/hw3/xv6/proc.c:188-230 *)
Definition fork : M kernel Z :=
  cur ← curproc;
  r ← allocproc;
  match r with
  | None => mret (-1)
  | Some np =>
      p ← get_proc cur;
      pg ← one (copyuvm (pgdir p) (sz p));
      upd_proc np (λ q, set_pgdir q pg);;
      if pg =? 0 then
        q ← get_proc np;
        one (kfree (kstack q));;
        upd_proc np (λ q, set_kstack q 0);;
        upd_proc np (λ q, set_state q UNUSED);;
        mret (-1)
      else
        upd_proc np (λ q, set_sz q (sz p));;
        upd_proc np (λ q, set_parent q (Some cur));;
        upd_proc np (λ q, set_tf q (tf p));;
        upd_proc np (λ q, set_tf q (set_eax 0 (tf q)));;
        dup_files np cur;;
        dir ← one (idup (cwd p));
        upd_proc np (λ q, set_cwd q dir);;
        q ← get_proc np;
        nm ← of_option (safestrcpy (name q) (name p) 16);
        upd_proc np (λ q, set_name q nm);;
        onm (acquire PTLOCK);;
        upd_proc np (λ q, set_state q RUNNABLE);;
        onm (release PTLOCK);;
        mret (pid q)
  end.

(** [wakeup1], src/hw3/xv6/proc.c:494-502 *)
Definition wakeup1 (c : Z) : M kernel unit :=
  for_ (R := unit) NPROC 0 (λ i,
    p ← get_proc i;
    if decide (state p = SLEEPING) then
      if chan p =? c then upd_proc i (λ p, set_state p RUNNABLE);; mret None else mret None
    else mret None);;
  mret tt.

(** [wakeup], src/hw3/xv6/proc.c:505-511 *)
Definition wakeup (c : Z) : M kernel unit :=
  onm (acquire PTLOCK);; wakeup1 c;; onm (release PTLOCK).

(** [sched], src/hw3/xv6/proc.c:402-419
    Up to the call of swtch; [sched_post] is what follows it. *)
Definition sched : M kernel unit :=
  i ← curproc;
  h ← onm (holding PTLOCK);
  panic_unless h "sched ptable.lock";;
  c ← onm mycpu; d ← onm (get_cpu c);
  panic_unless (ncli d =? 1) "sched locks";;
  p ← get_proc i;
  panic_unless (negb (bool_decide (state p = RUNNING))) "sched running";;
  fl ← gets (λ k, eflags_if (mach k));
  panic_unless (negb fl) "sched interruptible";;
  fail (Sleep 0).

Definition sched_post (saved : bool) : M kernel unit :=
  c ← onm mycpu; onm (upd_cpu c (set_intena saved)).

(** [yield], src/hw3/xv6/proc.c:422-429 *)
Definition yield : M kernel unit :=
  onm (acquire PTLOCK);;
  i ← curproc;
  upd_proc i (λ p, set_state p RUNNABLE);;
  sched.

(** [forkret], src/hw3/xv6/proc.c:433-450 *)
Definition forkret : M kernel unit :=
  onm (release PTLOCK);;
  f ← gets first;
  if (f : bool) then modify (set_first false);; one (iinit ROOTDEV);; one (initlog ROOTDEV)
  else mret tt.

(** [sleep], src/hw3/xv6/proc.c:454-479
    Up to the call of sched; [lk] is the address of the lock, or null. *)
Definition sleep (c : Z) (lk : option Z) : M kernel unit :=
  o ← onm myproc;
  match o, lk with
  | None, _ => fail (Panic "sleep")
  | _, None => fail (Panic "sleep without lk")
  | Some i, Some l =>
      (if negb (l =? PTLOCK) then onm (acquire PTLOCK);; onm (release l) else mret tt);;
      upd_proc i (λ p, set_chan p c);;
      upd_proc i (λ p, set_state p SLEEPING);;
      sched
  end.

(** [sleep: after waking up], src/hw3/xv6/proc.c:481-489 *)
Definition sleep_post (l : Z) : M kernel unit :=
  i ← curproc;
  upd_proc i (λ p, set_chan p 0);;
  if negb (l =? PTLOCK) then onm (release PTLOCK);; onm (acquire l) else mret tt.

(** [exit: closing the files], src/hw3/xv6/proc.c:246-251 *)
Definition close_files (cur : nat) : M kernel unit :=
  for_ (R := unit) NOFILE 0 (λ fd,
    p ← get_proc cur;
    f ← of_option (ofile p !! fd);
    if negb (f =? 0) then
      one (fileclose f);; upd_proc cur (λ q, set_ofile q (<[fd := 0]> (ofile q)));; mret None
    else mret None);;
  mret tt.

(** [exit: passing the children to init], src/hw3/xv6/proc.c:264-270 *)
Definition reparent (cur : nat) : M kernel unit :=
  for_ (R := unit) NPROC 0 (λ i,
    p ← get_proc i;
    if decide (parent p = Some cur) then
      init ← gets initproc;
      upd_proc i (λ p, set_parent p init);;
      if decide (state p = ZOMBIE) then wakeup1 (parent_addr init);; mret None else mret None
    else mret None);;
  mret tt.

(** [exit], src/hw3/xv6/proc.c:235-276 *)
Definition exit : M kernel unit :=
  cur ← curproc;
  init ← gets initproc;
  if decide (init = Some cur) then fail (Panic "init exiting")
  else
    close_files cur;;
    one begin_op;;
    p ← get_proc cur;
    one (iput (cwd p));;
    one end_op;;
    upd_proc cur (λ p, set_cwd p 0);;
    onm (acquire PTLOCK);;
    p ← get_proc cur;
    wakeup1 (parent_addr (parent p));;
    reparent cur;;
    upd_proc cur (λ p, set_state p ZOMBIE);;
    sched;;
    fail (Panic "zombie exit").

(** [wait: reaping the child in slot i], src/hw3/xv6/proc.c:296-307 *)
Definition reap (i : nat) : M kernel Z :=
  p ← get_proc i;
  one (kfree (kstack p));;
  upd_proc i (λ p, set_kstack p 0);;
  one (freevm (pgdir p));;
  upd_proc i (λ p, set_pid p 0);;
  upd_proc i (λ p, set_parent p None);;
  upd_proc i (λ p, set_name p (<[0%nat := 0]> (name p)));;
  upd_proc i (λ p, set_killed p 0);;
  upd_proc i (λ p, set_state p UNUSED);;
  onm (release PTLOCK);;
  mret (pid p).

(** [wait: one scan of the table], src/hw3/xv6/proc.c:290-309
    [inl pid] when a zombie child was reaped, [inr havekids] otherwise. *)
Fixpoint wait_scan (n i cur : nat) (havekids : bool) : M kernel (Z + bool) :=
  match n with
  | O => mret (inr havekids)
  | S n' =>
      p ← get_proc i;
      if decide (parent p = Some cur) then
        if decide (state p = ZOMBIE) then r ← reap i; mret (inl r)
        else wait_scan n' (S i) cur true
      else wait_scan n' (S i) cur havekids
  end.

(** [wait: from the scan to the sleep], src/hw3/xv6/proc.c:288-319 *)
Definition wait_body (cur : nat) : M kernel Z :=
  r ← wait_scan NPROC 0 cur false;
  match r with
  | inl pid => mret pid
  | inr havekids =>
      p ← get_proc cur;
      if negb havekids || negb (killed p =? 0) then onm (release PTLOCK);; mret (-1)
      else sleep (proc_addr cur) (Some PTLOCK);; fail OutOfFuel (* sleep does not return here *)
  end.

(** [wait], src/hw3/xv6/proc.c:280-320 *)
Definition wait : M kernel Z := cur ← curproc; onm (acquire PTLOCK);; wait_body cur.

(** [wait: after the sleep], src/hw3/xv6/proc.c:288-319 *)
Definition wait_resume (cur : nat) : M kernel Z := sleep_post PTLOCK;; wait_body cur.

(** [kill], src/hw3/xv6/proc.c:516-534 *)
Definition kill (n : Z) : M kernel Z :=
  onm (acquire PTLOCK);;
  r ← for_ NPROC 0 (λ i,
    p ← get_proc i;
    if pid p =? n then
      upd_proc i (λ p, set_killed p 1);;
      (if decide (state p = SLEEPING) then upd_proc i (λ p, set_state p RUNNABLE) else mret tt);;
      onm (release PTLOCK);;
      mret (Some 0)
    else mret None);
  match r with Some x => mret x | None => onm (release PTLOCK);; mret (-1) end.

(** [get_num_proc: the loop], src/hw3/xv6/proc.c:581-584 *)
Fixpoint count_procs (n i : nat) (proc_cnt : Z) : M kernel Z :=
  match n with
  | O => mret proc_cnt
  | S n' =>
      p ← get_proc i;
      count_procs n' (S i) (if decide (state p = UNUSED) then proc_cnt else proc_cnt + 1)
  end.

(** [get_num_proc], src/hw3/xv6/proc.c:573-588 *)
Definition get_num_proc : M kernel Z :=
  onm (acquire PTLOCK);; r ← count_procs NPROC 0 0; onm (release PTLOCK);; mret r.

(** [get_max_pid: the loop], src/hw3/xv6/proc.c:597-600 *)
Fixpoint max_pid_loop (n i : nat) (max_pid : Z) : M kernel Z :=
  match n with
  | O => mret max_pid
  | S n' => p ← get_proc i; max_pid_loop n' (S i) (if max_pid <? pid p then pid p else max_pid)
  end.

(** [get_max_pid], src/hw3/xv6/proc.c:589-604 *)
Definition get_max_pid : M kernel Z :=
  onm (acquire PTLOCK);; r ← max_pid_loop NPROC 0 0; onm (release PTLOCK);; mret r.

(** [struct processInfo], src/hw3/xv6/processInfo.h:1-6 *)
Record processInfo := PInfo { ppid : Z; psize : Z; numberContextSwitches : Z }.

(** [get_proc_info], src/hw3/xv6/proc.c:606-632
    With what is stored through the pointer [procInfo], when anything is. *)
Definition get_proc_info (n : Z) : M kernel (Z * option processInfo) :=
  onm (acquire PTLOCK);;
  r ← for_ NPROC 0 (λ i,
    p ← get_proc i;
    if pid p =? n then
      pp ← (if n =? 1 then mret 0
            else j ← of_option (parent p); q ← get_proc j; mret (pid q));
      let info := PInfo pp (i32 (sz p)) (switch_cnt p) in
      onm (release PTLOCK);;
      mret (Some (0, Some info))
    else mret None);
  match r with Some x => mret x | None => onm (release PTLOCK);; mret (-1, None) end.

(** [set_prio], src/hw3/xv6/proc.c:634-642 *)
Definition set_prio (n : Z) : M kernel Z :=
  onm (acquire PTLOCK);; i ← curproc; upd_proc i (λ p, set_priority p n);; onm (release PTLOCK);; mret 0.

(** [get_prio], src/hw3/xv6/proc.c:644-654 *)
Definition get_prio : M kernel Z :=
  onm (acquire PTLOCK);; i ← curproc; p ← get_proc i; onm (release PTLOCK);; mret (priority p).

(** ** The scheduler *)

(** [scheduler: collecting the priorities], src/hw3/xv6/proc.c:349-357 *)
Fixpoint fill_queue (n i : nat) (queue : list Z) : M kernel (list Z) :=
  match n with
  | O => mret queue
  | S n' =>
      p ← get_proc i;
      fill_queue n' (S i) (if decide (state p = RUNNABLE) then queue ++ [priority p] else queue)
  end.

(** [scheduler: comparing neighbours], src/hw3/xv6/proc.c:363-367 *)
Definition bubble_step (j : nat) (queue : list Z) : list Z :=
  match queue !! j, queue !! S j with
  | Some a, Some b => if a <? b then <[S j := a]> (<[j := b]> queue) else queue
  | _, _ => queue
  end.

(** [scheduler: one pass of the sort], src/hw3/xv6/proc.c:362-368 *)
Fixpoint bubble_pass (m j : nat) (queue : list Z) : list Z :=
  match m with
  | O => queue
  | S m' => bubble_pass m' (S j) (bubble_step j queue)
  end.

(** [scheduler: the bubble sort], src/hw3/xv6/proc.c:361-369
    [k] passes remain; the pass with [k] left compares the first [k+1] entries. *)
Fixpoint bubble_sort (k : nat) (queue : list Z) : list Z :=
  match k with
  | O => queue
  | S k' => bubble_sort k' (bubble_pass k 0 queue)
  end.

(** [scheduler: running one process], src/hw3/xv6/proc.c:379-388
    [run i] is what happens between the two sides of swtch: the process in
    slot [i] runs until it calls sched. *)
Definition dispatch (run : nat → M kernel unit) (c i : nat) : M kernel unit :=
  onm (upd_cpu c (set_cproc (Some i)));;
  p ← get_proc i;
  one (switchuvm (pgdir p) (kstack p));;
  upd_proc i (λ p, set_state p RUNNING);;
  run i;;
  one switchkvm;;
  p ← get_proc i;
  n ← int_ (switch_cnt p + 1);
  upd_proc i (λ p, set_switch_cnt p n);;
  onm (upd_cpu c (set_cproc None)).

(** [scheduler: one round over the table], src/hw3/xv6/proc.c:372-391 *)
Definition sched_round (run : nat → M kernel unit) (c : nat) (q : Z) : M kernel unit :=
  onm (acquire PTLOCK);;
  for_ (R := unit) NPROC 0 (λ i,
    p ← get_proc i;
    if decide (state p = RUNNABLE) then
      if q <=? priority p then dispatch run c i;; mret None else mret None
    else mret None);;
  onm (release PTLOCK).

(** [scheduler: all rounds], src/hw3/xv6/proc.c:371-392 *)
Fixpoint sched_rounds (run : nat → M kernel unit) (c : nat) (queue : list Z) : M kernel unit :=
  match queue with
  | [] => mret tt
  | q :: queue' => sched_round run c q;; sched_rounds run c queue'
  end.

(** [scheduler: one iteration of its loop], src/hw3/xv6/proc.c:343-393 *)
Definition sched_pass (run : nat → M kernel unit) (c : nat) : M kernel unit :=
  onm (set_interrupts true);;
  onm (acquire PTLOCK);;
  queue ← fill_queue NPROC 0 [];
  onm (release PTLOCK);;
  sched_rounds run c (bubble_sort (length queue - 1) queue).

(** [scheduler], src/hw3/xv6/proc.c:332-394
    The first [fuel] iterations of a loop that never ends. *)
Definition scheduler (run : nat → M kernel unit) (fuel : nat) : M kernel unit :=
  c ← onm mycpu;
  onm (upd_cpu c (set_cproc None));;
  for_ (R := unit) fuel 0 (λ _, sched_pass run c;; mret None);;
  mret tt.

(** ** Listing the processes *)

Definition state_name (s : procstate) : string :=
  match s with
  | UNUSED => "unused" | EMBRYO => "embryo" | SLEEPING => "sleep "
  | RUNNABLE => "runble" | RUNNING => "run   " | ZOMBIE => "zombie"
  end.

Fixpoint until_zero (l : list Z) : list Z :=
  match l with
  | [] => []
  | x :: l' => if x =? 0 then [] else x :: until_zero l'
  end.

(** [procdump], src/hw3/xv6/proc.c:540-571
    The lines printed: pid, state, name and the call stack of a sleeper; [rd]
    reads kernel memory. *)
Definition procdump (rd : Z → Z) (k : kernel) : list (Z * string * list Z * list Z) :=
  omap (λ p,
    if decide (state p = UNUSED) then None
    else Some (pid p, state_name (state p), name p,
               if decide (state p = SLEEPING)
               then until_zero (getcallerpcs rd (rd (ctx_at p + 12) + 8))
               else [])) (ptable k).
End proc.
