(* ===== verification/ProcSpec.v ===== *)
(** * What the process-table operations do (proc.c)

    Each operation, run by a process that holds no lock, is related to a
    function on the table of processes. *)

From S2P Require Import Prelude Bytes Xstring Spinlock Proc.

Section spec.
Context {E : Type} `{KernelOps E}.
Abbreviation kernel := (@kernel E).
Implicit Types (k : kernel) (p q : proc) (t : list proc) (m : machine).

(** The kernel seen by the process in slot [cur], outside and inside the
    critical section of ptable.lock. *)
Definition out (cur : nat) (b : bool) (k : kernel) : Prop := idle PTLOCK (Some cur) b (mach k).
Definition within (cur : nat) (b : bool) (k : kernel) : Prop := inside PTLOCK (Some cur) b (mach k).

Lemma wp_lock cur b k Q :
  out cur b k → (∀ m', inside PTLOCK (Some cur) b m' → Q tt (set_mach m' k)) → wp (onm (acquire PTLOCK)) Q k.
Proof. intros Hi HQ. apply wp_zoom, (wp_enter PTLOCK (Some cur) b); [done|]. apply HQ. Qed.

Lemma wp_unlock cur b k Q :
  within cur b k → (∀ m', idle PTLOCK (Some cur) b m' → Q tt (set_mach m' k)) → wp (onm (release PTLOCK)) Q k.
Proof. intros Hi HQ. apply wp_zoom, (wp_leave PTLOCK (Some cur) b); [done|]. apply HQ. Qed.

Lemma wp_curproc_in cur b k Q : within cur b k → Q cur k → wp curproc Q k.
Proof.
  intros Hi HQ. apply wp_bind, wp_zoom, (wp_myproc_inside PTLOCK (Some cur) b); [done|].
  apply wp_of_option with cur; [done|]. by destruct k.
Qed.

Lemma wp_curproc_out cur b k Q :
  out cur b k → (∀ m', idle PTLOCK (Some cur) b m' → Q cur (set_mach m' k)) → wp curproc Q k.
Proof.
  intros Hi HQ. apply wp_bind, wp_zoom, (wp_myproc_idle PTLOCK (Some cur) b); [done|]. intros m' Hm'.
  apply wp_of_option with cur; [done|]. by apply HQ.
Qed.

Lemma wp_get_proc i p k Q : ptable k !! i = Some p → Q p k → wp (get_proc i) Q k.
Proof. intros Hp HQ. unfold get_proc. apply wp_bind, wp_of_option with p; done. Qed.

Lemma wp_upd_proc i p f k Q :
  ptable k !! i = Some p → Q tt (set_ptable (<[i := f p]> (ptable k)) k) → wp (upd_proc i f) Q k.
Proof. intros Hp HQ. apply wp_bind, wp_get_proc with p; done. Qed.

Lemma set_ptable_id k : set_ptable (ptable k) k = k.
Proof. by destruct k. Qed.

Lemma set_ptable_twice t t' k : set_ptable t (set_ptable t' k) = set_ptable t k.
Proof. done. Qed.

Lemma set_mach_ptable m t k : set_mach m (set_ptable t k) = set_ptable t (set_mach m k).
Proof. done. Qed.

(** ** Loops over the table *)

(** A loop whose round [i] replaces slot [i] by a function of it. *)
Lemma wp_map_loop {R} (f : proc → proc) (body : nat → M kernel (option R)) k Q :
  length (ptable k) = NPROC →
  (∀ i p k', ptable k' !! i = Some p →
     wp (body i) (λ r k'', r = None ∧ k'' = set_ptable (<[i := f p]> (ptable k')) k') k') →
  Q None (set_ptable (f <$> ptable k) k) →
  wp (for_ NPROC 0 body) Q k.
Proof.
  intros Hlen Hbody HQ.
  apply wp_for with (I := λ j k', k' = set_ptable ((f <$> take j (ptable k)) ++ drop j (ptable k)) k).
  - rewrite take_0, drop_0. symmetry. apply set_ptable_id.
  - intros j k' Hj ->. destruct (lookup_lt_is_Some_2 (ptable k) j) as [p Hp]; [lia|].
    assert (length (f <$> take j (ptable k)) = j) as Hl by (rewrite length_fmap, length_take; lia).
    eapply wp_mono.
    { apply (Hbody j p). cbn [ptable set_ptable]. rewrite lookup_app_r, Hl, Nat.sub_diag, lookup_drop by lia.
      by rewrite Nat.add_0_r. }
    intros r k'' [-> ->]. cbn [ptable set_ptable]. rewrite set_ptable_twice. f_equal.
    rewrite insert_app_r_alt, Hl, Nat.sub_diag by lia.
    rewrite (drop_S _ p j) by done. rewrite (take_S_r _ _ p) by done. rewrite fmap_app. by rewrite <- app_assoc.
  - intros k' ->. rewrite Nat.add_0_l, take_ge, drop_ge, app_nil_r by lia. done.
Qed.

(** [i] is the first slot that satisfies [P], with contents [p]. *)
Definition first_slot (P : proc → Prop) t (i : nat) p : Prop :=
  t !! i = Some p ∧ P p ∧ ∀ j q, (j < i)%nat → t !! j = Some q → ¬ P q.
Definition no_slot (P : proc → Prop) t : Prop := ∀ j q, t !! j = Some q → ¬ P q.

(** A search: the first slot that satisfies [P] leaves the loop. *)
Lemma wpx_find_loop {R} (P : proc → Prop) `{∀ p, Decision (P p)} (body : nat → M kernel (option R)) k Q F :
  length (ptable k) = NPROC →
  (∀ i p, ptable k !! i = Some p → ¬ P p → wp (body i) (λ r k', r = None ∧ k' = k) k) →
  (∀ i p, first_slot P (ptable k) i p → wpx (body i) (λ r k', is_Some r ∧ Q r k') F k) →
  (no_slot P (ptable k) → Q None k) →
  wpx (for_ NPROC 0 body) Q F k.
Proof.
  intros Hlen Hno Hyes HN.
  apply wpx_for with (I := λ i k', k' = k ∧ ∀ j q, (j < i)%nat → ptable k !! j = Some q → ¬ P q).
  - split; [done|lia].
  - intros i k' Hi [-> Hlow]. destruct (lookup_lt_is_Some_2 (ptable k) i) as [p Hp]; [lia|].
    destruct (decide (P p)) as [HP|HP].
    + eapply wpx_mono; [by apply (Hyes i p)| |done]. intros r k' [[x ->] HQ]. done.
    + eapply wpx_mono; [by apply wpx_wp, (Hno i p)| |done]. intros r k' [-> ->]. split; [done|].
      intros j q Hj Hq. destruct (decide (j = i)) as [->|]; [congruence|apply (Hlow j); [lia|done]].
  - intros k' [-> Hall]. apply HN. intros j q Hq. apply (Hall j); [|done]. apply lookup_lt_Some in Hq. lia.
Qed.

(** ** wakeup *)

(** What waking does to one process. *)
Definition woken (c : Z) (p : proc) : proc :=
  if decide (state p = SLEEPING) then if chan p =? c then set_state p RUNNABLE else p else p.

Lemma wp_wakeup1 c k Q :
  length (ptable k) = NPROC → Q tt (set_ptable (woken c <$> ptable k) k) → wp (wakeup1 c) Q k.
Proof.
  intros Hlen HQ. apply wp_bind, (wp_map_loop (woken c)); [done| |done].
  intros i p k' Hp. apply wp_bind, wp_get_proc with p; [done|]. unfold woken.
  destruct (decide (state p = SLEEPING)); [destruct (chan p =? c)|].
  - apply wp_bind, wp_upd_proc with p; [done|]. by apply wp_ret.
  - apply wp_ret. by rewrite list_insert_id, set_ptable_id.
  - apply wp_ret. by rewrite list_insert_id, set_ptable_id.
Qed.

End spec.

(** ** The bubble sort of the scheduler *)

Lemma bubble_step_perm j l : bubble_step j l ≡ₚ l.
Proof.
  unfold bubble_step. destruct (l !! j) as [a|] eqn:Ha; [|done]. destruct (l !! S j) as [b|] eqn:Hb; [|done].
  destruct (a <? b); [|done].
  assert (j < length l)%nat by (by eapply lookup_lt_Some). assert (S j < length l)%nat by (by eapply lookup_lt_Some).
  assert (drop j l = a :: b :: drop (S (S j)) l) as Hd.
  { rewrite (drop_S l a j) by done. by rewrite (drop_S l b (S j)) by done. }
  assert (<[S j := a]> (<[j := b]> l) = take j l ++ b :: a :: drop (S (S j)) l) as ->.
  { rewrite <- (take_drop j l) at 1. rewrite Hd.
    rewrite insert_app_r_alt by (rewrite length_take; lia). rewrite insert_app_r_alt by (rewrite length_take; lia).
    rewrite length_take. replace (j - j `min` length l)%nat with 0%nat by lia.
    replace (S j - j `min` length l)%nat with 1%nat by lia. done. }
  rewrite <- (take_drop j l) at 3. rewrite Hd. apply Permutation_app_head. constructor.
Qed.

Lemma bubble_pass_perm m : ∀ j l, bubble_pass m j l ≡ₚ l.
Proof.
  induction m as [|m IH]; intros j l; cbn [bubble_pass]; [done|]. by rewrite IH, bubble_step_perm.
Qed.

Lemma bubble_sort_perm k : ∀ l, bubble_sort k l ≡ₚ l.
Proof. induction k as [|k IH]; intros l; cbn [bubble_sort]; [done|]. by rewrite IH, bubble_pass_perm. Qed.

Lemma bubble_step_lookup j l a b i :
  l !! j = Some a → l !! S j = Some b →
  bubble_step j l !! i =
    if decide (i = j) then Some (a `max` b) else if decide (i = S j) then Some (a `min` b) else l !! i.
Proof.
  intros Ha Hb. unfold bubble_step. rewrite Ha, Hb.
  assert (S j < length l)%nat by (by eapply lookup_lt_Some).
  destruct (Z.ltb_spec a b).
  - rewrite Z.max_r, Z.min_l by lia. rewrite !list_lookup_insert, length_insert.
    repeat case_decide; try lia; done.
  - rewrite Z.max_l, Z.min_r by lia. repeat case_decide; subst; done.
Qed.

(** The tail after index [k] is in its final place. *)
Definition settled (k : nat) (l : list Z) : Prop :=
  ∀ i j a b, (k < j)%nat → (i < j)%nat → l !! i = Some a → l !! j = Some b → b ≤ a.

Lemma bubble_step_settled k j l :
  (S j ≤ k)%nat → settled k l → settled k (bubble_step j l).
Proof.
  intros Hj Hs. destruct (l !! j) as [a|] eqn:Ha; [|unfold bubble_step; by rewrite Ha].
  destruct (l !! S j) as [b|] eqn:Hb; [|unfold bubble_step; by rewrite Ha, Hb].
  intros i1 i2 x y Hk Hlt. rewrite !(bubble_step_lookup j l a b) by done.
  rewrite (decide_False (P := i2 = j)), (decide_False (P := i2 = S j)) by lia.
  intros Hx Hy. repeat case_decide; simplify_eq; [| |by eapply Hs].
  - assert (y ≤ a) by (eapply (Hs j); [done|lia|done..]). lia.
  - assert (y ≤ a) by (eapply (Hs j); [done|lia|done..]).
    assert (y ≤ b) by (eapply (Hs (S j)); [done|lia|done..]). lia.
Qed.

Lemma bubble_pass_settles m : ∀ k j l,
  (m + j = k)%nat → (k < length l)%nat → settled k l →
  (∀ i a b, (i < j)%nat → l !! i = Some a → l !! j = Some b → b ≤ a) →
  ∀ i a b, (i < k)%nat → bubble_pass m j l !! i = Some a → bubble_pass m j l !! k = Some b → b ≤ a.
Proof.
  induction m as [|m IH]; intros k j l Hm Hk Hs Hmin; cbn [bubble_pass].
  { replace k with j by lia. done. }
  destruct (lookup_lt_is_Some_2 l j) as [x Hx]; [lia|]. destruct (lookup_lt_is_Some_2 l (S j)) as [y Hy]; [lia|].
  apply IH; [lia|by rewrite (Permutation_length (bubble_step_perm j l))|by apply bubble_step_settled; [lia|]|].
  intros i a b Hi. rewrite !(bubble_step_lookup j l x y) by done.
  rewrite (decide_False (P := S j = j)), (decide_True (P := S j = S j)) by lia. intros Ha [= <-].
  destruct (decide (i = j)) as [->|]; [injection Ha as <-; lia|]. rewrite decide_False in Ha by lia.
  assert (x ≤ a) by (eapply (Hmin i); [lia|done..]). lia.
Qed.

Lemma bubble_pass_keeps m : ∀ k j l, (m + j ≤ k)%nat → settled k l → settled k (bubble_pass m j l).
Proof.
  induction m as [|m IH]; intros k j l Hm Hs; cbn [bubble_pass]; [done|].
  apply IH; [lia|]. by apply bubble_step_settled; [lia|].
Qed.

Lemma bubble_sort_settled k : ∀ l, (k < length l)%nat → settled k l → settled 0 (bubble_sort k l).
Proof.
  induction k as [|k IH]; intros l Hk Hs; cbn [bubble_sort]; [done|].
  apply IH; [rewrite (Permutation_length (bubble_pass_perm _ _ _)); lia|].
  intros i j a b Hkj Hij Ha Hb. destruct (decide (j = S k)) as [->|].
  - apply (bubble_pass_settles (S k) (S k) 0 l ltac:(lia) Hk Hs ltac:(lia) i a b); done.
  - pose proof (bubble_pass_keeps (S k) (S k) 0 l ltac:(lia) Hs) as Hk'. apply (Hk' i j a b); [lia|lia|done|done].
Qed.

Lemma bubble_sort_sorted l : settled 0 (bubble_sort (length l - 1) l).
Proof.
  destruct l as [|x l]; [done|]. apply bubble_sort_settled; [simpl; lia|].
  intros i j a b Hj _ _ Hb%lookup_lt_Some. simpl in *. lia.
Qed.

(** The scheduler's bubble sort returns the collected priorities, each as
    often as it was collected, in descending order. *)
Theorem scheduler_sorts l :
  let s := bubble_sort (length l - 1) l in
  s ≡ₚ l ∧ ∀ i j a b, (i < j)%nat → s !! i = Some a → s !! j = Some b → b ≤ a.
Proof.
  split; [apply bubble_sort_perm|]. intros i j a b Hij Ha Hb.
  eapply (bubble_sort_sorted l i j); [lia|done..].
Qed.
