(* ===== verification/ProcThms.v ===== *)
(** * Properties of the process table operations (proc.c) *)

From S2P Require Import Prelude Bytes Xstring Spinlock Proc ProcSpec.

Section thms.
Context {E : Type} `{KernelOps E}.
Abbreviation kernel := (@kernel E).
Implicit Types (k : kernel) (p q : proc) (t : list proc) (m : machine).

(** ** Counting and reporting *)

Lemma wp_count_procs n : ∀ i c k Q, (i + n = length (ptable k))%nat →
  Q (c + Z.of_nat (length (filter (λ p, state p ≠ UNUSED) (drop i (ptable k))))) k →
  wp (count_procs n i c) Q k.
Proof.
  induction n as [|n IH]; intros i c k Q Hn HQ; cbn [count_procs].
  { apply wp_ret. rewrite drop_ge, filter_nil in HQ by lia. by rewrite Z.add_0_r in HQ. }
  destruct (lookup_lt_is_Some_2 (ptable k) i) as [p Hp]; [lia|].
  apply wp_bind, wp_get_proc with p; [done|]. apply IH; [lia|].
  rewrite (drop_S _ p i) in HQ by done. rewrite filter_cons in HQ.
  destruct (decide (state p = UNUSED)) as [Hs|Hs].
  - by rewrite decide_False in HQ by (by intros []).
  - rewrite decide_True in HQ by done. cbn [length] in HQ. by replace (c + 1 + _) with (c + Z.of_nat (S (length (filter (λ p, state p ≠ UNUSED) (drop (S i) (ptable k)))))) by lia.
Qed.

Lemma wp_max_pid_loop n : ∀ i c k Q, (i + n = length (ptable k))%nat →
  (∀ r, c ≤ r → (∀ j p, (i ≤ j)%nat → ptable k !! j = Some p → pid p ≤ r) →
     (r = c ∨ ∃ j p, ptable k !! j = Some p ∧ pid p = r) → Q r k) →
  wp (max_pid_loop n i c) Q k.
Proof.
  induction n as [|n IH]; intros i c k Q Hn HQ; cbn [max_pid_loop].
  { apply wp_ret, HQ; [lia| |by left]. intros j p Hj Hp%lookup_lt_Some. lia. }
  destruct (lookup_lt_is_Some_2 (ptable k) i) as [p Hp]; [lia|].
  apply wp_bind, wp_get_proc with p; [done|]. apply IH; [lia|]. intros r Hc Hall Hr.
  apply HQ; [destruct (Z.ltb_spec c (pid p)); lia| |].
  - intros j q Hj Hq. destruct (decide (j = i)) as [->|]; [|apply (Hall j); [lia|done]].
    rewrite Hp in Hq. injection Hq as <-. destruct (Z.ltb_spec c (pid p)); lia.
  - destruct Hr as [->|?]; [|by right]. destruct (c <? pid p); [right; by exists i, p|by left].
Qed.

Lemma num_proc_ok cur b k :
  out cur b k → length (ptable k) = NPROC →
  wp get_num_proc (λ r k', out cur b k' ∧ ptable k' = ptable k ∧
    r = Z.of_nat (length (filter (λ p, state p ≠ UNUSED) (ptable k)))) k.
Proof.
  intros Ho Hl. apply wp_bind, (wp_lock cur b); [done|]. intros m1 Hm1.
  apply wp_bind, wp_count_procs; [done|].
  apply wp_bind, (wp_unlock cur b); [done|]. intros m2 Hm2. by apply wp_ret.
Qed.

Lemma max_pid_ok cur b k :
  out cur b k → length (ptable k) = NPROC →
  wp get_max_pid (λ r k', out cur b k' ∧ ptable k' = ptable k ∧ 0 ≤ r ∧
    (∀ j p, ptable k !! j = Some p → pid p ≤ r) ∧
    (r = 0 ∨ ∃ j p, ptable k !! j = Some p ∧ pid p = r)) k.
Proof.
  intros Ho Hl. apply wp_bind, (wp_lock cur b); [done|]. intros m1 Hm1.
  apply wp_bind, wp_max_pid_loop; [done|]. intros r Hr Hall Hex.
  apply wp_bind, (wp_unlock cur b); [done|]. intros m2 Hm2. apply wp_ret.
  split_and!; [done..| |done]. intros j p. apply Hall. lia.
Qed.

(** [get_num_proc] counts the slots in use, and [get_max_pid] gives the
    largest pid stored in any slot; neither changes the table. *)
Theorem process_counts cur b k :
  out cur b k → length (ptable k) = NPROC →
  wp get_num_proc (λ r k', ptable k' = ptable k ∧
    r = Z.of_nat (length (filter (λ p, state p ≠ UNUSED) (ptable k)))) k ∧
  wp get_max_pid (λ r k', ptable k' = ptable k ∧ 0 ≤ r ∧ (∀ j p, ptable k !! j = Some p → pid p ≤ r) ∧
    (r = 0 ∨ ∃ j p, ptable k !! j = Some p ∧ pid p = r)) k.
Proof.
  intros Ho Hl. split.
  - eapply wp_mono; [by eapply num_proc_ok|]. by intros r k' (_ & ? & ?).
  - eapply wp_mono; [by eapply max_pid_ok|]. by intros r k' (_ & ?).
Qed.

(** The answer about pid [n], and the case of a null (or wild) parent. *)
Definition info_ok (n : Z) t (r : Z * option processInfo) : Prop :=
  (no_slot (λ p, pid p = n) t ∧ r = (-1, None)) ∨
  ∃ i p pp, first_slot (λ p, pid p = n) t i p ∧ r = (0, Some (PInfo pp (i32 (sz p)) (switch_cnt p))) ∧
    if decide (n = 1) then pp = 0 else ∃ j q, parent p = Some j ∧ t !! j = Some q ∧ pp = pid q.
Definition info_null (n : Z) t : Prop :=
  n ≠ 1 ∧ ∃ i p, first_slot (λ p, pid p = n) t i p ∧
    match parent p with Some j => (length t ≤ j)%nat | None => True end.

(** [get_proc_info] reports on the first slot with the given pid: size,
    number of context switches and the parent's pid (0 for pid 1).  It gives -1
    when no slot has the pid.  The only way it can fail is a null parent, which
    it dereferences without a test. *)
Theorem get_proc_info_reports cur b k n :
  out cur b k → length (ptable k) = NPROC →
  wpx (get_proc_info n) (λ r k', ptable k' = ptable k ∧ info_ok n (ptable k) r)
    (λ e _, e = Fault ∧ info_null n (ptable k)) k.
Proof.
  intros Ho Hl. apply wpx_bind_wp, (wp_lock cur b); [done|]. intros m1 Hm1.
  apply wpx_bind, (wpx_find_loop (λ p, pid p = n)); [done|..].
  - intros i p Hp Hn. apply wp_bind, wp_get_proc with p; [done|].
    rewrite (proj2 (Z.eqb_neq _ _)) by done. by apply wp_ret.
  - intros i p Hf. pose proof Hf as (Hp & Hn & _). apply wpx_bind_wp, wp_get_proc with p; [done|].
    rewrite (proj2 (Z.eqb_eq _ _)) by done. apply wpx_bind.
    assert (wpx (if n =? 1 then mret 0 else j ← of_option (parent p); q ← get_proc j; mret (pid q))
      (λ pp k', k' = set_mach m1 k ∧
         if decide (n = 1) then pp = 0 else ∃ j q, parent p = Some j ∧ ptable k !! j = Some q ∧ pp = pid q)
      (λ e _, e = Fault ∧ info_null n (ptable k)) (set_mach m1 k)) as Hpp.
    { destruct (decide (n = 1)) as [Hn1|Hn1].
      { rewrite (proj2 (Z.eqb_eq n 1)) by done. by apply wpx_ret. }
      rewrite (proj2 (Z.eqb_neq n 1)) by done. apply wpx_bind. destruct (parent p) as [j|] eqn:Hpar.
      - apply wpx_ret, wpx_bind. destruct (ptable k !! j) as [q|] eqn:Hq.
        + apply wpx_wp, (wp_get_proc j q); [done|]. apply wpx_ret. split; [done|]. by exists j, q.
        + unfold get_proc. apply wpx_bind_wp. unfold wp, getS. cbn [set_mach ptable]. rewrite Hq. apply wpx_fail.
          split; [done|]. split; [done|]. exists i, p. split; [done|]. rewrite Hpar. by apply lookup_ge_None.
      - apply wpx_fail. split; [done|]. split; [done|]. exists i, p. split; [done|]. by rewrite Hpar. }
    eapply wpx_mono; [exact Hpp| |done]. intros pp k' [-> Hok].
    apply wpx_bind_wp, (wp_unlock cur b); [done|]. intros m2 Hm2. apply wpx_ret.
    split; [done|]. apply wpx_ret. split; [done|]. right. by exists i, p, pp.
  - intros Hno. apply wpx_bind_wp, (wp_unlock cur b); [done|]. intros m2 Hm2. apply wpx_ret.
    split; [done|]. by left.
Qed.

(** ** kill and wakeup *)

Definition killed_proc p : proc :=
  let p' := set_killed p 1 in if decide (state p = SLEEPING) then set_state p' RUNNABLE else p'.

(** [kill] marks exactly the first slot with the pid as killed, and makes
    it runnable if it sleeps; without such a slot it gives -1 and changes
    nothing.  The lock is free again in both cases. *)
Theorem kill_marks cur b k n :
  out cur b k → length (ptable k) = NPROC →
  wp (kill n) (λ r k', out cur b k' ∧
    ((no_slot (λ p, pid p = n) (ptable k) ∧ r = -1 ∧ ptable k' = ptable k) ∨
     ∃ i p, first_slot (λ p, pid p = n) (ptable k) i p ∧ r = 0 ∧
       ptable k' = <[i := killed_proc p]> (ptable k))) k.
Proof.
  intros Ho Hl. apply wp_bind, (wp_lock cur b); [done|]. intros m1 Hm1.
  apply wp_bind, (wpx_find_loop (λ p, pid p = n)); [done|..].
  - intros i p Hp Hn. apply wp_bind, wp_get_proc with p; [done|].
    rewrite (proj2 (Z.eqb_neq _ _)) by done. by apply wp_ret.
  - intros i p Hf. pose proof Hf as (Hp & Hn & _). apply wp_bind, wp_get_proc with p; [done|].
    assert (i < length (ptable k))%nat as Hi by (by eapply lookup_lt_Some).
    rewrite (proj2 (Z.eqb_eq _ _)) by done. apply wp_bind, wp_upd_proc with p; [done|].
    assert (wp (if decide (state p = SLEEPING) then upd_proc i (λ p, set_state p RUNNABLE) else mret tt)
      (λ _ k', k' = set_ptable (<[i := killed_proc p]> (ptable k)) (set_mach m1 k))
      (set_ptable (<[i := set_killed p 1]> (ptable k)) (set_mach m1 k))) as Hw.
    { unfold killed_proc. destruct (decide (state p = SLEEPING)); [|by apply wp_ret].
      apply wp_upd_proc with (set_killed p 1); [by apply list_lookup_insert_eq|].
      cbn [set_ptable ptable]. by rewrite set_ptable_twice, list_insert_insert_eq. }
    apply wp_bind. eapply wp_mono; [exact Hw|]. intros _ k' ->.
    apply wp_bind, (wp_unlock cur b); [done|]. intros m2 Hm2. apply wp_ret. split; [done|].
    apply wp_ret. split; [done|]. right. by exists i, p.
  - intros Hno. apply wp_bind, (wp_unlock cur b); [done|]. intros m2 Hm2. apply wp_ret.
    split; [done|]. by left.
Qed.

(** [wakeup] makes exactly the processes that sleep on the channel runnable
    and changes nothing else of any process. *)
Theorem wakeup_exact cur b k c :
  out cur b k → length (ptable k) = NPROC →
  wp (wakeup c) (λ _ k', out cur b k' ∧ ∀ i p, ptable k !! i = Some p →
    ptable k' !! i = Some (if decide (state p = SLEEPING ∧ chan p = c) then set_state p RUNNABLE else p)) k.
Proof.
  intros Ho Hl. apply wp_bind, (wp_lock cur b); [done|]. intros m1 Hm1.
  apply wp_bind, wp_wakeup1; [done|]. apply (wp_unlock cur b); [done|]. intros m2 Hm2. split; [done|].
  intros i p Hp. cbn [set_mach set_ptable ptable]. rewrite list_lookup_fmap, Hp. cbn. f_equal. unfold woken.
  destruct (decide (state p = SLEEPING)), (Z.eqb_spec (chan p) c); case_decide as Hd; tauto || done.
Qed.

(** ** Giving up the CPU *)

(** With ptable.lock held once and a state other than RUNNING, sched passes
    all its checks and switches to the scheduler, changing nothing. *)
Lemma sched_switches cur b k p :
  within cur b k → ptable k !! cur = Some p → state p ≠ RUNNING → sched k = Fail (Sleep 0) k.
Proof.
  intros Hin Hp Hs. pose proof Hin as (i & c & Hon & Hn & Hc & Hb & He & Hlk).
  assert (wpx sched (λ _ _, False) (λ e k', e = Sleep 0 ∧ k' = k) k) as Hw.
  { apply wpx_bind_wp, (wp_curproc_in cur b); [done|].
    apply wpx_bind_wp, wp_zoom, (wp_holding _ i c PTLOCK (Lock true (Some i))); [done|done|lia|done|].
    cbn [locked lcpu]. rewrite bool_decide_eq_true_2 by done.
    assert (set_mach (mach k) k = k) as -> by (by destruct k).
    apply wpx_bind_wp, wp_panic_unless; [done|].
    apply wpx_bind_wp, wp_zoom, (wp_mycpu _ i c); [done..|].
    assert (set_mach (mach k) k = k) as -> by (by destruct k).
    apply wpx_bind_wp, wp_zoom, (wp_get_cpu _ i c); [done|].
    assert (set_mach (mach k) k = k) as -> by (by destruct k).
    apply wpx_bind_wp, wp_panic_unless; [by apply Z.eqb_eq|].
    apply wpx_bind_wp, wp_get_proc with p; [done|].
    apply wpx_bind_wp, wp_panic_unless; [by rewrite bool_decide_eq_false_2|].
    apply wpx_bind_wp, wp_gets. apply wpx_bind_wp, wp_panic_unless; [by rewrite He|]. by apply wpx_fail. }
  revert Hw. unfold wpx. destruct (sched k) as [|e k']; [done|]. by intros [-> ->].
Qed.

(** [yield] and [sleep] never trip the checks of sched: the caller is left
    runnable, or sleeping on its channel with the other lock released, and
    control goes to the scheduler with ptable.lock held and every other
    process untouched. *)
Theorem yield_sleep_switch cur b k p c :
  out cur b k → ptable k !! cur = Some p →
  wpx yield (λ _ _, False) (λ e k', e = Sleep 0 ∧ within cur b k' ∧
    ptable k' = <[cur := set_state p RUNNABLE]> (ptable k)) k ∧
  (∀ m', inside PTLOCK (Some cur) b m' →
    wpx (sleep c (Some PTLOCK)) (λ _ _, False) (λ e k', e = Sleep 0 ∧ within cur b k' ∧
      ptable k' = <[cur := set_state (set_chan p c) SLEEPING]> (ptable k)) (set_mach m' k)) ∧
  (∀ l m', l ≠ PTLOCK → inside l (Some cur) b m' → locks m' !! PTLOCK = Some free_lock →
    wpx (sleep c (Some l)) (λ _ _, False) (λ e k', e = Sleep 0 ∧ within cur b k' ∧
      locks (mach k') !! l = Some free_lock ∧
      ptable k' = <[cur := set_state (set_chan p c) SLEEPING]> (ptable k)) (set_mach m' k)).
Proof.
  intros Ho Hp. assert (cur < length (ptable k))%nat as Hcur by (by eapply lookup_lt_Some).
  assert (Hgo : ∀ m1, inside PTLOCK (Some cur) b m1 →
    wpx (upd_proc cur (λ p, set_chan p c);; upd_proc cur (λ p, set_state p SLEEPING);; sched) (λ _ _, False)
      (λ e k', e = Sleep 0 ∧ within cur b k' ∧ mach k' = m1 ∧
         ptable k' = <[cur := set_state (set_chan p c) SLEEPING]> (ptable k)) (set_mach m1 k)).
  { intros m1 Hm1. apply wpx_bind_wp, wp_upd_proc with p; [done|].
    apply wpx_bind_wp, wp_upd_proc with (set_chan p c); [by apply list_lookup_insert_eq|].
    cbn [set_ptable ptable set_mach]. rewrite list_insert_insert_eq.
    unfold wpx. rewrite (sched_switches cur b _ (set_state (set_chan p c) SLEEPING)); [done|done| |done].
    by apply list_lookup_insert_eq. }
  split; [|split].
  - apply wpx_bind_wp, (wp_lock cur b); [done|]. intros m1 Hm1.
    apply wpx_bind_wp, (wp_curproc_in cur b); [done|]. apply wpx_bind_wp, wp_upd_proc with p; [done|].
    unfold wpx. rewrite (sched_switches cur b _ (set_state p RUNNABLE)); [done|done| |done].
    by apply list_lookup_insert_eq.
  - intros m' Hm'. apply wpx_bind_wp, wp_zoom, (wp_myproc_inside PTLOCK (Some cur) b); [done|].
    cbn [negb Z.eqb PTLOCK Pos.eqb]. apply wpx_bind_wp, wp_ret.
    eapply wpx_mono; [by apply Hgo|done|]. by intros e k' (? & ? & _ & ?).
  - intros l m' Hl Hm' Hfree. apply wpx_bind_wp, wp_zoom, (wp_myproc_inside l (Some cur) b); [done|].
    rewrite (proj2 (Z.eqb_neq _ _)) by done. cbn [negb]. apply wpx_bind_wp.
    assert (wp (acquire PTLOCK;; release l) (λ _ m1, inside PTLOCK (Some cur) b m1 ∧ locks m1 !! l = Some free_lock) m') as Hsw
      by (apply (wp_swap_locks l PTLOCK (Some cur) b); done).
    apply wp_elim in Hsw as ([] & m1 & Hrun & Hm1 & Hl1). revert Hrun.
    unfold wp, onm, zoom, mbind, M_bind. cbn [mach set_mach].
    destruct (acquire PTLOCK m') as [[] m2|]; [|done]. cbn [mach set_mach]. intros ->.
    eapply wpx_mono; [by apply Hgo|done|]. intros e k' (-> & ? & Hmm & ?). by rewrite Hmm.
Qed.
End thms.
