(* ===== verification/ProcSched.v ===== *)
(** * The priority scheduler of xv6 (proc.c, scheduler) *)

From S2P Require Import Prelude Bytes Xstring Spinlock Proc ProcSpec.

Section sched.
Context {E : Type} `{KernelOps E}.
Abbreviation kernel := (@kernel E).
Implicit Types (k : kernel) (p : proc) (q : Z) (t : list proc) (m : machine).

(** A process with memory and a kernel stack; switchuvm panics without. *)
Definition mapped p : Prop := pgdir p ≠ 0 ∧ kstack p ≠ 0.

(** Switching to the address space of such a process returns. *)
Definition switching_returns : Prop :=
  (∀ p (e : E), mapped p → ∃ e', switchuvm (pgdir p) (kstack p) e = Ret tt e') ∧ (∀ e : E, ∃ e', switchkvm e = Ret tt e').

Definition runnable p : Prop := state p = RUNNABLE.
#[global] Instance runnable_dec p : Decision (runnable p).
Proof. unfold runnable. apply _. Defined.

(** The scheduler thread of CPU [c]: no process, no lock; or in its critical
    section, running [o]. *)
Definition sched_start (c : nat) k : Prop := ∃ b, idle_on c PTLOCK None b (mach k).
Definition sched_out (c : nat) k : Prop := idle_on c PTLOCK None true (mach k).
Definition sched_in (c : nat) (o : option nat) k : Prop := inside_on c PTLOCK o true (mach k).

(** ** The queue *)

Lemma wp_fill_queue n : ∀ i l k Q, (i + n = length (ptable k))%nat →
  Q (l ++ (priority <$> filter runnable (drop i (ptable k)))) k → wp (fill_queue n i l) Q k.
Proof.
  induction n as [|n IH]; intros i l k Q Hn HQ; cbn [fill_queue].
  { apply wp_ret. rewrite drop_ge in HQ by lia. by rewrite app_nil_r in HQ. }
  destruct (lookup_lt_is_Some_2 (ptable k) i) as [p Hp]; [lia|].
  apply wp_bind, wp_get_proc with p; [done|]. apply IH; [lia|].
  rewrite (drop_S _ p i), filter_cons in HQ by done.
  destruct (decide (runnable p)) as [Hs|Hs].
  - rewrite decide_True by done. by rewrite <- app_assoc.
  - by rewrite decide_False.
Qed.

(** The priorities the scheduler goes through in one pass. *)
Definition queue_of t : list Z :=
  let l := priority <$> filter runnable t in bubble_sort (length l - 1) l.

Lemma queue_perm t : queue_of t ≡ₚ priority <$> filter runnable t.
Proof. apply bubble_sort_perm. Qed.

Lemma queue_head t q l : queue_of t = q :: l →
  (∃ i p, t !! i = Some p ∧ runnable p ∧ priority p = q) ∧
  ∀ i p, t !! i = Some p → runnable p → priority p ≤ q.
Proof.
  intros Hq. pose proof (queue_perm t) as Hperm. rewrite Hq in Hperm. split.
  - assert (q ∈ priority <$> filter runnable t) as Hin by (rewrite <- Hperm; left).
    apply list_elem_of_fmap in Hin as (p & -> & Hp). apply list_elem_of_filter in Hp as [Hr Hp].
    apply list_elem_of_lookup in Hp as [i Hi]. by exists i, p.
  - intros i p Hi Hr. assert (priority p ∈ q :: l) as Hin.
    { rewrite Hperm. apply list_elem_of_fmap_2. apply list_elem_of_filter. split; [done|]. by eapply list_elem_of_lookup_2. }
    apply list_elem_of_lookup in Hin as [[|j] Hj]; [injection Hj as ->; lia|].
    pose proof (bubble_sort_sorted (priority <$> filter runnable t)) as Hs. fold (queue_of t) in Hs.
    rewrite Hq in Hs. apply (Hs 0%nat (S j)); [lia|lia|done|done].
Qed.

Lemma wp_sched_prefix c k Q R run :
  sched_start c k → length (ptable k) = NPROC →
  (∀ m', idle_on c PTLOCK None true m' →
     wpx (sched_rounds run c (queue_of (ptable k))) Q R (set_mach m' k)) →
  wpx (sched_pass run c) Q R k.
Proof.
  intros Ho Hl HQ. apply wpx_bind_wp, wp_zoom, wp_modify.
  assert (idle_on c PTLOCK None true (set_if true (mach k))) as Ho1.
  { destruct Ho as (b & d & ? & ? & ? & ? & ?). by exists d. }
  apply wpx_bind_wp, wp_zoom, (wp_enter_on c PTLOCK None true); [done|]. intros m1 Hm1.
  apply wpx_bind_wp, wp_fill_queue; [done|]. rewrite app_nil_l, drop_0.
  apply wpx_bind_wp, wp_zoom, (wp_leave_on c PTLOCK None true); [done|]. intros m2 Hm2.
  by apply HQ.
Qed.

(** ** Which process runs first *)

(** Hand control to the chosen process and stop there. *)
Definition stop_at (i : nat) : M kernel unit := fail (Sleep (proc_addr i)).

(** In a pass of the scheduler, the first process it switches to is one
    of highest priority among all runnable ones, the one in the lowest slot of
    those; when it gets control it is RUNNING and the lock is held.  Without a
    runnable process the pass changes nothing. *)
Theorem scheduler_highest_first c k :
  switching_returns → sched_start c k → length (ptable k) = NPROC →
  (∀ i p, ptable k !! i = Some p → runnable p → mapped p) →
  wpx (sched_pass stop_at c)
    (λ _ k', no_slot runnable (ptable k) ∧ ptable k' = ptable k)
    (λ e k', ∃ i p, e = Sleep (proc_addr i) ∧ ptable k !! i = Some p ∧ runnable p ∧
       (∀ j p', ptable k !! j = Some p' → runnable p' → priority p' ≤ priority p) ∧
       (∀ j p', (j < i)%nat → ptable k !! j = Some p' → runnable p' → priority p' < priority p) ∧
       sched_in c (Some i) k' ∧ ptable k' = <[i := set_state p RUNNING]> (ptable k)) k.
Proof.
  intros [Hsw _] Ho Hl Hmap. apply wp_sched_prefix; [done..|]. intros m1 Hm1.
  destruct (queue_of (ptable k)) as [|q l] eqn:Hq.
  { apply wpx_ret. split; [|done]. intros j p Hp Hr.
    assert (priority p ∈ []) as Hin; [|by apply elem_of_nil in Hin].
    rewrite <- Hq, queue_perm. apply list_elem_of_fmap_2, list_elem_of_filter. split; [done|]. by eapply list_elem_of_lookup_2. }
  destruct (queue_head _ _ _ Hq) as [(i0 & p0 & Hi0 & Hr0 & Hp0) Hmax].
  cbn [sched_rounds]. apply wpx_bind. unfold sched_round.
  apply wpx_bind_wp, wp_zoom, (wp_enter_on c PTLOCK None true); [done|]. intros m2 Hm2.
  apply wpx_bind, (wpx_find_loop (λ p, runnable p ∧ q ≤ priority p)); [done|..].
  - intros i p Hp Hno. apply wp_bind, wp_get_proc with p; [done|].
    destruct (decide (state p = RUNNABLE)) as [Hs|]; [|by apply wp_ret].
    rewrite (proj2 (Z.leb_gt _ _)); [by apply wp_ret|]. destruct (Z.le_gt_cases q (priority p)); [|done].
    by destruct Hno.
  - intros i p (Hp & [Hr Hge] & Hlow). apply wpx_bind_wp, wp_get_proc with p; [done|].
    rewrite decide_True by done. rewrite (proj2 (Z.leb_le _ _)) by done. apply wpx_bind.
    apply wpx_bind_wp, wp_zoom, (wp_set_cproc c PTLOCK None (Some i) true); [done|]. intros m3 Hm3.
    apply wpx_bind_wp, wp_get_proc with p; [done|].
    apply wpx_bind_wp, wp_zoom. destruct (Hsw p (env k)) as [e' He']; [by eapply Hmap|].
    unfold wp. cbn [env set_mach]. rewrite He'. apply wpx_bind_wp, wp_upd_proc with p; [done|].
    apply wpx_bind, wpx_fail. exists i, p. split; [done|]. split; [done|]. split; [done|]. split; [|split; [|done]].
    + intros j q' Hq' Hr'. pose proof (Hmax j q' Hq' Hr'). lia.
    + intros j q' Hj Hq' Hr'. destruct (Z.le_gt_cases q (priority q')); [|lia].
      exfalso. by apply (Hlow j q' Hj Hq').
  - intros Hno. exfalso. apply (Hno i0 p0); [done|]. split; [done|lia].
Qed.

(** ** Turns in a pass *)

(** What a process may do to its own slot in a time slice at whose end it
    yields: anything that keeps its priority, its count and its memory. *)
Definition slice p p' : Prop :=
  state p' = RUNNABLE ∧ priority p' = priority p ∧ switch_cnt p' = switch_cnt p ∧ mapped p'.

(** [run i] is such a slice of the process in slot [i] for every [i]: it comes
    back to the scheduler with the lock, having done what it likes to the rest
    of the kernel but not to the other slots. *)
Definition yields (c : nat) (run : nat → M kernel unit) : Prop := ∀ i p k,
  sched_in c (Some i) k → ptable k !! i = Some p → state p = RUNNING → mapped p →
  wp (run i) (λ _ k', sched_in c (Some i) k' ∧ ∃ p', slice p p' ∧ ptable k' = <[i := p']> (ptable k)) k.

(** [p'] is [p] after [n] turns. *)
Definition took (n : nat) p p' : Prop :=
  if decide (runnable p) then
    runnable p' ∧ priority p' = priority p ∧ switch_cnt p' = switch_cnt p + Z.of_nat n ∧ mapped p'
  else n = 0%nat ∧ p' = p.

(** The turns of [p] in the rounds for the priorities [l]. *)
Definition turns (l : list Z) p : nat := if decide (runnable p) then length (filter (λ q, q ≤ priority p) l) else 0.

Lemma took_0 p : (runnable p → mapped p) → took 0 p p.
Proof. intros Hm. unfold took. case_decide; [|done]. split_and!; [done|done|lia|auto..]. Qed.
Lemma took_turns q l p p1 p2 : took (turns [q] p) p p1 → took (turns l p1) p1 p2 → took (turns (q :: l) p) p p2.
Proof.
  unfold took, turns. rewrite !filter_cons, filter_nil. destruct (decide (runnable p)) as [Hr|Hr].
  - intros (Hr1 & Hp1 & Hc1 & _). rewrite Hp1. destruct (decide (runnable p1)) as [_|]; [|done]. intros (Hr2 & Hp2 & Hc2 & Hm2).
    split_and!; [done|congruence| |done..]. rewrite Hc2, Hc1. destruct (decide (q ≤ priority p)); cbn [length]; lia.
  - intros [_ ->]. by destruct (decide (runnable p)).
Qed.
Lemma took_mapped n p p' : took n p p' → runnable p' → mapped p'.
Proof. unfold took. case_decide; [by intros (_ & _ & _ & ?)|]. by intros [_ ->] ?. Qed.
Lemma took_count n p p' : took n p p' → switch_cnt p ≤ switch_cnt p' ≤ switch_cnt p + Z.of_nat n.
Proof. unfold took. case_decide; [intros (_ & _ & -> & _); lia|]. intros [-> ->]. lia. Qed.

Section turns.
Context (c : nat) (run : nat → M kernel unit) (Hsw : switching_returns) (Hrun : yields c run).

Lemma wp_dispatch_slice k i p Q :
  sched_in c None k → ptable k !! i = Some p → runnable p → mapped p → 0 ≤ switch_cnt p < 2 ^ 31 - 1 →
  (∀ k' p', sched_in c None k' → took 1 p p' → ptable k' = <[i := p']> (ptable k) → Q tt k') →
  wp (dispatch run c i) Q k.
Proof using Hsw Hrun.
  destruct Hsw as [Hu Hk]. intros Hin Hp Hr Hm Hc HQ. assert (i < length (ptable k))%nat as Hi by (by eapply lookup_lt_Some).
  apply wp_bind, wp_zoom, (wp_set_cproc c PTLOCK None (Some i) true); [done|]. intros m1 Hm1.
  apply wp_bind, wp_get_proc with p; [done|]. apply wp_bind, wp_zoom.
  destruct (Hu p (env k) Hm) as [e1 He1]. unfold wp at 1. cbn [env set_mach]. rewrite He1.
  apply wp_bind, wp_upd_proc with p; [done|]. apply wp_bind.
  eapply wp_mono; [apply (Hrun i (set_state p RUNNING)); [done|by apply list_lookup_insert_eq|done|done]|].
  intros [] k2 (Hin2 & p' & (Hs & Hpr & Hsc & Hm') & Ht2). cbn [set_ptable ptable set_env set_mach] in Ht2. rewrite list_insert_insert_eq in Ht2.
  assert (ptable k2 !! i = Some p') as Hp2 by (rewrite Ht2; by apply list_lookup_insert_eq).
  apply wp_bind, wp_zoom. destruct (Hk (env k2)) as [e2 He2]. unfold wp at 1. rewrite He2.
  apply wp_bind, wp_get_proc with p'; [done|]. cbn in Hpr, Hsc. apply wp_bind, wp_int; [lia|]. apply wp_bind, wp_upd_proc with p'; [done|].
  apply wp_zoom, (wp_set_cproc c PTLOCK (Some i) None true); [done|]. intros m2 Hm2.
  apply (HQ _ (set_switch_cnt p' (switch_cnt p' + 1))); [done| |cbn; by rewrite Ht2, list_insert_insert_eq].
  unfold took. rewrite decide_True by done. cbn. split_and!; [done|done|lia|apply Hm'..].
Qed.

Lemma wp_sched_round_slice q k Q :
  sched_out c k → length (ptable k) = NPROC →
  (∀ i p, ptable k !! i = Some p → 0 ≤ switch_cnt p < 2 ^ 31 - 1 ∧ (runnable p → mapped p)) →
  (∀ k', sched_out c k' → Forall2 (λ p, took (turns [q] p) p) (ptable k) (ptable k') → Q tt k') →
  wp (sched_round run c q) Q k.
Proof using Hsw Hrun.
  intros Ho Hl Hcnt HQ. apply wp_bind, wp_zoom, (wp_enter_on c PTLOCK None true); [done|]. intros m1 Hm1.
  apply wp_bind, wp_for with (I := λ j k', sched_in c None k' ∧
    ∃ t, Forall2 (λ p, took (turns [q] p) p) (take j (ptable k)) t ∧ ptable k' = t ++ drop j (ptable k)).
  - split; [done|]. exists []. by rewrite take_0, drop_0.
  - intros j k' Hj (Hin & t & Hf & Ht). destruct (lookup_lt_is_Some_2 (ptable k) j) as [p Hp]; [lia|].
    assert (length t = j) as Hlj by (apply Forall2_length in Hf; rewrite length_take in Hf; lia).
    assert (ptable k' !! j = Some p) as Hp'.
    { rewrite Ht, lookup_app_r, Hlj, Nat.sub_diag, lookup_drop, Nat.add_0_r by lia. done. }
    assert (∀ k2 x, sched_in c None k2 → took (turns [q] p) p x → ptable k2 = <[j := x]> (ptable k') → sched_in c None k2 ∧
      ∃ t, Forall2 (λ p, took (turns [q] p) p) (take (S j) (ptable k)) t ∧ ptable k2 = t ++ drop (S j) (ptable k)) as Hnext.
    { intros k2 x Hin2 Hx Ht2. split; [done|]. exists (t ++ [x]). rewrite (take_S_r _ _ p) by done. split; [apply Forall2_app; auto|].
      rewrite Ht2, Ht, insert_app_r_alt, Hlj, Nat.sub_diag, (drop_S _ p j) by (done || lia). by rewrite <- app_assoc. }
    destruct (Hcnt j p Hp) as [Hc Hm]. apply wp_bind, wp_get_proc with p; [done|]. unfold turns in *. rewrite filter_cons, filter_nil in Hnext.
    destruct (decide (state p = RUNNABLE)) as [Hr|Hr]; [rewrite decide_True in Hnext by done|rewrite decide_False in Hnext by done].
    + destruct (Z.leb_spec q (priority p)); [rewrite decide_True in Hnext by done|rewrite decide_False in Hnext by lia].
      * apply wp_bind, (wp_dispatch_slice k' j p); [done|done|done|auto|done|]. intros k2 x Hin2 Hx Ht2. apply wp_ret. by apply (Hnext k2 x).
      * apply wp_ret, (Hnext k' p); [done|by apply took_0|by rewrite list_insert_id].
    + apply wp_ret, (Hnext k' p); [done|by apply took_0|by rewrite list_insert_id].
  - intros k' (Hin & t & Hf & Ht). rewrite Nat.add_0_l, take_ge in Hf by lia. rewrite Nat.add_0_l, drop_ge, app_nil_r in Ht by lia. subst t.
    apply wp_zoom, (wp_leave_on c PTLOCK None true); [done|]. intros m2 Hm2. by apply HQ.
Qed.

Lemma wp_sched_rounds_slice l : ∀ k Q,
  sched_out c k → length (ptable k) = NPROC →
  (∀ i p, ptable k !! i = Some p → 0 ≤ switch_cnt p < 2 ^ 31 - Z.of_nat (length l) ∧ (runnable p → mapped p)) →
  (∀ k', sched_out c k' → Forall2 (λ p, took (turns l p) p) (ptable k) (ptable k') → Q tt k') →
  wp (sched_rounds run c l) Q k.
Proof using Hsw Hrun.
  induction l as [|q l IH]; intros k Q Ho Hl Hcnt HQ; cbn [sched_rounds].
  { apply wp_ret, HQ; [done|]. apply Forall2_same_length_lookup_2; [done|]. intros i p p' Hp Hp'. assert (p' = p) as -> by congruence.
    assert (turns [] p = 0%nat) as -> by (unfold turns; by case_decide). apply took_0. by apply (Hcnt i). }
  apply wp_bind, (wp_sched_round_slice q); [done..| |].
  { intros i p Hp. destruct (Hcnt i p Hp). cbn [length] in *. split; [lia|done]. }
  intros k1 Ho1 Ht1. apply IH; [done|by rewrite <- (Forall2_length _ _ _ Ht1)|..].
  - intros i p1 Hp1. destruct (Forall2_lookup_r _ _ _ _ _ Ht1 Hp1) as (p & Hp & Htk). split; [|by eapply took_mapped].
    pose proof (took_count _ _ _ Htk). destruct (Hcnt i p Hp). assert (turns [q] p ≤ 1)%nat.
    { unfold turns. case_decide; [|lia]. rewrite filter_cons, filter_nil. case_decide; cbn; lia. }
    cbn [length] in *. lia.
  - intros k' Ho' Ht'. apply HQ; [done|]. apply Forall2_same_length_lookup_2; [by rewrite (Forall2_length _ _ _ Ht1), (Forall2_length _ _ _ Ht')|].
    intros i p p2 Hp Hp2. destruct (Forall2_lookup_r _ _ _ _ _ Ht' Hp2) as (p1 & Hp1 & Htk1).
    destruct (Forall2_lookup_r _ _ _ _ _ Ht1 Hp1) as (p0 & Hp0 & Htk0). assert (p0 = p) as -> by congruence. by eapply took_turns.
Qed.
End turns.

Lemma length_filter_priority p t :
  length (filter (λ q, q ≤ priority p) (priority <$> filter runnable t))
  = length (filter (λ p', runnable p' ∧ priority p' ≤ priority p) t).
Proof.
  induction t as [|p' t IH]; [done|]. rewrite !filter_cons.
  destruct (decide (runnable p')) as [Hr|Hr].
  - rewrite fmap_cons, filter_cons. destruct (decide (priority p' ≤ priority p)).
    + rewrite decide_True by done. cbn. by rewrite IH.
    + rewrite decide_False by (by intros []). done.
  - rewrite decide_False by (by intros []). done.
Qed.

(** C9. No process starves, and how the turns are shared.  In one pass of the
    scheduler every process it switches to runs a time slice of its own (any
    computation that changes its slot, but not its priority, and leaves the
    other slots alone), yields and stays runnable.  Then the pass ends, and it
    switches to a runnable process exactly as often as there are runnable
    processes of priority at most its own (itself included, so at least once),
    counts each switch, and leaves the other processes as they were. *)
Theorem scheduler_turns c run k :
  switching_returns → yields c run → sched_start c k → length (ptable k) = NPROC →
  (∀ i p, ptable k !! i = Some p → 0 ≤ switch_cnt p < 2 ^ 31 - 64 ∧ (runnable p → mapped p)) →
  wp (sched_pass run c) (λ _ k', sched_out c k' ∧ ∀ i p, ptable k !! i = Some p → ∃ p', ptable k' !! i = Some p' ∧
    if decide (runnable p) then
      let n := length (filter (λ p', runnable p' ∧ priority p' ≤ priority p) (ptable k)) in
      (1 ≤ n)%nat ∧ runnable p' ∧ priority p' = priority p ∧ switch_cnt p' = switch_cnt p + Z.of_nat n
    else p' = p) k.
Proof.
  intros Hsw Hrun Ho Hl Hcnt. apply wp_sched_prefix; [done..|]. intros m1 Hm1.
  assert (length (queue_of (ptable k)) ≤ 64)%nat as Hql.
  { rewrite queue_perm, length_fmap. pose proof (length_filter runnable (ptable k)). unfold NPROC in Hl. lia. }
  apply (wp_sched_rounds_slice c run Hsw Hrun (queue_of (ptable k))); [done|done|..].
  { intros i p Hp. destruct (Hcnt i p Hp). split; [lia|done]. }
  intros k' Ho' Ht'. cbn [set_mach ptable] in Ht'. split; [done|]. intros i p Hp.
  destruct (Forall2_lookup_l _ _ _ _ _ Ht' Hp) as (p' & Hp' & Htk). exists p'. split; [done|]. unfold took, turns in Htk.
  destruct (decide (runnable p)) as [Hr|Hr]; [|by destruct Htk]. rewrite queue_perm, length_filter_priority in Htk. cbv zeta.
  destruct Htk as (Hr' & Hpr & Hc & _). split_and!; [|done..].
  assert (p ∈ filter (λ p', runnable p' ∧ priority p' ≤ priority p) (ptable k)) as Hin
    by (apply list_elem_of_filter; split; [split; [done|lia]|by eapply list_elem_of_lookup_2]).
  destruct (filter _ _); [by apply elem_of_nil in Hin|]. cbn. lia.
Qed.

(** A process that does nothing in its slice but yield. *)
Definition time_slice (i : nat) : M kernel unit := upd_proc i (λ p, set_state p RUNNABLE).

Lemma time_slice_yields c : yields c time_slice.
Proof.
  intros i p k Hin Hp Hr Hm. apply wp_upd_proc with p; [done|]. split; [done|]. exists (set_state p RUNNABLE). split; [|done].
  split_and!; [done|done|done|apply Hm..].
Qed.
End sched.
