(* ===== verification/ProcInv.v ===== *)
(** * The invariant of the process table over all runs of the kernel (proc.c)

    A run is a sequence of kernel operations, each executed by a process that
    is RUNNING or by a scheduler, with arbitrary changes of the machine and of
    the other subsystems in between.  A call runs up to its return or up to
    its switch to the scheduler as one step; other CPUs act between steps.
    The invariant holds in every state
    reached: pids of processes in use are distinct and were given out, and
    every process but init has a parent that is alive, so that the parent
    pointers wait and get_proc_info follow are never dangling. *)

From S2P Require Import Prelude Bytes Xstring Spinlock Proc ProcSpec.

(** The states a parent pointer cares about. *)
Inductive class := Free | Embryo | Zombie | Alive.
#[global] Instance class_eq_dec : EqDecision class.
Proof. solve_decision. Defined.

Definition class_of (s : procstate) : class :=
  match s with
  | UNUSED => Free
  | EMBRYO => Embryo
  | ZOMBIE => Zombie
  | SLEEPING | RUNNABLE | RUNNING => Alive
  end.
Definition kind (p : proc) : class := class_of (state p).

Record tbase (t : list proc) (n : Z) (ini : option nat) : Prop := {
  tb_len : length t = NPROC;
  tb_next : 0 < n;
  tb_pid i p : t !! i = Some p → kind p ≠ Free → 0 < pid p < n;
  tb_uniq i j p q : t !! i = Some p → t !! j = Some q → kind p ≠ Free → kind q ≠ Free → pid p = pid q → i = j;
  tb_parent i p : t !! i = Some p → kind p = Zombie ∨ kind p = Alive → ini ≠ Some i →
    ∃ j q, parent p = Some j ∧ t !! j = Some q ∧ kind q = Alive
}.

Definition init_ok (t : list proc) (ini : option nat) : Prop :=
  ∃ i p, ini = Some i ∧ t !! i = Some p ∧ kind p = Alive.

(** ** Updates of one slot *)

(** A slot that keeps its kind and pid, and its parent unless it is an embryo. *)
Definition benign (p p' : proc) : Prop :=
  kind p' = kind p ∧ pid p' = pid p ∧ (kind p = Embryo ∨ parent p' = parent p).

Lemma benign_refl p : benign p p.
Proof. split_and!; [done..|by right]. Qed.

(** What remains to be shown when slot [i] changes. *)
Lemma tbase_upd t n n' ini i p p' :
  tbase t n ini → t !! i = Some p → n ≤ n' →
  (kind p' ≠ Free → 0 < pid p' < n') →
  (kind p' ≠ Free → ∀ j q, j ≠ i → t !! j = Some q → kind q ≠ Free → pid p' ≠ pid q) →
  (kind p' = Zombie ∨ kind p' = Alive → ini ≠ Some i →
     ∃ j q, parent p' = Some j ∧ <[i := p']> t !! j = Some q ∧ kind q = Alive) →
  (kind p = Alive → kind p' ≠ Alive → ∀ j q, j ≠ i → t !! j = Some q → kind q ≠ Free → parent q ≠ Some i) →
  tbase (<[i := p']> t) n' ini.
Proof.
  intros HT Hi Hn Hpid Huniq Hpar Hkid. assert (i < length t)%nat as Hlt by (by eapply lookup_lt_Some).
  assert (Hcase : ∀ j q, <[i := p']> t !! j = Some q → (j = i ∧ q = p') ∨ (j ≠ i ∧ t !! j = Some q)).
  { intros j q. destruct (decide (j = i)) as [->|]; [rewrite list_lookup_insert_eq by done|rewrite list_lookup_insert_ne by done];
      [intros [= <-]; by left|by right]. }
  constructor.
  - by rewrite length_insert, (tb_len _ _ _ HT).
  - pose proof (tb_next _ _ _ HT). lia.
  - intros j q Hj Hk. destruct (Hcase j q Hj) as [[-> ->]|[Hne Hq]]; [by apply Hpid|].
    pose proof (tb_pid _ _ _ HT j q Hq Hk). lia.
  - intros j1 j2 q1 q2 H1 H2 Hk1 Hk2 He.
    destruct (Hcase j1 q1 H1) as [[-> ->]|[Hne1 Hq1]], (Hcase j2 q2 H2) as [[-> ->]|[Hne2 Hq2]]; [done|..].
    + by destruct (Huniq Hk1 j2 q2).
    + by destruct (Huniq Hk2 j1 q1).
    + by apply (tb_uniq _ _ _ HT j1 j2 q1 q2).
  - intros j q Hj Hk Hini. destruct (Hcase j q Hj) as [[-> ->]|[Hne Hq]]; [by apply Hpar|].
    destruct (tb_parent _ _ _ HT j q Hq Hk Hini) as (j' & q' & Hpq & Hq' & Hk').
    destruct (decide (j' = i)) as [->|].
    + exists i, p'. split; [done|]. split; [by apply list_lookup_insert_eq|].
      rewrite Hi in Hq'. injection Hq' as <-. destruct (decide (kind p' = Alive)) as [|Hna]; [done|].
      exfalso. apply (Hkid Hk' Hna j q Hne Hq); [|done]. by destruct Hk as [->| ->].
    + exists j', q'. rewrite list_lookup_insert_ne by done. done.
Qed.

Lemma tbase_benign t n ini i p p' :
  tbase t n ini → t !! i = Some p → benign p p' → tbase (<[i := p']> t) n ini.
Proof.
  intros HT Hi (Hk & Hpid & Hpar). apply (tbase_upd t n n ini i p); [done|done|lia|..]; rewrite ?Hk, ?Hpid.
  - by apply (tb_pid _ _ _ HT i).
  - intros Hf j q Hne Hq Hkq He. apply Hne. symmetry. by apply (tb_uniq _ _ _ HT i j p q).
  - intros Hz Hini. destruct Hpar as [He|Hpar]; [destruct Hz; congruence|].
    destruct (tb_parent _ _ _ HT i p Hi Hz Hini) as (j & q & Hj & Hq & Hkq).
    destruct (decide (j = i)) as [->|].
    + exists i, p'. rewrite list_lookup_insert_eq by (by eapply lookup_lt_Some). rewrite Hpar.
      split_and!; [done..|]. rewrite Hi in Hq. injection Hq as <-. by rewrite Hk.
    + exists j, q. rewrite list_lookup_insert_ne, Hpar by done. done.
  - done.
Qed.

Lemma init_ok_upd t ini i p p' :
  init_ok t ini → t !! i = Some p → (ini = Some i → kind p' = Alive) → init_ok (<[i := p']> t) ini.
Proof.
  intros (i0 & p0 & Hini & Hp0 & Hk0) Hi Hsame. destruct (decide (i0 = i)) as [->|].
  - exists i, p'. rewrite list_lookup_insert_eq by (by eapply lookup_lt_Some). split_and!; [done..|by apply Hsame].
  - exists i0, p0. rewrite list_lookup_insert_ne by done. done.
Qed.

Definition tinv (t : list proc) (n : Z) (ini : option nat) : Prop := tbase t n ini ∧ init_ok t ini.

Lemma tinv_benign t n ini i p p' : tinv t n ini → t !! i = Some p → benign p p' → tinv (<[i := p']> t) n ini.
Proof.
  intros [HT Hini] Hi Hb. split; [by eapply tbase_benign|]. eapply init_ok_upd; [done..|].
  intros ->. destruct Hini as (i0 & p0 & [= <-] & Hp0 & Hk0). rewrite Hi in Hp0. injection Hp0 as <-.
  destruct Hb as [-> _]. done.
Qed.

(** All slots at once. *)
Lemma tinv_map t n ini f : tinv t n ini → (∀ p, benign p (f p) ∧ parent (f p) = parent p) → tinv (f <$> t) n ini.
Proof.
  intros [HT (i0 & p0 & Hini & Hp0 & Hk0)] Hf.
  assert (Hk : ∀ p, kind (f p) = kind p ∧ pid (f p) = pid p ∧ parent (f p) = parent p) by (intros p; destruct (Hf p) as [(? & ? & _) ?]; done).
  split.
  - constructor.
    + by rewrite length_fmap, (tb_len _ _ _ HT).
    + apply HT.
    + intros i p. rewrite list_lookup_fmap. intros (q & Hq & ->)%fmap_Some. destruct (Hk q) as (-> & -> & _).
      by apply (tb_pid _ _ _ HT i).
    + intros i j p q. rewrite !list_lookup_fmap. intros (p1 & Hp1 & ->)%fmap_Some (q1 & Hq1 & ->)%fmap_Some.
      destruct (Hk p1) as (-> & -> & _), (Hk q1) as (-> & -> & _). by apply (tb_uniq _ _ _ HT).
    + intros i p. rewrite list_lookup_fmap. intros (q & Hq & ->)%fmap_Some. destruct (Hk q) as (-> & _ & ->).
      intros Hz Hne. destruct (tb_parent _ _ _ HT i q Hq Hz Hne) as (j & q' & ? & Hq' & ?).
      exists j, (f q'). rewrite list_lookup_fmap, Hq'. split_and!; [done..|]. by destruct (Hk q') as [-> _].
  - exists i0, (f p0). rewrite list_lookup_fmap, Hp0. split_and!; [done..|]. by destruct (Hk p0) as [-> _].
Qed.

(** ** The process of the executing CPU *)

Definition at_proc (cur : nat) (m : machine) : Prop := ∃ i c, on_cpu m i c ∧ cproc c = Some cur.

(** A machine operation that does not change which process runs. *)
Definition keeps {A} (c : M machine A) : Prop :=
  ∀ cur m, at_proc cur m → wpx c (λ _ m', at_proc cur m') (λ _ _, True) m.

Lemma keeps_ret {A} (a : A) : keeps (mret a).
Proof. by intros cur m Hm. Qed.
Lemma keeps_fail {A} e : keeps (fail e : M machine A).
Proof. done. Qed.
Lemma keeps_gets {A} (f : machine → A) : keeps (gets f).
Proof. by intros cur m Hm. Qed.
Lemma keeps_bind {A B} (c : M machine A) (f : A → M machine B) :
  keeps c → (∀ a, keeps (f a)) → keeps (c ≫= f).
Proof. intros Hc Hf cur m Hm. apply wpx_bind. eapply wpx_mono; [by apply Hc| |done]. intros a m' Hm'. by apply Hf. Qed.
Lemma keeps_of_option {A} (o : option A) : keeps (of_option o).
Proof. destruct o; [apply keeps_ret|apply keeps_fail]. Qed.
Lemma keeps_interrupts b : keeps (set_interrupts b).
Proof. by intros cur m Hm. Qed.
Lemma keeps_set_lock a l : keeps (set_lock a l).
Proof. by intros cur m Hm. Qed.
Lemma keeps_mycpu : keeps mycpu.
Proof. intros cur m Hm. unfold wpx, mycpu, mbind, M_bind, getS. destruct (eflags_if m); [done|]. by destruct (find_cpu m). Qed.
Lemma keeps_get_cpu i : keeps (get_cpu i).
Proof. apply keeps_bind; [by intros cur m Hm|]. intros m. apply keeps_of_option. Qed.
Lemma keeps_get_lock a : keeps (get_lock a).
Proof. apply keeps_bind; [by intros cur m Hm|]. intros m. apply keeps_of_option. Qed.

Lemma keeps_upd_cpu i f : (∀ c, apicid (f c) = apicid c ∧ cproc (f c) = cproc c) → keeps (upd_cpu i f).
Proof.
  intros Hf cur m (j & c & [Hfind Hc] & Hp). unfold wpx, upd_cpu, get_cpu, mbind, M_bind, getS, of_option.
  destruct (cpus m !! i) as [d|] eqn:Hd; [|done]. cbn. destruct (Hf d) as [Ha Hpd].
  destruct (decide (i = j)) as [->|Hne].
  - rewrite Hc in Hd. injection Hd as <-. exists j, (f c). split; [|congruence]. by apply on_cpu_upd with c.
  - exists j, c. split; [|done]. split; [by rewrite (find_cpu_insert m i d)|]. cbn. by rewrite list_lookup_insert_ne.
Qed.

Create HintDb keeps discriminated.
#[local] Hint Resolve keeps_ret keeps_fail keeps_gets keeps_of_option keeps_interrupts keeps_set_lock
  keeps_mycpu keeps_get_cpu keeps_get_lock : keeps.
Ltac keeps := repeat match goal with
  | |- keeps (mbind _ _) => apply keeps_bind; [|intros ?]
  | |- keeps (if ?b then _ else _) => destruct b
  | |- keeps (upd_cpu _ _) => by apply keeps_upd_cpu
  | |- _ => solve [eauto with keeps]
  end.

Lemma keeps_pushcli : keeps pushcli.
Proof. unfold pushcli. keeps. Qed.
Lemma keeps_popcli : keeps popcli.
Proof. unfold popcli. keeps. Qed.
#[local] Hint Resolve keeps_pushcli keeps_popcli : keeps.
Lemma keeps_holding a : keeps (holding a).
Proof. unfold holding. keeps. Qed.
#[local] Hint Resolve keeps_holding : keeps.
Lemma keeps_acquire a : keeps (acquire a).
Proof. unfold acquire. keeps. Qed.
Lemma keeps_release a : keeps (release a).
Proof. unfold release. keeps. Qed.

Lemma myproc_at cur m Q R :
  at_proc cur m → (∀ m', at_proc cur m' → Q (Some cur) m') → (∀ e m', R e m') → wpx myproc Q R m.
Proof.
  intros Hm HQ HR. assert (∀ m', at_proc cur m' → wpx (i ← mycpu; c ← get_cpu i; popcli;; mret (cproc c)) Q R m') as Hrest.
  { intros m1 (i & c & [Hf Hc] & Hp). apply wpx_bind. unfold wpx at 1, mycpu, mbind, M_bind, getS.
    destruct (eflags_if m1); [apply HR|]. rewrite Hf. cbn. apply wpx_bind.
    unfold wpx at 1, get_cpu, mbind, M_bind, getS, of_option. rewrite Hc. cbn. apply wpx_bind.
    eapply wpx_mono; [apply (keeps_popcli cur); by exists i, c| |by intros]. intros [] m2 Hm2. apply wpx_ret. rewrite Hp. by apply HQ. }
  apply wpx_bind. eapply wpx_mono; [by apply (keeps_pushcli cur)| |by intros]. intros [] m1 Hm1. by apply Hrest.
Qed.

(** ** Safety of the operations *)

Section safety.
Context {E : Type} `{KernelOps E}.
Abbreviation kernel := (@kernel E).
Implicit Types (k : kernel) (p q : proc) (t : list proc) (m : machine).

Definition pinv k : Prop := tinv (ptable k) (nextpid k) (initproc k).

(** A run that ends by returning or in swtch leaves the invariant. *)
Definition switched (I : kernel → Prop) (e : failure) (k : kernel) : Prop :=
  match e with Sleep _ => I k | _ => True end.
Definition safe {A} (c : M kernel A) (Q : A → kernel → Prop) (I : kernel → Prop) k : Prop := wpx c Q (switched I) k.

Lemma safe_bind {A B} (c : M kernel A) (f : A → M kernel B) Q I k :
  safe c (λ a k', safe (f a) Q I k') I k → safe (c ≫= f) Q I k.
Proof. apply wpx_bind. Qed.

Lemma safe_ret {A} (a : A) Q I k : Q a k → safe (mret a) Q I k.
Proof. apply wpx_ret. Qed.

Lemma safe_mono {A} (c : M kernel A) (Q Q' : A → kernel → Prop) I k :
  safe c Q I k → (∀ a k', Q a k' → Q' a k') → safe c Q' I k.
Proof. intros. by eapply wpx_mono. Qed.

(** The machine and the rest of the kernel do not touch the table. *)
Lemma safe_onm {A} (c : M machine A) Q I k :
  (∀ a m', Q a (set_mach m' k)) → (∀ m', I (set_mach m' k)) → safe (onm c) Q I k.
Proof.
  intros HQ HI. unfold safe, wpx, onm, zoom. destruct (c (mach k)) as [a m'|e m']; [apply HQ|].
  destruct e; simpl; auto.
Qed.

Lemma safe_onm_at {A} cur (c : M machine A) Q I k :
  at_proc cur (mach k) → keeps c →
  (∀ a m', at_proc cur m' → Q a (set_mach m' k)) → (∀ m', I (set_mach m' k)) → safe (onm c) Q I k.
Proof.
  intros Hat Hc HQ HI. specialize (Hc cur (mach k) Hat). revert Hc. unfold safe, wpx, onm, zoom.
  destruct (c (mach k)) as [a m'|e m']; [apply HQ|]. intros _. destruct e; simpl; auto.
Qed.

Lemma safe_curproc cur Q I k :
  at_proc cur (mach k) → (∀ m', at_proc cur m' → Q cur (set_mach m' k)) → (∀ m', I (set_mach m' k)) →
  safe curproc Q I k.
Proof.
  intros Hat HQ HI. apply safe_bind.
  pose proof (myproc_at cur (mach k) (λ o m', o = Some cur ∧ at_proc cur m') (λ _ _, True) Hat) as Hm.
  unfold safe at 1, wpx, onm, zoom. unfold wpx in Hm. destruct (myproc (mach k)) as [o m'|e m'].
  - destruct Hm as [-> Hm]; [done..|]. apply safe_ret. by apply HQ.
  - destruct e; simpl; auto.
Qed.

Lemma safe_one {A} (c : M E A) Q I k :
  (∀ a e', Q a (set_env e' k)) → (∀ e', I (set_env e' k)) → safe (one c) Q I k.
Proof.
  intros HQ HI. unfold safe, wpx, one, zoom. destruct (c (env k)) as [a m'|e m']; [apply HQ|].
  destruct e; simpl; auto.
Qed.

Lemma safe_get_proc i Q I k : (∀ p, ptable k !! i = Some p → Q p k) → safe (get_proc i) Q I k.
Proof.
  intros HQ. unfold safe, wpx, get_proc, mbind, M_bind, getS, of_option.
  destruct (ptable k !! i) as [p|] eqn:Hp; [by apply HQ|done].
Qed.

Lemma safe_upd_proc i f Q I k :
  (∀ p, ptable k !! i = Some p → Q tt (set_ptable (<[i := f p]> (ptable k)) k)) → safe (upd_proc i f) Q I k.
Proof. intros HQ. apply safe_bind, safe_get_proc. intros p Hp. by apply HQ. Qed.

Lemma safe_of_option {A} (o : option A) Q I k : (∀ a, o = Some a → Q a k) → safe (of_option o) Q I k.
Proof. intros HQ. destruct o as [a|]; [by apply HQ|done]. Qed.

Lemma safe_for {R} n (body : nat → M kernel (option R)) I k Q :
  (∀ j k', I k' → safe (body j) (λ r k'', match r with None => I k'' | Some _ => Q r k'' end) I k') →
  I k → (∀ k', I k' → Q None k') → safe (for_ n 0 body) Q I k.
Proof.
  intros Hb HI HQ. apply wpx_for with (I := λ _ k', I k'); [done| |].
  - intros j k' _ HI'. by apply Hb.
  - intros k' HI'. by apply HQ.
Qed.

Lemma safe_int z Q I k : (∀ z', z' = z → Q z' k) → safe (int_ z) Q I k.
Proof. intros HQ. unfold int_. destruct (_ && _); [by apply HQ|done]. Qed.

Lemma safe_upd_at i p f Q I k :
  ptable k !! i = Some p → Q tt (set_ptable (<[i := f p]> (ptable k)) k) → safe (upd_proc i f) Q I k.
Proof. intros Hp HQ. apply safe_upd_proc. intros p' Hp'. rewrite Hp in Hp'. by injection Hp' as <-. Qed.

(** Updating a slot that was just updated. *)
Lemma safe_upd_again i p f Q I t k :
  (i < length t)%nat → Q tt (set_ptable (<[i := f p]> t) k) →
  safe (upd_proc i f) Q I (set_ptable (<[i := p]> t) k).
Proof.
  intros Hi HQ. apply safe_upd_at with p; [by apply list_lookup_insert_eq|].
  cbn [set_ptable ptable]. by rewrite set_ptable_twice, list_insert_insert_eq.
Qed.

Definition has_kind (c : class) (i : nat) k : Prop := ∃ p, ptable k !! i = Some p ∧ kind p = c.

(** ** allocproc *)

Lemma tinv_alloc t n ini i p p' :
  tinv t n ini → t !! i = Some p → kind p = Free → kind p' = Embryo → pid p' = n →
  tinv (<[i := p']> t) (n + 1) ini.
Proof.
  intros [HT Hini] Hi Hk Hk' Hpid. split.
  - apply (tbase_upd t n (n + 1) ini i p); [done|done|lia|..]; rewrite ?Hk', ?Hpid, ?Hk.
    + intros _. pose proof (tb_next _ _ _ HT). lia.
    + intros _ j q _ Hq Hkq. pose proof (tb_pid _ _ _ HT j q Hq Hkq). lia.
    + by intros [?|?].
    + done.
  - eapply init_ok_upd; [done..|]. intros ->. destruct Hini as (i0 & p0 & [= <-] & Hp0 & Hk0). congruence.
Qed.

Lemma tinv_drop t n ini i p p' :
  tinv t n ini → t !! i = Some p → kind p = Embryo ∨ kind p = Zombie → kind p' = Free → tinv (<[i := p']> t) n ini.
Proof.
  intros [HT Hini] Hi Hk Hk'. split.
  - apply (tbase_upd t n n ini i p); [done|done|lia|..]; rewrite ?Hk'; try done; [by intros [?|?]|].
    intros Ha. destruct Hk; congruence.
  - eapply init_ok_upd; [done..|]. intros ->. destruct Hini as (i0 & p0 & [= <-] & Hp0 & Hk0).
    destruct Hk; congruence.
Qed.

Lemma wp_find_unused k Q :
  length (ptable k) = NPROC →
  (∀ i p, ptable k !! i = Some p → state p = UNUSED → Q (Some i) k) → Q None k →
  wp find_unused Q k.
Proof.
  intros Hl HS HN. apply (wpx_find_loop (λ p, state p = UNUSED)); [done|..].
  - intros i p Hp Hs. apply wp_bind, wp_get_proc with p; [done|]. rewrite decide_False by done. by apply wp_ret.
  - intros i p (Hp & Hs & _). apply wp_bind, wp_get_proc with p; [done|]. rewrite decide_True by done.
    apply wp_ret. split; [done|]. by eapply HS.
  - done.
Qed.

Context (forkret_at : Z) (initcode : list Z) (fresh_tf : trapframe).
Abbreviation allocproc := (allocproc forkret_at fresh_tf).

Lemma safe_allocproc k Q :
  pinv k →
  (∀ k', pinv k' → (∀ c j, c ≠ Free → has_kind c j k → has_kind c j k') → Q None k') →
  (∀ i k', pinv k' → has_kind Free i k → has_kind Embryo i k' → (∀ c j, c ≠ Free → has_kind c j k → has_kind c j k') → Q (Some i) k') →
  safe allocproc Q pinv k.
Proof.
  intros HI HN HS. apply safe_bind, safe_onm; [|done]. intros _ m1.
  assert (length (ptable k) = NPROC) as Hl by apply HI.
  apply safe_bind, wpx_wp, wp_find_unused; [done| |].
  2: { apply safe_bind, safe_onm; [|done]. intros _ m2. apply safe_ret, HN; done. }
  intros i p Hp Hs. cbn [set_mach ptable] in Hp. assert (i < length (ptable k))%nat as Hi by (by eapply lookup_lt_Some).
  assert (kind p = Free) as Hkp by (unfold kind; by rewrite Hs).
  apply safe_bind, (safe_upd_at i p); [done|]. cbn [set_mach ptable]. apply safe_bind. apply wpx_wp, wp_gets.
  apply safe_bind, safe_upd_again; [done|]. apply safe_bind, safe_int. intros n' ->.
  apply safe_bind. apply wpx_wp, wp_modify. cbn [nextpid set_ptable set_mach].
  set (p1 := set_pid (set_state p EMBRYO) (nextpid k)).
  apply safe_bind. unfold set_nextpid. cbn [mach ptable initproc first env set_ptable set_mach].
  set (k1 := Kernel m1 (ptable k) (nextpid k + 1) (initproc k) (first k) (env k)).
  apply (safe_upd_again i p1 (λ p, set_switch_cnt p 0) _ pinv (ptable k) k1); [done|].
  apply safe_bind, safe_upd_again; [done|].
  set (p2 := set_priority _ 0).
  assert (Hem : ∀ p', kind p' = Embryo → pid p' = nextpid k → ∀ m e,
    pinv (set_ptable (<[i := p']> (ptable k)) (set_env e (set_mach m k1)))).
  { intros p' Hk' Hpid m e. by apply (tinv_alloc _ _ _ i p). }
  assert (Hkeep : ∀ p' m e, ∀ c j, c ≠ Free → has_kind c j k → has_kind c j (set_ptable (<[i := p']> (ptable k)) (set_env e (set_mach m k1)))).
  { intros p' m e c j Hc (q & Hq & Hkq). exists q. cbn. rewrite list_lookup_insert_ne; [done|]. intros ->. congruence. }
  apply safe_bind, safe_onm; [|intros m'; by apply (Hem p2 eq_refl eq_refl m' (env k))]. intros _ m2.
  apply safe_bind, safe_one; [|intros e'; by apply (Hem p2 eq_refl eq_refl m2 e')]. intros ks e1.
  change (set_env e1 (set_mach m2 (set_ptable (<[i:=p2]> (ptable k)) k1))) with (set_ptable (<[i:=p2]> (ptable k)) (set_env e1 (set_mach m2 k1))).
  apply safe_bind, safe_upd_again; [done|]. destruct (ks =? 0).
  - apply safe_bind, safe_upd_again; [done|]. apply safe_ret, HN; [|apply Hkeep].
    pose proof (Hem (set_kstack p2 ks) eq_refl eq_refl m2 e1) as HI2.
    eapply (tinv_drop _ _ _ i (set_kstack p2 ks) (set_state (set_kstack p2 ks) UNUSED)) in HI2;
      [|by apply list_lookup_insert_eq|by left|done].
    cbn [ptable set_ptable] in HI2. rewrite list_insert_insert_eq in HI2. exact HI2.
  - apply safe_bind, safe_upd_again; [done|]. apply safe_ret, HS; [by apply Hem|by exists p| |apply Hkeep].
    eexists. split; [by apply list_lookup_insert_eq|done].
Qed.

(** ** Operations that change one process without changing its kind *)

Lemma safe_upd_benign i f Q k :
  pinv k → (∀ p, ptable k !! i = Some p → benign p (f p)) →
  (∀ p, ptable k !! i = Some p → pinv (set_ptable (<[i := f p]> (ptable k)) k) →
     Q tt (set_ptable (<[i := f p]> (ptable k)) k)) →
  safe (upd_proc i f) Q pinv k.
Proof.
  intros HI Hb HQ. apply safe_upd_proc. intros p Hp. apply HQ; [done|].
  by apply (tinv_benign _ _ _ i p); [done|done|apply Hb].
Qed.

(** A live process changes between the live states. *)
Lemma benign_state p s : kind p = Alive → class_of s = Alive → benign p (set_state p s).
Proof. intros Hp Hs. split_and!; [|done|by right]. unfold kind in *. cbn. congruence. Qed.

Lemma safe_wakeup1 c k Q :
  pinv k → (∀ k', pinv k' → (∀ c j, has_kind c j k → has_kind c j k') → (∀ j p, ptable k !! j = Some p →
     ∃ p', ptable k' !! j = Some p' ∧ parent p' = parent p ∧ (state p = ZOMBIE → state p' = ZOMBIE)) →
     mach k' = mach k → initproc k' = initproc k → Q tt k') →
  safe (wakeup1 c) Q pinv k.
Proof.
  intros HI HQ. apply wpx_wp, wp_wakeup1; [apply HI|]. apply HQ.
  - apply tinv_map; [done|]. intros p. unfold woken.
    destruct (decide (state p = SLEEPING)) as [Hs|]; [destruct (_ =? _)|]; try (split; [apply benign_refl|done]).
    split; [|done]. apply benign_state; [unfold kind; by rewrite Hs|done].
  - intros c' j (p & Hp & Hk). exists (woken c p). cbn. rewrite list_lookup_fmap, Hp. split; [done|].
    unfold woken. destruct (decide (state p = SLEEPING)) as [Hs|]; [destruct (_ =? _)|]; try done.
    rewrite <- Hk. unfold kind. by rewrite Hs.
  - intros j p Hp. exists (woken c p). cbn. rewrite list_lookup_fmap, Hp. split; [done|].
    unfold woken. destruct (decide (state p = SLEEPING)) as [Hs|]; [destruct (_ =? _)|]; try done.
    split; [done|]. by rewrite Hs.
  - done.
  - done.
Qed.

Lemma safe_wakeup c k Q : pinv k → (∀ k', pinv k' → Q tt k') → safe (wakeup c) Q pinv k.
Proof.
  intros HI HQ. apply safe_bind, safe_onm; [|done]. intros _ m1.
  apply safe_bind, safe_wakeup1; [done|]. intros k' HI' _ _ _ _. apply safe_onm; [|done]. intros [] m2. by apply HQ.
Qed.

Lemma safe_kill n k Q : pinv k → (∀ r k', pinv k' → Q r k') → safe (kill n) Q pinv k.
Proof.
  intros HI HQ. apply safe_bind, safe_onm; [|done]. intros _ m1.
  apply safe_bind, safe_for; [|done|].
  - intros j k' HI'. apply safe_bind, safe_get_proc. intros p Hp. destruct (pid p =? n); [|by apply safe_ret].
    apply safe_bind, safe_upd_benign; [done|intros p0 _; split_and!; [done..|by right]|].
    intros p0 Hp0 HI1. rewrite Hp in Hp0. injection Hp0 as <-. apply safe_bind.
    assert (Hrest : ∀ k', pinv k' → safe (onm (release PTLOCK);; mret (Some 0)) (λ r k'', match r with
      | None => pinv k'' | Some _ => safe (match r with Some x => mret x | None => onm (release PTLOCK);; mret (-1) end) Q pinv k'' end) pinv k').
    { intros k2 HI2. apply safe_bind, safe_onm; [|done]. intros _ m2. by apply safe_ret, safe_ret, HQ. }
    destruct (decide (state p = SLEEPING)) as [Hs|]; [|by apply safe_ret, Hrest].
    apply safe_upd_benign; [done| |intros; by apply Hrest]. intros p0 Hp0. cbn in Hp0.
    rewrite list_lookup_insert_eq in Hp0 by (by eapply lookup_lt_Some). injection Hp0 as <-.
    apply benign_state; [|done]. unfold kind. cbn. by rewrite Hs.
  - intros k' HI'. apply safe_bind, safe_onm; [|done]. intros _ m2. by apply safe_ret, HQ.
Qed.

Lemma safe_sched_panics {A} (c : M kernel A) Q k : pinv k → safe (sched;; c) Q pinv k.
Proof.
  intros HI. apply safe_bind. unfold sched, curproc. repeat (apply safe_bind).
  apply safe_onm; [|done]. intros o m1. apply safe_of_option. intros i _.
  apply safe_bind, safe_onm; [|done]. intros h m2. apply safe_bind. unfold panic_unless. destruct h; [apply safe_ret|done].
  apply safe_bind, safe_onm; [|done]. intros x m3. apply safe_bind, safe_onm; [|done]. intros d m4.
  apply safe_bind. destruct (ncli d =? 1); [apply safe_ret|done].
  apply safe_bind, safe_get_proc. intros p Hp. apply safe_bind. destruct (negb _); [apply safe_ret|done].
  apply safe_bind, wpx_wp, wp_gets. apply safe_bind. destruct (negb _); [apply safe_ret|done]. done.
Qed.

(** ** fork *)

(** The child's slot while fork fills it in. *)
Definition embryo_of (np cur : nat) k : Prop := pinv k ∧ has_kind Embryo np k ∧ has_kind Alive cur k.

Lemma embryo_ne np cur k : embryo_of np cur k → np ≠ cur.
Proof. intros (_ & (p & Hp & Hk) & (q & Hq & Hk')) ->. congruence. Qed.

Lemma safe_upd_embryo np cur f Q k :
  embryo_of np cur k → (∀ q, kind (f q) = kind q ∧ pid (f q) = pid q) →
  (∀ k', embryo_of np cur k' → (∀ j, j ≠ np → ptable k' !! j = ptable k !! j) →
     (∀ q, ptable k !! np = Some q → ptable k' !! np = Some (f q)) → Q tt k') →
  safe (upd_proc np f) Q pinv k.
Proof.
  intros HJ Hf HQ. pose proof (embryo_ne _ _ _ HJ) as Hne. destruct HJ as (HI & (q & Hq & Hk) & Hcur).
  assert (np < length (ptable k))%nat as Hlt by (by eapply lookup_lt_Some).
  apply (safe_upd_at np q); [done|]. destruct (Hf q) as [Hfk Hfp]. apply HQ.
  - split; [|split].
    + apply (tinv_benign _ _ _ np q); [done..|]. split_and!; [done..|by left].
    + exists (f q). cbn. rewrite list_lookup_insert_eq by done. split; [done|congruence].
    + destruct Hcur as (p & Hp & Hkp). exists p. cbn. by rewrite list_lookup_insert_ne.
  - intros j Hj. cbn. by rewrite list_lookup_insert_ne.
  - intros q' Hq'. cbn. rewrite list_lookup_insert_eq by done. congruence.
Qed.

Definition child_of (np cur : nat) k : Prop :=
  embryo_of np cur k ∧ ∃ q, ptable k !! np = Some q ∧ parent q = Some cur.

Lemma safe_upd_child np cur f Q k :
  child_of np cur k → (∀ q, kind (f q) = kind q ∧ pid (f q) = pid q ∧ parent (f q) = parent q) →
  (∀ k', child_of np cur k' → Q tt k') → safe (upd_proc np f) Q pinv k.
Proof.
  intros [HJ (q & Hq & Hpar)] Hf HQ. apply (safe_upd_embryo np cur); [done|by intros q'; destruct (Hf q') as (? & ? & ?)|].
  intros k' HJ' _ Hnp. apply HQ. split; [done|]. exists (f q). split; [by apply Hnp|].
  destruct (Hf q) as (_ & _ & ->). done.
Qed.

Lemma tinv_born t n ini np cur q p :
  tinv t n ini → t !! np = Some q → kind q = Embryo → parent q = Some cur → t !! cur = Some p → kind p = Alive →
  tinv (<[np := set_state q RUNNABLE]> t) n ini.
Proof.
  intros [HT Hini] Hq Hk Hpar Hp Hkp. assert (np ≠ cur) as Hne by (intros ->; congruence). split.
  - apply (tbase_upd t n n ini np q); [done|done|lia|..].
    + intros _. apply (tb_pid _ _ _ HT np q Hq). by rewrite Hk.
    + intros _ j q' Hj Hq' Hkq' He. apply Hj. symmetry. apply (tb_uniq _ _ _ HT np j q q'); [done|done| |done|done]. by rewrite Hk.
    + intros _ _. exists cur, p. rewrite list_lookup_insert_ne by done. done.
    + by rewrite Hk.
  - by eapply init_ok_upd.
Qed.

Lemma safe_dup_files np cur k Q :
  child_of np cur k → (∀ k', child_of np cur k' → Q tt k') → safe (dup_files np cur) Q pinv k.
Proof.
  intros HJ HQ. unfold dup_files. apply safe_bind.
  assert (Hloop : wpx (for_ (R := unit) NOFILE 0 (λ fd,
      p ← get_proc cur; f ← of_option (ofile p !! fd);
      if negb (f =? 0) then g ← one (filedup f); upd_proc np (λ q, set_ofile q (<[fd := g]> (ofile q)));; mret None
      else mret None)) (λ _ k', child_of np cur k') (switched pinv) k).
  { apply wpx_for with (I := λ _ k', child_of np cur k'); [done| |done]. intros j k' _ HJ'.
    apply safe_bind, safe_get_proc. intros p Hp. apply safe_bind, safe_of_option. intros f _.
    destruct (negb _); [|by apply safe_ret]. apply safe_bind, safe_one; [|intros; apply HJ'].
    intros g e'. apply safe_bind, (safe_upd_child np cur); [done|done|]. intros k2 HJ2. by apply safe_ret. }
  eapply wpx_mono; [exact Hloop| |done]. intros r k' HJ'. by apply safe_ret, HQ.
Qed.

Lemma safe_fork cur k Q :
  pinv k → at_proc cur (mach k) → has_kind Alive cur k → (∀ r k', pinv k' → Q r k') →
  safe (fork forkret_at fresh_tf) Q pinv k.
Proof.
  intros HI Ho Hcur HQ. apply safe_bind, (safe_curproc cur); [done| |done]. intros m1 _.
  apply safe_bind, safe_allocproc; [done|..].
  { intros k' HI' _. by apply safe_ret, HQ. }
  intros np k1 HI1 _ Hemb Hkeep. assert (embryo_of np cur k1) as HJ.
  { split_and!; [done..|]. apply Hkeep; [done|]. exact Hcur. }
  apply safe_bind, safe_get_proc. intros p Hp. apply safe_bind, safe_one; [|by intros; apply HI1]. intros pg e1.
  apply safe_bind, (safe_upd_embryo np cur); [exact HJ|done|]. intros k2 HJ2 _ _. destruct (pg =? 0).
  - apply safe_bind, safe_get_proc. intros q Hq. apply safe_bind, safe_one; [|by intros; apply HJ2]. intros _ e2.
    apply safe_bind, (safe_upd_embryo np cur); [exact HJ2|done|]. intros k3 (HI3 & (q3 & Hq3 & Hk3) & _) _ _.
    apply safe_bind, (safe_upd_at np q3); [done|]. apply safe_ret, HQ.
    eapply (tinv_drop _ _ _ np q3); [done|done|by left|done].
  - apply safe_bind, (safe_upd_embryo np cur); [done|done|]. intros k3 HJ3 _ _.
    apply safe_bind, (safe_upd_embryo np cur); [done|done|]. intros k4 HJ4 _ Hnp4.
    assert (child_of np cur k4) as HC4.
    { split; [done|]. destruct HJ3 as (_ & (q & Hq & _) & _). exists (set_parent q (Some cur)). split; [by apply Hnp4|done]. }
    apply safe_bind, (safe_upd_child np cur); [done|done|]. intros k5 HC5.
    apply safe_bind, (safe_upd_child np cur); [done|done|]. intros k6 HC6.
    apply safe_bind, (safe_dup_files np cur); [done|]. intros k7 HC7.
    apply safe_bind, safe_one; [|by intros; apply HC7]. intros dir e2.
    apply safe_bind, (safe_upd_child np cur); [exact HC7|done|]. intros k8 HC8.
    apply safe_bind, safe_get_proc. intros q Hq. apply safe_bind, safe_of_option. intros nm _.
    apply safe_bind, (safe_upd_child np cur); [done|done|]. intros k9 HC9.
    apply safe_bind, safe_onm; [|by intros; apply HC9]. intros _ m9.
    destruct HC9 as [(HI9 & (q9 & Hq9 & Hk9) & (p9 & Hp9 & Hkp9)) (q9' & Hq9' & Hpar9)].
    rewrite Hq9 in Hq9'. injection Hq9' as <-.
    apply safe_bind, (safe_upd_at np q9); [done|].
    assert (∀ m, pinv (set_mach m (set_ptable (<[np := set_state q9 RUNNABLE]> (ptable k9)) k9))) as HIf
      by (intros m; by apply (tinv_born _ _ _ np cur q9 p9)).
    apply safe_bind, safe_onm; [|exact HIf]. intros _ m10. apply safe_ret, HQ, (HIf m10).
Qed.

(** ** wait *)

Lemma safe_reap i p k Q :
  pinv k → ptable k !! i = Some p → kind p = Zombie → (∀ r k', pinv k' → Q r k') → safe (reap i) Q pinv k.
Proof.
  intros HI Hp Hk HQ. assert (i < length (ptable k))%nat as Hi by (by eapply lookup_lt_Some).
  apply safe_bind, safe_get_proc. intros p0 Hp0. rewrite Hp in Hp0. injection Hp0 as <-.
  apply safe_bind, safe_one; [|by intros]. intros _ e1.
  apply safe_bind, (safe_upd_at i p); [done|]. apply safe_bind, safe_one.
  2: { intros e. apply (tinv_benign _ _ _ i p); [done..|]. split_and!; [done..|by right]. }
  intros _ e2. cbn [set_env ptable].
  change (set_env e2 (set_ptable ?t (set_env e1 k))) with (set_ptable t (set_env e2 k)).
  apply safe_bind, safe_upd_again; [done|]. apply safe_bind, safe_upd_again; [done|].
  apply safe_bind, safe_upd_again; [done|]. apply safe_bind, safe_upd_again; [done|].
  apply safe_bind, safe_upd_again; [done|].
  assert (∀ m p', kind p' = Free → pinv (set_mach m (set_ptable (<[i := p']> (ptable k)) (set_env e2 k)))) as HIf
    by (intros m p' Hk'; apply (tinv_drop _ _ _ i p); [done|done|by right|done]).
  apply safe_bind, safe_onm; [|intros; by apply HIf]. intros _ m. apply safe_ret, HQ. by apply HIf.
Qed.

Lemma safe_wait_scan n : ∀ i cur h k Q,
  pinv k → (∀ r k', pinv k' → Q (inl r) k') → (∀ h, Q (inr h) k) → safe (wait_scan n i cur h) Q pinv k.
Proof.
  induction n as [|n IH]; intros i cur h k Q HI HL HR; cbn [wait_scan]; [by apply safe_ret|].
  apply safe_bind, safe_get_proc. intros p Hp. destruct (decide _); [|by apply IH].
  destruct (decide (state p = ZOMBIE)) as [Hs|]; [|by apply IH].
  apply safe_bind, (safe_reap i p); [done|done|unfold kind; by rewrite Hs|]. intros r k' HI'. by apply safe_ret, HL.
Qed.

(** What follows the switch to the scheduler does not run. *)
Lemma safe_sched Q k : pinv k → safe sched Q pinv k.
Proof.
  intros HI. pose proof (safe_sched_panics (mret tt) (λ _ _, False) k HI) as Hs. revert Hs.
  unfold safe, wpx, mbind, M_bind. by destruct (sched k).
Qed.

Lemma safe_sleep cur c lk k Q :
  pinv k → at_proc cur (mach k) → has_kind Alive cur k → safe (sleep c lk) Q pinv k.
Proof.
  intros HI Hat (p & Hp & Hk). apply safe_bind.
  pose proof (myproc_at cur (mach k) (λ o m', o = Some cur) (λ _ _, True) Hat) as Hm.
  unfold safe at 1, wpx, onm, zoom. unfold wpx in Hm. destruct (myproc (mach k)) as [o m1|e m1]; [|by destruct e].
  rewrite Hm by done. destruct lk as [l|]; [|done].
  assert (Hgo : ∀ m', safe (upd_proc cur (λ p, set_chan p c);; upd_proc cur (λ p, set_state p SLEEPING);; sched) Q pinv (set_mach m' k)).
  { intros m'. apply safe_bind, (safe_upd_at cur p); [done|]. apply safe_bind, safe_upd_again; [by eapply lookup_lt_Some|].
    apply safe_sched. apply (tinv_benign _ _ _ cur p); [done..|]. split_and!; [|done|by right]. by rewrite Hk. }
  apply safe_bind. destruct (negb _); [|by apply safe_ret].
  apply safe_bind, safe_onm; [|done]. intros _ m2. apply safe_onm; [|done]. intros [] m3. apply (Hgo m3).
Qed.

Lemma safe_wait_body cur k Q :
  pinv k → at_proc cur (mach k) → has_kind Alive cur k → (∀ r k', pinv k' → Q r k') → safe (wait_body cur) Q pinv k.
Proof.
  intros HI Hat Hcur HQ. apply safe_bind, safe_wait_scan; [done| |].
  - intros r k' HI'. by apply safe_ret, HQ.
  - intros h. apply safe_bind, safe_get_proc. intros p Hp. destruct (_ || _).
    + apply safe_bind, safe_onm; [|done]. intros _ m. by apply safe_ret, HQ.
    + by apply safe_bind, (safe_sleep cur).
Qed.

Lemma safe_wait cur k Q :
  pinv k → at_proc cur (mach k) → has_kind Alive cur k → (∀ r k', pinv k' → Q r k') → safe wait Q pinv k.
Proof.
  intros HI Hat Hcur HQ. apply safe_bind, (safe_curproc cur); [done| |done]. intros m1 Hm1.
  apply safe_bind, (safe_onm_at cur); [done|apply keeps_acquire| |done]. intros _ m2 Hm2. by apply safe_wait_body.
Qed.

(** An update of a process that keeps the invariant, its kind and the machine. *)
Lemma safe_upd_cur cur f Q k :
  pinv k → has_kind Alive cur k → (∀ p, kind p = Alive → benign p (f p)) →
  (∀ k', pinv k' → has_kind Alive cur k' → mach k' = mach k → initproc k' = initproc k → Q tt k') →
  safe (upd_proc cur f) Q pinv k.
Proof.
  intros HI (p & Hp & Hk) Hf HQ. apply (safe_upd_at cur p); [done|]. apply HQ; [|..|done|done].
  - apply (tinv_benign _ _ _ cur p); [done..|by apply Hf].
  - exists (f p). cbn. rewrite list_lookup_insert_eq by (by eapply lookup_lt_Some). split; [done|].
    destruct (Hf p Hk) as [-> _]. done.
Qed.

Lemma safe_sleep_post cur l k Q :
  pinv k → at_proc cur (mach k) → has_kind Alive cur k →
  (∀ k', pinv k' → at_proc cur (mach k') → has_kind Alive cur k' → Q tt k') → safe (sleep_post l) Q pinv k.
Proof.
  intros HI Hat Hcur HQ. apply safe_bind, (safe_curproc cur); [done| |done]. intros m1 Hm1.
  apply safe_bind, safe_upd_cur; [done|done|intros p Hk; split_and!; [done..|by right]|].
  intros k2 HI2 Hk2 Hm2 _. cbn in Hm2. destruct (negb _); [|apply safe_ret, HQ; [done|congruence|done]].
  apply safe_bind, (safe_onm_at cur); [congruence|apply keeps_release| |done]. intros _ m3 Hm3.
  apply (safe_onm_at cur); [done|apply keeps_acquire| |done]. intros [] m4 Hm4. by apply HQ.
Qed.

Lemma safe_yield cur k Q : pinv k → at_proc cur (mach k) → has_kind Alive cur k → safe yield Q pinv k.
Proof.
  intros HI Hat Hcur. apply safe_bind, (safe_onm_at cur); [done|apply keeps_acquire| |done]. intros _ m1 Hm1.
  apply safe_bind, (safe_curproc cur); [done| |done]. intros m2 Hm2.
  apply safe_bind, safe_upd_cur; [done|done|intros p Hk; by apply benign_state|]. intros k' HI' _ _ _. by apply safe_sched.
Qed.

Lemma safe_set_prio cur n k Q :
  pinv k → at_proc cur (mach k) → has_kind Alive cur k → (∀ r k', pinv k' → Q r k') → safe (set_prio n) Q pinv k.
Proof.
  intros HI Hat Hcur HQ. apply safe_bind, (safe_onm_at cur); [done|apply keeps_acquire| |done]. intros _ m1 Hm1.
  apply safe_bind, (safe_curproc cur); [done| |done]. intros m2 Hm2.
  apply safe_bind, safe_upd_cur; [done|done|intros p Hk; split_and!; [done..|by right]|]. intros k' HI' _ _ _.
  apply safe_bind, safe_onm; [|done]. intros _ m3. by apply safe_ret, HQ.
Qed.

Lemma safe_growproc cur n k Q :
  pinv k → at_proc cur (mach k) → has_kind Alive cur k → (∀ r k', pinv k' → Q r k') → safe (growproc n) Q pinv k.
Proof.
  intros HI Hat Hcur HQ. apply safe_bind, (safe_curproc cur); [done| |done]. intros m1 Hm1.
  apply safe_bind, safe_get_proc. intros p Hp. apply safe_bind.
  assert (Hrest : ∀ r e, safe (if negb (n =? 0) && (r =? 0) then mret (-1) else
    upd_proc cur (λ p, set_sz p r);; one (switchuvm (pgdir p) (kstack p));; mret 0) Q pinv (set_env e (set_mach m1 k))).
  { intros r e. destruct (_ && _); [by apply safe_ret, HQ|].
    apply safe_bind, safe_upd_cur; [done|done|intros p' Hk; split_and!; [done..|by right]|]. intros k' HI' _ _ _.
    apply safe_bind, safe_one; [|done]. intros _ e'. by apply safe_ret, HQ. }
  destruct (0 <? n); [apply safe_one; [exact Hrest|done]|].
  destruct (n <? 0); [apply safe_one; [exact Hrest|done]|]. apply safe_ret, (Hrest _ (env k)).
Qed.

(** ** exit *)

Lemma safe_close_files cur k Q :
  pinv k → has_kind Alive cur k →
  (∀ k', pinv k' → has_kind Alive cur k' → mach k' = mach k → initproc k' = initproc k → Q tt k') →
  safe (close_files cur) Q pinv k.
Proof.
  intros HI Hcur HQ. apply safe_bind.
  pose (I := λ k', pinv k' ∧ has_kind Alive cur k' ∧ mach k' = mach k ∧ initproc k' = initproc k).
  apply wpx_for with (I := λ _, I); [done| |].
  - intros j k' _ (HI' & Hcur' & Hm & Hi). apply safe_bind, safe_get_proc. intros p Hp.
    apply safe_bind, safe_of_option. intros f _. destruct (negb _); [|by apply safe_ret].
    apply safe_bind, safe_one; [|done]. intros _ e.
    apply safe_bind, safe_upd_cur; [done|done|intros p' Hk; split_and!; [done..|by right]|].
    intros k2 HI2 Hk2 Hm2 Hi2. apply safe_ret. split_and!; [done|done|by rewrite Hm2|by rewrite Hi2].
  - intros k' (HI' & Hcur' & Hm & Hi). by apply safe_ret, HQ.
Qed.

(** The children in the slots below [j] were passed on. *)
Definition orphans_done (cur j : nat) k : Prop :=
  pinv k ∧ has_kind Alive cur k ∧ initproc k ≠ Some cur ∧
  ∀ i p, (i < j)%nat → ptable k !! i = Some p → parent p ≠ Some cur.

Lemma tinv_adopt t n i0 i p :
  tinv t n (Some i0) → t !! i = Some p → tinv (<[i := set_parent p (Some i0)]> t) n (Some i0).
Proof.
  intros [HT Hini] Hi. split.
  - apply (tbase_upd t n n (Some i0) i p); [done|done|lia|..].
    + intros Hk. exact (tb_pid _ _ _ HT i p Hi Hk).
    + intros Hk j q Hj Hq Hkq He. apply Hj. symmetry. exact (tb_uniq _ _ _ HT i j p q Hi Hq Hk Hkq He).
    + intros _ Hne. destruct Hini as (j & q & [= <-] & Hq & Hkq). exists i0, q.
      rewrite list_lookup_insert_ne by congruence. done.
    + intros Hk Hk'. by destruct Hk'.
  - eapply init_ok_upd; [done..|]. intros [= ->]. destruct Hini as (j & q & [= <-] & Hq & Hkq).
    rewrite Hi in Hq. injection Hq as <-. exact Hkq.
Qed.

Lemma safe_reparent cur k Q :
  orphans_done cur 0 k → (∀ k', orphans_done cur NPROC k' → Q tt k') → safe (reparent cur) Q pinv k.
Proof.
  intros HO HQ. apply safe_bind, wpx_for with (I := orphans_done cur); [done| |intros; by apply safe_ret, HQ].
  intros j k' _ (HI & Hcur & Hni & Hdone). apply safe_bind, safe_get_proc. intros p Hp.
  destruct (decide (parent p = Some cur)) as [Hpar|Hpar].
  2: { apply safe_ret. split_and!; [done..|]. intros i q Hi Hq.
       destruct (decide (i = j)) as [->|]; [congruence|]. apply (Hdone i q); [lia|done]. }
  apply safe_bind, wpx_wp, wp_gets. apply safe_bind, (safe_upd_at j p); [done|].
  destruct HI as [HT Hini]. pose proof Hini as (i0 & p0 & Hi0 & Hp0 & Hk0). rewrite Hi0.
  assert (orphans_done cur (S j) (set_ptable (<[j := set_parent p (Some i0)]> (ptable k')) k')) as HO'.
  { split; [|split; [|split]].
    - unfold pinv. cbn. rewrite Hi0 in *. by apply tinv_adopt.
    - destruct Hcur as (q & Hq & Hk). destruct (decide (j = cur)) as [->|].
      + exists (set_parent p (Some i0)). cbn. rewrite list_lookup_insert_eq by (by eapply lookup_lt_Some).
        split; [done|]. by simplify_eq.
      + exists q. cbn. by rewrite list_lookup_insert_ne.
    - done.
    - intros i q Hi. cbn. destruct (decide (i = j)) as [->|].
      + rewrite list_lookup_insert_eq by (by eapply lookup_lt_Some). intros [= <-]. cbn. congruence.
      + rewrite list_lookup_insert_ne by done. apply Hdone. lia. }
  destruct (decide (state p = ZOMBIE)); [|by apply safe_ret].
  destruct HO' as (HI1 & Hcur1 & Hni1 & Hd1).
  apply safe_bind, safe_wakeup1; [done|]. intros k2 HI2 Hk2 Hs2 _ Hi2. apply safe_ret.
  split_and!; [done|by apply Hk2|by rewrite Hi2|]. intros i q Hi Hq.
  assert (is_Some (ptable (set_ptable (<[j := set_parent p (Some i0)]> (ptable k')) k') !! i)) as [q1 Hq1].
  { apply lookup_lt_is_Some. apply lookup_lt_Some in Hq. rewrite (tb_len _ _ _ (proj1 HI2)) in Hq. by rewrite (tb_len _ _ _ (proj1 HI1)). }
  destruct (Hs2 i q1 Hq1) as (q2 & Hq2 & Hpq & _). rewrite Hq in Hq2. injection Hq2 as <-.
  rewrite Hpq. by apply (Hd1 i).
Qed.

Lemma orphans_zombie cur k p :
  orphans_done cur NPROC k → ptable k !! cur = Some p → pinv (set_ptable (<[cur := set_state p ZOMBIE]> (ptable k)) k).
Proof.
  intros ([HT Hini] & (q & Hq & Hk) & Hni & Hdone) Hp. rewrite Hp in Hq. injection Hq as <-.
  assert (∀ i q, ptable k !! i = Some q → parent q ≠ Some cur) as Hno.
  { intros i q Hq. apply (Hdone i q); [|done]. apply lookup_lt_Some in Hq. by rewrite (tb_len _ _ _ HT) in Hq. }
  split.
  - apply (tbase_upd (ptable k) (nextpid k) _ _ cur p); [done|done|done|..].
    + intros _. apply (tb_pid _ _ _ HT cur p Hp). by rewrite Hk.
    + intros _ j q Hj Hq Hkq He. apply Hj. symmetry. apply (tb_uniq _ _ _ HT cur j p q); [done|done| |done|done]. by rewrite Hk.
    + intros _ Hne. destruct (tb_parent _ _ _ HT cur p Hp (or_intror Hk) Hne) as (j & q & Hj & Hq & Hkq).
      exists j, q. rewrite list_lookup_insert_ne; [done|]. intros <-. by apply (Hno cur p).
    + intros _ _ j q _ Hq _. by apply (Hno j).
  - eapply init_ok_upd; [done..|]. intros Hc. by destruct Hni.
Qed.

Lemma safe_exit cur k Q : pinv k → at_proc cur (mach k) → has_kind Alive cur k → safe exit Q pinv k.
Proof.
  intros HI Hat Hcur. apply safe_bind, (safe_curproc cur); [done| |done]. intros m1 Hm1.
  apply safe_bind, wpx_wp, wp_gets. destruct (decide (_ = _)) as [|Hni]; [done|]. cbn in Hni.
  apply safe_bind, safe_close_files; [done|done|]. intros k1 HI1 Hcur1 _ Hi1. cbn in Hi1.
  apply safe_bind, safe_one; [|done]. intros _ e1. apply safe_bind, safe_get_proc. intros p Hp.
  apply safe_bind, safe_one; [|done]. intros _ e2. apply safe_bind, safe_one; [|done]. intros _ e3.
  apply safe_bind, safe_upd_cur; [done|done|intros p' Hk; split_and!; [done..|by right]|]. intros k2 HI2 Hcur2 _ Hi2. cbn in Hi2.
  apply safe_bind, safe_onm; [|done]. intros _ m2. apply safe_bind, safe_get_proc. intros p2 Hp2.
  apply safe_bind, safe_wakeup1; [done|]. intros k3 HI3 Hk3 _ _ Hi3. cbn in Hi3.
  apply safe_bind, safe_reparent.
  { split_and!; [done|by apply Hk3|congruence|]. intros i q Hi. lia. }
  intros k4 HO. apply safe_bind, safe_upd_proc. intros p4 Hp4. apply safe_sched_panics. by apply orphans_zombie.
Qed.

(** ** Queries *)

Lemma safe_count_procs n : ∀ i x k Q, (∀ r, Q r k) → safe (count_procs n i x) Q pinv k.
Proof. induction n; intros i x k Q HQ; [by apply safe_ret|]. apply safe_bind, safe_get_proc. auto. Qed.

Lemma safe_max_pid_loop n : ∀ i x k Q, (∀ r, Q r k) → safe (max_pid_loop n i x) Q pinv k.
Proof. induction n; intros i x k Q HQ; [by apply safe_ret|]. apply safe_bind, safe_get_proc. auto. Qed.

Lemma safe_locked {A} (c : M kernel A) k Q :
  pinv k → (∀ m Q', (∀ r, Q' r (set_mach m k)) → safe c Q' pinv (set_mach m k)) → (∀ r k', pinv k' → Q r k') →
  safe (onm (acquire PTLOCK);; r ← c; onm (release PTLOCK);; mret r) Q pinv k.
Proof.
  intros HI Hc HQ. apply safe_bind, safe_onm; [|done]. intros _ m1. apply safe_bind, Hc. intros r.
  apply safe_bind, safe_onm; [|done]. intros _ m2. by apply safe_ret, HQ.
Qed.

Lemma safe_get_proc_info n k Q : pinv k → (∀ r k', pinv k' → Q r k') → safe (get_proc_info n) Q pinv k.
Proof.
  intros HI HQ. apply safe_bind, safe_onm; [|done]. intros _ m1. apply safe_bind, safe_for; [|done|].
  - intros j k' HI'. apply safe_bind, safe_get_proc. intros p Hp. destruct (pid p =? n); [|by apply safe_ret].
    assert (Hrest : ∀ x : Z, safe (onm (release PTLOCK);; mret (Some (0, Some (PInfo x (i32 (sz p)) (switch_cnt p))))) (λ r k'', match r with
      | None => pinv k'' | Some _ => safe (match r with Some x => mret x | None => onm (release PTLOCK);; mret (-1, None) end) Q pinv k'' end) pinv k').
    { intros x. apply safe_bind, safe_onm; [|done]. intros _ m2. by apply safe_ret, safe_ret, HQ. }
    apply safe_bind. destruct (n =? 1); [apply safe_ret, Hrest|].
    apply safe_bind, safe_of_option. intros i _. apply safe_bind, safe_get_proc. intros q _. apply safe_ret, Hrest.
  - intros k' HI'. apply safe_bind, safe_onm; [|done]. intros _ m2. by apply safe_ret, HQ.
Qed.

Lemma safe_get_prio k Q : pinv k → (∀ r k', pinv k' → Q r k') → safe get_prio Q pinv k.
Proof.
  intros HI HQ. apply safe_bind, safe_onm; [|done]. intros _ m1. apply safe_bind.
  apply safe_bind, safe_onm; [|done]. intros o m2. apply safe_of_option. intros i _.
  apply safe_bind, safe_get_proc. intros p _. apply safe_bind, safe_onm; [|done]. intros _ m3. by apply safe_ret, HQ.
Qed.

Lemma safe_forkret k Q : pinv k → (∀ r k', pinv k' → Q r k') → safe forkret Q pinv k.
Proof.
  intros HI HQ. apply safe_bind, safe_onm; [|done]. intros _ m1. apply safe_bind, wpx_wp, wp_gets.
  destruct (first _); [|by apply safe_ret, HQ]. apply safe_bind, wpx_wp, wp_modify.
  apply safe_bind, safe_one; [|done]. intros _ e1. apply safe_one; [|done]. intros r e2. by apply HQ.
Qed.

(** ** The scheduler, for any [run] that keeps the invariant *)

Lemma safe_dispatch_end c i k Q :
  pinv k → (∀ k', pinv k' → Q tt k') →
  safe (one switchkvm;; p ← get_proc i; n ← int_ (switch_cnt p + 1);
        upd_proc i (λ p, set_switch_cnt p n);; onm (upd_cpu c (set_cproc None))) Q pinv k.
Proof.
  intros HI HQ. apply safe_bind, safe_one; [|done]. intros _ e. apply safe_bind, safe_get_proc. intros p Hp.
  apply safe_bind, safe_int. intros n _. apply safe_bind, safe_upd_benign; [done|intros p' _; split_and!; [done..|by right]|].
  intros p' _ HI'. apply safe_onm; [|done]. intros [] m. by apply HQ.
Qed.

Lemma safe_fill_queue n : ∀ i l k Q, (∀ r, Q r k) → safe (fill_queue n i l) Q pinv k.
Proof. induction n; intros i l k Q HQ; [by apply safe_ret|]. apply safe_bind, safe_get_proc. auto. Qed.

Lemma safe_sched_pass (run : nat → M kernel unit) c k Q :
  (∀ i k, pinv k → safe (run i) (λ _, pinv) pinv k) → pinv k → (∀ k', pinv k' → Q tt k') →
  safe (sched_pass run c) Q pinv k.
Proof.
  intros Hrun HI HQ. apply safe_bind, safe_onm; [|done]. intros _ m1. apply safe_bind, safe_onm; [|done]. intros _ m2.
  apply safe_bind, safe_fill_queue. intros q. apply safe_bind, safe_onm; [|done]. intros _ m3. generalize (bubble_sort (length q - 1) q).
  assert (pinv (set_mach m3 (set_mach m2 (set_mach m1 k)))) as HI3 by done. revert HI3.
  generalize (set_mach m3 (set_mach m2 (set_mach m1 k))). intros k1 HI1 l. revert k1 HI1.
  induction l as [|x l IH]; intros k1 HI1; cbn [sched_rounds]; [by apply safe_ret, HQ|].
  apply safe_bind. unfold sched_round. apply safe_bind, safe_onm; [|done]. intros _ m4. apply safe_bind, safe_for; [|done|].
  - intros j k' HI'. apply safe_bind, safe_get_proc. intros p Hp.
    destruct (decide (state p = RUNNABLE)) as [Hs|]; [|by apply safe_ret]. destruct (_ <=? _); [|by apply safe_ret].
    apply safe_bind. unfold dispatch. apply safe_bind, safe_onm; [|done]. intros _ m5.
    apply safe_bind, safe_get_proc. intros p1 Hp1. apply safe_bind, safe_one; [|done]. intros _ e1.
    apply safe_bind, (safe_upd_at j p); [done|]. apply safe_bind. eapply safe_mono; [apply Hrun|].
    + apply (tinv_benign _ _ _ j p); [done..|]. apply benign_state; [unfold kind; by rewrite Hs|done].
    + intros [] k2 HI2. apply safe_dispatch_end; [done|]. intros k3 HI3. by apply safe_ret.
  - intros k' HI'. apply safe_onm; [|done]. intros [] m5. by apply IH.
Qed.

(** ** Booting *)

Definition blank (t : list proc) : Prop := length t = NPROC ∧ Forall (λ p, state p = UNUSED) t.

(** The table while userinit fills slot [i]. *)
Definition booting (t : list proc) (i : nat) (ini : option nat) k : Prop :=
  nextpid k = 2 ∧ initproc k = ini ∧ ∃ p, ptable k = <[i := p]> t ∧ pid p = 1.

Lemma boot_tinv t i p :
  blank t → (i < NPROC)%nat → pid p = 1 → kind p = Alive → tinv (<[i := p]> t) 2 (Some i).
Proof.
  intros [Hl Hf] Hi Hpid Hk. rewrite <- Hl in Hi.
  assert (Hcase : ∀ j q, <[i := p]> t !! j = Some q → kind q ≠ Free → j = i ∧ q = p).
  { intros j q. destruct (decide (j = i)) as [->|]; [rewrite list_lookup_insert_eq by done; by intros [= <-]|].
    rewrite list_lookup_insert_ne by done. intros Hq Hkq. rewrite Forall_lookup in Hf. specialize (Hf j q Hq).
    unfold kind in Hkq. by rewrite Hf in Hkq. }
  split; [constructor|].
  - by rewrite length_insert.
  - lia.
  - intros j q Hq Hkq. destruct (Hcase j q Hq Hkq) as [-> ->]. lia.
  - intros j1 j2 q1 q2 H1 H2 Hk1 Hk2 _. destruct (Hcase _ _ H1 Hk1), (Hcase _ _ H2 Hk2). congruence.
  - intros j q Hq Hkq Hne. destruct (Hcase j q Hq) as [-> ->]; [by destruct Hkq as [->| ->]|done].
  - exists i, p. rewrite list_lookup_insert_eq by done. done.
Qed.

Lemma safe_upd_boot t i ini f Q I k :
  (i < length t)%nat → booting t i ini k → (∀ p, pid (f p) = pid p) →
  (∀ k', booting t i ini k' → Q tt k') → safe (upd_proc i f) Q I k.
Proof.
  intros Hi (Hn & Hini & p & Hp & Hpid) Hf HQ. apply (safe_upd_at i p); [rewrite Hp; by apply list_lookup_insert_eq|].
  apply HQ. split_and!; [done..|]. exists (f p). cbn. by rewrite Hp, list_insert_insert_eq, Hf.
Qed.

Lemma safe_boot_alloc t k Q :
  blank t → ptable k = t → nextpid k = 1 →
  (∀ k', Q None k') → (∀ i k', (i < length t)%nat → booting t i (initproc k) k' → Q (Some i) k') →
  safe allocproc Q (λ _, True) k.
Proof.
  intros Hb Ht Hn HN HS. apply safe_bind, safe_onm; [|done]. intros _ m1.
  apply safe_bind, wpx_wp, wp_find_unused; [cbn; rewrite Ht; apply Hb| |].
  2: { apply safe_bind, safe_onm; [|done]. intros _ m2. apply safe_ret, HN. }
  intros i p Hp Hs. cbn in Hp. rewrite Ht in Hp. assert (i < length t)%nat as Hi by (by eapply lookup_lt_Some).
  apply safe_bind, (safe_upd_at i p); [by rewrite <- Ht in Hp|]. cbn [ptable set_mach]. rewrite Ht.
  apply safe_bind. apply wpx_wp, wp_gets. apply safe_bind, safe_upd_again; [done|]. apply safe_bind, safe_int. intros n' ->.
  apply safe_bind. apply wpx_wp, wp_modify.
  assert (Hb1 : ∀ k', ptable k' = <[i := set_pid (set_state p EMBRYO) 1]> t → nextpid k' = 2 → initproc k' = initproc k →
    booting t i (initproc k) k') by (intros k' ???; split_and!; [done..|]; eexists; split; [done|done]).
  apply safe_bind, (safe_upd_boot t i (initproc k)); [done|apply Hb1; cbn; by rewrite ?Hn|done|]. intros k1 Hk1.
  apply safe_bind, (safe_upd_boot t i (initproc k)); [done..|]. intros k2 Hk2.
  apply safe_bind, safe_onm; [|done]. intros _ m2. apply safe_bind, safe_one; [|done]. intros ks e.
  apply safe_bind, (safe_upd_boot t i (initproc k)); [done..|]. intros k3 Hk3. destruct (ks =? 0).
  - apply safe_bind, (safe_upd_boot t i (initproc k)); [done..|]. intros k4 Hk4. apply safe_ret, HN.
  - apply safe_bind, (safe_upd_boot t i (initproc k)); [done..|]. intros k4 Hk4. by apply safe_ret, HS.
Qed.

Lemma safe_userinit k :
  blank (ptable k) → nextpid k = 1 → safe (userinit forkret_at initcode fresh_tf) (λ _, pinv) (λ _, True) k.
Proof.
  intros Hb Hn. set (t := ptable k) in *.
  apply safe_bind, (safe_boot_alloc t); [done|done|done|done|]. intros i k1 Hi (Hn1 & _ & p1 & Hp1 & Hpid1).
  apply safe_bind. apply wpx_wp, wp_modify. apply safe_bind, safe_ret. pose (ini := Some i).
  assert (booting t i ini (set_initproc (Some i) k1)) as Hk1 by (split_and!; [done..|]; by exists p1).
  apply safe_bind, safe_one; [|done]. intros pg e1.
  apply safe_bind, (safe_upd_boot t i ini); [done..|]. intros k2 Hk2. destruct (pg =? 0); [done|].
  apply safe_bind, safe_one; [|done]. intros _ e2. apply safe_bind, (safe_upd_boot t i ini); [done..|]. intros k3 Hk3.
  apply safe_bind, (safe_upd_boot t i ini); [done..|]. intros k4 Hk4. apply safe_bind, safe_get_proc. intros p4 _.
  apply safe_bind, safe_of_option. intros nm _. apply safe_bind, (safe_upd_boot t i ini); [done..|]. intros k5 Hk5.
  apply safe_bind, safe_one; [|done]. intros dir e3. apply safe_bind, (safe_upd_boot t i ini); [done..|].
  intros k6 (Hn6 & Hini6 & p6 & Hp6 & Hpid6). apply safe_bind, safe_onm; [|done]. intros _ m1.
  apply safe_bind, (safe_upd_at i p6); [cbn; rewrite Hp6; by apply list_lookup_insert_eq|].
  apply safe_onm; [|done]. intros _ m2. unfold pinv. cbn. rewrite Hp6, list_insert_insert_eq, Hn6, Hini6.
  apply boot_tinv; [done| |done|done]. destruct Hb as [<- _]. done.
Qed.

(** ** Runs of the kernel *)

(** What a process that runs in the kernel calls; the last three continue a
    call that had switched to the scheduler. *)
Inductive call :=
  | CFork | CExit | CWait | CYield | CSleep (c : Z) (lk : option Z) | CWakeup (c : Z) | CKill (n : Z)
  | CSetPrio (n : Z) | CGetPrio | CGrow (n : Z) | CNum | CMax | CInfo (n : Z) | CForkret
  | CWaitResume | CSleepPost (l : Z) | CSchedPost (b : bool).

Definition perform (cur : nat) (c : call) : M kernel unit :=
  match c with
  | CFork => fork forkret_at fresh_tf;; mret tt
  | CExit => exit
  | CWait => wait;; mret tt
  | CYield => yield
  | CSleep c lk => sleep c lk
  | CWakeup c => wakeup c
  | CKill n => kill n;; mret tt
  | CSetPrio n => set_prio n;; mret tt
  | CGetPrio => get_prio;; mret tt
  | CGrow n => growproc n;; mret tt
  | CNum => get_num_proc;; mret tt
  | CMax => get_max_pid;; mret tt
  | CInfo n => get_proc_info n;; mret tt
  | CForkret => forkret
  | CWaitResume => wait_resume cur;; mret tt
  | CSleepPost l => sleep_post l
  | CSchedPost b => sched_post b
  end.

(** The computation [c] ends in [k'], by returning or by switching away. *)
Definition leads {A} (c : M kernel A) k k' : Prop := (∃ a, c k = Ret a k') ∨ (∃ ch, c k = Fail (Sleep ch) k').

(** [swtch, seen from the scheduler], src/hw3/xv6/proc.c:384-388
    What the scheduler does when the process in slot [i] switched back. *)
Definition dispatch_end (c i : nat) : M kernel unit :=
  one switchkvm;; p ← get_proc i; n ← int_ (switch_cnt p + 1);
  upd_proc i (λ p, set_switch_cnt p n);; onm (upd_cpu c (set_cproc None)).

Inductive kstep : kernel → kernel → Prop :=
  (** the process of the executing CPU makes a call *)
  | step_call cur p c k k' :
      ptable k !! cur = Some p → state p = RUNNING → at_proc cur (mach k) → leads (perform cur c) k k' → kstep k k'
  (** a scheduler looks for a process and switches to it, or finishes its pass *)
  | step_sched c k k' : leads (sched_pass (λ i, fail (Sleep (proc_addr i))) c) k k' → kstep k k'
  | step_back c i k k' : leads (dispatch_end c i) k k' → kstep k k'
  (** an interrupt handler wakes processes up *)
  | step_wakeup ch k k' : leads (wakeup ch) k k' → kstep k k'
  (** anything else happens to the machine and to the other subsystems *)
  | step_other m f e k : kstep k (Kernel m (ptable k) (nextpid k) (initproc k) f e).

Inductive reachable : kernel → Prop :=
  | reach_boot k k' :
      blank (ptable k) → nextpid k = 1 → userinit forkret_at initcode fresh_tf k = Ret tt k' → reachable k'
  | reach_step k k' : reachable k → kstep k k' → reachable k'.

Lemma safe_leads {A} (c : M kernel A) k k' : safe c (λ _, pinv) pinv k → leads c k k' → pinv k'.
Proof. unfold safe, wpx, leads. intros Hs [[a Hc]|[ch Hc]]; rewrite Hc in Hs; exact Hs. Qed.

Lemma safe_unit {A} (c : M kernel A) k : safe c (λ _, pinv) pinv k → safe (c;; mret tt) (λ _, pinv) pinv k.
Proof. intros Hs. by apply safe_bind. Qed.

Lemma perform_safe cur c k :
  pinv k → at_proc cur (mach k) → has_kind Alive cur k → safe (perform cur c) (λ _, pinv) pinv k.
Proof.
  intros HI Hat Hcur. destruct c; cbn [perform]; try apply safe_unit.
  - by apply (safe_fork cur).
  - by apply (safe_exit cur).
  - by apply (safe_wait cur).
  - by apply (safe_yield cur).
  - by apply (safe_sleep cur).
  - by apply safe_wakeup.
  - by apply safe_kill.
  - by apply (safe_set_prio cur).
  - by apply safe_get_prio.
  - by apply (safe_growproc cur).
  - apply safe_locked; [done| |done]. intros. by apply safe_count_procs.
  - apply safe_locked; [done| |done]. intros. by apply safe_max_pid_loop.
  - by apply safe_get_proc_info.
  - by apply safe_forkret.
  - apply safe_bind, (safe_sleep_post cur); [done..|]. intros k' HI' Hat' Hk'. by apply safe_wait_body.
  - apply (safe_sleep_post cur); [done..|]. by intros.
  - apply safe_bind, safe_onm; [|done]. intros i m1. by apply safe_onm.
Qed.

Lemma kstep_pinv k k' : pinv k → kstep k k' → pinv k'.
Proof.
  intros HI Hs. destruct Hs as [cur p c k k' Hp Hr Hat Hl|c k k' Hl|c i k k' Hl|ch k k' Hl|m f e k].
  - eapply safe_leads; [|done]. apply perform_safe; [done..|]. exists p. split; [done|]. unfold kind. by rewrite Hr.
  - eapply safe_leads; [|done]. by apply safe_sched_pass.
  - eapply safe_leads; [|done]. by apply safe_dispatch_end.
  - eapply safe_leads; [|done]. by apply safe_wakeup.
  - done.
Qed.

Lemma reachable_pinv k : reachable k → pinv k.
Proof.
  induction 1 as [k k' Hb Hn Hu|k k' _ IH Hs]; [|by eapply kstep_pinv].
  pose proof (safe_userinit k Hb Hn) as Hsafe. unfold safe, wpx in Hsafe. by rewrite Hu in Hsafe.
Qed.

Definition in_use (p : proc) : Prop := state p ≠ UNUSED.

(** C5. In every state the kernel reaches from boot, whatever calls its
    processes make and however the scheduler runs them: processes in use have
    distinct pids, all handed out by allocproc; the process init exists and is
    neither a zombie nor free; and every other process that finished fork, a
    zombie included, has a parent that exists and is not a zombie, so someone
    is left to wait for it. *)
Theorem ptable_invariant k :
  reachable k →
  (∀ i j p q, ptable k !! i = Some p → ptable k !! j = Some q → in_use p → in_use q → pid p = pid q → i = j) ∧
  (∀ i p, ptable k !! i = Some p → in_use p → 0 < pid p < nextpid k) ∧
  (∃ i p, initproc k = Some i ∧ ptable k !! i = Some p ∧ state p ∈ [SLEEPING; RUNNABLE; RUNNING]) ∧
  (∀ i p, ptable k !! i = Some p → in_use p → state p ≠ EMBRYO → initproc k ≠ Some i →
     ∃ j q, parent p = Some j ∧ ptable k !! j = Some q ∧ state q ∈ [SLEEPING; RUNNABLE; RUNNING]).
Proof.
  intros [HT (i0 & p0 & Hi0 & Hp0 & Hk0)]%reachable_pinv.
  assert (Hfree : ∀ p, in_use p → kind p ≠ Free) by (intros p Hu; unfold in_use, kind in *; by destruct (state p)).
  assert (Halive : ∀ p, kind p = Alive → state p ∈ [SLEEPING; RUNNABLE; RUNNING])
    by (intros p; unfold kind; destruct (state p); try done; intros _; repeat constructor).
  split_and!.
  - intros i j p q Hp Hq Hup Huq. apply (tb_uniq _ _ _ HT i j p q); auto.
  - intros i p Hp Hu. apply (tb_pid _ _ _ HT i p); auto.
  - exists i0, p0. auto.
  - intros i p Hp Hu He Hne. destruct (tb_parent _ _ _ HT i p Hp) as (j & q & Hj & Hq & Hk); [|done|by exists j, q; auto].
    unfold in_use, kind in *. destruct (state p); try done; auto.
Qed.
End safety.
