(* ===== verification/ProcDemo.v ===== *)
(** * A small kernel: runs of the process operations on concrete states

    The interface [KernelOps] is given by a counter of free pages: the memory
    operations use one up, or fail when none is left; the file operations
    return at once.  The kernel boots, its scheduler starts init and init
    forks; the theorems about proc.c are applied to the states reached. *)

From S2P Require Import Prelude Bytes Xstring Spinlock Proc ProcSpec ProcThms ProcSched ProcInv.

Definition take_page : M Z Z := λ e, if 0 <? e then Ret (e * 4096) (e - 1) else Ret 0 e.
#[local] Instance demo_ops : KernelOps Z := {|
  kalloc := take_page; kfree _ := modify (Z.add 1); setupkvm := take_page; inituvm _ _ := mret tt;
  allocuvm _ _ n := mret n; deallocuvm _ _ n := mret n; copyuvm _ _ := take_page; freevm _ := mret tt;
  switchuvm _ _ := mret tt; switchkvm := mret tt; filedup f := mret f; fileclose _ := mret tt;
  idup i := mret i; iput _ := mret tt; begin_op := mret tt; end_op := mret tt; namei _ := mret 7;
  iinit _ := mret tt; initlog _ := mret tt
|}.

Definition blank_proc : proc :=
  Proc 0 0 0 UNUSED 0 None 0 tf_zero 0 0 0 0 (replicate NOFILE 0) 0 (replicate 16 0) 0 0.
Definition powered (pages : Z) : @kernel Z :=
  Kernel (Machine [Cpu 0 0 false None] false 0 {[ PTLOCK := free_lock ]}) (replicate NPROC blank_proc) 1 None true pages.

(** After userinit, after the scheduler's switch to init, and when init runs. *)
Definition booted (pages : Z) := final (userinit 0x1000 [] tf_zero) (powered pages).
Definition switched_in (pages : Z) := final (sched_pass stop_at 0) (booted pages).
Definition running (pages : Z) := final forkret (switched_in pages).
(** After init's fork. *)
Definition forked (pages : Z) := final (fork 0x1000 tf_zero) (running pages).

Definition boot10 : @kernel Z := Eval vm_compute in booted 10.
Definition run10 : @kernel Z := Eval vm_compute in running 10.
Definition fork10 : @kernel Z := Eval vm_compute in forked 10.

Ltac crefl := vm_compute; reflexivity.

Lemma fork10_out : out 0 true fork10.
Proof. exists 0%nat, (Cpu 0 0 true (Some 0%nat)). repeat split; crefl. Qed.
Lemma fork10_length : length (ptable fork10) = NPROC.
Proof. crefl. Qed.

(** ** The theorems on these states *)

Lemma process_counts_witness :
  wp get_num_proc (λ r k', r = 2) fork10 ∧ wp get_max_pid (λ r k', 2 ≤ r) fork10.
Proof.
  destruct (process_counts 0 true fork10 fork10_out fork10_length) as [Hn Hm]. split.
  - eapply wp_mono; [exact Hn|]. intros r k' [_ ->]. crefl.
  - eapply wp_mono; [exact Hm|]. intros r k' (_ & _ & Hall & _).
    assert (ptable fork10 !! 1%nat = Some (nth 1 (ptable fork10) blank_proc)) as Hp by crefl.
    exact (Hall _ _ Hp).
Defined.

Lemma get_proc_info_witness :
  wpx (get_proc_info 2) (λ r k', info_ok 2 (ptable fork10) r) (λ e _, e = Fault) fork10.
Proof.
  eapply wpx_mono; [exact (get_proc_info_reports 0 true fork10 2 fork10_out fork10_length)|..].
  - by intros r k' [_ Hi].
  - by intros e k' [He _].
Defined.

Lemma kill_marks_witness : wp (kill 2) (λ r k', out 0 true k') fork10.
Proof. eapply wp_mono; [exact (kill_marks 0 true fork10 2 fork10_out fork10_length)|]. by intros r k' [Ho _]. Defined.

Lemma wakeup_exact_witness : wp (wakeup 5) (λ r k', out 0 true k') fork10.
Proof. eapply wp_mono; [exact (wakeup_exact 0 true fork10 5 fork10_out fork10_length)|]. by intros r k' [Ho _]. Defined.

Lemma yield_sleep_witness : wpx yield (λ _ _, False) (λ e k', e = Sleep 0 ∧ within 0 true k') fork10.
Proof.
  assert (ptable fork10 !! 0%nat = Some (nth 0 (ptable fork10) blank_proc)) as Hp by crefl.
  destruct (yield_sleep_switch 0 true fork10 _ 9 fork10_out Hp) as [Hy _].
  eapply wpx_mono; [exact Hy|intros [] k' []|]. intros e k' (He & Hw & _). exact (conj He Hw).
Defined.

Lemma demo_switching : @switching_returns Z _.
Proof. split; [intros p e _|intros e]; eexists; reflexivity. Qed.

Definition ready_proc : proc := set_kstack (set_pgdir blank_proc 4096) 8192.
(** The scheduler of a CPU with two runnable processes of different priority. *)
Definition two_ready : @kernel Z :=
  set_ptable (<[1%nat := set_priority (set_state ready_proc RUNNABLE) 3]>
             (<[0%nat := set_priority (set_state ready_proc RUNNABLE) 1]> (ptable (powered 10)))) (powered 10).
Lemma two_ready_out : sched_start 0 two_ready.
Proof. exists false, (Cpu 0 0 false None). repeat split; crefl. Qed.

Lemma two_ready_counts i p : ptable two_ready !! i = Some p → 0 ≤ switch_cnt p < 2 ^ 31 - 64 ∧ (runnable p → mapped p).
Proof.
  assert (Forall (λ p, switch_cnt p = 0 ∧ (state p = UNUSED ∨ pgdir p ≠ 0 ∧ kstack p ≠ 0)) (ptable two_ready)) as Hf by (apply (bool_decide_eq_true_1 _); crefl).
  rewrite Forall_lookup in Hf. intros Hp. destruct (Hf i p Hp) as [-> Hm]. split; [lia|]. unfold runnable. intros Hr. destruct Hm as [Hm|Hm]; [congruence|done].
Qed.

Lemma scheduler_highest_witness :
  wpx (sched_pass stop_at 0) (λ _ _, no_slot runnable (ptable two_ready))
    (λ e _, ∃ i, e = Sleep (proc_addr i)) two_ready.
Proof.
  eapply wpx_mono; [apply (scheduler_highest_first 0 two_ready demo_switching two_ready_out); [crefl|apply two_ready_counts]|..].
  - by intros [] k' [Hn _].
  - intros e k' (i & p & He & _). by exists i.
Defined.

Lemma scheduler_turns_witness :
  wp (sched_pass time_slice 0) (λ _ k', sched_out 0 k' ∧ ∃ p', ptable k' !! 1%nat = Some p' ∧ switch_cnt p' = 2) two_ready.
Proof.
  eapply wp_mono; [apply (scheduler_turns 0 time_slice two_ready demo_switching (time_slice_yields 0) two_ready_out); [crefl|exact two_ready_counts]|].
  intros [] k' [Ho Ht]. split; [exact Ho|].
  destruct (Ht 1%nat (set_priority (set_state ready_proc RUNNABLE) 3) eq_refl) as (p' & Hp' & Hn). exists p'. split; [exact Hp'|].
  rewrite decide_True in Hn by done. destruct Hn as (_ & _ & _ & ->). crefl.
Defined.

Lemma fork10_reachable : reachable 0x1000 [] tf_zero fork10.
Proof.
  apply reach_step with run10; [apply reach_step with (switched_in 10); [apply reach_step with boot10|]|].
  - apply reach_boot with (powered 10); [|crefl|crefl]. split; [crefl|]. by apply Forall_replicate.
  - apply step_sched with 0%nat. right. exists (proc_addr 0). crefl.
  - apply step_call with 0%nat (nth 0 (ptable (switched_in 10)) blank_proc) CForkret; [crefl|crefl| |left; exists tt; crefl].
    exists 0%nat, (Cpu 0 1 true (Some 0%nat)). repeat split; crefl.
  - apply step_call with 0%nat (nth 0 (ptable run10) blank_proc) CFork; [crefl|crefl| |left; exists tt; crefl].
    exists 0%nat, (Cpu 0 0 true (Some 0%nat)). repeat split; crefl.
Qed.

Lemma ptable_invariant_witness :
  ∃ i p, initproc fork10 = Some i ∧ ptable fork10 !! i = Some p ∧ state p ∈ [SLEEPING; RUNNABLE; RUNNING].
Proof. destruct (ptable_invariant 0x1000 [] tf_zero fork10 fork10_reachable) as (_ & _ & Hi & _). exact Hi. Defined.

(** ** A fork that fails *)

(** With two pages init boots and nothing is left for the child's memory. *)
Definition run3 : @kernel Z := Eval vm_compute in running 3.

(** A fork that fails for lack of memory leaves the pid it had taken in
    the free slot: afterwards only init is in use, but get_max_pid answers 2,
    and get_proc_info for that pid follows a null parent pointer. *)
Theorem failed_fork_leaves_pid :
  (∃ k', fork 0x1000 tf_zero run3 = Ret (-1) k' ∧
     filter (λ p, state p ≠ UNUSED) (ptable k') = filter (λ p, state p ≠ UNUSED) (ptable run3)) ∧
  wp (fork 0x1000 tf_zero;; get_max_pid) (λ r _, r = 2) run3 ∧
  fails (fork 0x1000 tf_zero;; get_proc_info 2) Fault run3.
Proof. split; [eexists; split; crefl|]. split; [crefl|]. eexists. crefl. Qed.
