(* ===== verification/Monitor.v ===== *)
(** * Threads that share a mutex and its condition variables (hw4)

    The programs of hw4 hold one pthread mutex from the start of a critical
    section to its end or to a [pthread_cond_wait].  Such a stretch is a
    segment: a function on the shared data that also tells which condition
    variables it signalled and how it ended.  A run interleaves segments of
    any number of threads.

    POSIX leaves two things open, and both are parameters of a run: whether a
    waiter may wake up without a signal ([spurious]), and whether another
    thread may take the mutex between a signal and the moment the woken thread
    gets it back ([barging]). *)

From S2P Require Import Prelude.

Section monitor.
Context {D PC C R : Type} `{EqDecision C}.

Inductive note := Signal (c : C) | Broadcast (c : C).

(** How a segment ends: waiting for [c], to go on at [pc]; at the start of
    another segment; or out of the monitor, in role [r]. *)
Inductive next := Block (c : C) (pc : PC) | Go (pc : PC) | Leave (r : R).

Inductive status := Rest (r : R) | At (pc : PC) | Blocked (c : C) (pc : PC) | Woken (pc : PC).

Record result := Result { rdata : D; rnotes : list note; rnext : next }.

(** A completed segment, in the log of a run. *)
Record event := Event { ethread : nat; epc : PC; enext : next }.

Record config := Config { data : D; threads : list status; log : list event }.

Record mode := Mode { spurious : bool; barging : bool }.

Definition settle (n : next) : status :=
  match n with Block c pc => Blocked c pc | Go pc => At pc | Leave r => Rest r end.

Definition wake (c : C) (s : status) : status :=
  match s with Blocked c' pc => if decide (c = c') then Woken pc else s | _ => s end.

(** [pthread_cond_signal] wakes one waiter, if there is one;
    [pthread_cond_broadcast] all of them. *)
Inductive notify : list note → list status → list status → Prop :=
  | notify_nil ts : notify [] ts ts
  | notify_signal c i pc ns ts ts' :
      ts !! i = Some (Blocked c pc) → notify ns (<[i := Woken pc]> ts) ts' → notify (Signal c :: ns) ts ts'
  | notify_nobody c ns ts ts' :
      (∀ i pc, ts !! i ≠ Some (Blocked c pc)) → notify ns ts ts' → notify (Signal c :: ns) ts ts'
  | notify_broadcast c ns ts ts' :
      notify ns (wake c <$> ts) ts' → notify (Broadcast c :: ns) ts ts'.

Definition no_woken (ts : list status) : Prop := ∀ i pc, ts !! i ≠ Some (Woken pc).

Lemma notify_length ns ts ts' : notify ns ts ts' → length ts' = length ts.
Proof. induction 1; rewrite ?length_insert, ?length_fmap in *; congruence. Qed.

(** A thread that is not blocked is not touched by a notification. *)
Lemma notify_other ns ts ts' i s :
  notify ns ts ts' → ts !! i = Some s → (∀ c pc, s ≠ Blocked c pc) → ts' !! i = Some s.
Proof.
  intros Hn Hi Hs. induction Hn as [| c j pc ns ts ts' Hj _ IH | |c ns ts ts' _ IH]; [done| |auto|].
  - apply IH. rewrite list_lookup_insert_ne; [done|]. intros ->. rewrite Hi in Hj. injection Hj as ->. by eapply Hs.
  - apply IH. rewrite list_lookup_fmap, Hi. destruct s; try done. by edestruct Hs.
Qed.

(** Notifications only wake: what is blocked afterwards was blocked before. *)
Lemma notify_blocked ns ts ts' i c pc :
  notify ns ts ts' → ts' !! i = Some (Blocked c pc) → ts !! i = Some (Blocked c pc).
Proof.
  induction 1 as [| c' j pc' ns ts ts' Hj _ IH | |c' ns ts ts' _ IH]; intros Hi; [done| |auto|].
  - specialize (IH Hi). destruct (decide (i = j)) as [->|]; [|by rewrite list_lookup_insert_ne in IH].
    rewrite list_lookup_insert_eq in IH by (by eapply lookup_lt_Some). done.
  - specialize (IH Hi). rewrite list_lookup_fmap in IH. destruct (ts !! i) as [[]|]; cbn in IH; try done.
    by destruct (decide _).
Qed.

(** A thread whose status is set to something else is not woken any more. *)
Lemma insert_woken (ts : list status) i (s : status) j p :
  (∀ q, s ≠ Woken q) → <[i := s]> ts !! j = Some (Woken p) → ts !! j = Some (Woken p) ∧ j ≠ i.
Proof.
  intros Hs Hj. destruct (decide (j = i)) as [->|]; [|by rewrite list_lookup_insert_ne in Hj].
  assert (i < length ts)%nat as Hi by (apply lookup_lt_Some in Hj; by rewrite length_insert in Hj).
  rewrite list_lookup_insert_eq in Hj by done. injection Hj as ->. by destruct (Hs p).
Qed.

Lemma settle_woken (n : next) q : settle n ≠ Woken q.
Proof. by destruct n. Qed.

(** Who is woken after one signal and after one broadcast. *)
Lemma signal_woken c ts ts' :
  notify [Signal c] ts ts' →
  (∀ j p, ts' !! j = Some (Woken p) → ts !! j = Some (Woken p)) ∨
  ∃ i, ∀ j p, ts' !! j = Some (Woken p) → ts !! j = Some (Woken p) ∨ (j = i ∧ ts !! j = Some (Blocked c p)).
Proof.
  intros Hn. inversion Hn as [|? i p ? ? ? Hi Hn'|? ? ? ? _ Hn'|]; subst; inversion Hn'; subst; [right|by left].
  exists i. intros j q Hj. destruct (decide (j = i)) as [->|]; [|rewrite list_lookup_insert_ne in Hj by done; by left].
  rewrite list_lookup_insert_eq in Hj by (by eapply lookup_lt_Some). injection Hj as <-. by right.
Qed.

Lemma broadcast_woken c ts ts' j p :
  notify [Broadcast c] ts ts' → ts' !! j = Some (Woken p) → ts !! j = Some (Woken p) ∨ ts !! j = Some (Blocked c p).
Proof.
  intros Hn. inversion Hn as [| | |? ? ? ? Hn']; subst; inversion Hn'; subst. rewrite list_lookup_fmap.
  destruct (ts !! j) as [s|] eqn:Hj; [|done]. cbn. intros [= Hs]. destruct s as [|q|c' q|q]; cbn in Hs; try done.
  - destruct (decide (c = c')) as [<-|]; [|done]. injection Hs as <-. by right.
  - left. congruence.
Qed.

(** ** Counting threads *)

Definition cnt (P : status → bool) (ts : list status) : Z := Z.of_nat (length (filter (λ s, P s = true) ts)).

Lemma cnt_cons P s ts : cnt P (s :: ts) = Z.b2z (P s) + cnt P ts.
Proof.
  unfold cnt. rewrite filter_cons. destruct (P s) eqn:E; [rewrite decide_True by done|rewrite decide_False by congruence]; cbn [length Z.b2z]; lia.
Qed.

Lemma cnt_nonneg P ts : 0 ≤ cnt P ts.
Proof. unfold cnt. lia. Qed.

Lemma cnt_insert P ts i s s' :
  ts !! i = Some s → cnt P (<[i := s']> ts) = cnt P ts - Z.b2z (P s) + Z.b2z (P s').
Proof.
  revert i. induction ts as [|t ts IH]; intros i Hi; [done|].
  destruct i as [|i]; cbn in Hi.
  - injection Hi as ->. change (<[0%nat := s']> (s :: ts)) with (s' :: ts). rewrite !cnt_cons. lia.
  - change (<[S i := s']> (t :: ts)) with (t :: <[i := s']> ts). rewrite !cnt_cons, (IH i Hi). lia.
Qed.

Lemma cnt_pos P ts : 0 < cnt P ts → ∃ i s, ts !! i = Some s ∧ P s = true.
Proof.
  unfold cnt. destruct (filter _ ts) as [|s l] eqn:E; cbn; [lia|]. intros _.
  assert (s ∈ filter (λ s, P s = true) ts) as Hs by (rewrite E; by left).
  apply list_elem_of_filter in Hs as [HP [i Hi]%list_elem_of_lookup]. by exists i, s.
Qed.

Lemma cnt_in P ts i s : ts !! i = Some s → P s = true → 0 < cnt P ts.
Proof.
  intros Hi HP. unfold cnt. assert (s ∈ filter (λ s, P s = true) ts) as Hs.
  { apply list_elem_of_filter. split; [done|]. by eapply list_elem_of_lookup_2. }
  destruct (filter _ ts); [by apply elem_of_nil in Hs|cbn; lia].
Qed.

Lemma cnt_fmap P f ts : (∀ s, P (f s) = P s) → cnt P (f <$> ts) = cnt P ts.
Proof. intros Hf. induction ts as [|s ts IH]; [done|]. rewrite fmap_cons, !cnt_cons, Hf, IH. done. Qed.

(** A property of a status that waking up keeps. *)
Lemma notify_cnt P ns ts ts' :
  (∀ c pc, P (Blocked c pc) = P (Woken pc)) → notify ns ts ts' → cnt P ts' = cnt P ts.
Proof.
  intros HP. induction 1 as [| c j pc ns ts ts' Hj _ IH | |c ns ts ts' _ IH]; [done| |done|]; rewrite IH.
  - rewrite (cnt_insert _ _ _ _ _ Hj), HP. lia.
  - apply cnt_fmap. intros []; try done. cbn. destruct (decide _); by rewrite ?HP.
Qed.

Lemma run_cnt P ns ts ts' i s s' :
  (∀ c pc, P (Blocked c pc) = P (Woken pc)) → notify ns ts ts' → ts !! i = Some s → (∀ c pc, s ≠ Blocked c pc) →
  cnt P (<[i := s']> ts') = cnt P ts - Z.b2z (P s) + Z.b2z (P s').
Proof.
  intros HP Hn Hi Hs. rewrite (cnt_insert P ts' i s s') by (by eapply notify_other).
  by rewrite (notify_cnt P ns ts ts' HP Hn).
Qed.

(** A property of every thread that waking up keeps. *)
Lemma run_Forall (I : status → Prop) ns ts ts' i s' :
  (∀ c pc, I (Blocked c pc) → I (Woken pc)) → notify ns ts ts' → Forall I ts → I s' → Forall I (<[i := s']> ts').
Proof.
  intros HI Hn Hf Hs'. apply Forall_insert; [|done]. revert Hf.
  induction Hn as [| c j pc ns ts ts' Hj _ IH | |c ns ts ts' _ IH]; [done| |auto|]; intros Hf; apply IH.
  - apply Forall_insert; [done|]. eapply HI. by eapply Forall_lookup_1.
  - apply Forall_fmap. eapply Forall_impl; [done|]. intros [] Hx; cbn; try done. destruct (decide _); [by eapply HI|done].
Qed.

(** ** Runs *)

(** The code: one segment per program point, undefined where C is, and which
    calls a thread in a role may start. *)
Context (seg : PC → D → option result) (entry : R → PC → bool).

Inductive mstep (md : mode) : config → config → Prop :=
  | ms_start i r pc d ts l :
      ts !! i = Some (Rest r) → entry r pc = true →
      mstep md (Config d ts l) (Config d (<[i := At pc]> ts) l)
  | ms_run i pc d ts ts' l d' ns n :
      ts !! i = Some (At pc) → (barging md = true ∨ no_woken ts) →
      seg pc d = Some (Result d' ns n) → notify ns ts ts' →
      mstep md (Config d ts l) (Config d' (<[i := settle n]> ts') (Event i pc n :: l))
  | ms_resume i pc d ts ts' l d' ns n :
      ts !! i = Some (Woken pc) →
      seg pc d = Some (Result d' ns n) → notify ns ts ts' →
      mstep md (Config d ts l) (Config d' (<[i := settle n]> ts') (Event i pc n :: l))
  | ms_spurious i c pc d ts l :
      spurious md = true → ts !! i = Some (Blocked c pc) →
      mstep md (Config d ts l) (Config d (<[i := Woken pc]> ts) l).

(** A thread can enter a segment whose behaviour is undefined. *)
Definition faulty (k : config) : Prop :=
  ∃ i pc, (threads k !! i = Some (At pc) ∨ threads k !! i = Some (Woken pc)) ∧ seg pc (data k) = None.

Inductive mreach (md : mode) (k0 : config) : config → Prop :=
  | mreach_0 : mreach md k0 k0
  | mreach_step k k' : mreach md k0 k → mstep md k k' → mreach md k0 k'.

(** Invariants, by induction on the run. *)
Lemma mreach_inv md k0 (I : config → Prop) :
  I k0 → (∀ k k', I k → mstep md k k' → I k') → ∀ k, mreach md k0 k → I k.
Proof. intros H0 Hs k Hr. induction Hr as [|k k' _ IH Hk]; [done|]. by eapply Hs. Qed.

Lemma mstep_posix md k k' : mstep md k k' → mstep (Mode true true) k k'.
Proof.
  intros [i r pc d ts l|i pc d ts ts' l d' ns n Hi _|i pc d ts ts' l d' ns n|i c pc d ts l _ Hi].
  - by apply ms_start with r.
  - apply ms_run with ns; auto.
  - by apply ms_resume with ns.
  - by apply ms_spurious with c.
Qed.

(** A step is a wakeup without a signal, or a step that does not allow one. *)
Lemma mstep_spurious b k k' : mstep (Mode true b) k k' →
  mstep (Mode false b) k k' ∨
  ∃ i c pc d ts l, ts !! i = Some (Blocked c pc) ∧ k = Config d ts l ∧ k' = Config d (<[i := Woken pc]> ts) l.
Proof.
  intros [i r pc d ts l|i pc d ts ts' l d' ns n|i pc d ts ts' l d' ns n|i c pc d ts l _ Hi]; [left..|right].
  - by apply ms_start with r.
  - by apply ms_run with ns.
  - by apply ms_resume with ns.
  - by exists i, c, pc, d, ts, l.
Qed.

(** The runs that POSIX allows, with a count of irregular steps: steps of mode
    [md] are free, and any other step that POSIX allows counts. *)
Inductive mreach_irr (md : mode) (k0 : config) : nat → config → Prop :=
  | mirr_0 : mreach_irr md k0 0 k0
  | mirr_regular n k k' : mreach_irr md k0 n k → mstep md k k' → mreach_irr md k0 n k'
  | mirr_irregular n k k' : mreach_irr md k0 n k → mstep (Mode true true) k k' → mreach_irr md k0 (S n) k'.

(** Every run is one of them. *)
Lemma mreach_irr_all md k0 k : mreach (Mode true true) k0 k → ∃ n, mreach_irr md k0 n k.
Proof. induction 1 as [|k k' _ [n IH] Hs]; [exists 0%nat; constructor|]. exists (S n). by eapply mirr_irregular. Qed.

(** A run without irregular steps. *)
Lemma mreach_irr_0 md k0 k : mreach_irr md k0 0 k → mreach md k0 k.
Proof.
  intros H. remember 0%nat as n eqn:Hn. induction H as [|n k k' _ IH Hs|]; [constructor| |done].
  eapply mreach_step; [by apply IH|done].
Qed.

Lemma mreach_irr_inv md k0 (I : nat → config → Prop) :
  I 0%nat k0 → (∀ n k k', I n k → mstep md k k' → I n k') → (∀ n k k', I n k → mstep (Mode true true) k k' → I (S n) k') →
  ∀ n k, mreach_irr md k0 n k → I n k.
Proof. intros H0 H1 H2 n k Hr. induction Hr; eauto. Qed.

(** ** Runs that a list of choices determines *)

(** Start a call; run the next segment, with the threads its signals wake; wake
    up without a signal. *)
Inductive choice := Start (i : nat) (pc : PC) | Run (i : nat) (picks : list nat) | Spur (i : nat).

Definition blocked_on (c : C) (s : status) : bool :=
  match s with Blocked c' _ => bool_decide (c = c') | _ => false end.

Fixpoint notify_with (ns : list note) (picks : list nat) (ts : list status) : option (list status) :=
  match ns with
  | [] => Some ts
  | Broadcast c :: ns' => notify_with ns' picks (wake c <$> ts)
  | Signal c :: ns' =>
      if existsb (blocked_on c) ts then
        match picks with
        | i :: picks' =>
            match ts !! i with
            | Some (Blocked c' pc) => if decide (c' = c) then notify_with ns' picks' (<[i := Woken pc]> ts) else None
            | _ => None
            end
        | [] => None
        end
      else notify_with ns' picks ts
  end.

Definition mrun1 (md : mode) (ch : choice) (k : config) : option config :=
  let '(Config d ts l) := k in
  match ch with
  | Start i pc =>
      match ts !! i with
      | Some (Rest r) => if entry r pc then Some (Config d (<[i := At pc]> ts) l) else None
      | _ => None
      end
  | Run i picks =>
      match ts !! i with
      | Some (At pc) =>
          if barging md || negb (existsb (λ s, match s with Woken _ => true | _ => false end) ts) then
            r ← seg pc d; ts' ← notify_with (rnotes r) picks ts;
            Some (Config (rdata r) (<[i := settle (rnext r)]> ts') (Event i pc (rnext r) :: l))
          else None
      | Some (Woken pc) =>
          r ← seg pc d; ts' ← notify_with (rnotes r) picks ts;
          Some (Config (rdata r) (<[i := settle (rnext r)]> ts') (Event i pc (rnext r) :: l))
      | _ => None
      end
  | Spur i =>
      match ts !! i with
      | Some (Blocked _ pc) => if spurious md then Some (Config d (<[i := Woken pc]> ts) l) else None
      | _ => None
      end
  end.
Fixpoint mrun (md : mode) (chs : list choice) (k : config) : option config :=
  match chs with [] => Some k | ch :: chs' => k' ← mrun1 md ch k; mrun md chs' k' end.

Lemma existsb_lookup {A} (f : A → bool) l i x : existsb f l = false → l !! i = Some x → f x = false.
Proof.
  intros He Hi. destruct (f x) eqn:Hf; [|done].
  rewrite <- He. symmetry. apply existsb_exists. exists x. split; [|done]. apply list_elem_of_In. by eapply list_elem_of_lookup_2.
Qed.

Lemma notify_with_sound ns : ∀ picks ts ts', notify_with ns picks ts = Some ts' → notify ns ts ts'.
Proof.
  induction ns as [|[c|c] ns IH]; intros picks ts ts'; cbn [notify_with].
  - intros [= <-]. apply notify_nil.
  - destruct (existsb _ ts) eqn:He.
    + destruct picks as [|i picks]; [done|]. destruct (ts !! i) as [[| |c' pc|]|] eqn:Hi; try done.
      destruct (decide (c' = c)) as [->|]; [|done]. intros Hn. eapply notify_signal; [done|]. by eapply IH.
    + intros Hn. apply notify_nobody; [|by eapply IH]. intros i pc Hi.
      pose proof (existsb_lookup _ _ _ _ He Hi) as Hf. cbn in Hf. by rewrite bool_decide_eq_true_2 in Hf.
  - intros Hn. apply notify_broadcast. by eapply IH.
Qed.

Lemma mrun1_sound md ch k k' : mrun1 md ch k = Some k' → mstep md k k'.
Proof.
  destruct k as [d ts l]. destruct ch as [i pc|i picks|i]; cbn; destruct (ts !! i) as [[r|p|c p|p]|] eqn:Hi; try done.
  - destruct (entry r pc) eqn:He; [|done]. intros [= <-]. by apply (ms_start _ i r).
  - destruct (barging md || _) eqn:Hb; [|done]. destruct (seg p d) as [[d' ns n]|] eqn:Hs; [|done]. cbn.
    destruct (notify_with _ _ _) as [ts'|] eqn:Hn; [|done]. intros [= <-].
    apply (ms_run _ i p d ts ts' l d' ns n); [done| |done|by eapply notify_with_sound].
    apply orb_true_iff in Hb as [?|Hb%negb_true_iff]; [by left|right]. intros j q Hj.
    by pose proof (existsb_lookup _ _ _ _ Hb Hj).
  - destruct (seg p d) as [[d' ns n]|] eqn:Hs; [|done]. cbn.
    destruct (notify_with _ _ _) as [ts'|] eqn:Hn; [|done]. intros [= <-].
    apply (ms_resume _ i p d ts ts' l d' ns n); [done|done|by eapply notify_with_sound].
  - destruct (spurious md) eqn:Hsp; [|done]. intros [= <-]. by apply (ms_spurious _ i c).
Qed.

Lemma mreach_trans md k1 k2 k3 : mreach md k1 k2 → mreach md k2 k3 → mreach md k1 k3.
Proof. intros H1 H2. induction H2 as [|k k' _ IH Hs]; [done|]. by eapply mreach_step. Qed.

Lemma mrun_sound md chs : ∀ k k', mrun md chs k = Some k' → mreach md k k'.
Proof.
  induction chs as [|ch chs IH]; intros k k'; cbn; [intros [= <-]; apply mreach_0|].
  destruct (mrun1 md ch k) as [k1|] eqn:H1; [|done]. cbn. intros Hr.
  eapply mreach_trans; [|by apply IH]. eapply mreach_step; [apply mreach_0|by eapply mrun1_sound].
Qed.

Lemma mirr_trans md k1 k2 k3 n : mreach_irr md k1 n k2 → mreach md k2 k3 → mreach_irr md k1 n k3.
Proof. intros H1 H2. induction H2 as [|k k' _ IH Hs]; [done|]. by eapply mirr_regular. Qed.
End monitor.

Arguments next : clear implicits.
Arguments status : clear implicits.
Arguments event : clear implicits.
Arguments config : clear implicits.
Arguments result : clear implicits.
Arguments note : clear implicits.
Arguments choice : clear implicits.
