(* ===== verification/Sem.v ===== *)
(** * The counting semaphore of hw4/3 (SSU_Sem.c)

    A thread at rest may call [SSU_Sem_down] or [SSU_Sem_up]; [Down2] is the
    rest of [SSU_Sem_down] after its [pthread_cond_wait]. *)

From S2P Require Import Prelude Monitor.

(** [SSU_Sem], src/hw4/3/SSU_Sem.h:3-10
    The mutex and the condition variable are those of [Monitor]. *)
Record SSU_Sem := Semaphore { value : Z }.

Inductive pc := Down | Down2 | Up.

(** [SSU_Sem_init], src/hw4/3/SSU_Sem.c:10-16 *)
Definition SSU_Sem_init (v : Z) : SSU_Sem := Semaphore v.

(** [SSU_Sem_down], src/hw4/3/SSU_Sem.c:18-29 *)
Definition SSU_Sem_down (s : SSU_Sem) : option (result SSU_Sem pc unit unit) :=
  v ← chk (value s - 1);
  if v <? 0 then Some (Result (Semaphore v) [] (Block tt Down2))
  else Some (Result (Semaphore v) [] (Leave tt)).

(** [SSU_Sem_down: after the wait], src/hw4/3/SSU_Sem.c:27-29 *)
Definition SSU_Sem_down2 (s : SSU_Sem) : option (result SSU_Sem pc unit unit) :=
  Some (Result s [] (Leave tt)).

(** [SSU_Sem_up], src/hw4/3/SSU_Sem.c:31-43 *)
Definition SSU_Sem_up (s : SSU_Sem) : option (result SSU_Sem pc unit unit) :=
  v ← chk (value s + 1);
  Some (Result (Semaphore v) (if v <=? 0 then [Signal tt] else []) (Leave tt)).

Definition seg (p : pc) : SSU_Sem → option (result SSU_Sem pc unit unit) :=
  match p with Down => SSU_Sem_down | Down2 => SSU_Sem_down2 | Up => SSU_Sem_up end.
Definition entry (_ : unit) (p : pc) : bool := match p with Down | Up => true | Down2 => false end.

Abbreviation config := (config SSU_Sem pc unit unit).
Abbreviation status := (status pc unit unit).
Abbreviation event := (event pc unit unit).

Definition start (v : Z) (n : nat) : config := Config (SSU_Sem_init v) (replicate n (Rest tt)) [].
Definition sem_reach (md : mode) (v : Z) (n : nat) : config → Prop := mreach seg entry md (start v n).

(** Calls of down that began and that returned, and calls of up. *)
Definition is_entry (e : event) : bool := match epc e with Down => true | _ => false end.
Definition is_pass (e : event) : bool :=
  match epc e, enext e with Down, Leave _ | Down2, _ => true | _, _ => false end.
Definition is_up (e : event) : bool := match epc e with Up => true | _ => false end.
Definition tally (f : event → bool) (l : list event) : Z := foldr (λ e n, Z.b2z (f e) + n) 0 l.

Definition waits (s : status) : bool := match s with Blocked _ _ => true | _ => false end.
Definition wakes (s : status) : bool := match s with Woken _ => true | _ => false end.

(** What may wait or be woken, and what a thread may be about to run. *)
Definition pcs_ok (s : status) : Prop :=
  match s with Blocked _ p | Woken p => p = Down2 | At p => p ≠ Down2 | Rest _ => True end.

(** After [b] wakeups without a signal at most. *)
Definition sinv (v : Z) (b : nat) (k : config) : Prop :=
  Forall pcs_ok (threads k) ∧
  value (data k) = v + tally is_up (log k) - tally is_entry (log k) ∧
  cnt waits (threads k) ≤ Z.max 0 (- value (data k)) ≤ cnt waits (threads k) + Z.of_nat b ∧
  tally is_pass (log k) + cnt wakes (threads k) + cnt waits (threads k) = tally is_entry (log k).

Lemma start_cnt f n : f (Rest tt) = false → cnt f (replicate n (Rest tt) : list status) = 0.
Proof. intros Hf. induction n as [|n IH]; [done|]. cbn [replicate]. by rewrite cnt_cons, Hf, IH. Qed.

Lemma sinv_start v n : 0 ≤ v → sinv v 0 (start v n).
Proof.
  intros Hv. split; [by apply Forall_replicate|]. cbn. rewrite !start_cnt by done. lia.
Qed.

(** Waking a waiter moves it from one count to the other. *)
Lemma signal_counts ts ts' :
  notify [Signal tt] ts ts' → Forall pcs_ok ts → 0 < cnt waits ts →
  Forall pcs_ok ts' ∧ cnt waits ts' = cnt waits ts - 1 ∧ cnt wakes ts' = cnt wakes ts + 1.
Proof.
  intros Hn Hf Hpos. inversion Hn as [|[] i p ns t1 t2 Hi Hn'|? ? ? ? Hno Hn'|]; subst.
  - inversion Hn'; subst. assert (pcs_ok (Blocked tt p)) as Hp by (by eapply Forall_lookup_1).
    split; [by apply Forall_insert|]. rewrite !(cnt_insert _ _ _ _ _ Hi). cbn. lia.
  - exfalso. destruct (cnt_pos _ _ Hpos) as (i & s & Hi & Hs). destruct s as [| |[] p|]; try done. by apply (Hno i p).
Qed.

Lemma sinv_mono v b b' k : sinv v b k → (b ≤ b')%nat → sinv v b' k.
Proof. intros (Hf & Hv & Hw & Ht) Hb. split_and!; [done|done|lia|lia|done]. Qed.

(** Nobody waits after the signal, or one thread less does. *)
Lemma signal_cases ts ts' :
  notify [Signal tt] ts ts' → Forall pcs_ok ts →
  Forall pcs_ok ts' ∧ (cnt waits ts' = 0 ∧ cnt waits ts = 0 ∧ cnt wakes ts' = cnt wakes ts ∨
    cnt waits ts' = cnt waits ts - 1 ∧ cnt wakes ts' = cnt wakes ts + 1).
Proof.
  intros Hn Hf. destruct (decide (0 < cnt waits ts)) as [Hpos|Hpos].
  - destruct (signal_counts ts ts' Hn Hf Hpos) as (? & ? & ?). split; [done|]. by right.
  - pose proof (cnt_nonneg waits ts) as H0. inversion Hn as [|[] i p ns t1 t2 Hi Hn'|? ? ? ? Hno Hn'|]; subst.
    + exfalso. pose proof (cnt_in waits ts i _ Hi eq_refl). lia.
    + inversion Hn'; subst. split; [done|]. left. split_and!; [lia|lia|done].
Qed.

Lemma sinv_step v b k k' : sinv v b k → mstep seg entry (Mode true true) k k' → sinv v (S b) k' ∧ (mstep seg entry (Mode false true) k k' → sinv v b k').
Proof.
  assert (∀ k k', sinv v b k → mstep seg entry (Mode false true) k k' → sinv v b k') as Hreg.
  { clear k k'. intros k k' (Hf & Hv & Hw & Ht) Hs.
    destruct Hs as [i r p d ts l Hi He|i p d ts ts' l d' ns n Hi _ Hseg Hn|i p d ts ts' l d' ns n Hi Hseg Hn|]; [..|done]; cbn in *.
    - split; [apply Forall_insert; [done|by destruct p]|]. cbn. rewrite !(cnt_insert _ _ _ _ _ Hi). cbn. lia.
    - assert (pcs_ok (At p)) as Hp by (by eapply Forall_lookup_1). pose proof (cnt_nonneg waits ts) as H0.
      destruct p; [|done|]; cbn in Hseg; unfold SSU_Sem_down, SSU_Sem_up in Hseg.
      + destruct (chk _) as [x|] eqn:Hx; [|done]. apply chk_Some in Hx as ->. cbn in Hseg.
        destruct (Z.ltb_spec (value d - 1) 0); injection Hseg as <- <- <-; inversion Hn; subst;
          (split; [by apply Forall_insert|]); cbn; rewrite !(cnt_insert _ _ _ _ _ Hi); cbn; lia.
      + destruct (chk _) as [x|] eqn:Hx; [|done]. apply chk_Some in Hx as ->. cbn in Hseg. injection Hseg as <- <- <-.
        pose proof (notify_other _ _ _ _ _ Hn Hi ltac:(done)) as Hi'.
        destruct (Z.leb_spec (value d + 1) 0).
        * destruct (signal_cases _ _ Hn Hf) as (Hf' & Hc).
          split; [by apply Forall_insert|]. cbn. rewrite !(cnt_insert _ _ _ _ _ Hi'). cbn. lia.
        * inversion Hn; subst. split; [by apply Forall_insert|]. cbn. rewrite !(cnt_insert _ _ _ _ _ Hi). cbn. lia.
    - assert (pcs_ok (Woken p)) as Hp by (by eapply Forall_lookup_1). cbn in Hp. subst p. injection Hseg as <- <- <-.
      inversion Hn; subst. split; [by apply Forall_insert|]. cbn. rewrite !(cnt_insert _ _ _ _ _ Hi). cbn. lia. }
  intros HI Hs. split; [|by apply Hreg].
  destruct (mstep_spurious _ _ _ _ _ Hs) as [Hs'|(i & [] & p & d & ts & l & Hi & -> & ->)]; [apply (sinv_mono v b); [by eapply Hreg|lia]|].
  destruct HI as (Hf & Hv & Hw & Ht). cbn in *. assert (pcs_ok (Blocked tt p)) as Hp by (by eapply Forall_lookup_1). cbn in Hp. subst p.
  split; [by apply Forall_insert|]. cbn. rewrite !(cnt_insert _ _ _ _ _ Hi). cbn. lia.
Qed.

(** Every run that POSIX allows, with at most [b] wakeups without a signal. *)
Definition posix_reach (v : Z) (n : nat) : nat → config → Prop := mreach_irr seg entry (Mode false true) (start v n).

Lemma sem_inv v n b k : 0 ≤ v → posix_reach v n b k → sinv v b k.
Proof.
  intros Hv. apply (mreach_irr_inv _ _ _ _ (sinv v)); [by apply sinv_start|..]; intros b' k1 k2 H1 H2.
  - eapply sinv_step; [exact H1| |exact H2]. by eapply mstep_posix.
  - by apply (sinv_step v b' k1 k2 H1 H2).
Qed.

(** C23. The semaphore counts.  In every run that POSIX allows, of any number of
    threads, with [v] permits at the start and [b] wakeups of waiters without a
    signal: the calls of down that returned or were woken do not outnumber [v],
    the calls of up and [b]; so without such wakeups nobody passes without a
    permit.  And no wakeup is lost, whatever [b] is: as long as a thread waits,
    all permits are taken by calls that returned or were woken. *)
Theorem semaphore_counts v n b k :
  0 ≤ v → posix_reach v n b k →
  tally is_pass (log k) + cnt wakes (threads k) ≤ v + tally is_up (log k) + Z.of_nat b ∧
  (0 < cnt waits (threads k) → v + tally is_up (log k) ≤ tally is_pass (log k) + cnt wakes (threads k)).
Proof.
  intros Hv Hr. destruct (sem_inv v n b k Hv Hr) as (_ & Hval & Hw & Ht). lia.
Qed.

(** One permit, two threads: both call down, the first passes and calls up. *)
Lemma semaphore_counts_witness :
  ∃ k, mrun seg entry (Mode false true) [Start 0 Down; Start 1 Down; Run 0 []; Run 1 []; Start 0 Up; Run 0 [1%nat]] (start 1 2) = Some k ∧
    tally is_pass (log k) + cnt wakes (threads k) ≤ 1 + tally is_up (log k) + 0.
Proof.
  eexists. split; [vm_compute; reflexivity|].
  apply (semaphore_counts 1 2 0); [lia|]. eapply mirr_trans; [apply mirr_0|].
  apply (mrun_sound _ _ _ [Start 0 Down; Start 1 Down; Run 0 []; Run 1 []; Start 0 Up; Run 0 [1%nat]]). vm_compute. reflexivity.
Defined.

(** A waiter that wakes up without a signal (which POSIX allows) goes on
    as if it had the permit: with one permit, two calls of down return and
    nobody called up.  The test of the value would have to be a loop. *)
Theorem semaphore_spurious_wakeup :
  ∃ k, sem_reach (Mode true true) 1 2 k ∧ tally is_pass (log k) = 2 ∧ tally is_up (log k) = 0.
Proof.
  eexists. split; [|split].
  - apply (mrun_sound _ _ _ [Start 0 Down; Start 1 Down; Run 0 []; Run 1 []; Spur 1; Run 1 []]). vm_compute. reflexivity.
  - vm_compute. reflexivity.
  - vm_compute. reflexivity.
Qed.
