(* ===== verification/Rwlock.v ===== *)
(** * The two readers-writer locks of hw4/2

    What the two locks share; they are in [RwlockR] (rw_lock-r-test.c, which
    prefers readers) and [RwlockW] (rw_lock-w-test.c, which prefers writers),
    and the helpers of the tests (rw_lock.c).  A thread is outside, inside as a
    reader or inside as a writer; [RLock2] and [WLock2] are the rests of
    [r_lock] and [w_lock] after their [pthread_cond_wait]. *)

From S2P Require Import Prelude Monitor.

(** [struct rw_lock], src/hw4/2/rw_lock.h:6-14 *)
Record rw_lock := RwLock { write_cnt : Z; write_wait : Z; read_cnt : Z }.

Inductive role := Outside | Reader | Writer.
Inductive rpc := RLock | RLock2 | RUnlock | WLock | WLock2 | WUnlock.
Inductive rcond := r_cond | w_cond.
#[global] Instance rcond_eq_dec : EqDecision rcond.
Proof. solve_decision. Defined.

Definition set_read (x : Z) (rw : rw_lock) := RwLock (write_cnt rw) (write_wait rw) x.
Definition set_write (x : Z) (rw : rw_lock) := RwLock x (write_wait rw) (read_cnt rw).
Definition set_wait (x : Z) (rw : rw_lock) := RwLock (write_cnt rw) x (read_cnt rw).

Abbreviation res := (result rw_lock rpc rcond role).
Abbreviation config := (config rw_lock rpc rcond role).
Abbreviation status := (status rpc rcond role).

Definition entry (r : role) (p : rpc) : bool :=
  match r, p with Outside, (RLock | WLock) | Reader, RUnlock | Writer, WUnlock => true | _, _ => false end.

(** ** Counting the threads inside *)

Definition inside_r (s : status) : bool := match s with Rest Reader | At RUnlock => true | _ => false end.
Definition inside_w (s : status) : bool := match s with Rest Writer | At WUnlock => true | _ => false end.
Definition queued_w (s : status) : bool := match s with Blocked _ WLock2 | Woken WLock2 => true | _ => false end.

(** [max_element: the loop], src/hw4/2/rw_lock.c:7-10 *)
Fixpoint max_loop (l : list Z) (i max : nat) (n : nat) : option nat :=
  match n with
  | O => Some max
  | S n' =>
      a ← l !! max; b ← l !! i;
      max_loop l (S i) (if a <? b then i else max) n'
  end.
(** [max_element], src/hw4/2/rw_lock.c:3-13
    The position found in the array from [start] to [end]. *)
Definition max_element (l : list Z) : option nat := max_loop l 1 0 (length l - 1).

(** [min_element: the loop], src/hw4/2/rw_lock.c:19-22 *)
Fixpoint min_loop (l : list Z) (i min : nat) (n : nat) : option nat :=
  match n with
  | O => Some min
  | S n' =>
      a ← l !! min; b ← l !! i;
      min_loop l (S i) (if b <? a then i else min) n'
  end.
(** [min_element], src/hw4/2/rw_lock.c:15-25 *)
Definition min_element (l : list Z) : option nat := min_loop l 1 0 (length l - 1).

(** ** The helpers of the tests *)

Lemma max_loop_spec l n : ∀ i m x,
  l !! m = Some x → (m < i)%nat → (i + n ≤ length l)%nat →
  (∀ j y, (j < i)%nat → l !! j = Some y → y ≤ x ∧ ((j < m)%nat → y < x)) →
  ∃ m' x', max_loop l i m n = Some m' ∧ l !! m' = Some x' ∧
    ∀ j y, (j < i + n)%nat → l !! j = Some y → y ≤ x' ∧ ((j < m')%nat → y < x').
Proof.
  induction n as [|n IH]; intros i m x Hm Hlt Hlen Hmax; cbn [max_loop].
  { exists m, x. rewrite Nat.add_0_r. done. }
  destruct (lookup_lt_is_Some_2 l i ltac:(lia)) as [b Hb]. rewrite Hm, Hb. cbn.
  replace (i + S n)%nat with (S i + n)%nat by lia.
  destruct (Z.ltb_spec x b) as [Hxb|Hxb].
  - apply (IH (S i) i b); [done|lia|lia|]. intros j y Hj Hy. destruct (decide (j = i)) as [->|].
    + rewrite Hb in Hy. injection Hy as <-. split; [lia|lia].
    + destruct (Hmax j y ltac:(lia) Hy). lia.
  - apply (IH (S i) m x); [done|lia|lia|]. intros j y Hj Hy. destruct (decide (j = i)) as [->|].
    + rewrite Hb in Hy. injection Hy as <-. split; [lia|lia].
    + apply Hmax; [lia|done].
Qed.

(** [max_element] finds the first position of the largest element. *)
Lemma max_element_spec l :
  l ≠ [] → ∃ m x, max_element l = Some m ∧ l !! m = Some x ∧
    ∀ j y, l !! j = Some y → y ≤ x ∧ ((j < m)%nat → y < x).
Proof.
  destruct l as [|a l]; [done|]. intros _. unfold max_element. cbn [length]. rewrite Nat.sub_succ, Nat.sub_0_r.
  destruct (max_loop_spec (a :: l) (length l) 1 0 a) as (m & x & Hm & Hx & Hall); [done|lia|cbn; lia| |].
  - intros j y Hj Hy. assert (j = 0)%nat as -> by lia. injection Hy as <-. lia.
  - exists m, x. split_and!; [done..|]. intros j y Hy. apply Hall; [|done]. apply lookup_lt_Some in Hy. cbn in Hy. lia.
Qed.

Lemma min_loop_max l n : ∀ i m, min_loop l i m n = max_loop (Z.opp <$> l) i m n.
Proof.
  induction n as [|n IH]; intros i m; [done|]. cbn [min_loop max_loop]. rewrite !list_lookup_fmap.
  destruct (l !! m) as [a|]; [|done]. destruct (l !! i) as [b|]; [|done]. cbn. rewrite IH. f_equal.
  destruct (Z.ltb_spec b a), (Z.ltb_spec (- a) (- b)); (done || lia).
Qed.

(** [min_element] is [max_element] of the negated array. *)
Lemma min_element_spec l : min_element l = max_element (Z.opp <$> l).
Proof. unfold min_element, max_element. by rewrite length_fmap, min_loop_max. Qed.
