(* ===== verification/RwlockW.v ===== *)
(** * The writer-preferring lock of hw4/2 (rw_lock-w-test.c)

    Its operations, the invariant of its counters in every run, and exclusion
    in the runs where a signalled thread is the next to get the mutex. *)

From S2P Require Import Prelude Monitor Rwlock.

(** [init_rwlock], src/hw4/2/rw_lock-w-test.c:3-14 *)
Definition init_rwlock : rw_lock := RwLock 0 0 0.

(** [r_lock: after the wait], src/hw4/2/rw_lock-w-test.c:25-27 *)
Definition r_lock2 (rw : rw_lock) : option res :=
  n ← chk (read_cnt rw + 1); Some (Result (set_read n rw) [] (Leave Reader)).

(** [r_lock], src/hw4/2/rw_lock-w-test.c:16-27 *)
Definition r_lock (rw : rw_lock) : option res :=
  if (0 <? write_cnt rw) || (0 <? write_wait rw) then Some (Result rw [] (Block r_cond RLock2))
  else r_lock2 rw.

(** [r_unlock], src/hw4/2/rw_lock-w-test.c:29-45 *)
Definition r_unlock (rw : rw_lock) : option res :=
  n ← chk (read_cnt rw - 1);
  Some (Result (set_read n rw)
    (if (0 <? write_wait rw) && (n =? 0) then [Signal w_cond]
     else if (write_wait rw =? 0) && (n =? 0) then [Broadcast r_cond] else [])
    (Leave Outside)).

(** [w_lock: the last steps], src/hw4/2/rw_lock-w-test.c:60-62 *)
Definition w_enter (rw : rw_lock) : option res :=
  n ← chk (write_cnt rw + 1); Some (Result (set_write n rw) [] (Leave Writer)).

(** [w_lock: after the wait], src/hw4/2/rw_lock-w-test.c:58-62 *)
Definition w_lock2 (rw : rw_lock) : option res :=
  n ← chk (write_wait rw - 1); w_enter (set_wait n rw).

(** [w_lock], src/hw4/2/rw_lock-w-test.c:47-62 *)
Definition w_lock (rw : rw_lock) : option res :=
  if (0 <? read_cnt rw) || (0 <? write_cnt rw) then
    n ← chk (write_wait rw + 1); Some (Result (set_wait n rw) [] (Block w_cond WLock2))
  else w_enter rw.

(** [w_unlock], src/hw4/2/rw_lock-w-test.c:64-81 *)
Definition w_unlock (rw : rw_lock) : option res :=
  n ← chk (write_cnt rw - 1);
  Some (Result (set_write n rw)
    (if 0 <? write_wait rw then [Signal w_cond]
     else if write_wait rw =? 0 then [Broadcast r_cond] else [])
    (Leave Outside)).

Definition seg (p : rpc) : rw_lock → option res :=
  match p with
  | RLock => r_lock | RLock2 => r_lock2 | RUnlock => r_unlock
  | WLock => w_lock | WLock2 => w_lock2 | WUnlock => w_unlock
  end.
Definition start (n : nat) : config := Config init_rwlock (replicate n (Rest Outside)) [].
Definition reach (md : mode) (n : nat) : config → Prop := mreach seg entry md (start n).

(** ** The counters are right in every run *)

Definition wf (s : status) : Prop :=
  match s with
  | Blocked c p => (c = r_cond ∧ p = RLock2) ∨ (c = w_cond ∧ p = WLock2)
  | Woken p => p = RLock2 ∨ p = WLock2
  | At p => p ≠ RLock2 ∧ p ≠ WLock2
  | Rest _ => True
  end.

Definition counters (k : config) : Prop :=
  Forall wf (threads k) ∧ read_cnt (data k) = cnt inside_r (threads k) ∧
  write_cnt (data k) = cnt inside_w (threads k) ∧ write_wait (data k) = cnt queued_w (threads k).

Lemma wr_wf_woken c p : wf (Blocked c p) → wf (Woken p).
Proof. cbn. naive_solver. Qed.

Lemma wr_start_cnt f n : f (Rest Outside) = false → cnt f (replicate n (Rest Outside) : list status) = 0.
Proof. intros Hf. induction n as [|n IH]; [done|]. cbn [replicate]. by rewrite cnt_cons, Hf, IH. Qed.

(** Follow a segment along its tests and overflow checks. *)
Ltac seg_cases H :=
  repeat match type of H with
  | context [chk ?z] => let E := fresh "E" in destruct (chk z) as [?|] eqn:E; [apply chk_Some in E as ->; cbn in H|done]
  | (if ?b then _ else _) = _ => let E := fresh "B" in destruct b eqn:E
  end;
  injection H as <- <- <-.

Lemma counters_seg i s p d ts ts' l d' ns n :
  counters (Config d ts l) → ts !! i = Some s → s = At p ∨ s = Woken p →
  seg p d = Some (Result d' ns n) → notify ns ts ts' →
  counters (Config d' (<[i := settle n]> ts') (Event i p n :: l)).
Proof.
  intros (Hf & Hr & Hw & Hq) Hi Hs Hseg Hn. cbn in *.
  assert (wf s) as Hwf by (by eapply Forall_lookup_1).
  assert (∀ s', wf s' → Forall wf (<[i := s']> ts')) as Hf' by (intros; by eapply run_Forall; [apply wr_wf_woken|..]).
  assert (∀ P, (∀ c pc, P (Blocked c pc) = P (Woken pc)) → ∀ s',
    cnt P (<[i := s']> ts') = cnt P ts - Z.b2z (P s) + Z.b2z (P s')) as Hcnt.
  { intros P HP s'. eapply run_cnt; [done|exact Hn|exact Hi|]. by destruct Hs as [->| ->]. }
  destruct Hs as [-> | ->], p; cbn in Hwf; try (by destruct Hwf); cbn in Hseg;
    unfold r_lock, r_lock2, r_unlock, w_lock, w_lock2, w_unlock, w_enter in Hseg; seg_cases Hseg;
    (split; [apply Hf'; cbn; auto|]); cbn; rewrite !Hcnt by (by intros [] []); cbn; lia.
Qed.

Lemma counters_step md k k' : counters k → mstep seg entry md k k' → counters k'.
Proof.
  intros Hc Hs. destruct Hs as [i r p d ts l Hi He|i p d ts ts' l d' ns n Hi _ Hseg Hn|i p d ts ts' l d' ns n Hi Hseg Hn|i c p d ts l _ Hi].
  - destruct Hc as (Hf & Hr & Hw & Hq). cbn in *. assert (wf (At p)) as Hp by (by destruct r, p).
    split; [by apply Forall_insert|]. cbn. rewrite !(cnt_insert _ _ _ _ _ Hi). destruct r, p; cbn; try done; lia.
  - eapply (counters_seg i (At p)); eauto.
  - eapply (counters_seg i (Woken p)); eauto.
  - destruct Hc as (Hf & Hr & Hw & Hq). cbn in *. assert (wf (Blocked c p)) as Hp by (by eapply Forall_lookup_1).
    split; [apply Forall_insert; [done|by eapply wr_wf_woken]|]. cbn. rewrite !(cnt_insert _ _ _ _ _ Hi). destruct p; cbn; lia.
Qed.

(** ** Exclusion, when a woken thread is next *)

(** Who may be woken: nobody, one writer of an empty lock, or readers only. *)
Definition woken_ok (k : config) : Prop :=
  no_woken (threads k) ∨
  (write_cnt (data k) = 0 ∧ read_cnt (data k) = 0 ∧
     ∃ i, ∀ j p, threads k !! j = Some (Woken p) → j = i ∧ p = WLock2) ∨
  (write_cnt (data k) = 0 ∧ ∀ j p, threads k !! j = Some (Woken p) → p = RLock2).

Definition excl (k : config) : Prop :=
  write_cnt (data k) ≤ 1 ∧ (0 < write_cnt (data k) → read_cnt (data k) = 0).

Definition winv (k : config) : Prop := counters k ∧ excl k ∧ woken_ok k.

(** The threads woken by one signal to the writers, and by a broadcast. *)
Lemma signal_writer ts ts' :
  notify [Signal w_cond] ts ts' → Forall wf ts → no_woken ts →
  ∃ i, ∀ j p, ts' !! j = Some (Woken p) → j = i ∧ p = WLock2.
Proof.
  intros Hn Hf Hno. destruct (signal_woken _ _ _ Hn) as [Hs|[i Hs]]; [exists 0%nat|exists i]; intros j p Hj.
  - by destruct (Hno j p (Hs j p Hj)).
  - destruct (Hs j p Hj) as [?|[-> Hb]]; [by destruct (Hno j p)|]. split; [done|].
    assert (wf (Blocked w_cond p)) as Hw by (by eapply Forall_lookup_1). cbn in Hw. by destruct Hw as [[? _]|[_ ->]].
Qed.

Lemma broadcast_readers ts ts' j p :
  notify [Broadcast r_cond] ts ts' → Forall wf ts → no_woken ts → ts' !! j = Some (Woken p) → p = RLock2.
Proof.
  intros Hn Hf Hno Hj. destruct (broadcast_woken _ _ _ _ _ Hn Hj) as [?|Hb]; [by destruct (Hno j p)|].
  assert (wf (Blocked r_cond p)) as Hw by (by eapply Forall_lookup_1). cbn in Hw. by destruct Hw as [[_ ->]|[? _]].
Qed.

(** A segment started while nobody is woken. *)
Lemma winv_run i p d ts ts' l d' ns n :
  winv (Config d ts l) → no_woken ts → ts !! i = Some (At p) →
  seg p d = Some (Result d' ns n) → notify ns ts ts' →
  excl (Config d' (<[i := settle n]> ts') (Event i p n :: l)) ∧
  woken_ok (Config d' (<[i := settle n]> ts') (Event i p n :: l)).
Proof.
  intros ((Hf & Hr & Hw & Hq) & [Hx1 Hx2] & _) Hno Hi Hseg Hn. cbn in *.
  assert (wf (At p)) as Hwf by (by eapply Forall_lookup_1).
  pose proof (cnt_nonneg inside_r ts) as Hr0. pose proof (cnt_nonneg inside_w ts) as Hw0.
  pose proof (λ j q, insert_woken ts' i (settle n) j q (settle_woken n)) as Hin.
  assert (Hquiet : ts' = ts → no_woken (<[i := settle n]> ts')).
  { intros -> j q Hj. destruct (Hin j q Hj) as [Hj' _]. by apply (Hno j q). }
  destruct p; cbn in Hwf; try (by destruct Hwf); cbn in Hseg;
    unfold r_lock, r_lock2, r_unlock, w_lock, w_unlock, w_enter in Hseg; seg_cases Hseg; unfold excl, woken_ok; cbn in *.
  - split; [done|]. left. apply Hquiet. by inversion Hn.
  - bool_solve. split; [lia|]. left. apply Hquiet. by inversion Hn.
  - assert (0 < cnt inside_r ts) as Hpos by (by eapply cnt_in). split; [lia|].
    destruct ((0 <? write_wait d) && (read_cnt d - 1 =? 0)) eqn:B1; [right; left|destruct ((write_wait d =? 0) && _); [right; right|left]].
    + bool_solve. split_and!; [lia|lia|]. destruct (signal_writer _ _ Hn Hf Hno) as [i0 Hi0]. exists i0.
      intros j q Hj. apply Hi0. by apply Hin.
    + split; [lia|]. intros j q Hj. eapply broadcast_readers; [done..|]. by apply Hin.
    + apply Hquiet. by inversion Hn.
  - split; [done|]. left. apply Hquiet. by inversion Hn.
  - bool_solve. split; [lia|]. left. apply Hquiet. by inversion Hn.
  - assert (0 < cnt inside_w ts) as Hpos by (by eapply cnt_in). split; [lia|].
    destruct (0 <? write_wait d); [right; left|destruct (write_wait d =? 0); [right; right|left]].
    + split_and!; [lia|lia|]. destruct (signal_writer _ _ Hn Hf Hno) as [i0 Hi0]. exists i0.
      intros j q Hj. apply Hi0. by apply Hin.
    + split; [lia|]. intros j q Hj. eapply broadcast_readers; [done..|]. by apply Hin.
    + apply Hquiet. by inversion Hn.
Qed.

(** The rest of a lock operation, run by a woken thread. *)
Lemma winv_resume i p d ts ts' l d' ns n :
  winv (Config d ts l) → ts !! i = Some (Woken p) →
  seg p d = Some (Result d' ns n) → notify ns ts ts' →
  excl (Config d' (<[i := settle n]> ts') (Event i p n :: l)) ∧
  woken_ok (Config d' (<[i := settle n]> ts') (Event i p n :: l)).
Proof.
  intros ((Hf & Hr & Hw & Hq) & [Hx1 Hx2] & Hwo) Hi Hseg Hn. cbn in *.
  pose proof (λ j q, insert_woken ts' i (settle n) j q (settle_woken n)) as Hin.
  destruct Hwo as [Hno|[(Hw0 & Hr0 & i0 & Hi0)|(Hw0 & Hall)]]; cbn in *; [by destruct (Hno i p)|..].
  - destruct (Hi0 i p Hi) as [-> ->]. cbn in Hseg. unfold w_lock2, w_enter in Hseg. seg_cases Hseg. inversion Hn; subst.
    unfold excl, woken_ok. cbn. split; [lia|]. left. intros j q Hj. destruct (Hin j q Hj) as [Hj' Hne]. by destruct (Hi0 j q Hj').
  - pose proof (Hall i p Hi) as ->. cbn in Hseg. unfold r_lock2 in Hseg. seg_cases Hseg. inversion Hn; subst.
    unfold excl, woken_ok. cbn. split; [lia|]. right; right. split; [done|]. intros j q Hj. apply (Hall j q). by apply Hin.
Qed.

Lemma winv_step k k' : winv k → mstep seg entry (Mode false false) k k' → winv k'.
Proof.
  intros HI Hs. split; [eapply counters_step; [apply HI|done]|].
  destruct Hs as [i r p d ts l Hi He|i p d ts ts' l d' ns n Hi [?|Hno] Hseg Hn|i p d ts ts' l d' ns n Hi Hseg Hn|]; [|done| | |done].
  - destruct HI as (_ & Hx & Hwo). split; [done|]. unfold woken_ok, no_woken in *. cbn in *.
    pose proof (λ j q, insert_woken ts i (At p) j q ltac:(done)) as Hin.
    destruct Hwo as [Hno|[(Hw0 & Hr0 & i0 & Hi0)|(Hw0 & Hall)]].
    + left. intros j q Hj. apply (Hno j q). by apply Hin.
    + right; left. split_and!; [done..|]. exists i0. intros j q Hj. apply Hi0. by apply Hin.
    + right; right. split; [done|]. intros j q Hj. apply (Hall j q). by apply Hin.
  - by apply (winv_run i p d ts ts' l d' ns n).
  - by apply (winv_resume i p d ts ts' l d' ns n).
Qed.

Lemma winv_start n : winv (start n).
Proof.
  assert (no_woken (threads (start n))) as Hno by (intros i p Hi; cbn in Hi; apply lookup_replicate in Hi as [? _]; done).
  split; [|split; [split; [done|done]|by left]]. split; [by apply Forall_replicate|]. cbn. by rewrite !wr_start_cnt.
Qed.

(** Every run that POSIX allows, with [b] steps at most in which a waiter wakes up
    without a signal or a thread takes the mutex ahead of a signalled one. *)
Definition posix_reach (n : nat) : nat → config → Prop := mreach_irr seg entry (Mode false false) (start n).

Lemma posix_counters n b k : posix_reach n b k → counters k.
Proof.
  apply (mreach_irr_inv _ _ _ _ (λ _, counters)); [apply winv_start|..]; intros _ k1 k2; apply counters_step.
Qed.

(** C24. The writer-preferring lock.  In every run that POSIX allows, of any number
    of threads, its counters are exactly the numbers of readers inside, of
    writers inside and of writers that wait.  In the runs in which no waiter
    wakes up without a signal and no thread takes the mutex ahead of a signalled
    one, there is at most one writer inside, and no reader together with a
    writer. *)
Theorem wpref_excludes n b k :
  posix_reach n b k →
  read_cnt (data k) = cnt inside_r (threads k) ∧ write_cnt (data k) = cnt inside_w (threads k) ∧
  write_wait (data k) = cnt queued_w (threads k) ∧
  (b = 0%nat → cnt inside_w (threads k) ≤ 1 ∧ (0 < cnt inside_w (threads k) → cnt inside_r (threads k) = 0)).
Proof.
  intros Hr. destruct (posix_counters n b k Hr) as (_ & Er & Ew & Eq). split_and!; [done..|]. intros ->. rewrite <- Er, <- Ew.
  assert (winv k) as (_ & Hx & _); [|done]. apply mreach_irr_0 in Hr. revert k Hr Er Ew Eq. intros k Hr _ _ _. revert k Hr.
  apply mreach_inv; [apply winv_start|]. intros k k' Hk. by apply winv_step.
Qed.

Definition demo_choices : list (choice rpc) :=
  [Start 0 RLock; Run 0 []; Start 1 WLock; Run 1 []; Start 0 RUnlock; Run 0 [1%nat]; Run 1 []].
Lemma wpref_excludes_witness :
  ∃ k, mrun seg entry (Mode false false) demo_choices (start 3) = Some k ∧
    cnt inside_w (threads k) ≤ 1 ∧ cnt inside_w (threads k) = 1.
Proof.
  eexists. split; [vm_compute; reflexivity|]. split; [|vm_compute; reflexivity].
  apply (wpref_excludes 3 0); [|done]. eapply mirr_trans; [apply mirr_0|].
  apply (mrun_sound _ _ _ demo_choices). vm_compute. reflexivity.
Defined.
