(* ===== verification/RwlockR.v ===== *)
(** * The reader-preferring lock of hw4/2 (rw_lock-r-test.c)

    Its operations, and runs of both locks that let conflicting threads in. *)

From S2P Require Import Prelude Monitor Rwlock RwlockW.

(** [init_rwlock], src/hw4/2/rw_lock-r-test.c:3-13
    [w] is what write_wait held before; it is not set. *)
Definition init_rwlock (w : Z) : rw_lock := RwLock 0 w 0.

(** [r_lock], src/hw4/2/rw_lock-r-test.c:15-22 *)
Definition r_lock (rw : rw_lock) : option res :=
  n ← chk (read_cnt rw + 1); Some (Result (set_read n rw) [] (Leave Reader)).

(** [r_unlock], src/hw4/2/rw_lock-r-test.c:24-35 *)
Definition r_unlock (rw : rw_lock) : option res :=
  n ← chk (read_cnt rw - 1);
  Some (Result (set_read n rw) (if n =? 0 then [Signal r_cond] else []) (Leave Outside)).

(** [w_lock: after the wait], src/hw4/2/rw_lock-r-test.c:44-47 *)
Definition w_lock2 (rw : rw_lock) : option res :=
  n ← chk (write_cnt rw + 1); Some (Result (set_write n rw) [] (Leave Writer)).

(** [w_lock], src/hw4/2/rw_lock-r-test.c:37-47 *)
Definition w_lock (rw : rw_lock) : option res :=
  if (0 <? read_cnt rw) || (0 <? write_cnt rw) then Some (Result rw [] (Block r_cond WLock2))
  else w_lock2 rw.

(** [w_unlock], src/hw4/2/rw_lock-r-test.c:49-59 *)
Definition w_unlock (rw : rw_lock) : option res :=
  n ← chk (write_cnt rw - 1);
  Some (Result (set_write n rw) (if n =? 0 then [Signal r_cond] else []) (Leave Outside)).

Definition seg (p : rpc) : rw_lock → option res :=
  match p with
  | RLock => r_lock | RUnlock => r_unlock | WLock => w_lock | WLock2 => w_lock2 | WUnlock => w_unlock
  | RLock2 => λ _, None (* r_lock does not wait *)
  end.
Definition start (n : nat) : config := Config (init_rwlock 0) (replicate n (Rest Outside)) [].
Definition reach (md : mode) (n : nat) : config → Prop := mreach seg entry md (start n).


(** C38. Both locks let conflicting threads in.  The writer-preferring lock does
    so when a new writer gets the mutex between the signal and the woken
    writer, which does not test the counters again: two writers are inside.
    The reader-preferring lock never looks at the writers in r_lock: even if
    signalled threads go first, a reader joins a writer. *)
Theorem rwlocks_admit_conflict :
  (∃ k, RwlockW.reach (Mode false true) 3 k ∧ cnt inside_w (threads k) = 2) ∧
  (∃ k, reach (Mode false false) 2 k ∧ cnt inside_w (threads k) = 1 ∧ cnt inside_r (threads k) = 1).
Proof.
  split; eexists.
  - split; [apply (mrun_sound _ _ _ [Start 0 RLock; Run 0 []; Start 1 WLock; Run 1 []; Start 0 RUnlock; Run 0 [1%nat];
      Start 2 WLock; Run 2 []; Run 1 []]); vm_compute; reflexivity|vm_compute; reflexivity].
  - split; [apply (mrun_sound _ _ _ [Start 0 WLock; Run 0 []; Start 1 RLock; Run 1 []]); vm_compute; reflexivity|].
    split; vm_compute; reflexivity.
Qed.

