(* ===== verification/MasterWorker.v ===== *)
(** * Masters and workers around a bounded buffer (hw4/1, master-worker.c)

    [Gen id] and [Con id] are the tops of the two loops; [Gen2], [Con2] and
    [Con3] are the points after their three calls of [pthread_cond_wait]. *)

From S2P Require Import Prelude Monitor.

Inductive line := Produced (num master : Z) | Consumed (num worker : Z).

(** [the global variables], src/hw4/1/master-worker.c:10-13
    [printed] is what went to standard output, newest first. *)
Record shared := Shared {
  item_to_produce : Z; curr_buf_size : Z; consume_cnt : Z;
  total_items : Z; max_buf_size : Z;
  buffer : list Z; printed : list line
}.

Inductive mpc := Gen (id : Z) | Gen2 (id : Z) | Con (id : Z) | Con2 (id : Z) | Con3 (id : Z).
Inductive mcond := produce | consume.
#[global] Instance mcond_eq_dec : EqDecision mcond.
Proof. solve_decision. Defined.

Abbreviation res := (result shared mpc mcond unit).
Abbreviation config := (config shared mpc mcond unit).
Abbreviation status := (status mpc mcond unit).

(** [buffer[i] = x], absent outside the buffer. *)
Definition store (i x : Z) (b : list Z) : option (list Z) :=
  match getZ b i with Some _ => Some (setZ b i x) | None => None end.

(** [generate_requests_loop: from the test for the end], src/hw4/1/master-worker.c:52-67 *)
Definition gen_body (id : Z) (d : shared) : option res :=
  if total_items d <=? item_to_produce d then Some (Result d [Broadcast produce] (Leave tt))
  else
    b ← store (curr_buf_size d) (item_to_produce d) (buffer d);
    c ← chk (curr_buf_size d + 1);
    n ← chk (item_to_produce d + 1);
    Some (Result (Shared n c (consume_cnt d) (total_items d) (max_buf_size d) b
                         (Produced (item_to_produce d) id :: printed d))
            [Signal consume] (Go (Gen id))).

(** [generate_requests_loop], src/hw4/1/master-worker.c:34-69 *)
Definition generate (id : Z) (d : shared) : option res :=
  if max_buf_size d <=? curr_buf_size d then Some (Result d [] (Block produce (Gen2 id)))
  else gen_body id d.

(** [consume_requests_loop: the last steps of a round], src/hw4/1/master-worker.c:111-113 *)
Definition con_end (id : Z) (d : shared) : option res := Some (Result d [Signal produce] (Go (Con id))).

(** [consume_requests_loop: from the test for the end], src/hw4/1/master-worker.c:92-113 *)
Definition con_body (id : Z) (d : shared) : option res :=
  if consume_cnt d =? total_items d then Some (Result d [Broadcast consume] (Leave tt))
  else if curr_buf_size d <=? 0 then Some (Result d [] (Block consume (Con3 id)))
  else
    let c := curr_buf_size d - 1 in
    item ← getZ (buffer d) c;
    b ← store c (-1) (buffer d);
    n ← chk (consume_cnt d + 1);
    con_end id (Shared (item_to_produce d) c n (total_items d) (max_buf_size d) b (Consumed item id :: printed d)).

(** [consume_requests_loop], src/hw4/1/master-worker.c:74-115 *)
Definition consume_loop (id : Z) (d : shared) : option res :=
  if (curr_buf_size d <=? 0) && (consume_cnt d <? total_items d) then Some (Result d [] (Block consume (Con2 id)))
  else con_body id d.

Definition seg (p : mpc) : shared → option res :=
  match p with
  | Gen id => generate id | Gen2 id => gen_body id
  | Con id => consume_loop id | Con2 id => con_body id | Con3 id => con_end id
  end.
Definition entry (_ : unit) (_ : mpc) : bool := false.

(** [main: starting the threads], src/hw4/1/master-worker.c:123-160
    [mem] is what malloc returned for the buffer. *)
Definition start (total size : Z) (masters workers : nat) (mem : list Z) : config :=
  Config (Shared 0 0 0 total size mem [])
    (((λ i, At (Gen (Z.of_nat i))) <$> seq 0 masters) ++ ((λ i, At (Con (Z.of_nat i))) <$> seq 0 workers)) [].

(** ** No item is lost or duplicated *)

Definition consumed (l : list line) : list Z :=
  omap (λ x, match x with Consumed n _ => Some n | _ => None end) l.

Record dinv (d : shared) : Prop := {
  d_len : lenZ (buffer d) = max_buf_size d;
  d_curr : 0 ≤ curr_buf_size d ≤ max_buf_size d;
  d_item : 0 ≤ item_to_produce d ≤ total_items d;
  d_cnt : consume_cnt d = lenZ (consumed (printed d));
  d_perm : consumed (printed d) ++ take (Z.to_nat (curr_buf_size d)) (buffer d) ≡ₚ seqZ 0 (item_to_produce d)
}.

Lemma dinv_sum d : dinv d → item_to_produce d = consume_cnt d + curr_buf_size d.
Proof.
  intros [Hl Hc Hi Hn Hp]. apply Permutation_length in Hp.
  rewrite length_app, length_seqZ, length_take in Hp. unfold lenZ in *. lia.
Qed.

Lemma store_Some i x b b' : store i x b = Some b' → 0 ≤ i < lenZ b ∧ b' = setZ b i x.
Proof. unfold store. destruct (getZ b i) eqn:E; [|done]. intros [= <-]. split; [by eapply getZ_Some_range|done]. Qed.

Lemma take_setZ (b : list Z) c x : 0 ≤ c < lenZ b → take (Z.to_nat (c + 1)) (setZ b c x) = take (Z.to_nat c) b ++ [x].
Proof.
  intros Hc. unfold setZ, lenZ in *. rewrite (proj2 (Z.leb_le _ _)) by lia.
  replace (Z.to_nat (c + 1)) with (S (Z.to_nat c)) by lia.
  erewrite take_S_r by (apply list_lookup_insert_eq; lia). by rewrite take_insert_ge by lia.
Qed.

Lemma take_getZ (b : list Z) c x : 0 < c → getZ b (c - 1) = Some x → take (Z.to_nat c) b = take (Z.to_nat (c - 1)) b ++ [x].
Proof.
  intros Hc Hx. unfold getZ in Hx. rewrite (proj2 (Z.leb_le _ _)) in Hx by lia.
  replace (Z.to_nat c) with (S (Z.to_nat (c - 1))) by lia. by apply take_S_r.
Qed.

Lemma seqZ_snoc n : 0 ≤ n → seqZ 0 (n + 1) = seqZ 0 n ++ [n].
Proof.
  intros Hn. replace (n + 1) with (Z.of_nat (S (Z.to_nat n))) by lia. rewrite seqZ_S.
  by replace (Z.of_nat (Z.to_nat n)) with n by lia.
Qed.

Lemma gen_body_dinv id d d' ns n : dinv d → gen_body id d = Some (Result d' ns n) → dinv d'.
Proof.
  intros HI Hseg. unfold gen_body in Hseg. destruct (Z.leb_spec (total_items d) (item_to_produce d)); [by injection Hseg as <- _ _|].
  destruct (store _ _ _) as [b|] eqn:Hb; [|done]. apply store_Some in Hb as [Hc ->]. cbn in Hseg.
  destruct (chk (curr_buf_size d + 1)) as [c|] eqn:Hk; [|done]. apply chk_Some in Hk as ->. cbn in Hseg.
  destruct (chk (item_to_produce d + 1)) as [m|] eqn:Hk; [|done]. apply chk_Some in Hk as ->. cbn in Hseg.
  injection Hseg as <- _ _. destruct HI as [Hl Hcu Hi Hn Hp]. constructor; cbn; [by rewrite lenZ_setZ|lia|lia|done|].
  rewrite take_setZ by done. rewrite seqZ_snoc by lia. rewrite app_assoc. by apply Permutation_app_tail.
Qed.

Lemma con_body_dinv id d d' ns n : dinv d → con_body id d = Some (Result d' ns n) → dinv d'.
Proof.
  intros HI Hseg. unfold con_body in Hseg. destruct (_ =? _); [by injection Hseg as <- _ _|].
  destruct (Z.leb_spec (curr_buf_size d) 0); [by injection Hseg as <- _ _|].
  destruct (getZ _ _) as [x|] eqn:Hx; [|done]. cbn in Hseg.
  destruct (store _ _ _) as [b|] eqn:Hb; [|done]. apply store_Some in Hb as [Hc ->]. cbn in Hseg.
  destruct (chk _) as [m|] eqn:Hk; [|done]. apply chk_Some in Hk as ->. cbn in Hseg. injection Hseg as <- _ _.
  destruct HI as [Hl Hcu Hi Hn Hp]. constructor; cbn [buffer max_buf_size curr_buf_size item_to_produce total_items consume_cnt printed];
    change (consumed (Consumed x id :: printed d)) with (x :: consumed (printed d)); [by rewrite lenZ_setZ|lia|lia|rewrite Hn; unfold lenZ; cbn [length]; lia|].
  rewrite <- Hp, (take_getZ (buffer d) (curr_buf_size d) x) by done.
  unfold setZ. rewrite (proj2 (Z.leb_le _ _)) by lia. rewrite take_insert_ge by done.
  rewrite app_assoc. apply Permutation_cons_append.
Qed.

Lemma seg_dinv p d d' ns n : dinv d → seg p d = Some (Result d' ns n) → dinv d'.
Proof.
  intros HI Hseg. destruct p as [id|id|id|id|id]; cbn in Hseg; unfold generate, consume_loop in Hseg.
  - destruct (_ <=? _); [by injection Hseg as <- _ _|]. by eapply gen_body_dinv.
  - by eapply gen_body_dinv.
  - destruct (_ && _); [by injection Hseg as <- _ _|]. by eapply con_body_dinv.
  - by eapply con_body_dinv.
  - by injection Hseg as <- _ _.
Qed.

(** A worker has returned. *)
Definition worker_left (k : config) : Prop :=
  ∃ e, e ∈ log k ∧ enext e = Leave tt ∧ match epc e with Con _ | Con2 _ | Con3 _ => True | _ => False end.

Lemma seg_totals p d d' ns n :
  seg p d = Some (Result d' ns n) → dinv d → total_items d' = total_items d ∧ max_buf_size d' = max_buf_size d ∧
  consume_cnt d ≤ consume_cnt d' ∧
  (n = Leave tt → match p with Con _ | Con2 _ | Con3 _ => consume_cnt d' = total_items d' | _ => True end).
Proof.
  intros Hseg _. destruct p as [id|id|id|id|id]; cbn in Hseg; unfold generate, consume_loop, gen_body, con_body, con_end in Hseg;
    repeat match type of Hseg with
    | context [if ?b then _ else _] => destruct b eqn:?
    | context [store ?a ?x ?b] => destruct (store a x b)
    | context [getZ ?a ?x] => destruct (getZ a x)
    | context [chk ?a] => let E := fresh "E" in destruct (chk a) eqn:E; [apply chk_Some in E as ->|]
    end; cbn in Hseg; try done; injection Hseg as <- <- <-; cbn; split_and!; try done; try lia; intros _; bool_solve.
Qed.

Definition ginv (total size : Z) (k : config) : Prop :=
  dinv (data k) ∧ total_items (data k) = total ∧ max_buf_size (data k) = size ∧
  (worker_left k → consume_cnt (data k) = total).

Lemma ginv_seg total size i p d ts ts' l d' ns n :
  ginv total size (Config d ts l) → seg p d = Some (Result d' ns n) →
  ginv total size (Config d' ts' (Event i p n :: l)).
Proof.
  intros (HI & Ht & Hm & Hw) Hseg. cbn in *. pose proof (seg_dinv _ _ _ _ _ HI Hseg) as HI'.
  destruct (seg_totals _ _ _ _ _ Hseg HI) as (Ht' & Hm' & Hc & Hl). split_and!; [done|cbn; congruence|cbn; congruence|].
  intros (e & He & Hn & Hp). cbn in He |- *. apply elem_of_cons in He as [->|He].
  - cbn in Hn, Hp. specialize (Hl Hn). destruct p; try done; congruence.
  - assert (consume_cnt d = total) as Hd by (apply Hw; by exists e).
    pose proof (dinv_sum d' HI'). destruct HI' as [_ ? ? _ _]. lia.
Qed.

Lemma ginv_step total size md k k' : ginv total size k → mstep seg entry md k k' → ginv total size k'.
Proof.
  intros HI Hs. destruct Hs as [| i p d ts ts' l d' ns n _ _ Hseg _|i p d ts ts' l d' ns n _ Hseg _|].
  - done.
  - by eapply ginv_seg.
  - by eapply ginv_seg.
  - done.
Qed.

Lemma ginv_start total size masters workers mem :
  0 ≤ total → lenZ mem = size → ginv total size (start total size masters workers mem).
Proof.
  intros Ht Hm. split_and!; [|done|done|].
  - constructor; cbn; try done; unfold lenZ in *; lia.
  - intros (e & He & _). by apply elem_of_nil in He.
Qed.

(** C22. No item is lost and none is consumed twice, whatever the interleaving,
    with spurious wakeups and barging: the items consumed so far and those in
    the buffer are together exactly the items produced, each once, and
    consume_cnt counts the consumed ones.  When a worker returns, all items
    0 .. total-1 have been consumed, each exactly once. *)
Theorem items_conserved md total size masters workers mem k :
  0 ≤ total → lenZ mem = size → mreach seg entry md (start total size masters workers mem) k →
  consumed (printed (data k)) ++ take (Z.to_nat (curr_buf_size (data k))) (buffer (data k))
    ≡ₚ seqZ 0 (item_to_produce (data k)) ∧
  consume_cnt (data k) = lenZ (consumed (printed (data k))) ∧
  (worker_left k → consumed (printed (data k)) ≡ₚ seqZ 0 total).
Proof.
  intros Ht Hm Hr. assert (ginv total size k) as (HI & Htot & _ & Hw).
  { revert k Hr. apply mreach_inv; [by apply ginv_start|]. intros k k' Hk. by apply ginv_step. }
  pose proof (dinv_sum _ HI) as Hsum. destruct HI as [Hl Hc Hi Hn Hp]. split_and!; [done..|].
  intros Hd%Hw. assert (curr_buf_size (data k) = 0) as H0 by lia. rewrite H0 in Hp. cbn in Hp.
  rewrite app_nil_r in Hp. by replace total with (item_to_produce (data k)) by lia.
Qed.

Definition demo_choices : list (choice mpc) := [Run 1 []; Run 0 [1%nat]; Run 1 []; Run 1 []].
Definition demo_end : config := Eval vm_compute in
  default (start 1 1 1 1 [7]) (mrun seg entry (Mode false true) demo_choices (start 1 1 1 1 [7])).
Lemma demo_left : worker_left demo_end.
Proof. eexists. split; [by left|done]. Qed.
Lemma items_conserved_witness : consumed (printed (data demo_end)) ≡ₚ seqZ 0 1.
Proof.
  apply (items_conserved (Mode false true) 1 1 1 1 [7]); [lia|done| |exact demo_left].
  apply (mrun_sound _ _ _ demo_choices). vm_compute. reflexivity.
Defined.

(** ** The buffer bound, when a woken thread is next *)

Definition wf (s : status) : Prop :=
  match s with
  | Blocked produce (Gen2 _) | Blocked consume (Con2 _) | Woken (Gen2 _) | Woken (Con2 _) | At (Gen _) | At (Con _) | Rest _ => True
  | _ => False
  end.

Lemma wf_woken c p : wf (Blocked c p) → wf (Woken p).
Proof. by destruct c, p. Qed.

(** What a woken thread can rely on. *)
Definition ready (d : shared) (p : mpc) : Prop :=
  match p with
  | Gen2 _ => curr_buf_size d < max_buf_size d ∨ total_items d ≤ item_to_produce d
  | Con2 _ => 0 < curr_buf_size d ∨ consume_cnt d = total_items d
  | _ => False
  end.

(** The thread will find that it can return. *)
Definition finished (d : shared) (p : mpc) : Prop :=
  match p with
  | Gen2 _ => total_items d ≤ item_to_produce d
  | Con2 _ => consume_cnt d = total_items d
  | _ => False
  end.

(** Either at most one thread is woken, or the work is done. *)
Definition woken_ok (d : shared) (ts : list status) : Prop :=
  (∀ j p, ts !! j = Some (Woken p) → ready d p) ∧
  ((∃ i, ∀ j p, ts !! j = Some (Woken p) → j = i) ∨
   (∀ j p, ts !! j = Some (Woken p) → finished d p)).

(** What a segment does when it may rely on that. *)
Inductive ends (d : shared) : shared → list (note mcond) → next mpc mcond unit → Prop :=
  | ends_wait c p : wf (Blocked c p) → ends d d [] (Block c p)
  | ends_produce : total_items d ≤ item_to_produce d → ends d d [Broadcast produce] (Leave tt)
  | ends_consume : consume_cnt d = total_items d → ends d d [Broadcast consume] (Leave tt)
  | ends_produced d' id : 0 < curr_buf_size d' → ends d d' [Signal consume] (Go (Gen id))
  | ends_consumed d' id : curr_buf_size d' < max_buf_size d' → ends d d' [Signal produce] (Go (Con id)).

Definition small (d : shared) : Prop := total_items d < 2 ^ 31 ∧ max_buf_size d < 2 ^ 31.

Lemma chk_ok z : - 2 ^ 31 ≤ z < 2 ^ 31 → chk z = Some z.
Proof. intros. unfold chk. by rewrite (proj2 (Z.leb_le _ _)), (proj2 (Z.ltb_lt _ _)) by lia. Qed.

Lemma mw_store_ok i x b : 0 ≤ i < lenZ b → store i x b = Some (setZ b i x).
Proof. intros Hi. unfold store. by destruct (getZ_is_Some b i Hi) as [y ->]. Qed.

Lemma gen_body_ends id d :
  dinv d → small d → ready d (Gen2 id) → ∃ d' ns n, gen_body id d = Some (Result d' ns n) ∧ ends d d' ns n.
Proof.
  intros HI [Ht Hm] Hr. destruct HI as [Hl Hc Hi _ _]. unfold gen_body.
  destruct (Z.leb_spec (total_items d) (item_to_produce d)).
  { do 3 eexists. split; [done|]. by apply ends_produce. }
  destruct Hr as [Hr|]; [|lia]. rewrite mw_store_ok by lia. cbn. rewrite !chk_ok by lia. cbn.
  do 3 eexists. split; [done|]. apply ends_produced. cbn. lia.
Qed.

Lemma con_body_ends id d :
  dinv d → small d → ready d (Con2 id) → ∃ d' ns n, con_body id d = Some (Result d' ns n) ∧ ends d d' ns n.
Proof.
  intros HI [Ht Hm] Hr. pose proof (dinv_sum d HI) as Hsum. destruct HI as [Hl Hc Hi Hn _]. unfold con_body.
  destruct (Z.eqb_spec (consume_cnt d) (total_items d)).
  { do 3 eexists. split; [done|]. by apply ends_consume. }
  destruct Hr as [Hr|]; [|lia]. rewrite (proj2 (Z.leb_gt _ _)) by lia.
  destruct (getZ_is_Some (buffer d) (curr_buf_size d - 1)) as [x ->]; [lia|]. cbn.
  rewrite mw_store_ok by lia. cbn. unfold lenZ in Hn. rewrite chk_ok by lia. cbn.
  do 3 eexists. split; [done|]. apply ends_consumed. cbn. lia.
Qed.

Definition can_run (d : shared) (s : status) (p : mpc) : Prop :=
  (s = At p ∧ wf (At p)) ∨ (s = Woken p ∧ ready d p).

Lemma seg_ends d s p :
  dinv d → small d → can_run d s p → ∃ d' ns n, seg p d = Some (Result d' ns n) ∧ ends d d' ns n.
Proof.
  intros HI Hs [[_ Hw]|[_ Hr]]; destruct p as [id|id|id|id|id]; try done; cbn [seg].
  - unfold generate. destruct (Z.leb_spec (max_buf_size d) (curr_buf_size d)).
    { do 3 eexists. split; [done|]. by apply ends_wait. }
    apply gen_body_ends; [done|done|]. left. lia.
  - unfold consume_loop. pose proof (dinv_sum d HI). destruct HI as [? ? ? ? ?].
    destruct ((_ <=? 0) && _) eqn:Hb.
    { do 3 eexists. split; [done|]. by apply ends_wait. }
    apply con_body_ends; [done|done|]. cbn.
    apply andb_false_iff in Hb as [Hb|Hb]; [left|right]; bool_solve.
  - by apply gen_body_ends.
  - by apply con_body_ends.
Qed.

Definition quiet (i : nat) (ts : list status) : Prop := ∀ j p, ts !! j = Some (Woken p) → j = i.

Lemma finished_ready d p : finished d p → ready d p.
Proof. destruct p; cbn; auto. Qed.

Lemma finished_ok d ts : (∀ j p, ts !! j = Some (Woken p) → finished d p) → woken_ok d ts.
Proof. intros Hf. split; [intros j p Hj; by eapply finished_ready, Hf|]. right. exact Hf. Qed.

(** After a segment run while no other thread is woken. *)
Lemma quiet_seg i d ts ts' d' ns n :
  quiet i ts → Forall wf ts → ends d d' ns n → notify ns ts ts' → woken_ok d' (<[i := settle n]> ts').
Proof.
  intros Hq Hf He Hn. pose proof (λ j q, insert_woken ts' i (settle n) j q (settle_woken n)) as Hin.
  assert (Hwf : ∀ c j p, ts !! j = Some (Blocked c p) → wf (Blocked c p)) by (intros; by eapply Forall_lookup_1).
  assert (Hold : ∀ j p, ts !! j = Some (Woken p) → j ≠ i → False) by (intros j p Hj Hne; by apply Hne, (Hq j p)).
  assert (Hone : ∀ c, ns = [Signal c] → (∀ p, wf (Blocked c p) → ready d' p) → woken_ok d' (<[i := settle n]> ts')).
  { intros c -> Hrdy. destruct (signal_woken _ _ _ Hn) as [Hs|[i0 Hs]].
    - apply finished_ok. intros j p Hj. destruct (Hin j p Hj) as [Hj' Hne]. exfalso. by eapply Hold; [apply Hs|].
    - split; [|left; exists i0]; intros j p Hj; destruct (Hin j p Hj) as [Hj' Hne];
        destruct (Hs j p Hj') as [?|[-> Hb]]; [exfalso; by eapply Hold|by eapply Hrdy, Hwf|exfalso; by eapply Hold|done]. }
  assert (Hall : ∀ c, ns = [Broadcast c] → (∀ p, wf (Blocked c p) → finished d' p) → woken_ok d' (<[i := settle n]> ts')).
  { intros c -> Hfin. apply finished_ok. intros j p Hj. destruct (Hin j p Hj) as [Hj' Hne].
    destruct (broadcast_woken _ _ _ _ _ Hn Hj') as [?|Hb]; [exfalso; by eapply Hold|by eapply Hfin, Hwf]. }
  destruct He.
  - inversion Hn; subst. apply finished_ok. intros j q Hj. destruct (Hin j q Hj) as [Hj' Hne]. exfalso. by eapply Hold.
  - apply (Hall produce); [done|]. by intros [].
  - apply (Hall consume); [done|]. by intros [].
  - apply (Hone consume); [done|]. intros []; try done. by left.
  - apply (Hone produce); [done|]. intros []; try done. by left.
Qed.

(** A thread woken at the end of the work leaves. *)
Lemma finished_seg p d :
  finished d p → ∃ c, seg p d = Some (Result d [Broadcast c] (Leave tt)) ∧ ∀ q, wf (Blocked c q) → finished d q.
Proof.
  destruct p as [id|id|id|id|id]; cbn; try done; intros Hf.
  - exists produce. unfold gen_body. rewrite (proj2 (Z.leb_le _ _)) by lia. split; [done|]. by intros [].
  - exists consume. unfold con_body. rewrite (proj2 (Z.eqb_eq _ _)) by lia. split; [done|]. by intros [].
Qed.

Definition hinv (k : config) : Prop :=
  dinv (data k) ∧ small (data k) ∧ Forall wf (threads k) ∧ woken_ok (data k) (threads k).

Lemma hinv_seg i s p d ts ts' l d' ns n :
  hinv (Config d ts l) → ts !! i = Some s → can_run d s p → s = Woken p ∨ no_woken ts →
  seg p d = Some (Result d' ns n) → notify ns ts ts' →
  hinv (Config d' (<[i := settle n]> ts') (Event i p n :: l)).
Proof.
  intros (HI & Hsm & Hf & [Hrdy Hone]) Hi Hc Hs Hseg Hn. cbn in *.
  destruct (seg_totals _ _ _ _ _ Hseg HI) as (Ht' & Hm' & _ & _).
  destruct (seg_ends d s p HI Hsm Hc) as (d1 & ns1 & n1 & Hseg1 & He).
  rewrite Hseg in Hseg1. injection Hseg1 as <- <- <-.
  split; [|split; [|split]]; cbn.
  - by eapply seg_dinv.
  - unfold small in *. by rewrite Ht', Hm'.
  - eapply run_Forall; [apply wf_woken|done|done|]. by destruct He.
  - destruct Hs as [->|Hno]; [|apply (quiet_seg i d ts ts' d' ns n); [|done..]; intros j q Hj; by destruct (Hno j q)].
    destruct Hone as [[i0 Hu]|Hfin].
    + apply (quiet_seg i d ts ts' d' ns n); [|done..]. intros j q Hj. by rewrite (Hu j q Hj), (Hu i p Hi).
    + destruct (finished_seg p d (Hfin i p Hi)) as (c & Hseg2 & Hq). rewrite Hseg in Hseg2. injection Hseg2 as -> -> ->.
      apply finished_ok. intros j q Hj. destruct (insert_woken ts' i (Rest tt) j q ltac:(done) Hj) as [Hj' _].
      destruct (broadcast_woken _ _ _ _ _ Hn Hj') as [?|Hb]; [by eapply Hfin|]. apply Hq. by eapply Forall_lookup_1 in Hb.
Qed.

Lemma hinv_step k k' : hinv k → mstep seg entry (Mode false false) k k' → hinv k'.
Proof.
  intros HI Hs. destruct Hs as [|i p d ts ts' l d' ns n Hi [?|Hno] Hseg Hn|i p d ts ts' l d' ns n Hi Hseg Hn|]; try done.
  - apply (hinv_seg i (At p) p d ts ts' l d' ns n); try done; [|by right]. left. split; [done|].
    destruct HI as (_ & _ & Hf & _). by eapply Forall_lookup_1 in Hi.
  - apply (hinv_seg i (Woken p) p d ts ts' l d' ns n); try done; [|by left]. right. split; [done|].
    destruct HI as (_ & _ & _ & [Hr _]). by apply (Hr i).
Qed.

Lemma hinv_start total size masters workers mem :
  0 ≤ total < 2 ^ 31 → size < 2 ^ 31 → lenZ mem = size → hinv (start total size masters workers mem).
Proof.
  intros Ht Hs Hm. destruct (ginv_start total size masters workers mem) as (HI & _); [lia|done|].
  assert (Forall (λ s : status, wf s ∧ ∀ p, s ≠ Woken p) (threads (start total size masters workers mem))) as Hall.
  { cbn. apply Forall_app. split; apply Forall_fmap, Forall_forall; intros x _; done. }
  split; [done|]. split; [split; cbn; lia|]. rewrite Forall_lookup in Hall. split.
  - apply Forall_lookup. intros i s Hi. by apply (Hall i s).
  - apply finished_ok. intros j p Hj. by destruct (proj2 (Hall j _ Hj) p).
Qed.

(** When a signalled thread is the next to get the mutex, no thread ever
    steps outside the buffer or overflows a counter, for any number of masters
    and workers, any number of items and any buffer size that fit in an int. *)
Theorem buffer_bounds total size masters workers mem k :
  0 ≤ total < 2 ^ 31 → size < 2 ^ 31 → lenZ mem = size →
  mreach seg entry (Mode false false) (start total size masters workers mem) k → ¬ faulty seg k.
Proof.
  intros Ht Hs Hm Hr. assert (hinv k) as (HI & Hsm & Hf & [Hrdy _]).
  { revert k Hr. apply mreach_inv; [by apply hinv_start|]. apply hinv_step. }
  intros (i & p & Hi & Hseg).
  assert (∃ s, can_run (data k) s p) as [s Hc].
  { destruct Hi as [Hi|Hi]; [exists (At p); left|exists (Woken p); right]; (split; [done|]); [by eapply Forall_lookup_1 in Hi|by apply (Hrdy i)]. }
  destruct (seg_ends _ s p HI Hsm Hc) as (d' & ns & n & Hok & _). congruence.
Qed.

Definition bounds_choices : list (choice mpc) := [Run 0 []; Run 0 []; Run 1 [0%nat]; Run 0 []].
Definition bounds_end : config := Eval vm_compute in
  default (start 3 1 1 1 [7]) (mrun seg entry (Mode false false) bounds_choices (start 3 1 1 1 [7])).
Lemma buffer_bounds_witness : ¬ faulty seg bounds_end.
Proof.
  apply (buffer_bounds 3 1 1 1 [7]); [lia|lia|done|].
  apply (mrun_sound _ _ _ bounds_choices). vm_compute. reflexivity.
Defined.

(** C39. With another thread between a signal and the woken one, which POSIX
    allows, the masters' test is not enough: with one master, two workers and a
    buffer of one item, a worker that was woken for an item another worker took
    waits a second time, and its next wakeup signals the masters although
    nothing was consumed.  The master goes on after its wait with items left to
    produce and the buffer full: its next store is at the index max_buf_size,
    past the end of the buffer. *)
Theorem master_overruns_buffer :
  ∃ k, mreach seg entry (Mode false true) (start 3 1 1 2 [7]) k ∧
    threads k !! 0%nat = Some (Woken (Gen2 0)) ∧ item_to_produce (data k) < total_items (data k) ∧
    curr_buf_size (data k) = max_buf_size (data k) ∧ lenZ (buffer (data k)) = max_buf_size (data k) ∧
    store (curr_buf_size (data k)) (item_to_produce (data k)) (buffer (data k)) = None ∧ gen_body 0 (data k) = None.
Proof.
  eexists. split.
  - apply (mrun_sound _ _ _ [Run 1 []; Run 0 [1%nat]; Run 2 []; Run 1 []; Run 0 [1%nat]; Run 0 []; Run 1 [0%nat]]).
    vm_compute. reflexivity.
  - split_and!; vm_compute; reflexivity.
Qed.
