(* ===== verification/Grep.v ===== *)
(** * grep: the pattern matcher and the line loop (xv6: grep.c)

    Strings are lists of characters without the terminating 0; the buffer of
    [grep] is the array of 1024 bytes, with its zeros. *)

From S2P Require Import Prelude Bytes Xstring.

Definition DOT : Z := 46.
Definition STAR : Z := 42.
Definition CARET : Z := 94.
Definition DOLLAR : Z := 36.
Definition NL : Z := 10.

(** [matchstar], src/hw3/xv6/grep.c:99-106
    [here] is matchhere of the rest of the pattern. *)
Fixpoint matchstar (here : list Z → bool) (c : Z) (text : list Z) : bool :=
  if here text then true
  else match text with
       | [] => false
       | t :: text' => if (t =? c) || (c =? DOT) then matchstar here c text' else false
       end.

(** [matchhere], src/hw3/xv6/grep.c:85-96 *)
Fixpoint matchhere (re text : list Z) {struct re} : bool :=
  match re with
  | [] => true
  | c :: re1 =>
      let simple :=
        if (c =? DOLLAR) && bool_decide (re1 = []) then bool_decide (text = [])
        else match text with
             | t :: text' => if (c =? DOT) || (c =? t) then matchhere re1 text' else false
             | [] => false
             end in
      match re1 with
      | d :: re2 => if d =? STAR then matchstar (matchhere re2) c text else simple
      | [] => simple
      end
  end.

(** [match: the loop], src/hw3/xv6/grep.c:77-81 *)
Fixpoint match_anywhere (re text : list Z) : bool :=
  if matchhere re text then true
  else match text with [] => false | _ :: text' => match_anywhere re text' end.

(** [match], src/hw3/xv6/grep.c:72-82 *)
Definition match_ (re text : list Z) : bool :=
  match re with
  | c :: re' => if c =? CARET then matchhere re' text else match_anywhere re text
  | [] => match_anywhere re text
  end.

(** ** The patterns and their language *)

(** A character, [.], or either of them repeated. *)
Inductive item := One (c : Z) | Many (c : Z).

Definition fits (c t : Z) : Prop := t = c ∨ c = DOT.

Inductive lang : list item → list Z → Prop :=
  | lang_nil : lang [] []
  | lang_one c t r s : fits c t → lang r s → lang (One c :: r) (t :: s)
  | lang_none c r s : lang r s → lang (Many c :: r) s
  | lang_more c t r s : fits c t → lang (Many c :: r) s → lang (Many c :: r) (t :: s).

(** The items of a pattern after a leading [^], and whether it ends with [$]. *)
Fixpoint parse (re : list Z) : list item * bool :=
  match re with
  | [] => ([], false)
  | c :: re1 =>
      let simple :=
        if (c =? DOLLAR) && bool_decide (re1 = []) then ([], true)
        else (One c :: fst (parse re1), snd (parse re1)) in
      match re1 with
      | d :: re2 => if d =? STAR then (Many c :: fst (parse re2), snd (parse re2)) else simple
      | [] => simple
      end
  end.

(** The text begins with a match; with [$] the match is all of the text. *)
Definition begins (re text : list Z) : Prop :=
  ∃ s b, text = s ++ b ∧ lang (fst (parse re)) s ∧ (snd (parse re) = true → b = []).

Lemma fits_spec c t : (t =? c) || (c =? DOT) = true ↔ fits c t.
Proof. rewrite orb_true_iff, !Z.eqb_eq. done. Qed.

Lemma matchstar_spec (here : list Z → bool) c text :
  matchstar here c text = true ↔ ∃ s b, text = s ++ b ∧ Forall (fits c) s ∧ here b = true.
Proof.
  induction text as [|t text IH]; cbn [matchstar].
  - split.
    + destruct (here []) eqn:Hh; [|done]. intros _. by exists [], [].
    + intros (s & b & He & _ & Hh). symmetry in He. apply app_eq_nil in He as [-> ->]. by rewrite Hh.
  - destruct (here (t :: text)) eqn:Hh.
    { split; [|done]. intros _. exists [], (t :: text). done. }
    split.
    + destruct (_ || _) eqn:Hf; [|done]. apply fits_spec in Hf. intros (s & b & -> & Hs & Hb)%IH.
      exists (t :: s), b. split; [done|]. split; [by constructor|done].
    + intros (s & b & He & Hs & Hb). destruct s as [|t' s]; cbn in He; [congruence|]. injection He as <- ->.
      apply Forall_cons in Hs as [Hf Hs]. apply fits_spec in Hf as ->. apply IH. by exists s, b.
Qed.

(** Iterations of a repeated character. *)
Lemma lang_many c r s : lang (Many c :: r) s ↔ ∃ u v, s = u ++ v ∧ Forall (fits c) u ∧ lang r v.
Proof.
  split.
  - remember (Many c :: r) as q eqn:Hq. intros HL. induction HL as [| |c' r' s HL _|c' t r' s Hf HL IH]; try done.
    + injection Hq as -> ->. by exists [], s.
    + injection Hq as -> ->. destruct (IH eq_refl) as (u & v & -> & Hu & Hv). exists (t :: u), v. split; [done|].
      split; [by constructor|done].
  - intros (u & v & -> & Hu & Hv). induction Hu as [|t u Ht Hu IH]; [by apply lang_none|]. by apply lang_more.
Qed.

Lemma simple_spec c re1 text :
  (∀ text, matchhere re1 text = true ↔ begins re1 text) →
  (if (c =? DOLLAR) && bool_decide (re1 = []) then bool_decide (text = [])
   else match text with t :: text' => if (c =? DOT) || (c =? t) then matchhere re1 text' else false | [] => false end) = true
  ↔ ∃ s b, text = s ++ b ∧
      lang (fst (if (c =? DOLLAR) && bool_decide (re1 = []) then ([], true) else (One c :: fst (parse re1), snd (parse re1)))) s ∧
      (snd (if (c =? DOLLAR) && bool_decide (re1 = []) then ([], true) else (One c :: fst (parse re1), snd (parse re1))) = true → b = []).
Proof.
  intros IH. destruct (_ && _) eqn:Hd; cbn [fst snd].
  - rewrite bool_decide_eq_true. split.
    + intros ->. exists [], []. split; [done|]. split; [constructor|done].
    + intros (s & b & -> & Hs & Hb). inversion Hs; subst. by rewrite Hb.
  - destruct text as [|t text].
    { split; [done|]. intros (s & b & He & Hs & _). inversion Hs; subst. done. }
    replace ((c =? DOT) || (c =? t)) with ((t =? c) || (c =? DOT)) by (rewrite orb_comm; f_equal; apply Z.eqb_sym).
    split.
    + destruct (_ || _) eqn:Hf; [|done]. apply fits_spec in Hf. intros (s & b & -> & Hs & Hb)%IH.
      exists (t :: s), b. split; [done|]. split; [by apply lang_one|done].
    + intros (s & b & He & Hs & Hb). inversion Hs as [|c' t' r' s' Hf Hs'| |]; subst. injection He as <- ->.
      apply fits_spec in Hf as ->. apply IH. by exists s', b.
Qed.

Lemma matchhere_spec n : ∀ re, (length re ≤ n)%nat → ∀ text, matchhere re text = true ↔ begins re text.
Proof.
  induction n as [|n IH]; intros [|c re1] Hn text; cbn [length] in Hn; try lia.
  1, 2: split; [|done]; intros _; exists [], text; (split; [done|]); (split; [constructor|done]).
  assert (Hs : ∀ text, matchhere re1 text = true ↔ begins re1 text) by (apply IH; lia).
  destruct re1 as [|d re2]; [exact (simple_spec c [] text Hs)|].
  unfold begins. cbn [matchhere parse]. destruct (d =? STAR); [|exact (simple_spec c (d :: re2) text Hs)].
  cbn [fst snd]. rewrite matchstar_spec. assert (Hr : ∀ text, matchhere re2 text = true ↔ begins re2 text) by (apply IH; cbn in Hn; lia).
  split.
  - intros (u & b & -> & Hu & (v & b' & -> & Hv & Hb)%Hr). exists (u ++ v), b'. rewrite app_assoc. split; [done|].
    split; [|done]. apply lang_many. by exists u, v.
  - intros (s & b & -> & (u & v & -> & Hu & Hv)%lang_many & Hb). exists u, (v ++ b). rewrite app_assoc.
    split; [done|]. split; [done|]. apply Hr. by exists v, b.
Qed.

Lemma match_anywhere_spec re text :
  match_anywhere re text = true ↔ ∃ a t, text = a ++ t ∧ begins re t.
Proof.
  pose proof (matchhere_spec (length re) re (le_n _)) as Hm.
  induction text as [|x text IH]; cbn [match_anywhere].
  - destruct (matchhere re []) eqn:He.
    + split; [|done]. intros _. exists [], []. split; [done|]. by apply Hm.
    + split; [done|]. intros (a & t & Hat & Ht). symmetry in Hat. apply app_eq_nil in Hat as [-> ->]. apply Hm in Ht. congruence.
  - destruct (matchhere re (x :: text)) eqn:He.
    + split; [|done]. intros _. exists [], (x :: text). split; [done|]. by apply Hm.
    + rewrite IH. split.
      * intros (a & t & -> & Ht). by exists (x :: a), t.
      * intros ([|y a] & t & Hat & Ht); cbn in Hat; [subst t; apply Hm in Ht; congruence|].
        injection Hat as <- ->. by exists a, t.
Qed.

(** C26. The matcher is a regular-expression matcher: it accepts exactly the
    texts that contain a member of the pattern's language, at the start of the
    text if the pattern begins with [^], and up to its end if the pattern ends
    with [$].  It returns on every pattern and every text. *)
Theorem match_is_regexp re text :
  match_ re text = true ↔
  ∃ a s b, text = a ++ s ++ b ∧
    match re with
    | c :: re' => if c =? CARET then a = [] ∧ lang (fst (parse re')) s ∧ (snd (parse re') = true → b = [])
                  else lang (fst (parse re)) s ∧ (snd (parse re) = true → b = [])
    | [] => lang [] s
    end.
Proof.
  assert (Hany : match_anywhere re text = true ↔ ∃ a s b, text = a ++ s ++ b ∧ lang (fst (parse re)) s ∧ (snd (parse re) = true → b = [])).
  { rewrite match_anywhere_spec. split.
    - intros (a & t & -> & s & b & -> & Hs & Hb). by exists a, s, b.
    - intros (a & s & b & -> & Hs & Hb). exists a, (s ++ b). split; [done|]. by exists s, b. }
  destruct re as [|c re]; unfold match_.
  - rewrite Hany. cbn. naive_solver.
  - destruct (c =? CARET); [|exact Hany]. rewrite (matchhere_spec (length re) re (le_n _)). split.
    + intros (s & b & -> & Hs & Hb). by exists [], s, b.
    + intros (a & s & b & -> & -> & Hs & Hb). by exists s, b.
Qed.

(** ** The line loop *)

(** The file descriptor: what is left to read, and how much the next reads
    give at most ([short]); a read of a regular file gives all that was asked
    for, if the file has that much left. *)
Record gstate := Gst { buf : list Z; input : list Z; short : list nat; out : list Z }.

Definition BUFSZ : nat := 1024.

Definition read_size (want : nat) (short : list nat) : nat :=
  match short with [] => want | k :: _ => Nat.max 1 (Nat.min k want) end.

(** The string at the start of [l], without its 0. *)
Fixpoint cstring (l : list Z) : option (list Z) :=
  match l with
  | [] => None
  | c :: l' => if c =? 0 then Some [] else s ← cstring l'; Some (c :: s)
  end.

(** [grep: the lines in the buffer], src/hw3/xv6/grep.c:20-28
    From [p]; the new [p], the buffer and what is written. *)
Fixpoint grep_lines (fuel : nat) (pattern : list Z) (p : nat) (b o : list Z) : option (nat * list Z * list Z) :=
  match fuel with
  | O => None
  | S fuel' =>
      r ← strchr (drop p b) NL;
      match r with
      | None => Some (p, b, o)
      | Some off =>
          let q := (p + off)%nat in
          b1 ← store q 0 b;
          text ← cstring (drop p b1);
          if match_ pattern text then
            b2 ← store q NL b1;
            grep_lines fuel' pattern (S q) b2 (o ++ get p (S q - p) b2)
          else grep_lines fuel' pattern (S q) b1 o
      end
  end.

(** [grep: one round], src/hw3/xv6/grep.c:17-35
    [m] bytes of the buffer are in use; [None] in the first component at the
    end of the input. *)
Definition grep_round (pattern : list Z) (m : nat) (s : gstate) : option (option nat * gstate) :=
  let n := read_size (BUFSZ - m - 1) (short s) in
  let chunk := take n (input s) in
  if bool_decide (chunk = []) then Some (None, s)
  else
    let m := (m + length chunk)%nat in
    b ← store m 0 (put (m - length chunk) chunk (buf s));
    '(p, b, o) ← grep_lines BUFSZ pattern 0 b (out s);
    let m := if decide (p = 0)%nat then 0%nat else m in
    let s' := λ b, Gst b (drop n (input s)) (tail (short s)) o in
    if decide (0 < m)%nat then
      b' ← umemmove 0 p (Z.of_nat (m - p)) b;
      Some (Some (m - p)%nat, s' b')
    else Some (Some m, s' b).

(** [grep], src/hw3/xv6/grep.c:10-36
    The output, with fuel for the number of reads. *)
Fixpoint grep_loop (fuel : nat) (pattern : list Z) (m : nat) (s : gstate) : option (list Z) :=
  match fuel with
  | O => None
  | S fuel' =>
      r ← grep_round pattern m s;
      match r with
      | (None, s') => Some (out s')
      | (Some m', s') => grep_loop fuel' pattern m' s'
      end
  end.
Definition grep (fuel : nat) (pattern : list Z) (file : list Z) (short : list nat) : option (list Z) :=
  grep_loop fuel pattern 0 (Gst (replicate BUFSZ 0) file short []).

(** ** What it prints *)

Definition plain (s : list Z) : Prop := Forall (λ c, c ≠ 0 ∧ c ≠ NL) s.
Definition unlines (ls : list (list Z)) : list Z := concat ((λ s, s ++ [NL]) <$> ls).
Definition matching (pattern : list Z) (ls : list (list Z)) : list (list Z) :=
  filter (λ s, match_ pattern s = true) ls.

Lemma strchr_from_nl s r : ∀ n, plain s → strchr_from n (s ++ NL :: r) NL = Some (Some (n + length s)%nat).
Proof.
  induction s as [|c s IH]; intros n Hs; cbn [app strchr_from length].
  - by rewrite Nat.add_0_r.
  - apply Forall_cons in Hs as [[H0 H10] Hs]. rewrite (proj2 (Z.eqb_neq _ _)), (proj2 (Z.eqb_neq _ _)) by done.
    rewrite IH by done. do 2 f_equal. lia.
Qed.
Lemma strchr_from_none s r : ∀ n, plain s → strchr_from n (s ++ 0 :: r) NL = Some None.
Proof.
  induction s as [|c s IH]; intros n Hs; cbn [app strchr_from]; [done|].
  apply Forall_cons in Hs as [[H0 H10] Hs]. rewrite (proj2 (Z.eqb_neq _ _)), (proj2 (Z.eqb_neq _ _)) by done. by apply IH.
Qed.
Lemma cstring_app s r : plain s → cstring (s ++ 0 :: r) = Some s.
Proof.
  induction 1 as [|c s [H0 _] Hs IH]; [done|]. cbn. rewrite (proj2 (Z.eqb_neq _ _)) by done. by rewrite IH.
Qed.

Lemma insert_app_mid {A} (a : list A) x y b : <[length a := y]> (a ++ x :: b) = a ++ y :: b.
Proof. by rewrite insert_app_r_alt, Nat.sub_diag by lia. Qed.

Lemma store_mid a x y b : store (length a) y (a ++ x :: b) = Some (a ++ y :: b).
Proof. unfold store. rewrite decide_True by (rewrite length_app; cbn; lia). by rewrite insert_app_mid. Qed.

Lemma unlines_matching pattern s ls :
  unlines (matching pattern (s :: ls)) = (if match_ pattern s then s ++ [NL] else []) ++ unlines (matching pattern ls).
Proof.
  unfold matching. rewrite filter_cons. destruct (match_ pattern s); [|done].
  rewrite decide_True by done. unfold unlines. cbn. done.
Qed.

(** The inner loop handles the complete lines, and leaves what follows them. *)
Lemma grep_lines_spec pattern rest r ls : ∀ fuel a o,
  Forall plain ls → plain rest → (length ls < fuel)%nat →
  ∃ a', length a' = (length a + length (unlines ls))%nat ∧
    grep_lines fuel pattern (length a) (a ++ unlines ls ++ rest ++ 0 :: r) o =
    Some (length a', a' ++ rest ++ 0 :: r, o ++ unlines (matching pattern ls)).
Proof.
  induction ls as [|s ls IH]; intros [|fuel] a o Hls Hrest Hfuel; cbn [length] in Hfuel; try lia.
  - exists a. rewrite Nat.add_0_r. split; [done|]. cbn [grep_lines]. rewrite drop_app_length. cbn [unlines fmap list_fmap concat app].
    unfold strchr. rewrite strchr_from_none by done. cbn. by rewrite app_nil_r.
  - apply Forall_cons in Hls as [Hs Hls]. rewrite unlines_matching. cbn [grep_lines]. rewrite drop_app_length.
    replace (unlines (s :: ls)) with (s ++ NL :: unlines ls) by (unfold unlines; cbn; by rewrite <- app_assoc).
    unfold strchr. rewrite <- app_assoc. cbn [app]. rewrite strchr_from_nl by done. cbn.
    rewrite app_assoc. replace (length a + length s)%nat with (length (a ++ s)) by (by rewrite length_app).
    rewrite store_mid. cbn. rewrite <- (app_assoc a s (0 :: _)), drop_app_length, cstring_app by done. cbn.
    assert (Hlen : S (length (a ++ s)) = length (a ++ s ++ [NL])) by (rewrite !length_app; cbn; lia).
    assert (Hrest' : ∀ x o', ∃ a', length a' = (length a + length (s ++ NL :: unlines ls))%nat ∧
      grep_lines fuel pattern (S (length (a ++ s))) ((a ++ s) ++ x :: unlines ls ++ rest ++ 0 :: r) o' =
      Some (length a', a' ++ rest ++ 0 :: r, o' ++ unlines (matching pattern ls))).
    { intros x o'. destruct (IH fuel (a ++ s ++ [x]) o') as (a' & Hla & Hg); [done|done|lia|]. exists a'. split.
      - rewrite Hla, !length_app. cbn [length]. lia.
      - rewrite <- Hg. f_equal; [rewrite !length_app; cbn; lia|]. by rewrite <- !app_assoc. }
    destruct (match_ pattern s) eqn:Hm.
    + rewrite app_assoc, store_mid. cbn.
      destruct (Hrest' NL (o ++ get (length a) (S (length (a ++ s)) - length a) ((a ++ s) ++ NL :: unlines ls ++ rest ++ 0 :: r)))
        as (a' & Hla & Hg). exists a'. split; [done|]. rewrite Hg. do 2 f_equal. rewrite <- (app_assoc o). f_equal. f_equal.
      unfold get. rewrite <- app_assoc, drop_app_length.
      replace (S (length (a ++ s)) - length a)%nat with (length (s ++ [NL])) by (rewrite !length_app; cbn; lia).
      replace (s ++ NL :: unlines ls ++ rest ++ 0 :: r) with ((s ++ [NL]) ++ unlines ls ++ rest ++ 0 :: r) by (by rewrite <- app_assoc).
      by rewrite take_app_length.
    + rewrite app_assoc. apply Hrest'.
Qed.

Lemma unlines_app l1 l2 : unlines (l1 ++ l2) = unlines l1 ++ unlines l2.
Proof. unfold unlines. by rewrite fmap_app, concat_app. Qed.
Lemma unlines_cons s ls : unlines (s :: ls) = s ++ NL :: unlines ls.
Proof. unfold unlines. cbn. by rewrite <- app_assoc. Qed.
Lemma matching_app pattern l1 l2 : matching pattern (l1 ++ l2) = matching pattern l1 ++ matching pattern l2.
Proof. apply filter_app. Qed.
Lemma length_unlines ls : (length ls ≤ length (unlines ls))%nat.
Proof. induction ls as [|s ls IH]; [done|]. rewrite unlines_cons, length_app. cbn. lia. Qed.

Lemma plain_no_line pre ls tail : plain pre → pre = unlines ls ++ tail → ls = [].
Proof.
  intros Hp ->. destruct ls as [|s' ls]; [done|]. rewrite unlines_cons, <- app_assoc in Hp. cbn in Hp.
  apply Forall_app in Hp as [_ Hp]. apply Forall_cons in Hp as [[_ ?] _]. done.
Qed.

(** A piece of the file: its complete lines and the beginning of the next. *)
Lemma split_lines ls tail : ∀ piece more,
  Forall plain ls → plain tail → piece ++ more = unlines ls ++ tail →
  ∃ l1 l2 rest, ls = l1 ++ l2 ∧ piece = unlines l1 ++ rest ∧ plain rest ∧ rest ++ more = unlines l2 ++ tail.
Proof.
  induction ls as [|s ls IH]; intros piece more Hls Ht He.
  { exists [], [], piece. split_and!; [done..| |done]. cbn in He. rewrite <- He in Ht. by apply Forall_app in Ht as [? _]. }
  apply Forall_cons in Hls as [Hs Hls]. pose proof He as He0. rewrite unlines_cons, <- app_assoc in He. cbn in He.
  apply app_eq_inv in He as [(k & -> & Hk)|(k & -> & Hk)].
  - destruct k as [|x k]; cbn in Hk.
    + exists [], (s :: ls), s. rewrite app_nil_r in *. done.
    + injection Hk as <- Hk. destruct (IH k more Hls Ht (eq_sym Hk)) as (l1 & l2 & rest & -> & -> & Hr & Hm).
      exists (s :: l1), l2, rest. rewrite unlines_cons, <- app_assoc. done.
  - apply Forall_app in Hs as [Hs _]. exists [], (( piece ++ k) :: ls), piece. done.
Qed.

Definition short_lines (ls : list (list Z)) (tail : list Z) : Prop :=
  Forall (λ s, plain s ∧ (length s < BUFSZ - 1)%nat) ls ∧ plain tail ∧ (length tail < BUFSZ - 1)%nat.

Lemma short_plain ls tail : short_lines ls tail → Forall plain ls.
Proof. intros [H _]. eapply Forall_impl; [exact H|]. by intros s [? _]. Qed.

(** A full buffer without a newline cannot be, as all lines are short. *)
Lemma no_newline_end piece more ls tail :
  short_lines ls tail → plain piece → piece ++ more = unlines ls ++ tail →
  (more ≠ [] → length piece = (BUFSZ - 1)%nat) → more = [] ∧ ls = [].
Proof.
  intros (Hls & Ht & Htl) Hp He Hfull. assert (more = []) as ->.
  { destruct more as [|x more]; [done|]. specialize (Hfull ltac:(done)). exfalso. destruct ls as [|s ls].
    - cbn in He. rewrite <- He, length_app in Htl. lia.
    - apply Forall_cons in Hls as [[Hs Hsl] _]. rewrite unlines_cons, <- app_assoc in He. cbn in He.
      apply app_eq_inv in He as [(k & -> & Hk)|(k & -> & Hk)].
      + destruct k as [|y k]; [rewrite app_nil_r in Hfull; lia|]. cbn in Hk. injection Hk as <- _.
        apply Forall_app in Hp as [_ Hp]. apply Forall_cons in Hp as [[_ ?] _]. done.
      + rewrite length_app in Hsl. lia. }
  split; [done|]. rewrite app_nil_r in He. by eapply plain_no_line.
Qed.

Lemma grep_eof fuel pattern m b o : (0 < fuel)%nat → (m < BUFSZ - 1)%nat → grep_loop fuel pattern m (Gst b [] [] o) = Some o.
Proof.
  intros Hf Hm. destruct fuel; [lia|]. cbn [grep_loop]. unfold grep_round. cbn [input short read_size].
  rewrite take_nil, bool_decide_eq_true_2 by done. done.
Qed.

(** The buffer after a read: the pending bytes, the new ones and a 0. *)
Lemma fill_buffer pre junk chunk :
  (length pre + length chunk < length (pre ++ junk))%nat →
  ∃ r, store (length pre + length chunk) 0 (put (length pre) chunk (pre ++ junk)) = Some (pre ++ chunk ++ 0 :: r) ∧
    length (pre ++ chunk ++ 0 :: r) = length (pre ++ junk).
Proof.
  intros Hl. rewrite length_app in Hl. unfold put. rewrite take_app_length, drop_app_add.
  destruct (drop (length chunk) junk) as [|x r] eqn:Hd.
  { apply (f_equal length) in Hd. rewrite length_drop in Hd. cbn in Hd. lia. }
  exists r. split.
  - replace (length pre + length chunk)%nat with (length (pre ++ chunk)) by (by rewrite length_app).
    rewrite app_assoc, store_mid. by rewrite <- app_assoc.
  - apply (f_equal length) in Hd. rewrite length_drop in Hd. rewrite !length_app. cbn in *. lia.
Qed.

(** One round, given what the read and the inner loop gave. *)
Lemma grep_round_none pattern m s chunk b b' o' :
  chunk = take (read_size (BUFSZ - m - 1) (short s)) (input s) → chunk ≠ [] →
  store (m + length chunk) 0 (put m chunk (buf s)) = Some b →
  grep_lines BUFSZ pattern 0 b (out s) = Some (0%nat, b', o') →
  grep_round pattern m s =
    Some (Some 0%nat, Gst b' (drop (read_size (BUFSZ - m - 1) (short s)) (input s)) (tail (short s)) o').
Proof.
  intros -> Hc Hs Hg. unfold grep_round. rewrite bool_decide_eq_false_2 by done. cbn zeta.
  rewrite Nat.add_sub, Hs, some_bind, Hg, some_bind. done.
Qed.

Lemma grep_round_some pattern m s chunk b p b' o' b'' :
  chunk = take (read_size (BUFSZ - m - 1) (short s)) (input s) → chunk ≠ [] →
  store (m + length chunk) 0 (put m chunk (buf s)) = Some b →
  grep_lines BUFSZ pattern 0 b (out s) = Some (p, b', o') → (0 < p)%nat →
  umemmove 0 p (Z.of_nat (m + length chunk - p)) b' = Some b'' →
  grep_round pattern m s = Some (Some (m + length chunk - p)%nat,
    Gst b'' (drop (read_size (BUFSZ - m - 1) (short s)) (input s)) (tail (short s)) o').
Proof.
  intros -> Hc Hs Hg Hp Hm. unfold grep_round. rewrite bool_decide_eq_false_2 by done. cbn zeta.
  rewrite Nat.add_sub, Hs, some_bind, Hg, some_bind. cbv beta iota zeta.
  rewrite (decide_False (P := (p = 0)%nat)) by lia.
  rewrite decide_True; [by rewrite Hm|]. destruct (take _ _); [done|cbn [length]; lia].
Qed.

(** The state before a round: [pre] is pending, [pre ++ inp] is what is left. *)
Definition at_round (pre junk inp : list Z) (ls : list (list Z)) (tail : list Z) : Prop :=
  short_lines ls tail ∧ plain pre ∧ (length pre < BUFSZ - 1)%nat ∧ length (pre ++ junk) = BUFSZ ∧
  pre ++ inp = unlines ls ++ tail.

(** One round with input: a shorter input, or the end. *)
Lemma grep_round_spec pattern pre junk inp o ls tail :
  at_round pre junk inp ls tail → inp ≠ [] →
  ∃ pre' junk' inp' ls1 ls2,
    grep_round pattern (length pre) (Gst (pre ++ junk) inp [] o) =
      Some (Some (length pre'), Gst (pre' ++ junk') inp' [] (o ++ unlines (matching pattern ls1))) ∧
    ls = ls1 ++ ls2 ∧ (length inp' < length inp)%nat ∧
    (at_round pre' junk' inp' ls2 tail ∨ (pre' = [] ∧ inp' = [] ∧ ls2 = [])).
Proof.
  intros (Hsh & Hpre & Hlen & Hbuf & He) Hne.
  remember (BUFSZ - length pre - 1)%nat as n eqn:Hnd. remember (take n inp) as chunk eqn:Hck.
  assert (1 ≤ n)%nat as Hn by lia.
  assert (0 < length inp)%nat as Hi by (destruct inp; [done|cbn; lia]).
  assert (length chunk = Nat.min n (length inp)) as Hcl by (rewrite Hck; apply length_take).
  assert (chunk ≠ []) as Hc by (intros Hc; rewrite Hc in Hcl; cbn in Hcl; lia).
  destruct (fill_buffer pre junk chunk) as (r & Hst & Hlr); [lia|].
  destruct (split_lines ls tail (pre ++ chunk) (drop n inp)) as (l1 & l2 & rest & -> & Hpc & Hrest & Hm);
    [by eapply short_plain|apply Hsh|rewrite <- app_assoc, Hck; by rewrite take_drop|].
  assert (length (pre ++ chunk) = (length (unlines l1) + length rest)%nat) as Hpl by (by rewrite Hpc, length_app).
  rewrite length_app in Hpl. pose proof (length_unlines l1) as Hul.
  destruct (grep_lines_spec pattern rest r l1 BUFSZ [] o) as (a' & Hla & Hg); [|done|lia|].
  { pose proof (short_plain _ _ Hsh) as Hall. by apply Forall_app in Hall as [? _]. }
  cbn [app length] in Hg, Hla. rewrite Nat.add_0_l in Hla.
  replace (unlines l1 ++ rest ++ 0 :: r) with (pre ++ chunk ++ 0 :: r) in Hg by (rewrite !app_assoc, <- Hpc; done).
  assert (short_lines l2 tail) as Hsh2 by (destruct Hsh as ([_ H1]%Forall_app & H2 & H3); done).
  assert (length (drop n inp) < length inp)%nat as Hdl by (rewrite length_drop; lia).
  destruct (decide (length a' = 0%nat)) as [Ha|Ha].
  - rewrite Ha in Hg. exists [], (a' ++ rest ++ 0 :: r), (drop n inp), l1, l2. split_and!; [|done|done|].
    { subst n. exact (grep_round_none pattern (length pre) (Gst (pre ++ junk) inp [] o) chunk _ _ _ Hck Hc Hst Hg). }
    right. destruct (no_newline_end rest (drop n inp) l2 tail Hsh2 Hrest Hm) as [Hd ->]; [|done].
    intros Hd. assert (n < length inp)%nat; [|lia].
    destruct (decide (n < length inp)%nat); [done|]. by rewrite drop_ge in Hd by lia.
  - assert (length rest = (length pre + length chunk - length a')%nat) as Hrl by lia.
    assert (get (length a') (length rest) (a' ++ rest ++ 0 :: r) = rest) as Hget
      by (unfold get; by rewrite drop_app_length, take_app_length).
    assert (umemmove 0 (length a') (Z.of_nat (length rest)) (a' ++ rest ++ 0 :: r) = Some (put 0 rest (a' ++ rest ++ 0 :: r))) as Hmm.
    { unfold umemmove. rewrite Nat2Z.id, copy_up_spec; [by rewrite Hget|..]; rewrite ?length_app; cbn [length]; lia. }
    exists rest, (drop (length rest) (a' ++ rest ++ 0 :: r)), (drop n inp), l1, l2. split_and!; [|done|done|].
    + rewrite Hrl in Hmm. subst n.
      rewrite (grep_round_some pattern (length pre) (Gst (pre ++ junk) inp [] o) chunk _ _ _ _ _ Hck Hc Hst Hg ltac:(lia) Hmm).
      rewrite <- Hrl. done.
    + left. split_and!; [done|done|lia| |done].
      rewrite !length_app in *. rewrite length_drop, !length_app. cbn [length] in *. lia.
Qed.

Lemma grep_loop_spec pattern : ∀ fuel pre junk inp o ls tail,
  at_round pre junk inp ls tail → (length inp < fuel)%nat →
  grep_loop fuel pattern (length pre) (Gst (pre ++ junk) inp [] o) = Some (o ++ unlines (matching pattern ls)).
Proof.
  induction fuel as [|fuel IH]; intros pre junk inp o ls tail HR Hf; [lia|].
  destruct (decide (inp = [])) as [->|Hne].
  { destruct HR as (_ & Hpre & Hlen & _ & He). rewrite app_nil_r in He. rewrite (plain_no_line pre ls tail) by done.
    rewrite grep_eof by lia. cbn. by rewrite app_nil_r. }
  destruct (grep_round_spec pattern pre junk inp o ls tail HR Hne) as (pre' & junk' & inp' & l1 & l2 & Hr & -> & Hl & HR').
  cbn [grep_loop]. rewrite Hr, some_bind. cbv beta iota. rewrite matching_app, unlines_app, (app_assoc o).
  destruct HR' as [HR'|(-> & -> & ->)]; [apply (IH _ _ _ _ _ tail); [done|lia]|].
  change (length []) with 0%nat. rewrite grep_eof; [cbn; by rewrite app_nil_r|lia|apply Nat.ltb_lt; reflexivity].
Qed.

(** C27. grep of a regular file prints exactly the lines that match, in order,
    each with its newline, if no line is longer than 1022 characters and there
    is no 0 in the file; a last line without a newline is not looked at.  It
    makes at most one read per byte of the file, and one more. *)
Theorem grep_prints_matches pattern ls tail fuel :
  short_lines ls tail → (length (unlines ls ++ tail) < fuel)%nat →
  grep fuel pattern (unlines ls ++ tail) [] = Some (unlines (matching pattern ls)).
Proof.
  intros Hsh Hf. unfold grep.
  apply (grep_loop_spec pattern fuel [] (replicate BUFSZ 0) (unlines ls ++ tail) [] ls tail); [|done].
  split_and!; [done|by constructor|apply Nat.ltb_lt; reflexivity|reflexivity|done].
Qed.

Lemma grep_prints_witness :
  grep 20 [97; 42; 98] (unlines [[97; 98]; [99]] ++ [100]) [] = Some (unlines (matching [97; 42; 98] [[97; 98]; [99]])).
Proof.
  apply grep_prints_matches; [|apply Nat.leb_le; vm_compute; reflexivity].
  split; [|split; [repeat constructor; done|unfold BUFSZ; cbn; lia]].
  repeat constructor; try done; unfold BUFSZ; cbn; lia.
Defined.

(** A read that returns less than it was asked for (as reads from a pipe
    do) makes grep lose the beginning of a line: whatever is in the buffer is
    dropped when it has no newline yet.  The line "ab" does not match "^b",
    but grep prints "b" when the first character arrives on its own. *)
Theorem grep_short_read_drops :
  grep 10 [CARET; 98] (unlines [[97; 98]]) [] = Some [] ∧
  grep 10 [CARET; 98] (unlines [[97; 98]]) [1%nat; 2%nat] = Some [98; NL].
Proof. split; vm_compute; reflexivity. Qed.
