(* ===== verification/Printf.v ===== *)
(** * Formatted output (xv6: printf.c and the cprintf of console.c)

    A format is the characters before its 0; [args] are the words behind it on
    the stack, and [str] gives the string at an address.  The result is the
    characters in the order in which they are put out. *)

From S2P Require Import Prelude Bytes Xstring.

Implicit Types (fmt args out buf digits : list Z) (str : Z → option (list Z)).

Definition PCT : Z := 37.
Definition UPPER : list Z := [48; 49; 50; 51; 52; 53; 54; 55; 56; 57; 65; 66; 67; 68; 69; 70].
Definition LOWER : list Z := [48; 49; 50; 51; 52; 53; 54; 55; 56; 57; 97; 98; 99; 100; 101; 102].
Definition NULLSTR : list Z := [40; 110; 117; 108; 108; 41].

(** A store to [buf[i++]], in an array of 16. *)
Definition push buf (c : Z) : option (list Z) := if (length buf <? 16)%nat then Some (buf ++ [c]) else None.

(** [printint: the digits], src/hw3/xv6/printf.c:28-30 *)
Fixpoint printint_loop (fuel : nat) digits (x base : Z) buf : option (list Z) :=
  match fuel with
  | O => None
  | S fuel' =>
      d ← getZ digits (x mod base);
      buf ← push buf d;
      if x / base =? 0 then Some buf else printint_loop fuel' digits (x / base) base buf
  end.

(** [printint], src/hw3/xv6/printf.c:11-36
    Negating the smallest int has no value. *)
Definition printint digits (xx base : Z) (sgn : bool) : option (list Z) :=
  let neg := sgn && (xx <? 0) in
  x ← (if neg then y ← chk (- xx); Some (u32 y) else Some (u32 xx));
  buf ← printint_loop 33 digits x base [];
  buf ← (if neg then push buf 45 else Some buf);
  Some (reverse buf).

(** The next word of the arguments. *)
Definition next_arg args : option (Z * list Z) := match args with a :: rest => Some (a, rest) | [] => None end.
Definition string_at str (a : Z) : option (list Z) := if a =? 0 then Some NULLSTR else str a.

(** [printf: one directive], src/hw3/xv6/printf.c:57-81
    What [c] behind a percent sign puts out, and the arguments that are left. *)
Definition directive str (c : Z) args : option (list Z * list Z) :=
  if c =? 100 then '(a, args) ← next_arg args; s ← printint UPPER (i32 a) 10 true; Some (s, args)
  else if (c =? 120) || (c =? 112) then '(a, args) ← next_arg args; s ← printint UPPER (i32 a) 16 false; Some (s, args)
  else if c =? 115 then '(a, args) ← next_arg args; s ← string_at str a; Some (s, args)
  else if c =? 99 then '(a, args) ← next_arg args; Some ([u8 a], args)
  else if c =? PCT then Some ([c], args)
  else Some ([PCT; c], args).

(** [printf], src/hw3/xv6/printf.c:38-85
    [state] says whether the last character was a percent sign. *)
Fixpoint printf str fmt (state : bool) args : option (list Z) :=
  match fmt with
  | [] => Some []
  | c :: fmt =>
      if state then
        '(s, args) ← directive str c args;
        rest ← printf str fmt false args;
        Some (s ++ rest)
      else if c =? PCT then printf str fmt true args
      else rest ← printf str fmt false args; Some (c :: rest)
  end.

(** [cprintf: one directive], src/hw3/xv6/console.c:77-99 *)
Definition kdirective str (c : Z) args : option (list Z * list Z) :=
  if c =? 100 then '(a, args) ← next_arg args; s ← printint LOWER (i32 a) 10 true; Some (s, args)
  else if (c =? 120) || (c =? 112) then '(a, args) ← next_arg args; s ← printint LOWER (i32 a) 16 false; Some (s, args)
  else if c =? 115 then '(a, args) ← next_arg args; s ← string_at str a; Some (s, args)
  else if c =? PCT then Some ([PCT], args)
  else Some ([PCT; c], args).

(** [cprintf], src/hw3/xv6/console.c:53-104
    What the console gets; the lock of the console is not part of it. *)
Fixpoint cprintf str fmt args : option (list Z) :=
  match fmt with
  | [] => Some []
  | c :: fmt1 =>
      if negb (c =? PCT) then rest ← cprintf str fmt1 args; Some (c :: rest)
      else
        match fmt1 with
        | [] => Some []
        | c :: fmt2 => '(s, args) ← kdirective str c args; rest ← cprintf str fmt2 args; Some (s ++ rest)
        end
  end.

(** ** Decimal numbers *)

Lemma push_Some buf c : (length buf < 16)%nat → push buf c = Some (buf ++ [c]).
Proof. intros H. unfold push. by rewrite (proj2 (Nat.ltb_lt _ _)). Qed.

(** The decimal digits of a number, the lowest first. *)
Fixpoint decimal (fuel : nat) (x : Z) : list Z :=
  match fuel with O => [] | S fuel' => (48 + x mod 10) :: if x / 10 =? 0 then [] else decimal fuel' (x / 10) end.

Lemma decimal_digit digits x : take 10 digits = take 10 UPPER → getZ digits (x mod 10) = Some (48 + x mod 10).
Proof.
  intros Hd. pose proof (Z.mod_pos_bound x 10 ltac:(lia)). unfold getZ. rewrite (proj2 (Z.leb_le _ _)) by lia.
  assert (digits !! Z.to_nat (x mod 10) = UPPER !! Z.to_nat (x mod 10)) as ->.
  { rewrite <- (lookup_take_lt digits 10), Hd, lookup_take_lt by lia. done. }
  assert (∃ k, x mod 10 = Z.of_nat k ∧ (k < 10)%nat) as (k & -> & Hk) by (exists (Z.to_nat (x mod 10)); lia). rewrite Nat2Z.id.
  do 10 (destruct k as [|k]; [done|]). lia.
Qed.

Lemma printint_loop_decimal n : ∀ fuel digits x buf,
  take 10 digits = take 10 UPPER → 0 ≤ x < 10 ^ Z.of_nat n → (n + length buf ≤ 16)%nat → (0 < n ≤ fuel)%nat →
  printint_loop fuel digits x 10 buf = Some (buf ++ decimal n x) ∧ (length (decimal n x) ≤ n)%nat.
Proof.
  induction n as [|n IH]; intros fuel digits x buf Hd Hx Hl Hf; [lia|]. destruct fuel as [|fuel]; [lia|]. cbn [printint_loop decimal].
  rewrite decimal_digit by done. cbn [mbind option_bind]. rewrite push_Some by lia. cbn [mbind option_bind]. destruct (Z.eqb_spec (x / 10) 0) as [E|E]; [split; [done|cbn; lia]|].
  rewrite Nat2Z.inj_succ, Z.pow_succ_r in Hx by lia.
  assert (0 < n)%nat as Hn by (destruct n; [change (10 ^ Z.of_nat 0) with 1 in Hx; dlia|lia]).
  destruct (IH fuel digits (x / 10) (buf ++ [48 + x mod 10]) Hd) as [-> Hlen]; [dlia|rewrite length_app; cbn; lia|lia|].
  rewrite <- app_assoc. split; [done|]. cbn. lia.
Qed.

(** atoi of decimal digits in front of something else.  It adds a digit before it
    subtracts the code of 0, and so has no value for the largest ints. *)
Lemma atoi_decimal n : ∀ x rest, 0 ≤ x < 10 ^ Z.of_nat n → x < 2 ^ 31 → (0 < n)%nat →
  atoi_loop 0 (reverse (decimal n x) ++ rest) = if x + 48 <? 2 ^ 31 then atoi_loop x rest else None.
Proof.
  induction n as [|n IH]; intros x rest Hx Hlt Hn; [lia|]. cbn [decimal]. rewrite reverse_cons, <- app_assoc. cbn [app].
  pose proof (Z.mod_pos_bound x 10 ltac:(lia)) as Hm.
  assert (∀ a, a = x / 10 → atoi_loop a ((48 + x mod 10) :: rest) = if x + 48 <? 2 ^ 31 then atoi_loop x rest else None) as Hstep.
  { intros a ->. cbn [atoi_loop]. rewrite (proj2 (Z.leb_le 48 _)), (proj2 (Z.leb_le _ 57)) by lia. cbn [andb]. unfold int_chk.
    rewrite (proj2 (Z.leb_le _ (x / 10 * 10))), (proj2 (Z.ltb_lt (x / 10 * 10) _)) by dlia. cbn [andb mbind option_bind].
    replace (x / 10 * 10 + (48 + x mod 10)) with (x + 48) by dlia. rewrite (proj2 (Z.leb_le _ (x + 48))) by lia. cbn [andb]. destruct (x + 48 <? 2 ^ 31); cbn [mbind option_bind]; [|done].
    replace (x + 48 - 48) with x by lia. rewrite (proj2 (Z.leb_le _ x)), (proj2 (Z.ltb_lt x _)) by lia. done. }
  destruct (Z.eqb_spec (x / 10) 0) as [E|E]; [by apply Hstep|]. rewrite Nat2Z.inj_succ, Z.pow_succ_r in Hx by lia.
  assert (0 < n)%nat as Hn' by (destruct n; [change (10 ^ Z.of_nat 0) with 1 in Hx; dlia|lia]).
  rewrite IH by (done || dlia). rewrite (proj2 (Z.ltb_lt (x / 10 + 48) _)) by dlia. by apply Hstep.
Qed.

(** Both tables of digits give the same decimal numbers. *)
Lemma printint_decimal digits xx : take 10 digits = take 10 UPPER → - 2 ^ 31 < xx < 2 ^ 31 →
  printint digits xx 10 true = Some ((if xx <? 0 then [45] else []) ++ reverse (decimal 10 (Z.abs xx))).
Proof.
  intros Hd Hx. unfold printint. cbn [andb]. set (neg := xx <? 0).
  assert ((if neg then y ← chk (- xx); Some (u32 y) else Some (u32 xx)) = Some (Z.abs xx)) as ->.
  { subst neg. destruct (Z.ltb_spec xx 0); [|rewrite u32_small by lia; f_equal; lia]. unfold chk. rewrite (proj2 (Z.leb_le _ (- xx))), (proj2 (Z.ltb_lt (- xx) _)) by lia.
    cbn [andb mbind option_bind]. rewrite u32_small by lia. f_equal. lia. }
  cbn [mbind option_bind]. assert (0 ≤ Z.abs xx < 10 ^ Z.of_nat 10) as Hr by (change (10 ^ Z.of_nat 10) with 10000000000; lia).
  destruct (printint_loop_decimal 10 33 digits (Z.abs xx) [] Hd Hr ltac:(cbn; lia) ltac:(lia)) as [-> Hl]. cbn [mbind option_bind app].
  destruct neg; cbn [app]; [|done]. rewrite push_Some by lia. cbn [mbind option_bind]. by rewrite reverse_app.
Qed.
Lemma printint_min digits : printint digits (- 2 ^ 31) 10 true = None.
Proof. done. Qed.
Lemma printint_tables xx : - 2 ^ 31 ≤ xx < 2 ^ 31 → printint LOWER xx 10 true = printint UPPER xx 10 true.
Proof. intros Hx. destruct (decide (xx = - 2 ^ 31)) as [->|Hne]; [by rewrite !printint_min|]. by rewrite !printint_decimal by (done || lia). Qed.

(** ** Theorems *)

(** C28. What printf writes for %d, atoi reads back.  For every int that is not
    negative the digits fit into printint's buffer, and atoi of them gives the
    number; for the 48 largest ints atoi's sum overflows before it subtracts
    the code of 0, and has no value. *)
Theorem printf_atoi str n :
  0 ≤ n < 2 ^ 31 →
  ∃ out, printf str [PCT; 100] false [n] = Some out ∧ atoi (out ++ [0]) = if n + 48 <? 2 ^ 31 then Some n else None.
Proof.
  intros Hn. exists (reverse (decimal 10 n)). split.
  - cbn [printf]. change (PCT =? PCT) with true. unfold directive. cbn [Z.eqb Pos.eqb next_arg mbind option_bind]. rewrite i32_small by lia.
    rewrite printint_decimal by (done || lia). rewrite (proj2 (Z.ltb_ge n 0)) by lia. cbn [mbind option_bind app]. by rewrite app_nil_r, Z.abs_eq by lia.
  - unfold atoi. rewrite atoi_decimal by (change (10 ^ Z.of_nat 10) with 10000000000; lia). done.
Qed.
Lemma printf_atoi_witness :
  ∃ out, printf (λ _, None) [PCT; 100] false [2020] = Some out ∧ atoi (out ++ [0]) = Some 2020.
Proof. exact (printf_atoi (λ _, None) 2020 ltac:(lia)). Defined.

(** No %c, and no hexadecimal number. *)
Fixpoint same_directives fmt (state : bool) : bool :=
  match fmt with
  | [] => true
  | c :: fmt => if state then negb ((c =? 99) || (c =? 120) || (c =? 112)) && same_directives fmt false else same_directives fmt (c =? PCT)
  end.

(** The kernel's cprintf and the user library's printf, written differently
    (one skips ahead in the format, the other keeps a state), put out the same
    characters for every format without %c, %x and %p, an unfinished directive
    at its end included, and take the same arguments. *)
Theorem cprintf_printf str fmt args : same_directives fmt false = true → cprintf str fmt args = printf str fmt false args.
Proof.
  assert (∀ n fmt args, (length fmt ≤ n)%nat → same_directives fmt false = true → cprintf str fmt args = printf str fmt false args) as H; [|by intros; apply (H (length fmt))].
  clear fmt args. induction n as [|n IH]; intros [|c fmt] args Hl Hs; try done; [cbn in Hl; lia|]. cbn [cprintf printf same_directives] in *. cbn in Hl.
  destruct (Z.eqb_spec c PCT) as [->|Hc]; cbn [negb]; [|by rewrite IH by (done || lia)].
  destruct fmt as [|c fmt]; [done|]. cbn [same_directives printf] in *. cbn in Hl. apply andb_true_iff in Hs as [Hd Hs].
  apply negb_true_iff in Hd. apply orb_false_iff in Hd as [[Hc Hx]%orb_false_iff Hp].
  assert (kdirective str c args = directive str c args) as ->.
  { unfold kdirective, directive. rewrite Hc, Hx, Hp. cbn [orb]. destruct (c =? 100).
    - destruct args as [|a args]; cbn [next_arg mbind option_bind]; [done|]. by rewrite printint_tables by apply i32_range.
    - destruct (c =? 115); [done|]. destruct (Z.eqb_spec c PCT) as [->|]; done. }
  destruct (directive str c args) as [[s args']|]; cbn [mbind option_bind]; [|done]. by rewrite IH by (done || lia).
Qed.
(** A format with a number, an unknown directive and an unfinished one. *)
Lemma cprintf_printf_witness : cprintf (λ _, None) [37; 100; 37; 113; 37] [7] = printf (λ _, None) [37; 100; 37; 113; 37] false [7].
Proof. exact (cprintf_printf (λ _, None) [37; 100; 37; 113; 37] [7] eq_refl). Defined.
