(* ===== verification/Console.v ===== *)
(** * The console: line editing and the screen (xv6: console.c)

    The interrupt handler edits a line in a ring buffer; consoleread takes what
    is committed.  The indices are uints that wrap around. *)

From S2P Require Import Prelude Bytes.

Definition INPUT_BUF : Z := 128.
Definition BACKSPACE : Z := 256.
Definition NL : Z := 10.
Definition CR : Z := 13.
Definition CTRL_D : Z := 4.
Definition CTRL_H : Z := 8.
Definition CTRL_P : Z := 16.
Definition CTRL_U : Z := 21.
Definition DEL : Z := 127.

(** [input], src/hw3/xv6/console.c:181-187
    With the characters given to consputc and the number of wakeups so far. *)
Record input := Input { ibuf : list Z; ir : Z; iw : Z; ie : Z; shown : list Z; woken : Z }.
Definition set_ie (x : Z) (s : input) := Input (ibuf s) (ir s) (iw s) x (shown s) (woken s).
Definition set_ir (x : Z) (s : input) := Input (ibuf s) x (iw s) (ie s) (shown s) (woken s).
Definition show (c : Z) (s : input) := Input (ibuf s) (ir s) (iw s) (ie s) (shown s ++ [c]) (woken s).
(** The character at index [i] of the ring. *)
Definition at_ (s : input) (i : Z) : Z := nth (Z.to_nat (i mod INPUT_BUF)) (ibuf s) 0.

(** [consoleintr: kill line], src/hw3/xv6/console.c:204-208 *)
Fixpoint kill_line (fuel : nat) (s : input) : option input :=
  if negb (ie s =? iw s) && negb (at_ s (u32 (ie s - 1)) =? NL) then
    match fuel with O => None | S fuel' => kill_line fuel' (show BACKSPACE (set_ie (u32 (ie s - 1)) s)) end
  else Some s.

(** [consoleintr: one character], src/hw3/xv6/console.c:198-227 *)
Definition console_char (s : input) (c : Z) : option input :=
  if c =? CTRL_P then Some s
  else if c =? CTRL_U then kill_line (Z.to_nat (u32 (ie s - iw s))) s
  else if (c =? CTRL_H) || (c =? DEL) then
    if negb (ie s =? iw s) then Some (show BACKSPACE (set_ie (u32 (ie s - 1)) s)) else Some s
  else if negb (c =? 0) && (u32 (ie s - ir s) <? INPUT_BUF) then
    let c := if c =? CR then NL else c in
    let s := Input (<[Z.to_nat (ie s mod INPUT_BUF) := c]> (ibuf s)) (ir s) (iw s) (u32 (ie s + 1)) (shown s ++ [c]) (woken s) in
    if (c =? NL) || (c =? CTRL_D) || (ie s =? u32 (ir s + INPUT_BUF)) then
      Some (Input (ibuf s) (ir s) (ie s) (ie s) (shown s) (woken s + 1))
    else Some s
  else Some s.

(** [consoleintr], src/hw3/xv6/console.c:191-233
    [cs] is what getc returns before it is negative; the result says whether
    procdump is to be called. *)
Fixpoint consoleintr (cs : list Z) (s : input) (doprocdump : bool) : option (input * bool) :=
  match cs with
  | [] => Some (s, doprocdump)
  | c :: cs' => s ← console_char s c; consoleintr cs' s (doprocdump || (c =? CTRL_P))
  end.

(** The ways out of the loop of consoleread: to sleep with [n] bytes to go, or
    the end. *)
Inductive cread := Asleep (dst : list Z) (n : Z) (s : input) | Done (dst : list Z) (n : Z) (s : input).

(** [consoleread: the loop], src/hw3/xv6/console.c:244-266
    Of a process that is not killed; [dst] is what it has so far. *)
Fixpoint consoleread_loop (fuel : nat) (target n : Z) (dst : list Z) (s : input) : cread :=
  match fuel with
  | O => Done dst n s
  | S fuel' =>
      if ir s =? iw s then Asleep dst n s
      else
        let c := at_ s (ir s) in
        let s' := set_ir (u32 (ir s + 1)) s in
        if c =? CTRL_D then Done dst n (if n <? target then s else s')
        else if c =? NL then Done (dst ++ [c]) (n - 1) s'
        else consoleread_loop fuel' target (n - 1) (dst ++ [c]) s'
  end.

(** [consoleread], src/hw3/xv6/console.c:235-271
    From the beginning, or woken with [dst] read and [n] to go. *)
Definition consoleread (target n : Z) (dst : list Z) (s : input) : cread := consoleread_loop (Z.to_nat n) target n dst s.

(** ** The line editor that this implements *)

(** What is committed and not yet read, and the line that is being edited. *)
Record editor := Editor { committed : list Z; line : list Z }.

Definition edit (a : editor) (c : Z) : editor :=
  if c =? CTRL_P then a
  else if c =? CTRL_U then Editor (committed a) []
  else if (c =? CTRL_H) || (c =? DEL) then Editor (committed a) (removelast (line a))
  else if negb (c =? 0) && (lenZ (committed a ++ line a) <? INPUT_BUF) then
    let c := if c =? CR then NL else c in
    let l := line a ++ [c] in
    if (c =? NL) || (c =? CTRL_D) || (lenZ (committed a ++ l) =? INPUT_BUF) then Editor (committed a ++ l) [] else Editor (committed a) l
  else a.

(** The state [s] has the text of [a]; a line being edited has no newline. *)
Record has_text (s : input) (a : editor) : Prop := {
  ho_buf : length (ibuf s) = 128%nat;
  ho_idx : (0 ≤ ir s < 2 ^ 32) ∧ (0 ≤ iw s < 2 ^ 32) ∧ (0 ≤ ie s < 2 ^ 32);
  ho_w : iw s = u32 (ir s + lenZ (committed a));
  ho_e : ie s = u32 (iw s + lenZ (line a));
  ho_fit : lenZ (committed a ++ line a) ≤ INPUT_BUF;
  ho_text k : (k < length (committed a ++ line a))%nat → at_ s (ir s + Z.of_nat k) = nth k (committed a ++ line a) 0
}.
Definition holds (s : input) (a : editor) : Prop := has_text s a ∧ Forall (λ c, c ≠ NL) (line a).

Lemma mod_u32 z : u32 z mod INPUT_BUF = z mod INPUT_BUF.
Proof. unfold u32, INPUT_BUF. apply Z.mod_mod_divide. by exists 33554432. Qed.
Lemma at_u32 s z : at_ s (u32 z) = at_ s z.
Proof. unfold at_. by rewrite mod_u32. Qed.
Lemma u32_sub_add a n : 0 ≤ n < 2 ^ 32 → u32 (u32 (a + n) - a) = n.
Proof. intros Hn. unfold u32. rewrite Zminus_mod_idemp_l. replace (a + n - a) with n by lia. by apply Z.mod_small. Qed.
Lemma u32_add_add a n m : u32 (u32 (a + n) + m) = u32 (a + (n + m)).
Proof. unfold u32. rewrite Zplus_mod_idemp_l. f_equal. lia. Qed.
Lemma u32_eq_add a n m : 0 ≤ n < 2 ^ 32 → 0 ≤ m < 2 ^ 32 → u32 (a + n) = u32 (a + m) → n = m.
Proof. intros Hn Hm E. rewrite <- (u32_sub_add a n Hn), <- (u32_sub_add a m Hm). by rewrite E. Qed.

(** ** The handler *)

Lemma removelast_app_single (l : list Z) : l ≠ [] → ∃ l' c, l = l' ++ [c] ∧ removelast l = l'.
Proof. intros Hl. destruct (exists_last Hl) as (l' & c & ->). exists l', c. split; [done|]. apply removelast_last. Qed.

Section step.
Context (s : input) (a : editor).
Hypothesis (H : has_text s a).
Abbreviation txt := (committed a ++ line a).

Lemma text_len : lenZ (committed a) + lenZ (line a) = lenZ txt ∧ 0 ≤ lenZ (committed a) ∧ 0 ≤ lenZ (line a) ∧ lenZ txt ≤ 128.
Proof using H. pose proof (ho_fit _ _ H) as Hf. unfold lenZ, INPUT_BUF in *. rewrite length_app in *. lia. Qed.
Lemma edit_index : ie s = u32 (ir s + lenZ txt).
Proof using H. rewrite (ho_e _ _ H), (ho_w _ _ H), u32_add_add. f_equal. pose proof text_len. lia. Qed.
Lemma empty_line : (ie s =? iw s) = bool_decide (line a = []).
Proof using H.
  pose proof text_len as (H1 & H2 & H3 & H4). rewrite edit_index, (ho_w _ _ H). destruct (decide (line a = [])) as [E|E].
  - rewrite bool_decide_eq_true_2 by done. apply Z.eqb_eq. f_equal. rewrite E, app_nil_r. lia.
  - rewrite bool_decide_eq_false_2 by done. apply Z.eqb_neq. intros Eq. apply u32_eq_add in Eq; [|lia|lia]. destruct (line a); [done|]. unfold lenZ in *. cbn in *. lia.
Qed.

(** One character less. *)
Lemma text_back l' c : line a = l' ++ [c] → has_text (show BACKSPACE (set_ie (u32 (ie s - 1)) s)) (Editor (committed a) l').
Proof using H.
  intros El. pose proof text_len as (H1 & H2 & H3 & H4). pose proof H as [A1 A2 A3 A4 A5 A6]. assert (lenZ (line a) = lenZ l' + 1) as Hll by (rewrite El; unfold lenZ; rewrite length_app; cbn; lia).
  constructor; cbn [ibuf ir iw ie show set_ie committed line]; [done| |done| | |].
  - split; [apply A2|]. split; [apply A2|]. apply u32_range.
  - rewrite A4, Hll. unfold u32. rewrite Zminus_mod_idemp_l. f_equal. lia.
  - unfold lenZ, INPUT_BUF in *. rewrite length_app in *. lia.
  - intros k Hk. unfold at_ in *. cbn [ibuf ir]. rewrite A6 by (rewrite El, !length_app in *; lia). rewrite El, app_assoc, (app_nth1 (_ ++ l')) by done. done.
Qed.

Lemma last_char l' c : line a = l' ++ [c] → at_ s (u32 (ie s - 1)) = c.
Proof using H.
  intros El. pose proof text_len as (H1 & H2 & H3 & H4). rewrite at_u32, edit_index. replace (at_ s (u32 (ir s + lenZ txt) - 1)) with (at_ s (ir s + Z.of_nat (length txt - 1))).
  - assert (0 < length txt)%nat by (rewrite El, !length_app; cbn; lia). rewrite (ho_text _ _ H) by lia. rewrite El, app_assoc, length_app. cbn [length].
    rewrite app_nth2 by lia. replace (length (committed a ++ l') + 1 - 1 - length (committed a ++ l'))%nat with 0%nat by lia. done.
  - assert (0 < length txt)%nat by (rewrite El, !length_app; cbn; lia). unfold at_. do 2 f_equal. rewrite <- (mod_u32 (u32 _ - 1)). unfold u32. rewrite Zminus_mod_idemp_l.
    change ((ir s + lenZ txt - 1) mod 2 ^ 32) with (u32 (ir s + lenZ txt - 1)). rewrite mod_u32. f_equal. unfold lenZ. lia.
Qed.

(** One character more. *)
Lemma text_put c sh w : lenZ txt < 128 →
  has_text (Input (<[Z.to_nat (ie s mod INPUT_BUF) := c]> (ibuf s)) (ir s) (iw s) (u32 (ie s + 1)) sh w) (Editor (committed a) (line a ++ [c])).
Proof using H.
  intros Hl. pose proof text_len as (H1 & H2 & H3 & H4). pose proof H as [A1 A2 A3 A4 A5 A6].
  assert (∀ k : nat, (k ≤ 128)%nat → 0 ≤ (ir s + Z.of_nat k) mod 128 < 128) as Hmod by (intros; apply Z.mod_pos_bound; lia).
  assert (ie s mod INPUT_BUF = (ir s + lenZ txt) mod 128) as Eie by (rewrite edit_index; apply mod_u32).
  constructor; cbn [ibuf ir iw ie committed line].
  - by rewrite length_insert.
  - split; [apply A2|]. split; [apply A2|]. apply u32_range.
  - done.
  - rewrite A4, u32_add_add. f_equal. unfold lenZ. rewrite length_app. cbn. lia.
  - rewrite app_assoc. unfold lenZ, INPUT_BUF in *. rewrite length_app. cbn. lia.
  - intros k Hk. rewrite app_assoc in *. rewrite length_app in Hk. cbn in Hk. unfold at_ in *. cbn [ibuf ir]. rewrite Eie. unfold INPUT_BUF in *. unfold lenZ in *. rewrite !nth_lookup.
    destruct (decide (k = length txt)) as [->|Hne].
    + rewrite list_lookup_insert_eq by (rewrite A1; pose proof (Hmod (length txt) ltac:(lia)); lia). rewrite lookup_app_r, Nat.sub_diag by lia. done.
    + rewrite list_lookup_insert_ne, lookup_app_l by (try lia; clear -Hk Hl Hne; zify; dlia). rewrite <- !nth_lookup. apply A6. lia.
Qed.

(** The line is committed. *)
Lemma text_commit sh w : has_text (Input (ibuf s) (ir s) (ie s) (ie s) sh w) (Editor txt []).
Proof using H.
  pose proof H as [A1 A2 A3 A4 A5 A6]. constructor; cbn [ibuf ir iw ie committed line]; rewrite ?app_nil_r; [done| | | |done|done].
  - split_and!; apply A2.
  - apply edit_index.
  - unfold lenZ. cbn. rewrite Z.add_0_r, u32_small by apply A2. done.
Qed.
End step.

Lemma kill_line_spec fuel : ∀ s a, holds s a → (length (line a) ≤ fuel)%nat → ∃ s', kill_line fuel s = Some s' ∧ holds s' (Editor (committed a) []).
Proof.
  induction fuel as [|fuel IH]; intros s [co l] [Ht Hl] Hf; cbn [line committed] in *; cbn [kill_line]; rewrite (empty_line s _ Ht); cbn [line].
  - destruct l; [|cbn in Hf; lia]. cbn. by exists s.
  - destruct (decide (l = [])) as [->|Hne]; [cbn; by exists s|]. rewrite bool_decide_eq_false_2 by done. destruct (removelast_app_single l Hne) as (l' & c & -> & _).
    rewrite (last_char s _ Ht l' c) by done. apply Forall_app in Hl as [Hl' Hc]. apply Forall_cons in Hc as [Hc _]. rewrite (proj2 (Z.eqb_neq c NL) Hc). cbn [negb andb].
    rewrite length_app in Hf. cbn in Hf. apply (IH _ (Editor co l')); [|cbn; lia]. split; [by apply (text_back s (Editor co (l' ++ [c])) Ht l' c)|done].
Qed.

Lemma console_char_spec s a c : holds s a → ∃ s', console_char s c = Some s' ∧ holds s' (edit a c).
Proof.
  intros [Ht Hl]. pose proof (text_len s a Ht) as (H1 & H2 & H3 & H4). unfold console_char, edit. destruct (c =? CTRL_P); [by exists s|]. destruct (c =? CTRL_U).
  { apply kill_line_spec; [done|]. rewrite (ho_e _ _ Ht), u32_sub_add by lia. unfold lenZ. lia. }
  destruct ((c =? CTRL_H) || (c =? DEL)).
  { rewrite (empty_line s a Ht). destruct (decide (line a = [])) as [E|Hne]; [rewrite bool_decide_eq_true_2 by done; rewrite E; exists s; split; [done|]; destruct a; cbn in *; by subst|].
    rewrite bool_decide_eq_false_2 by done. destruct (removelast_app_single (line a) Hne) as (l' & x & El & ->). cbn [negb]. eexists. split; [done|].
    split; [by apply (text_back s a Ht l' x)|]. cbn. rewrite El in Hl. by apply Forall_app in Hl as [? _]. }
  rewrite (edit_index s a Ht), u32_sub_add by lia. destruct (negb (c =? 0) && (lenZ (committed a ++ line a) <? INPUT_BUF)) eqn:E; [|by exists s].
  apply andb_true_iff in E as [_ Hlt%Z.ltb_lt]. set (c' := if c =? CR then NL else c). cbv zeta. cbn [ie ir ibuf shown woken].
  rewrite <- (edit_index s a Ht). pose proof (text_put s a Ht c' (shown s ++ [c']) (woken s) Hlt) as Hp. set (s1 := Input _ _ _ _ _ _) in *.
  assert ((u32 (ie s + 1) =? u32 (ir s + INPUT_BUF)) = (lenZ (committed a ++ line a ++ [c']) =? INPUT_BUF)) as ->.
  { rewrite app_assoc. unfold lenZ at 1. rewrite length_app. cbn [length]. rewrite (edit_index s a Ht), u32_add_add. unfold lenZ, INPUT_BUF in *. apply eq_true_iff_eq. rewrite !Z.eqb_eq. split; [|intros Eq; f_equal; lia].
    intros Eq. apply u32_eq_add in Eq; lia. }
  destruct ((c' =? NL) || (c' =? CTRL_D) || (lenZ (committed a ++ line a ++ [c']) =? INPUT_BUF)) eqn:Ec.
  - eexists. split; [done|]. split; [exact (text_commit s1 _ Hp (shown s ++ [c']) (woken s + 1))|constructor].
  - eexists. split; [done|]. split; [exact Hp|]. cbn. apply Forall_app. split; [done|]. apply Forall_singleton. apply orb_false_iff in Ec as [[Ec%Z.eqb_neq _]%orb_false_iff _]. done.
Qed.

(** ** Reading *)

(** What consoleread takes of the committed text: up to [n] characters, a line, or
    an end of file, which it leaves if it has read something. *)
Fixpoint take_line (n : nat) (first : bool) (l : list Z) : option (list Z * list Z) :=
  match n, l with
  | O, _ => Some ([], l)
  | S _, [] => None
  | S n', c :: l' =>
      if c =? CTRL_D then Some ([], if first then l' else c :: l')
      else if c =? NL then Some ([c], l')
      else '(t, r) ← take_line n' false l'; Some (c :: t, r)
  end.

Lemma text_pop s c l li : has_text s (Editor (c :: l) li) → at_ s (ir s) = c ∧ ir s ≠ iw s ∧ has_text (set_ir (u32 (ir s + 1)) s) (Editor l li).
Proof.
  intros Ht. pose proof (text_len s _ Ht) as (H1 & H2 & H3 & H4). pose proof Ht as [A1 A2 A3 A4 A5 A6]. cbn [committed line] in *. split_and!.
  - specialize (A6 0%nat ltac:(cbn; lia)). by rewrite Z.add_0_r in A6.
  - rewrite A3. intros E. rewrite <- (u32_small (ir s)) in E at 1 by apply A2. rewrite <- (Z.add_0_r (ir s)) in E at 1. apply u32_eq_add in E; unfold lenZ in *; cbn in *; lia.
  - assert (lenZ (c :: l) = lenZ l + 1) as E by (unfold lenZ; cbn; lia). constructor; cbn [ibuf ir iw ie set_ir committed line]; [done| | |done| |].
    + split; [apply u32_range|]. apply A2.
    + rewrite A3, u32_add_add. f_equal. lia.
    + unfold lenZ in *. cbn in A5. lia.
    + intros k Hk. specialize (A6 (S k) ltac:(cbn; lia)). cbn [app nth] in A6. rewrite <- A6. unfold at_. cbn [ibuf ir]. do 2 f_equal.
      rewrite <- (mod_u32 (u32 _ + _)), u32_add_add, mod_u32. f_equal. lia.
Qed.

Lemma consoleread_loop_spec n : ∀ dst target s co li t rest first,
  has_text s (Editor co li) → Z.of_nat n ≤ target → first = (Z.of_nat n =? target) → take_line n first co = Some (t, rest) →
  ∃ s', consoleread_loop n target (Z.of_nat n) dst s = Done (dst ++ t) (Z.of_nat n - lenZ t) s' ∧ has_text s' (Editor rest li).
Proof.
  induction n as [|n IH]; intros dst target s co li t rest first Ht Hn Hfirst Htake; cbn [take_line consoleread_loop] in *.
  { injection Htake as <- <-. exists s. rewrite app_nil_r. unfold lenZ. cbn. done. }
  destruct co as [|c l]; [done|]. destruct (text_pop s c l li Ht) as (Hc & Hne & Ht'). rewrite (proj2 (Z.eqb_neq _ _)) by done. rewrite Hc. destruct (c =? CTRL_D).
  - injection Htake as <- <-. rewrite app_nil_r. unfold lenZ. cbn [length]. rewrite Z.sub_0_r. destruct (Z.eqb_spec (Z.of_nat (S n)) target) as [E|E]; rewrite Hfirst.
    + rewrite (proj2 (Z.ltb_ge _ _)) by lia. eexists. split; [reflexivity|exact Ht'].
    + rewrite (proj2 (Z.ltb_lt _ _)) by lia. exists s. split; [reflexivity|exact Ht].
  - destruct (c =? NL); [injection Htake as <- <-; eexists; split; [|exact Ht']; unfold lenZ; done|].
    destruct (take_line n false l) as [[t' r']|] eqn:E; [|done]. cbn in Htake. injection Htake as <- <-. replace (Z.of_nat (S n) - 1) with (Z.of_nat n) by lia.
    destruct (IH (dst ++ [c]) target _ l li t' r' false Ht' ltac:(lia)) as (s' & Hs' & Ht''); [by rewrite (proj2 (Z.eqb_neq _ _)) by lia|done|].
    exists s'. rewrite Hs', <- app_assoc. unfold lenZ. cbn [length]. split; [|done]. f_equal. lia.
Qed.

Lemma consoleintr_spec ks : ∀ s a d, holds s a → ∃ s' d', consoleintr ks s d = Some (s', d') ∧ holds s' (foldl edit a ks).
Proof.
  induction ks as [|c ks IH]; intros s a d Hh; [by exists s, d|]. cbn [consoleintr foldl]. destruct (console_char_spec s a c Hh) as (s1 & -> & H1). cbn. by apply IH.
Qed.

(** C25. The console is a line editor.  Whatever keys the handler gets, in any state
    of the ring and with its indices about to wrap around, it keeps exactly the
    text that the editor [edit] does: characters are added while the buffer has
    room, backspace and Ctrl-U work on the line that is not finished, a return
    or Ctrl-D or a full buffer finishes it.  A consoleread then returns the first
    line, or the first [n] characters of it, or nothing at an end of file, and
    leaves the rest. *)
Theorem console_edits s a ks d n t rest :
  holds s a → take_line n (0 <? n)%nat (committed (foldl edit a ks)) = Some (t, rest) →
  ∃ s1 d1 s2, consoleintr ks s d = Some (s1, d1) ∧
    consoleread (Z.of_nat n) (Z.of_nat n) [] s1 = Done t (Z.of_nat n - lenZ t) s2 ∧ holds s2 (Editor rest (line (foldl edit a ks))).
Proof.
  intros Hh Ht. destruct (consoleintr_spec ks s a d Hh) as (s1 & d1 & Hs1 & [H1 Hl]). destruct (foldl edit a ks) as [co li]. cbn [committed line] in *.
  exists s1, d1. unfold consoleread. rewrite Nat2Z.id.
  destruct (consoleread_loop_spec n [] (Z.of_nat n) s1 co li t rest (Z.of_nat n =? Z.of_nat n) H1 ltac:(lia) eq_refl) as (s2 & Hr & H2).
  { rewrite Z.eqb_refl. rewrite <- Ht. by destruct n. }
  exists s2. split; [done|]. split; [done|]. by split.
Qed.

(** The ring when its indices wrap around: h, x, backspace, i, return. *)
Definition input1 : input := Input (replicate 128 0) 4294967294 4294967294 4294967294 [] 0.
Lemma console_edits_witness :
  ∃ s1 d1 s2, consoleintr [104; 120; 8; 105; 13] input1 false = Some (s1, d1) ∧ consoleread 5 5 [] s1 = Done [104; 105; 10] 2 s2 ∧ holds s2 (Editor [] []).
Proof.
  apply (console_edits input1 (Editor [] []) [104; 120; 8; 105; 13] false 5 [104; 105; 10] []); [|reflexivity]. split; [|constructor].
  constructor; [reflexivity|cbn; lia|reflexivity|reflexivity|discriminate|cbn; lia].
Defined.

(** ** The screen *)

(** The memory of the screen and the position of the cursor. *)
Record cga := Cga { crt : list Z; pos : Z }.

(** A store to a cell; absent outside of the 25 lines. *)
Definition store_cell (m : list Z) (p x : Z) : option (list Z) := if (0 <=? p) && (p <? lenZ m) then Some (setZ m p x) else None.

(** [cgaputc: the character], src/hw3/xv6/console.c:142-147 *)
Definition cga_char (c : Z) (s : cga) : option (list Z * Z) :=
  if c =? NL then Some (crt s, pos s + (80 - pos s mod 80))
  else if c =? BACKSPACE then Some (crt s, if 0 <? pos s then pos s - 1 else pos s)
  else m ← store_cell (crt s) (pos s) (Z.lor (Z.land c 255) 1792); Some (m, pos s + 1).

(** [cgaputc: scroll up], src/hw3/xv6/console.c:152-156 *)
Definition cga_scroll (m : list Z) (p : Z) : list Z * Z :=
  if 24 <=? p / 80 then
    let m := put 0 (get 80 (23 * 80) m) m in
    let p := p - 80 in
    (put (Z.to_nat p) (replicate (Z.to_nat (24 * 80 - p)) 0) m, p)
  else (m, p).

(** [cgaputc], src/hw3/xv6/console.c:131-163
    Absent: a store outside of the screen, or the panic. *)
Definition cgaputc (c : Z) (s : cga) : option cga :=
  '(m, p) ← cga_char c s;
  if (p <? 0) || (25 * 80 <? p) then None
  else
    let '(m, p) := cga_scroll m p in
    m ← store_cell m p (Z.lor 32 1792);
    Some (Cga m p).

(** The cursor is on one of the first 24 lines. *)
Definition on_screen (s : cga) : Prop := length (crt s) = 2000%nat ∧ 0 ≤ pos s < 1920.

Lemma store_cell_ok m p x : 0 ≤ p < lenZ m → store_cell m p x = Some (setZ m p x).
Proof. intros Hp. unfold store_cell. by rewrite (proj2 (Z.leb_le _ _)), (proj2 (Z.ltb_lt _ _)) by lia. Qed.

Lemma cga_scroll_ok m p : length m = 2000%nat → 0 ≤ p ≤ 1920 →
  let '(m', p') := cga_scroll m p in length m' = 2000%nat ∧ 0 ≤ p' < 1920 ∧ (0 < p → getZ m' (p' - 1) = getZ m (p - 1)).
Proof.
  intros Hm Hp. unfold cga_scroll. destruct (Z.leb_spec 24 (p / 80)) as [Hs|Hs]; [|split; [done|]; split; [dlia|done]].
  assert (p = 1920) as -> by dlia. change (Z.to_nat (1920 - 80)) with 1840%nat. change (Z.to_nat (24 * 80 - (1920 - 80))) with 80%nat. change (23 * 80)%nat with 1840%nat.
  assert (length (get 80 1840 m) = 1840%nat) as Hg by (rewrite length_get; lia).
  assert (length (put 0 (get 80 1840 m) m) = 2000%nat) as Hl by (rewrite length_put; lia). split; [rewrite length_put; rewrite ?length_replicate; lia|]. split; [lia|]. intros _.
  change (1920 - 80 - 1) with (Z.of_nat 1839). change (1920 - 1) with (Z.of_nat 1919). rewrite !getZ_nat.
  rewrite lookup_put, length_replicate, decide_False by (rewrite ?length_replicate; lia). rewrite lookup_put, Hg, decide_True by lia. rewrite lookup_get, decide_True by lia. done.
Qed.

Lemma cga_char_ok c s : on_screen s →
  ∃ m p, cga_char c s = Some (m, p) ∧ length m = 2000%nat ∧ 0 ≤ p ≤ 1920 ∧
    (c ≠ NL → c ≠ BACKSPACE → 0 < p ∧ getZ m (p - 1) = Some (Z.lor (Z.land c 255) 1792)).
Proof.
  intros [Hl Hp]. unfold cga_char. destruct (Z.eqb_spec c NL) as [->|Hn]; [eexists _, _; split; [done|]; split; [done|]; split; [dlia|done]|].
  destruct (Z.eqb_spec c BACKSPACE) as [->|Hb]; [eexists _, _; split; [done|]; split; [done|]; split; [destruct (Z.ltb_spec 0 (pos s)); lia|done]|].
  rewrite store_cell_ok by (unfold lenZ; lia). cbn. eexists _, _. split; [done|]. split; [pose proof (lenZ_setZ (crt s) (pos s) (Z.lor (Z.land c 255) 1792)) as E; unfold lenZ in E; lia|].
  split; [lia|]. intros _ _. split; [lia|]. replace (pos s + 1 - 1) with (pos s) by lia. apply getZ_setZ_eq. unfold lenZ. lia.
Qed.

(** C35. The cursor stays on the screen.  On every character, newlines, backspaces
    and the scrolling of the last line included, cgaputc neither panics nor
    stores outside of the screen; it leaves the cursor on the first 24 lines on a
    blank, and the character, if it is not one of these two, right before it. *)
Theorem cgaputc_on_screen c s : on_screen s →
  ∃ s', cgaputc c s = Some s' ∧ on_screen s' ∧ getZ (crt s') (pos s') = Some (Z.lor 32 1792) ∧
    (c ≠ NL → c ≠ BACKSPACE → getZ (crt s') (pos s' - 1) = Some (Z.lor (Z.land c 255) 1792)).
Proof.
  intros Hs. destruct (cga_char_ok c s Hs) as (m & p & E & Hm & Hp & Hc). unfold cgaputc. rewrite E. cbn [mbind option_bind].
  rewrite (proj2 (Z.ltb_ge _ _)), (proj2 (Z.ltb_ge (25 * 80) _)) by lia. cbn [orb]. pose proof (cga_scroll_ok m p Hm Hp) as Hsc. destruct (cga_scroll m p) as [m' p']. destruct Hsc as (Hm' & Hp' & Hb).
  rewrite store_cell_ok by (unfold lenZ; lia). cbn [mbind option_bind]. eexists. split; [done|]. unfold on_screen. cbn [crt pos]. split_and!; try lia.
  - pose proof (lenZ_setZ m' p' (Z.lor 32 1792)) as El. unfold lenZ in El. lia.
  - apply getZ_setZ_eq. unfold lenZ. lia.
  - intros H1 H2. rewrite getZ_setZ_ne by lia. destruct (Hc H1 H2) as [H0 <-]. by apply Hb.
Qed.
(** The last cell of the 24th line: the screen scrolls. *)
Lemma cgaputc_on_screen_witness :
  ∃ s', cgaputc 65 (Cga (replicate 2000 0) 1919) = Some s' ∧ on_screen s' ∧ getZ (crt s') (pos s') = Some (Z.lor 32 1792) ∧
    (65 ≠ NL → 65 ≠ BACKSPACE → getZ (crt s') (pos s' - 1) = Some (Z.lor (Z.land 65 255) 1792)).
Proof. apply (cgaputc_on_screen 65 (Cga (replicate 2000 0) 1919)). split; [reflexivity|cbn; lia]. Defined.
