(* ===== verification/SsuShell.v ===== *)
(** * The assignment's own shell: lines, pipelines, scripts (hw2: ssu_shell.c)

    The program runs on a Unix host.  The state has the descriptor table of the
    shell, with the lowest free descriptor allocated first as POSIX says, the
    children at the point where they call execvp, and the stdio stream of a
    script.  Memory that malloc returns has contents of its own; an access
    outside an array and a use of an unset variable are faults. *)

From S2P Require Import Prelude.

Definition MAX_INPUT_SIZE : Z := 1024.
Definition MAX_TOKEN_SIZE : Z := 64.
Definition MAX_NUM_TOKENS : Z := 64.
Definition NEWLINE : Z := 10.
Definition TAB : Z := 9.
Definition SPACE : Z := 32.
Definition BAR : Z := 124.

(** ** C strings in arrays *)

(** [strlen]: absent if the array has no terminator. *)
Fixpoint strlen (l : list Z) : option nat :=
  match l with
  | [] => None
  | c :: l' => if c =? 0 then Some O else S <$> strlen l'
  end.

(** [strcpy]: the destination after it. *)
Definition strcpy (dst src : list Z) : option (list Z) :=
  n ← strlen src;
  if (n <? length dst)%nat then Some (take (S n) src ++ drop (S n) dst) else None.

(** The string in an array. *)
Definition cstr (l : list Z) : list Z := match strlen l with Some n => take n l | None => l end.

(** ** tokenize *)

(** [tokenize: local variables], src/hw2/ssu_shell.c:15-17
    [used] counts the blocks of MAX_TOKEN_SIZE bytes taken from malloc. *)
Record tstate := TState { token : list Z; tokenIndex : Z; tokens : list (list Z); used : nat }.

Section tokenize.
(** What is in the blocks that malloc returns. *)
Context (fresh : nat → list Z).

(** [tokenize: one character], src/hw2/ssu_shell.c:32-42 *)
Definition tokenize_char (pipe_ch : Z) (t : tstate) (readChar : Z) : option tstate :=
  if (readChar =? pipe_ch) || (readChar =? NEWLINE) || (readChar =? TAB) then
    if tokenIndex t <? lenZ (token t) then
      let tok := setZ (token t) (tokenIndex t) 0 in
      if negb (tokenIndex t =? 0) then
        if lenZ (tokens t) <? MAX_NUM_TOKENS then
          b ← strcpy (fresh (used t)) tok;
          Some (TState tok 0 (tokens t ++ [b]) (S (used t)))
        else None
      else Some (TState tok (tokenIndex t) (tokens t) (used t))
    else None
  else if tokenIndex t <? lenZ (token t) then
    Some (TState (setZ (token t) (tokenIndex t) readChar) (tokenIndex t + 1) (tokens t) (used t))
  else None.

(** [tokenize: the loop], src/hw2/ssu_shell.c:30-43 *)
Fixpoint tokenize_loop (pipe_ch : Z) (cs : list Z) (t : tstate) : option tstate :=
  match cs with
  | [] => Some t
  | c :: cs' => t ← tokenize_char pipe_ch t c; tokenize_loop pipe_ch cs' t
  end.

(** [tokenize], src/hw2/ssu_shell.c:14-49
    On the array that [line] points to, with [n] blocks taken from malloc
    before; the arrays of the tokens, up to the NULL. *)
Definition tokenize (n : nat) (line : list Z) (flag : Z) : option (list (list Z) * nat) :=
  k ← strlen line;
  let line := <[k := NEWLINE]> line in
  let pipe_ch := if flag =? 0 then SPACE else BAR in
  k' ← strlen line;
  t ← tokenize_loop pipe_ch (take k' line) (TState (fresh n) 0 [] (S n));
  if lenZ (tokens t) <? MAX_NUM_TOKENS then Some (tokens t, used t) else None.
End tokenize.

(** ** Descriptors and children *)

Inductive obj := Std (n : Z) | Script | RdEnd (p : nat) | WrEnd (p : nat).
#[export] Instance obj_eq_dec : EqDecision obj.
Proof. solve_decision. Defined.

(** A child when it calls execvp. *)
Record child := Child { argv : list (list Z); ctable : gmap Z obj }.

Record shell := Shell {
  table : gmap Z obj;      (* the descriptors of the shell *)
  npipes : nat;            (* pipes made so far *)
  kids : list child;
  forks : nat;             (* calls of fork so far *)
  blocks : nat;            (* blocks taken from malloc *)
  said : list string;      (* what printf wrote *)
  buffered : list Z;       (* the script's stream: bytes in its buffer *)
  unread : list Z          (* and bytes of the file not read yet *)
}.

Definition set_table t (s : shell) := Shell t (npipes s) (kids s) (forks s) (blocks s) (said s) (buffered s) (unread s).
Definition set_npipes n (s : shell) := Shell (table s) n (kids s) (forks s) (blocks s) (said s) (buffered s) (unread s).
Definition add_kid k (s : shell) := Shell (table s) (npipes s) (kids s ++ [k]) (forks s) (blocks s) (said s) (buffered s) (unread s).
Definition set_forks n (s : shell) := Shell (table s) (npipes s) (kids s) n (blocks s) (said s) (buffered s) (unread s).
Definition set_blocks n (s : shell) := Shell (table s) (npipes s) (kids s) (forks s) n (said s) (buffered s) (unread s).
Definition say m (s : shell) := Shell (table s) (npipes s) (kids s) (forks s) (blocks s) (said s ++ [m]) (buffered s) (unread s).
Definition set_buffered b (s : shell) := Shell (table s) (npipes s) (kids s) (forks s) (blocks s) (said s) b (unread s).
Definition set_unread u (s : shell) := Shell (table s) (npipes s) (kids s) (forks s) (blocks s) (said s) (buffered s) u.

(** The lowest descriptor from [fd] on that is free, of the next [n]. *)
Fixpoint lowest (n : nat) (fd : Z) (t : gmap Z obj) : option Z :=
  match n with
  | O => None
  | S n' => match t !! fd with None => Some fd | Some _ => lowest n' (fd + 1) t end
  end.

Definition dup2 (src dst : Z) (t : gmap Z obj) : gmap Z obj :=
  match t !! src with Some o => <[dst := o]> t | None => t end.

Section shell.
Context (fresh : nat → list Z).
(** How many descriptors a process may have, and what the k-th fork returns in
    the parent: -1 if it fails. *)
Context (limit : nat) (forked : nat → Z).

(** [pipe(fd)]: the descriptors, or nothing if it fails. *)
Definition pipe : M shell (option (Z * Z)) :=
  s ← getS;
  match lowest limit 0 (table s) with
  | None => mret None
  | Some r =>
      let t := <[r := RdEnd (npipes s)]> (table s) in
      match lowest limit 0 t with
      | None => mret None
      | Some w =>
          modify (set_table (<[w := WrEnd (npipes s)]> t));;
          modify (set_npipes (S (npipes s)));;
          mret (Some (r, w))
      end
  end.

Definition close (fd : Z) : M shell unit := modify (λ s, set_table (delete fd (table s)) s).

(** tokenize as a step of the shell. *)
Definition tokenizeM (line : list Z) (flag : Z) : M shell (list (list Z)) :=
  s ← getS;
  '(ts, n) ← of_option (tokenize fresh (blocks s) line flag);
  modify (set_blocks n);;
  mret ts.

(** [executeCommand: the child], src/hw2/ssu_shell.c:79-95
    [next] says whether there is another command. *)
Definition child_table (cmd_cnt fd_prev : Z) (fd : option (Z * Z)) (next : bool) (t : gmap Z obj) : option (gmap Z obj) :=
  if 1 <? cmd_cnt then
    '(r, w) ← fd;
    let t := dup2 fd_prev 0 t in
    let t := if next then dup2 w 1 t else t in
    Some (delete r t)
  else Some t.

(** [executeCommand: one command], src/hw2/ssu_shell.c:67-105
    Nothing is returned when the function returns. *)
Definition execute_one (commands : list (list Z)) (cmd_cnt : Z) (i : nat) (fd : option (Z * Z)) (fd_prev : Z) :
    M shell (option (option (Z * Z) * Z)) :=
  r ← (if 1 <? cmd_cnt then pipe else mret None);
  let fd := match r with Some _ => r | None => fd end in
  line ← of_option (commands !! i);
  command ← tokenizeM line 0;
  s ← getS;
  modify (set_forks (S (forks s)));;
  let pid := forked (forks s) in
  if pid =? 1 then modify (say "FORK FAIL");; mret None
  else
    (if pid =? -1 then mret tt
     else
       t ← of_option (child_table cmd_cnt fd_prev fd (S i <? length commands)%nat (table s));
       modify (add_kid (Child (cstr <$> command) t)));;
    (if 1 <? cmd_cnt then
       '(r, w) ← of_option fd;
       close w;;
       mret (Some (fd, r))
     else mret (Some (fd, fd_prev))).

(** [executeCommand: the loop], src/hw2/ssu_shell.c:61-105
    From command [i] on, [n] of them; false when the function returns. *)
Fixpoint execute_loop (commands : list (list Z)) (cmd_cnt : Z) (n i : nat) (fd : option (Z * Z)) (fd_prev : Z) : M shell bool :=
  match n with
  | O => mret true
  | S n' =>
      r ← execute_one commands cmd_cnt i fd fd_prev;
      match r with
      | None => mret false
      | Some (fd, fd_prev) => execute_loop commands cmd_cnt n' (S i) fd fd_prev
      end
  end.

(** [executeCommand: closing the pipes], src/hw2/ssu_shell.c:108-110 *)
Fixpoint close_from (n : nat) (fd : Z) : M shell unit :=
  match n with O => mret tt | S n' => close fd;; close_from n' (fd + 1) end.

(** [executeCommand], src/hw2/ssu_shell.c:60-113
    The loop of wait() ends when every child has ended. *)
Definition executeCommand (commands : list (list Z)) (cmd_cnt : Z) : M shell unit :=
  go ← execute_loop commands cmd_cnt (Z.to_nat cmd_cnt) 0 None 0;
  if (go : bool) then close_from (Z.to_nat cmd_cnt) 3 else mret tt.

(** [main: counting the commands], src/hw2/ssu_shell.c:152-157 *)
Fixpoint count_bars (line : list Z) : Z :=
  match line with [] => 0 | c :: l => (if c =? BAR then 1 else 0) + count_bars l end.

(** [main: one line], src/hw2/ssu_shell.c:148-164
    On the array [line]; freeToken only frees. *)
Definition run_line (line : list Z) : M shell unit :=
  n ← of_option (strlen line);
  if (n =? 0)%nat then mret tt
  else
    let cmd_cnt := 1 + count_bars (take n line) in
    tokens ← tokenizeM line 1;
    executeCommand tokens cmd_cnt.

(** ** Scripts

    stdio reads the file in blocks of [bufsiz] bytes; a read of a closed
    descriptor is an error. *)

Context (bufsiz : nat).
Inductive got := Char (c : Z) | Eof | Err.

Definition getc : M shell got :=
  s ← getS;
  match buffered s with
  | c :: b => modify (set_buffered b);; mret (Char c)
  | [] =>
      match table s !! 3 with
      | Some Script =>
          match take bufsiz (unread s) with
          | [] => mret Eof
          | c :: b => modify (set_buffered b);; modify (set_unread (drop bufsiz (unread s)));; mret (Char c)
          end
      | Some _ => fail Fault
      | None => mret Err
      end
  end.

(** fgets with room for [n] more characters; NULL at the end of the file and
    after an error. *)
Fixpoint fgets (n : nat) (acc : list Z) : M shell (option (list Z)) :=
  match n with
  | O => mret (Some acc)
  | S n' =>
      g ← getc;
      match g with
      | Char c => if c =? NEWLINE then mret (Some (acc ++ [c])) else fgets n' (acc ++ [c])
      | Eof => mret (if decide (acc = []) then None else Some acc)
      | Err => mret None
      end
  end.

(** [main: the array of a line], src/hw2/ssu_shell.c:132-140
    bzero, the characters that fgets stored, and the end of the line cut off. *)
Definition line_of (text : list Z) : option (list Z) :=
  let line := text ++ replicate (Z.to_nat MAX_INPUT_SIZE - length text) 0 in
  n ← strlen line;
  if (n =? 0)%nat then None else Some (<[(n - 1)%nat := 0]> line).

(** [main: batch mode, one round], src/hw2/ssu_shell.c:130-164 *)
Definition batch_round : M shell (option unit) :=
  r ← fgets (Z.to_nat MAX_INPUT_SIZE - 1) [];
  match r with
  | None => mret (Some tt)
  | Some text =>
      line ← of_option (line_of text);
      run_line line;;
      mret None
  end.

(** [main: batch mode], src/hw2/ssu_shell.c:130-166 *)
Definition main_batch (fuel : nat) : M shell unit := while_ fuel batch_round.
End shell.

(** ** What tokenize computes *)

Definition sep_of (flag : Z) : Z := if flag =? 0 then SPACE else BAR.
Definition is_sep (p c : Z) : bool := (c =? p) || (c =? NEWLINE) || (c =? TAB).

(** The text between separators, and the fields that are not empty. *)
Fixpoint fields (p : Z) (l : list Z) : list (list Z) :=
  match l with
  | [] => [[]]
  | c :: l' => if is_sep p c then [] :: fields p l'
               else match fields p l' with f :: fs => (c :: f) :: fs | [] => [[c]] end
  end.
Definition words (p : Z) (l : list Z) : list (list Z) := filter (λ w, w ≠ []) (fields p l).

(** The arrays can hold the words. *)
Definition words_fit (ws : list (list Z)) : Prop := Forall (λ w : list Z, length w < 64)%nat ws ∧ (length ws < 64)%nat.

(** The blocks from number [n] on with the words stored in them. *)
Fixpoint stored (fresh : nat → list Z) (n : nat) (ws : list (list Z)) : list (list Z) :=
  match ws with
  | [] => []
  | w :: ws' => (w ++ 0 :: drop (S (length w)) (fresh n)) :: stored fresh (S n) ws'
  end.

Lemma length_stored fresh ws : ∀ n, length (stored fresh n ws) = length ws.
Proof. induction ws as [|w ws IH]; intros n; cbn; [done|]. by rewrite IH. Qed.
Lemma stored_app fresh a b : ∀ n, stored fresh n (a ++ b) = stored fresh n a ++ stored fresh (n + length a) b.
Proof.
  induction a as [|w a IH]; intros n; cbn; [by rewrite Nat.add_0_r|]. rewrite IH. do 3 f_equal. lia.
Qed.

Lemma strlen_terminated l r : Forall (λ c, c ≠ 0) l → strlen (l ++ 0 :: r) = Some (length l).
Proof. induction 1 as [|c l Hc _ IH]; cbn; [done|]. by rewrite (proj2 (Z.eqb_neq c 0) Hc), IH. Qed.
Lemma cstr_app l r : Forall (λ c, c ≠ 0) l → cstr (l ++ 0 :: r) = l.
Proof. intros Hl. unfold cstr. rewrite strlen_terminated by done. by rewrite take_app_length. Qed.
Lemma cstr_stored fresh ws : ∀ n, Forall (Forall (λ c, c ≠ 0)) ws → cstr <$> stored fresh n ws = ws.
Proof.
  induction ws as [|w ws IH]; intros n Hw; [done|]. apply Forall_cons in Hw as [Hw Hws]. cbn [stored fmap list_fmap].
  rewrite cstr_app by done. f_equal. by apply IH.
Qed.

(** The words with [cur] read before. *)
Definition flush (cur : list Z) : list (list Z) := match cur with [] => [] | _ => [cur] end.
Fixpoint emit (p : Z) (cur l : list Z) : list (list Z) :=
  match l with
  | [] => flush cur
  | c :: l' => if is_sep p c then flush cur ++ emit p [] l' else emit p (cur ++ [c]) l'
  end.

Lemma fields_ne p l : ∃ f fs, fields p l = f :: fs.
Proof. destruct l as [|c l]; cbn; [by eexists _, _|]. destruct (is_sep p c); [by eexists _, _|]. destruct (fields p l); by eexists _, _. Qed.

Lemma emit_fields p l : ∀ cur f fs, fields p l = f :: fs → emit p cur l = filter (λ w, w ≠ []) ((cur ++ f) :: fs).
Proof.
  assert (∀ cur, flush cur = filter (λ w, w ≠ []) [cur]) as Hflush.
  { intros [|c cur]; [done|]. rewrite filter_cons_True by done. by rewrite filter_nil. }
  induction l as [|c l IH]; intros cur f fs Hf; cbn [fields emit] in *.
  - injection Hf as <- <-. rewrite app_nil_r. apply Hflush.
  - destruct (fields_ne p l) as (g & gs & Hg). destruct (is_sep p c).
    + injection Hf as <- <-. rewrite app_nil_r, (IH [] g gs Hg), Hflush, Hg. cbn [app]. by rewrite <- filter_app.
    + rewrite Hg in Hf. injection Hf as <- <-. rewrite (IH (cur ++ [c]) g gs Hg). by rewrite <- app_assoc.
Qed.
Lemma emit_words p l : emit p [] l = words p l.
Proof. unfold words. destruct (fields_ne p l) as (f & fs & Hf). by rewrite Hf, (emit_fields p l [] f fs Hf). Qed.

(** tokenize writes a newline over the terminator of [text] and goes on to the
    next 0: the bytes [more] in between are read too, and their words become
    tokens up to the last separator. *)
Definition complete (p : Z) (more : list Z) : list (list Z) := filter (λ w, w ≠ []) (removelast (fields p more)).
Definition tokens_of (p : Z) (text more : list Z) : list (list Z) := words p text ++ complete p more.
(** The arrays can hold them, and the part of a word that is left at the end. *)
Definition tokens_fit (p : Z) (text more : list Z) : Prop :=
  words_fit (tokens_of p text more) ∧ (length (List.last (fields p more) []) ≤ 64)%nat.

(** The words that have ended, with [cur] read before, and the one that has not. *)
Fixpoint closed (p : Z) (cur l : list Z) : list (list Z) :=
  match l with
  | [] => []
  | c :: l' => if is_sep p c then flush cur ++ closed p [] l' else closed p (cur ++ [c]) l'
  end.
Fixpoint opened (p : Z) (cur l : list Z) : list Z :=
  match l with
  | [] => cur
  | c :: l' => if is_sep p c then opened p [] l' else opened p (cur ++ [c]) l'
  end.

Lemma is_sep_newline p : is_sep p NEWLINE = true.
Proof. unfold is_sep. by rewrite Z.eqb_refl, orb_true_r. Qed.
Lemma opened_newline p l more : ∀ cur, opened p cur (l ++ NEWLINE :: more) = opened p [] more.
Proof. induction l as [|c l IH]; intros cur; cbn [app opened]; [by rewrite is_sep_newline|]. by destruct (is_sep p c). Qed.
Lemma closed_newline p l more : ∀ cur, closed p cur (l ++ NEWLINE :: more) = emit p cur l ++ closed p [] more.
Proof.
  induction l as [|c l IH]; intros cur; cbn [app closed emit]; [by rewrite is_sep_newline|].
  destruct (is_sep p c); rewrite IH; [by rewrite app_assoc|done].
Qed.
Lemma closed_fields p l : ∀ cur f fs, fields p l = f :: fs →
  closed p cur l = filter (λ w, w ≠ []) (removelast ((cur ++ f) :: fs)) ∧ opened p cur l = List.last ((cur ++ f) :: fs) [].
Proof.
  induction l as [|c l IH]; intros cur f fs Hf; cbn [fields closed opened] in *.
  - injection Hf as <- <-. by rewrite app_nil_r.
  - destruct (fields_ne p l) as (g & gs & Hg). destruct (is_sep p c).
    + injection Hf as <- <-. destruct (IH [] g gs Hg) as [-> ->]. rewrite app_nil_r, Hg. cbn [app]. split; [|done].
      change (removelast (cur :: g :: gs)) with (cur :: removelast (g :: gs)). destruct cur; [done|]. by rewrite filter_cons_True.
    + rewrite Hg in Hf. injection Hf as <- <-. rewrite (cons_middle c cur g), app_assoc. by apply IH.
Qed.
Lemma closed_tokens p text more : closed p [] (text ++ NEWLINE :: more) = tokens_of p text more.
Proof.
  rewrite closed_newline, emit_words. unfold tokens_of, complete. f_equal. destruct (fields_ne p more) as (f & fs & Hf).
  destruct (closed_fields p more [] f fs Hf) as [-> _]. by rewrite Hf.
Qed.
Lemma opened_last p more : opened p [] more = List.last (fields p more) [].
Proof. destruct (fields_ne p more) as (f & fs & Hf). destruct (closed_fields p more [] f fs Hf) as [_ ->]. by rewrite Hf. Qed.

Lemma closed_short p l : ∀ cur, Forall (λ w : list Z, length w < 64)%nat (closed p cur l) → (length (opened p cur l) ≤ 64)%nat → (length cur ≤ 64)%nat.
Proof.
  induction l as [|c l IH]; intros cur; cbn [closed opened]; [done|]. destruct (is_sep p c).
  - destruct cur as [|d cur]; [cbn; lia|]. intros [H _]%Forall_app _. apply Forall_cons in H as [H _]. lia.
  - intros H H'. pose proof (IH _ H H') as Hl. rewrite length_app in Hl. cbn in Hl. lia.
Qed.

Section tokenize_spec.
Context (fresh : nat → list Z).
Hypothesis (Hfresh : ∀ n, length (fresh n) = 64%nat).

(** The token being read is [cur]. *)
Record reading (t : tstate) (cur : list Z) : Prop := {
  re_len : length (token t) = 64%nat;
  re_cur : take (length cur) (token t) = cur;
  re_idx : tokenIndex t = lenZ cur;
  re_nz : Forall (λ c, c ≠ 0) cur
}.

Lemma reading_le t cur : reading t cur → (length cur ≤ 64)%nat.
Proof using. intros [H1 H2 _ _]. rewrite <- H2, length_take. lia. Qed.

Lemma setZ_after (tok cur : list Z) c :
  (length cur < length tok)%nat → take (length cur) tok = cur →
  setZ tok (lenZ cur) c = cur ++ c :: drop (S (length cur)) tok.
Proof using.
  intros Hl Ht. unfold setZ, lenZ. rewrite (proj2 (Z.leb_le _ _)), Nat2Z.id by lia.
  rewrite insert_take_drop by done. by rewrite Ht.
Qed.

Lemma char_next t cur p c : reading t cur → c ≠ 0 → is_sep p c = false → (length cur < 64)%nat →
  ∃ t', tokenize_char fresh p t c = Some t' ∧ reading t' (cur ++ [c]) ∧ tokens t' = tokens t ∧ used t' = used t.
Proof using.
  intros H Hc Hp Hl. pose proof H as [H1 H2 H3 H4]. unfold tokenize_char. unfold is_sep in Hp. rewrite Hp, H3.
  rewrite (proj2 (Z.ltb_lt _ _)) by (unfold lenZ; lia). eexists. split; [done|]. split; [|done].
  rewrite setZ_after by (rewrite ?H1; done). constructor; cbn [token tokenIndex].
  - rewrite length_app. cbn. rewrite length_drop. lia.
  - rewrite (cons_middle c cur (drop _ _)), app_assoc. by rewrite take_app_length.
  - unfold lenZ. rewrite length_app. cbn. lia.
  - apply Forall_app. by split; [|constructor].
Qed.

Lemma char_sep t cur p c : reading t cur → is_sep p c = true → (length cur < 64)%nat →
  (length (tokens t) + length (flush cur) ≤ 64)%nat →
  ∃ t', tokenize_char fresh p t c = Some t' ∧ reading t' [] ∧
        tokens t' = tokens t ++ stored fresh (used t) (flush cur) ∧ used t' = (used t + length (flush cur))%nat.
Proof using Hfresh.
  intros H Hp Hl Hn. pose proof H as [H1 H2 H3 H4]. unfold tokenize_char. unfold is_sep in Hp. rewrite Hp, H3.
  rewrite (proj2 (Z.ltb_lt _ _)) by (unfold lenZ; lia). rewrite setZ_after by (rewrite ?H1; done).
  assert (∀ ts u, reading (TState (cur ++ 0 :: drop (S (length cur)) (token t)) 0 ts u) []) as Hr.
  { intros. constructor; cbn [token tokenIndex]; [rewrite length_app; cbn; rewrite length_drop; lia|done..]. }
  destruct cur as [|d cur]; [cbn [lenZ length flush]; cbn|].
  { eexists. split; [done|]. cbn [tokens used]. rewrite app_nil_r, Nat.add_0_r. split; [|done]. by apply Hr. }
  cbn [flush length] in *. rewrite (proj2 (Z.eqb_neq _ _)) by (unfold lenZ; cbn [length]; lia). cbn [negb].
  rewrite (proj2 (Z.ltb_lt _ _)) by (unfold lenZ, MAX_NUM_TOKENS; lia). unfold strcpy. rewrite strlen_terminated by done.
  rewrite some_bind, Hfresh. cbn [length]. rewrite (proj2 (Nat.ltb_lt _ _)) by lia. rewrite some_bind. eexists. split; [done|]. cbn [tokens used].
  split; [by apply Hr|]. split; [|lia]. cbn [stored length]. do 2 f_equal.
  rewrite (cons_middle 0), app_assoc, take_app_length' by (rewrite length_app; cbn; lia). by rewrite <- app_assoc.
Qed.

(** A character that does not fit stops the program. *)
Lemma char_overrun t cur p c : reading t cur → (64 ≤ length cur)%nat → tokenize_char fresh p t c = None.
Proof using.
  intros H Hl. pose proof H as [H1 H2 H3 H4]. unfold tokenize_char. rewrite H3.
  rewrite (proj2 (Z.ltb_ge _ _)) by (unfold lenZ; lia). by case_match.
Qed.
Lemma char_many t cur p c : reading t cur → is_sep p c = true → (64 < length (tokens t) + length (flush cur))%nat → (length (tokens t) ≤ 64)%nat →
  tokenize_char fresh p t c = None.
Proof using.
  intros H Hp Hn Hle. pose proof H as [H1 H2 H3 H4]. unfold tokenize_char. unfold is_sep in Hp. rewrite Hp, H3.
  destruct cur as [|d cur]; [cbn in Hn; lia|]. cbn [flush length] in Hn.
  case_match; [|done]. rewrite (proj2 (Z.eqb_neq _ _)) by (unfold lenZ; cbn [length]; lia). cbn [negb].
  by rewrite (proj2 (Z.ltb_ge _ _)) by (unfold lenZ, MAX_NUM_TOKENS; lia).
Qed.

Definition room (t : tstate) (ws : list (list Z)) : Prop :=
  Forall (λ w : list Z, length w < 64)%nat ws ∧ (length (tokens t) + length ws ≤ 64)%nat.

Lemma loop_fits p l : ∀ t cur, reading t cur → Forall (λ c, c ≠ 0) l → room t (closed p cur l) → (length (opened p cur l) ≤ 64)%nat →
  ∃ t', tokenize_loop fresh p l t = Some t' ∧
        tokens t' = tokens t ++ stored fresh (used t) (closed p cur l) ∧ used t' = (used t + length (closed p cur l))%nat.
Proof using Hfresh.
  induction l as [|c l IH]; intros t cur H Hl [Hs Hn] Ho; cbn [tokenize_loop].
  - exists t. cbn. by rewrite app_nil_r, Nat.add_0_r.
  - apply Forall_cons in Hl as [Hc Hl]. cbn [closed opened] in *. destruct (is_sep p c) eqn:Hp.
    + rewrite length_app in *. apply Forall_app in Hs as [Hs1 Hs2].
      destruct (char_sep t cur p c H Hp) as (t' & -> & Hr & Ht & Hu); [destruct cur; [cbn; lia|by apply Forall_cons in Hs1 as [? _]]|lia|]. rewrite some_bind.
      destruct (IH t' [] Hr Hl) as (t2 & -> & Ht2 & Hu2); [split; [done|rewrite Ht, length_app, length_stored; lia]|done|].
      exists t2. split; [done|]. rewrite Ht2, Ht, Hu2, Hu, stored_app, app_assoc. split; [done|lia].
    + pose proof (closed_short p l (cur ++ [c]) Hs Ho) as Hcur. rewrite length_app in Hcur. cbn in Hcur.
      destruct (char_next t cur p c H Hc Hp) as (t' & -> & Hr & Ht & Hu); [lia|]. rewrite some_bind.
      destruct (IH t' _ Hr Hl) as (t2 & -> & Ht2 & Hu2); [split; [done|by rewrite Ht]|done|].
      exists t2. by rewrite Ht2, Ht, Hu2, Hu.
Qed.

Lemma loop_needs p l : ∀ t cur t', reading t cur → Forall (λ c, c ≠ 0) l → (length (tokens t) ≤ 64)%nat →
  tokenize_loop fresh p l t = Some t' → room t (closed p cur l) ∧ (length (opened p cur l) ≤ 64)%nat.
Proof using Hfresh.
  assert (∀ t cur c, reading t cur → is_sep p c = true → (length (tokens t) ≤ 64)%nat → is_Some (tokenize_char fresh p t c) →
    room t (flush cur) ∧ (length cur < 64)%nat) as Hsep.
  { intros t cur c H Hp Hle [t' Hs]. assert (length cur < 64)%nat as Hcur.
    { destruct (decide (length cur < 64)%nat); [done|]. rewrite (char_overrun t cur p c H) in Hs; [done|lia]. }
    split; [|done]. split; [destruct cur; [by apply Forall_nil|by apply Forall_singleton]|].
    destruct (decide (length (tokens t) + length (flush cur) ≤ 64)%nat); [done|].
    rewrite (char_many t cur p c H Hp) in Hs; [done|lia|lia]. }
  induction l as [|c l IH]; intros t cur t' H Hl Hle; cbn [tokenize_loop closed opened].
  - intros _. split; [split; [by apply Forall_nil|cbn; lia]|by apply reading_le in H].
  - apply Forall_cons in Hl as [Hc Hl]. destruct (tokenize_char fresh p t c) as [t1|] eqn:E; [|done]. rewrite some_bind. intros Hrest.
    destruct (is_sep p c) eqn:Hp.
    + destruct (Hsep t cur c H Hp Hle ltac:(by eexists)) as [[Hs Hn] Hcur].
      destruct (char_sep t cur p c H Hp Hcur Hn) as (t2 & E2 & Hr & Ht & Hu). rewrite E in E2. injection E2 as <-.
      assert (length (tokens t1) = length (tokens t) + length (flush cur))%nat as Hlen by (rewrite Ht, length_app, length_stored; done).
      destruct (IH t1 [] t' Hr Hl ltac:(lia) Hrest) as [[Hs2 Hn2] Ho]. split; [|done]. split; [by apply Forall_app|rewrite length_app; lia].
    + destruct (decide (length cur < 64)%nat) as [Hcur|Hcur]; [|rewrite (char_overrun t cur p c H) in E; [done|lia]].
      destruct (char_next t cur p c H Hc Hp Hcur) as (t2 & E2 & Hr & Ht & Hu). rewrite E in E2. injection E2 as <-.
      unfold room. rewrite <- Ht. apply (IH t1 _ t' Hr Hl); [by rewrite Ht|done].
Qed.

(** The newline goes over the terminator, and the next one ends the loop. *)
Lemma tokenize_unfold n text more rest flag : Forall (λ c, c ≠ 0) text → Forall (λ c, c ≠ 0) more →
  tokenize fresh n (text ++ 0 :: more ++ 0 :: rest) flag =
  (t ← tokenize_loop fresh (sep_of flag) (text ++ NEWLINE :: more) (TState (fresh n) 0 [] (S n));
   if lenZ (tokens t) <? MAX_NUM_TOKENS then Some (tokens t, used t) else None).
Proof using.
  intros Ht Hm. unfold tokenize. rewrite strlen_terminated by done. rewrite some_bind. rewrite insert_app_r_alt, Nat.sub_diag by lia. cbn [insert list_insert].
  replace (text ++ NEWLINE :: more ++ 0 :: rest) with ((text ++ NEWLINE :: more) ++ 0 :: rest) by (by rewrite <- app_assoc).
  rewrite strlen_terminated by (apply Forall_app; split; [done|by apply Forall_cons]).
  rewrite some_bind, take_app_length. done.
Qed.

Lemma reading_start n : reading (TState (fresh n) 0 [] (S n)) [].
Proof using Hfresh. constructor; cbn; [apply Hfresh|done..]. Qed.

Lemma tokenize_fits n text more rest flag : Forall (λ c, c ≠ 0) text → Forall (λ c, c ≠ 0) more →
  tokens_fit (sep_of flag) text more →
  tokenize fresh n (text ++ 0 :: more ++ 0 :: rest) flag =
  Some (stored fresh (S n) (tokens_of (sep_of flag) text more), (S n + length (tokens_of (sep_of flag) text more))%nat).
Proof using Hfresh.
  intros Ht Hm [[H1 H2] H3]. rewrite tokenize_unfold by done. set (p := sep_of flag) in *. rewrite <- closed_tokens, <- ?opened_last in *.
  destruct (loop_fits p (text ++ NEWLINE :: more) _ [] (reading_start n)) as (t' & -> & Htk & Hu);
    [apply Forall_app; split; [done|by apply Forall_cons]|split; [done|cbn; lia]|by rewrite opened_newline|].
  rewrite some_bind, Htk, Hu. cbn [tokens used app]. rewrite (proj2 (Z.ltb_lt _ _)) by (unfold lenZ, MAX_NUM_TOKENS; rewrite length_stored; lia). done.
Qed.

Lemma tokenize_needs n text more rest flag r : Forall (λ c, c ≠ 0) text → Forall (λ c, c ≠ 0) more →
  tokenize fresh n (text ++ 0 :: more ++ 0 :: rest) flag = Some r → tokens_fit (sep_of flag) text more.
Proof using Hfresh.
  intros Ht Hm. rewrite tokenize_unfold by done. set (p := sep_of flag) in *. set (l := text ++ NEWLINE :: more).
  assert (Forall (λ c, c ≠ 0) l) as Hl by (apply Forall_app; split; [done|by apply Forall_cons]).
  destruct (tokenize_loop fresh p l (TState (fresh n) 0 [] (S n))) as [t|] eqn:E; [|done]. rewrite some_bind.
  destruct (loop_needs p l _ [] t (reading_start n) Hl ltac:(cbn; lia) E) as [Hroom Ho].
  destruct (loop_fits p l _ [] (reading_start n) Hl Hroom Ho) as (t' & E' & Htk & Hu). rewrite E in E'. injection E' as <-.
  destruct (lenZ (tokens t) <? MAX_NUM_TOKENS) eqn:El; [|done]. intros _. unfold tokens_fit. rewrite <- closed_tokens, <- opened_last. fold l.
  unfold l in Ho. rewrite opened_newline in Ho. split; [split; [apply Hroom|]|done].
  rewrite Htk in El. cbn [tokens app] in El. unfold lenZ, MAX_NUM_TOKENS in El. rewrite length_stored in El. bool_solve.
Qed.
End tokenize_spec.

(** ** The words of a text *)

Lemma closed_length p l : ∀ cur,
  Forall (λ w : list Z, length w ≤ length cur + length l)%nat (closed p cur l) ∧ (length (closed p cur l) + length (opened p cur l) ≤ length cur + length l)%nat.
Proof.
  induction l as [|c l IH]; intros cur; cbn [closed opened length].
  - split; [by apply Forall_nil|lia].
  - destruct (is_sep p c).
    + destruct (IH []) as [H1 H2]. cbn [length] in *. rewrite length_app. split.
      * apply Forall_app. split; [destruct cur; [by apply Forall_nil|apply Forall_singleton; cbn [length]; lia]|].
        eapply Forall_impl; [done|]. cbn. lia.
      * destruct cur; cbn [flush length]; lia.
    + destruct (IH (cur ++ [c])) as [H1 H2]. rewrite length_app in *. cbn [length] in *. split; [|lia]. eapply Forall_impl; [done|]. cbn. lia.
Qed.

Lemma tokens_fit_short p text more : (length text + 1 + length more < 64)%nat → tokens_fit p text more.
Proof.
  intros Hl. unfold tokens_fit. rewrite <- closed_tokens, <- opened_last. destruct (closed_length p (text ++ NEWLINE :: more) []) as [H1 H2].
  destruct (closed_length p more []) as [_ H3]. rewrite length_app in *. cbn [length] in *. split; [split; [|lia]|lia]. eapply Forall_impl; [done|]. cbn. lia.
Qed.

Lemma emit_chars p (P : Z → Prop) l : ∀ cur, Forall P cur → Forall P l → Forall (Forall P) (emit p cur l).
Proof.
  assert (∀ cur, Forall P cur → Forall (Forall P) (flush cur)) as Hf by (intros [|c cur] H; [by apply Forall_nil|by apply Forall_singleton]).
  induction l as [|c l IH]; intros cur Hc Hl; cbn [emit]; [by apply Hf|]. apply Forall_cons in Hl as [Hp Hl]. destruct (is_sep p c).
  - apply Forall_app. split; [by apply Hf|]. apply IH; [by apply Forall_nil|done].
  - apply IH; [|done]. apply Forall_app. split; [done|by apply Forall_singleton].
Qed.
Lemma words_chars p (P : Z → Prop) l : Forall P l → Forall (Forall P) (words p l).
Proof. intros Hl. rewrite <- emit_words. apply emit_chars; [by apply Forall_nil|done]. Qed.
Lemma fields_chars p (P : Z → Prop) l : Forall P l → Forall (Forall P) (fields p l).
Proof.
  induction 1 as [|c l Hc Hl IH]; cbn [fields]; [by repeat constructor|]. destruct (is_sep p c); [by repeat constructor|].
  destruct (fields p l) as [|f fs]; [by repeat constructor|]. apply Forall_cons in IH as [Hf Hfs]. by repeat constructor.
Qed.
Lemma tokens_chars p (P : Z → Prop) text more : Forall P text → Forall P more → Forall (Forall P) (tokens_of p text more).
Proof.
  intros Ht Hm. apply Forall_app. split; [by apply words_chars|]. apply Forall_forall. intros w [_ Hw]%list_elem_of_filter.
  pose proof (fields_chars p P more Hm) as Hf. rewrite Forall_forall in Hf. apply Hf. destruct (fields_ne p more) as (f & fs & E).
  rewrite (app_removelast_last [] (l := fields p more)) by (by rewrite E). apply elem_of_app. by left.
Qed.

(** C33. What tokenize makes of an array.  [text] is the string in it; tokenize
    writes a newline over its terminator and goes on through the bytes [more]
    to the next 0.  The tokens are the words of the string (the longest parts
    without a separator: space or bar by the flag, newline, tab), in order and
    none empty, and then the words of [more] that a separator ends, so nothing
    else exactly when [more] has none.  It returns if and only if each token
    has at most 63 characters, there are at most 63 of them, and what is left
    of [more] after its last separator has at most 64; otherwise it writes past
    the end of an array.  Without a second 0 it runs out of the line's array. *)
Theorem tokenize_splits fresh n text more rest flag :
  (∀ k, length (fresh k) = 64%nat) → Forall (λ c, c ≠ 0) text → Forall (λ c, c ≠ 0) more →
  match tokenize fresh n (text ++ 0 :: more ++ 0 :: rest) flag with
  | Some (arrays, _) => tokens_fit (sep_of flag) text more ∧ cstr <$> arrays = words (sep_of flag) text ++ complete (sep_of flag) more
  | None => ¬ tokens_fit (sep_of flag) text more
  end ∧
  tokenize fresh n (text ++ 0 :: more) flag = None.
Proof.
  intros Hf Ht Hm. split.
  - destruct (tokenize fresh n (text ++ 0 :: more ++ 0 :: rest) flag) as [[arrays m]|] eqn:E.
    + pose proof (tokenize_needs fresh Hf n text more rest flag _ Ht Hm E) as Hfit. split; [done|].
      rewrite tokenize_fits in E by done. injection E as <- _. by apply cstr_stored, tokens_chars.
    + intros Hfit. by rewrite tokenize_fits in E.
  - unfold tokenize. rewrite strlen_terminated by done. rewrite some_bind, insert_app_r_alt, Nat.sub_diag by lia. cbn [insert list_insert].
    assert (∀ l, Forall (λ c, c ≠ 0) l → strlen l = None) as Hn.
    { induction 1 as [|c l Hc _ IH]; [done|]. cbn. by rewrite (proj2 (Z.eqb_neq c 0) Hc), IH. }
    rewrite Hn; [done|]. apply Forall_app. split; [done|by apply Forall_cons].
Qed.

(** "ls -l", and an array where "x y" follows its terminator: x is a token too. *)
Lemma tokenize_splits_witness :
  tokens_fit SPACE [108; 115; 32; 32; 45; 108] [120; 32; 121] ∧
  words SPACE [108; 115; 32; 32; 45; 108] ++ complete SPACE [120; 32; 121] = [[108; 115]; [45; 108]; [120]].
Proof.
  assert (Forall (λ c, c ≠ 0) [108; 115; 32; 32; 45; 108]) as H1 by (repeat constructor; done).
  assert (Forall (λ c, c ≠ 0) [120; 32; 121]) as H2 by (repeat constructor; done).
  pose proof (tokenize_splits (λ _, replicate 64 7) 0 _ _ [5] 0 (λ _, eq_refl) H1 H2) as [H _].
  destruct (tokenize _ _ _ _) as [[arrays m]|] eqn:E; [|vm_compute in E; discriminate E].
  split; [exact (proj1 H)|vm_compute; reflexivity].
Defined.
