(* ===== verification/SsuRun.v ===== *)
(** * Pipelines and scripts of the assignment's shell (hw2: ssu_shell.c)

    The descriptors of the shell while it starts the commands of a line and what
    each child gets; then scripts: running a line neither uses nor changes the
    stream of the script, from which follow the end of every run and what
    becomes of a long script. *)

From S2P Require Import Prelude SsuShell.

(** ** The line of a pipeline *)

Fixpoint join (cmds : list (list Z)) : list Z :=
  match cmds with
  | [] => []
  | [c] => c
  | c :: cs => c ++ BAR :: join cs
  end.

(** A command without the characters that end one, not empty and short enough
    for the array it is copied to. *)
Definition plain (c : list Z) : Prop :=
  c ≠ [] ∧ (length c ≤ 62)%nat ∧ Forall (λ x, x ≠ 0 ∧ x ≠ BAR ∧ x ≠ NEWLINE ∧ x ≠ TAB) c.

Lemma plain_sep x : x ≠ 0 ∧ x ≠ BAR ∧ x ≠ NEWLINE ∧ x ≠ TAB → is_sep BAR x = false.
Proof. intros (_ & H1 & H2 & H3). unfold is_sep. rewrite !orb_false_iff, !Z.eqb_neq. done. Qed.

Lemma fields_plain c : plain c → fields BAR c = [c].
Proof.
  intros (_ & _ & H). induction H as [|x c Hx H IH]; [done|]. cbn [fields]. by rewrite plain_sep, IH.
Qed.
Lemma fields_app c l : plain c → fields BAR (c ++ BAR :: l) = c :: fields BAR l.
Proof.
  intros (_ & _ & H). induction H as [|x c Hx H IH]; [done|]. cbn [fields app]. by rewrite plain_sep, IH.
Qed.
Lemma fields_join cmds : cmds ≠ [] → Forall plain cmds → fields BAR (join cmds) = cmds.
Proof.
  intros Hne H. induction H as [|c cs Hc Hcs IH]; [done|]. destruct cs as [|d cs]; [by apply fields_plain|].
  change (join (c :: d :: cs)) with (c ++ BAR :: join (d :: cs)). rewrite fields_app, IH; done.
Qed.
Lemma words_join cmds : cmds ≠ [] → Forall plain cmds → words BAR (join cmds) = cmds.
Proof.
  intros Hne H. unfold words. rewrite fields_join by done. clear Hne. induction H as [|c cs [Hc _] Hcs IH]; [done|]. by rewrite filter_cons_True, IH.
Qed.

Lemma count_bars_app a b : count_bars (a ++ b) = count_bars a + count_bars b.
Proof. induction a as [|c a IH]; cbn [app count_bars]; lia. Qed.
Lemma count_bars_plain c : plain c → count_bars c = 0.
Proof. intros (_ & _ & H). induction H as [|x c (_ & Hx & _) H IH]; [done|]. cbn [count_bars]. rewrite (proj2 (Z.eqb_neq x BAR) Hx). lia. Qed.
Lemma count_bars_join cmds : cmds ≠ [] → Forall plain cmds → 1 + count_bars (join cmds) = lenZ cmds.
Proof.
  intros Hne H. induction H as [|c cs Hc Hcs IH]; [done|]. destruct cs as [|d cs]; [cbn [join]; by rewrite count_bars_plain|].
  change (join (c :: d :: cs)) with (c ++ BAR :: join (d :: cs)). rewrite count_bars_app, count_bars_plain by done.
  cbn [count_bars]. rewrite Z.eqb_refl. unfold lenZ in *. cbn [length] in *. specialize (IH ltac:(done)). lia.
Qed.
Lemma join_chars cmds : Forall plain cmds → Forall (λ c, c ≠ 0) (join cmds).
Proof.
  assert (∀ c, plain c → Forall (λ x, x ≠ 0) c) as Hp by (intros c (_ & _ & H); eapply Forall_impl; [done|]; naive_solver).
  induction 1 as [|c cs Hc Hcs IH]; [by apply Forall_nil|]. destruct cs as [|d cs]; [by apply Hp|].
  change (join (c :: d :: cs)) with (c ++ BAR :: join (d :: cs)). apply Forall_app. split; [by apply Hp|]. by apply Forall_cons.
Qed.
Lemma join_ne cmds : cmds ≠ [] → Forall plain cmds → join cmds ≠ [].
Proof. intros Hne H. destruct H as [|c cs [Hc _] Hcs]; [done|]. destruct cs, c; done. Qed.

(** ** The descriptors *)

Definition std : gmap Z obj := {[ 0 := Std 0; 1 := Std 1; 2 := Std 2 ]}.

(** The table of the shell after [i] commands of a pipeline: the read ends. *)
Fixpoint held (base i : nat) : gmap Z obj :=
  match i with O => std | S i' => <[3 + Z.of_nat i' := RdEnd (base + i')]> (held base i') end.

Lemma held_lookup base i fd :
  held base i !! fd = if decide (3 ≤ fd < 3 + Z.of_nat i) then Some (RdEnd (base + Z.to_nat (fd - 3))) else std !! fd.
Proof.
  induction i as [|i IH]; cbn [held]; [rewrite decide_False by lia; done|].
  destruct (decide (fd = 3 + Z.of_nat i)) as [->|Hne].
  - rewrite lookup_insert_eq, decide_True by lia. do 2 f_equal. lia.
  - rewrite lookup_insert_ne, IH by done. repeat case_decide; try done; lia.
Qed.
Lemma std_lookup fd : std !! fd = if decide (0 ≤ fd < 3) then Some (Std fd) else None.
Proof.
  unfold std. case_decide as H.
  - assert (fd = 0 ∨ fd = 1 ∨ fd = 2) as [-> | [-> | ->]] by lia; reflexivity.
  - rewrite !lookup_insert_ne, lookup_singleton_ne by lia. done.
Qed.

Lemma lowest_spec n : ∀ fd t x, fd ≤ x < fd + Z.of_nat n → t !! x = None → (∀ y, fd ≤ y < x → is_Some (t !! y)) → lowest n fd t = Some x.
Proof.
  induction n as [|n IH]; intros fd t x Hx Hn Hy; [lia|]. cbn [lowest]. destruct (decide (fd = x)) as [->|Hne]; [by rewrite Hn|].
  destruct (Hy fd) as [o ->]; [lia|]. apply IH; [lia|done|]. intros y ?. apply Hy. lia.
Qed.

(** What the child of command [i] of [n] gets: the words [ws], the pipe of the
    command before it or the shell's input, the pipe to the next command or the
    shell's output, and no other pipe to write to. *)
Record wired (n base i : nat) (ws : list (list Z)) (k : child) : Prop := {
  wi_argv : argv k = ws;
  wi_in : ctable k !! 0 = Some (if decide (i = 0%nat) then Std 0 else RdEnd (base + (i - 1)));
  wi_out : ctable k !! 1 = Some (if decide (S i = n) then Std 1 else WrEnd (base + i));
  wi_err : ctable k !! 2 = Some (Std 2);
  wi_ends fd p : ctable k !! fd = Some (WrEnd p) → p = (base + i)%nat
}.

Abbreviation zeroed := (λ _ : nat, replicate 64 0).

(** The bytes of block [k] between the terminator of command [c] stored in it
    and the next 0: what malloc left there.  tokenize reads them as well. *)
Definition stale (fresh : nat → list Z) (k : nat) (c : list Z) : list Z := cstr (drop (S (length c)) (fresh k)).
Definition argv_of (fresh : nat → list Z) (k : nat) (c : list Z) : list (list Z) := words SPACE c ++ complete SPACE (stale fresh k c).

Lemma strlen_split l n : strlen l = Some n → ∃ a b, l = a ++ 0 :: b ∧ length a = n ∧ Forall (λ x, x ≠ 0) a.
Proof.
  revert n. induction l as [|c l IH]; intros n; cbn [strlen]; [done|]. destruct (Z.eqb_spec c 0) as [->|Hc].
  - intros [= <-]. by exists [], l.
  - destruct (strlen l) as [k|]; [|done]. intros [= <-]. destruct (IH k eq_refl) as (a & b & -> & Hl & Ha). exists (c :: a), b. cbn.
    split_and!; [done|by f_equal|by constructor].
Qed.

(** The array of a command. *)
Lemma stored_lookup fresh ws : ∀ m i w, ws !! i = Some w → stored fresh m ws !! i = Some (w ++ 0 :: drop (S (length w)) (fresh (m + i)%nat)).
Proof.
  induction ws as [|v ws IH]; intros m i w Hw; [done|]. destruct i as [|i]; [injection Hw as ->; cbn; by rewrite Nat.add_0_r|].
  cbn [stored]. rewrite lookup_cons_ne_0 in * by done. cbn [Nat.pred] in *. rewrite (IH (S m) i w Hw).
  by replace (S m + i)%nat with (m + S i)%nat by lia.
Qed.

Lemma wp_tokenize_command fresh s k c : (∀ k, length (fresh k) = 64%nat) → plain c → is_Some (strlen (drop (S (length c)) (fresh k))) →
  wp (tokenizeM fresh (c ++ 0 :: drop (S (length c)) (fresh k)) 0)
    (λ r s', cstr <$> r = argv_of fresh k c ∧ ∃ b, s' = set_blocks b s) s.
Proof.
  intros Hf (Hne & Hl & Hc) [n Hn]. assert (Forall (λ x, x ≠ 0) c) as Hc0 by (eapply Forall_impl; [done|]; naive_solver).
  destruct (strlen_split _ _ Hn) as (a & b & Hd & Hla & Ha). assert (stale fresh k c = a) as Hst by (unfold stale; rewrite Hd; by apply cstr_app).
  assert (length c + 1 + length a < 64)%nat as Hlen.
  { pose proof (f_equal length Hd) as H. rewrite length_drop, Hf, length_app in H. cbn in H. lia. }
  unfold tokenizeM. wp_step. apply wp_intro with (a := s) (s' := s); [done|]. rewrite Hd.
  rewrite (tokenize_fits fresh Hf) by (try done; by apply tokens_fit_short).
  repeat wp_step. split; [|by eexists]. unfold argv_of. rewrite Hst. by apply cstr_stored, tokens_chars.
Qed.

(** Steps along binds and primitive operations, not into a test. *)
Ltac wp_go := repeat first [apply wp_bind | apply wp_ret | apply wp_modify].

Lemma wp_close_from k : ∀ fd s Q, Q tt (set_table (filter (λ x, ¬ (fd ≤ x.1 < fd + Z.of_nat k)) (table s)) s) → wp (close_from k fd) Q s.
Proof.
  induction k as [|k IH]; intros fd s Q HQ; cbn [close_from].
  - apply wp_ret. rewrite map_filter_id in HQ by (intros; cbn; lia). by destruct s.
  - wp_step. unfold close. wp_step. apply IH. cbn [table set_table]. rewrite map_filter_delete. revert HQ.
    match goal with |- Q tt (set_table ?t _) → Q tt (set_table ?t' _) => assert (t = t') as -> end; [|done].
    apply map_eq. intros x. destruct (decide (x = fd)) as [->|Hne].
    + rewrite lookup_delete_eq. apply map_lookup_filter_None_2. right. intros ? _. cbn. lia.
    + rewrite lookup_delete_ne, !map_lookup_filter by done. destruct (table s !! x); [|done]. cbn. repeat case_guard; try done; lia.
Qed.

Section run.
Context (fresh : nat → list Z) (limit : nat) (cmds : list (list Z)) (base m : nat).
Abbreviation n := (length cmds).

Lemma wp_pipe s i : table s = held base i → npipes s = (base + i)%nat → (i < n)%nat → (n + 4 ≤ limit)%nat →
  wp (pipe limit) (λ r s', r = Some (3 + Z.of_nat i, 4 + Z.of_nat i) ∧
    s' = set_npipes (S (npipes s)) (set_table (<[4 + Z.of_nat i := WrEnd (base + i)]> (held base (S i))) s)) s.
Proof.
  intros Ht Hp Hi Hlimit. unfold pipe. wp_step. apply wp_intro with (a := s) (s' := s); [done|]. rewrite Ht.
  rewrite (lowest_spec limit 0 (held base i) (3 + Z.of_nat i)).
  2: lia.
  2: rewrite held_lookup, std_lookup; repeat case_decide; try lia; done.
  2: intros y Hy; rewrite held_lookup, std_lookup; repeat case_decide; try lia; by eexists.
  rewrite Hp. change (<[3 + Z.of_nat i := RdEnd (base + i)]> (held base i)) with (held base (S i)).
  rewrite (lowest_spec limit 0 (held base (S i)) (4 + Z.of_nat i)).
  2: lia.
  2: rewrite held_lookup, std_lookup; repeat case_decide; try lia; done.
  2: intros y Hy; rewrite held_lookup, std_lookup; repeat case_decide; try lia; by eexists.
  repeat wp_step. split; [done|]. rewrite <- Hp. done.
Qed.

Definition prev (i : nat) : Z := if decide (i = 0%nat) then 0 else 2 + Z.of_nat i.

(** The child of a command in a pipeline. *)
Lemma child_wired command i :
  (i < n)%nat → (1 < n)%nat →
  ∃ t, child_table (Z.of_nat n) (prev i) (Some (3 + Z.of_nat i, 4 + Z.of_nat i)) (S i <? n)%nat
         (<[4 + Z.of_nat i := WrEnd (base + i)]> (held base (S i))) = Some t ∧ wired n base i command (Child command t).
Proof.
  intros Hi Hn. unfold child_table. rewrite (proj2 (Z.ltb_lt _ _)) by lia. rewrite some_bind. eexists. split; [done|].
  set (t0 := <[4 + Z.of_nat i := WrEnd (base + i)]> (held base (S i))).
  assert (∀ fd, t0 !! fd = if decide (fd = 4 + Z.of_nat i) then Some (WrEnd (base + i)) else
     if decide (3 ≤ fd < 4 + Z.of_nat i) then Some (RdEnd (base + Z.to_nat (fd - 3))) else if decide (0 ≤ fd < 3) then Some (Std fd) else None) as H0.
  { intros fd. unfold t0. destruct (decide (fd = 4 + Z.of_nat i)) as [->|]; [by rewrite lookup_insert_eq|]. rewrite lookup_insert_ne, held_lookup, std_lookup by done.
    repeat case_decide; try done; lia. }
  clearbody t0.
  assert (∃ o, t0 !! prev i = Some o ∧ o = if decide (i = 0%nat) then Std 0 else RdEnd (base + (i - 1))) as (o & Ho & Eo).
  { rewrite H0. unfold prev. destruct (decide (i = 0%nat)); [eexists; split; [|done]; repeat case_decide; try done; lia|].
    eexists. split; [|done]. repeat case_decide; try lia. do 3 f_equal. lia. }
  assert (∀ fd, dup2 (prev i) 0 t0 !! fd = if decide (fd = 0) then Some o else t0 !! fd) as H1.
  { intros fd. unfold dup2. rewrite Ho. destruct (decide (fd = 0)) as [->|]; [by rewrite lookup_insert_eq|by rewrite lookup_insert_ne]. }
  set (t1 := dup2 (prev i) 0 t0) in *. clearbody t1.
  assert (∀ fd, (if (S i <? n)%nat then dup2 (4 + Z.of_nat i) 1 t1 else t1) !! fd =
     if decide (fd = 1) then Some (if decide (S i = n) then Std 1 else WrEnd (base + i)) else t1 !! fd) as H2.
  { intros fd. destruct (Nat.ltb_spec (S i) n).
    - unfold dup2. rewrite H1, H0, decide_False by lia. rewrite decide_True by done. rewrite (decide_False (P := S i = n)) by lia.
      destruct (decide (fd = 1)) as [->|]; [by rewrite lookup_insert_eq|by rewrite lookup_insert_ne].
    - rewrite (decide_True (P := S i = n)) by lia. destruct (decide (fd = 1)) as [->|]; [|done]. rewrite H1, H0. repeat case_decide; try lia; done. }
  set (t2 := if (S i <? n)%nat then dup2 (4 + Z.of_nat i) 1 t1 else t1) in *. clearbody t2.
  constructor; cbn [argv ctable]; [done|..].
  - rewrite lookup_delete_ne, H2, H1 by lia. cbn. by rewrite Eo.
  - rewrite lookup_delete_ne, H2 by lia. done.
  - rewrite lookup_delete_ne, H2, H1, H0 by lia. repeat case_decide; try lia; done.
  - intros fd p [_ Hp]%lookup_delete_Some. rewrite H2 in Hp. case_decide; [repeat case_decide; by simplify_eq|].
    rewrite H1, Eo in Hp. case_decide; [repeat case_decide; by simplify_eq|]. rewrite H0 in Hp. repeat case_decide; by simplify_eq.
Qed.

(** The state between two commands. *)
Record between (s0 : shell) (i : nat) (s : shell) : Prop := {
  bt_table : table s = if decide (1 < n)%nat then held base i else std;
  bt_pipes : (1 < n)%nat → npipes s = (base + i)%nat;
  bt_kids : ∃ ks, kids s = kids s0 ++ ks ∧ length ks = i ∧
              ∀ j k, ks !! j = Some k → ∃ c, cmds !! j = Some c ∧ wired n base j (argv_of fresh (m + j) c) k;
  bt_said : said s = said s0
}.

Lemma between_kid s0 i s c k t b :
  between s0 i s → cmds !! i = Some c → wired n base i (argv_of fresh (m + i) c) k →
  t = (if decide (1 < n)%nat then held base (S i) else std) → ((1 < n)%nat → b = (base + S i)%nat) →
  ∀ f u, between s0 (S i) (set_table t (add_kid k (set_forks f (set_blocks u (set_npipes b s))))).
Proof.
  intros [Ht Hp (ks & Hk & Hl & Hw) Hs] Hc Hwk -> Hb f u. constructor; cbn [table npipes kids said set_table add_kid set_forks set_blocks set_npipes]; [done|done| |done].
  exists (ks ++ [k]). rewrite Hk, <- app_assoc. split; [done|]. rewrite length_app. cbn [length]. split; [lia|].
  intros j k' [Hj|[Hj Hk']]%lookup_app_Some; [by apply Hw|]. apply list_lookup_singleton_Some in Hk' as [Hj0 <-].
  replace j with i by lia. by exists c.
Qed.

Context (forked : nat → Z).
Hypothesis (Hforked : ∀ k, 1 < forked k) (Hcmds : Forall plain cmds) (Hlimit : (n + 4 ≤ limit)%nat).
Hypothesis (Hfresh : ∀ k, length (fresh k) = 64%nat).
Hypothesis (Hzero : ∀ i c, cmds !! i = Some c → is_Some (strlen (drop (S (length c)) (fresh (m + i)%nat)))).

(** The arrays that the commands are in. *)
Abbreviation arrays := (stored fresh m cmds).

Lemma wp_execute_one s0 s i fd :
  between s0 i s → (i < n)%nat →
  wp (execute_one fresh limit forked arrays (Z.of_nat n) i fd (prev i))
    (λ r s', (∃ fd', r = Some (fd', if decide (1 < n)%nat then prev (S i) else prev i)) ∧ between s0 (S i) s') s.
Proof using Hforked Hcmds Hlimit Hfresh Hzero.
  intros Hb Hi. destruct (lookup_lt_is_Some_2 cmds i Hi) as [c Hc]. pose proof (proj1 (Forall_lookup _ _) Hcmds i c Hc) as Hpl.
  assert (arrays !! i = Some (c ++ 0 :: drop (S (length c)) (fresh (m + i)%nat))) as Harr by (by apply stored_lookup).
  pose proof Hb as [Ht Hp _ _]. unfold execute_one. apply wp_bind. destruct (decide (1 < n)%nat) as [Hn|Hn].
  - rewrite (proj2 (Z.ltb_lt _ _)) by lia. eapply wp_mono; [by apply (wp_pipe s i Ht (Hp Hn) Hi Hlimit)|]. intros r s1 [-> ->].
    wp_step. eapply wp_of_option; [done|]. wp_step. eapply wp_mono; [by apply wp_tokenize_command; [| |apply Hzero]|]. intros command s2 [Hw [b ->]].
    wp_step. eapply wp_intro; [done|]. cbn beta. set (s1 := set_blocks b _). wp_go. rewrite length_stored.
    pose proof (Hforked (forks s1)) as Hf. rewrite (proj2 (Z.eqb_neq _ 1)), (proj2 (Z.eqb_neq _ (-1))) by lia.
    destruct (child_wired (argv_of fresh (m + i) c) i Hi Hn) as (t & Ht' & Hwk). rewrite Hw. wp_go. eapply wp_of_option; [exact Ht'|]. wp_go.
    split; [eexists; unfold prev; rewrite decide_False by lia; do 2 f_equal; lia|]. unfold s1.
    apply (between_kid s0 i s c _ (delete _ _) (S (npipes s)) Hb Hc Hwk).
    + rewrite decide_True by done. cbn [table]. apply delete_insert_id. rewrite held_lookup, std_lookup. repeat case_decide; try lia; done.
    + intros _. rewrite Hp by done. lia.
  - rewrite (proj2 (Z.ltb_ge _ _)) by lia. wp_step. wp_step. eapply wp_of_option; [done|]. wp_step.
    eapply wp_mono; [by apply wp_tokenize_command; [| |apply Hzero]|]. intros command s2 [Hw [b ->]].
    wp_step. eapply wp_intro; [done|]. cbn beta. wp_go.
    pose proof (Hforked (forks (set_blocks b s))) as Hf. rewrite (proj2 (Z.eqb_neq _ 1)), (proj2 (Z.eqb_neq _ (-1))) by lia.
    unfold child_table. rewrite (proj2 (Z.ltb_ge _ _)) by lia. wp_go.
    split; [by eexists|]. refine (between_kid s0 i s c _ (table s) (npipes s) Hb Hc _ _ _ _ _); [|by rewrite Ht, decide_False|done].
    assert (i = 0%nat ∧ n = 1%nat) as [-> Hn1] by lia. cbn [table set_blocks]. rewrite Ht. constructor; cbn [argv ctable]; [by rewrite Hw|done| |done|].
    + by rewrite decide_True.
    + intros fd' p. rewrite std_lookup. by case_decide.
Qed.

Lemma wp_execute_loop s0 k : ∀ s i fd, between s0 i s → (i + k = n)%nat →
  wp (execute_loop fresh limit forked arrays (Z.of_nat n) k i fd (prev i)) (λ r s', r = true ∧ between s0 n s') s.
Proof using Hforked Hcmds Hlimit Hfresh Hzero.
  induction k as [|k IH]; intros s i fd Hb Hk; cbn [execute_loop].
  - apply wp_ret. split; [done|]. by replace n with i by lia.
  - wp_step. eapply wp_mono; [apply wp_execute_one; [exact Hb|lia]|]. intros r s' [[fd' ->] Hb']. cbn beta iota.
    destruct k as [|k]; [cbn [execute_loop]; apply wp_ret; split; [done|]; by replace n with (S i) by lia|].
    rewrite decide_True by lia. apply IH; [done|lia].
Qed.

Lemma filter_held : filter (λ x : Z * obj, ¬ (3 ≤ x.1 < 3 + Z.of_nat n)) (if decide (1 < n)%nat then held base n else std) = std.
Proof.
  apply map_eq. intros fd. rewrite map_lookup_filter. case_decide; rewrite ?held_lookup, ?std_lookup; repeat case_decide; cbn; try case_guard; try done; lia.
Qed.

Lemma wp_executeCommand s : table s = std → npipes s = base →
  wp (executeCommand fresh limit forked arrays (Z.of_nat n))
    (λ _ s', table s' = std ∧ said s' = said s ∧ ∃ ks, kids s' = kids s ++ ks ∧ length ks = n ∧
       ∀ j k, ks !! j = Some k → ∃ c, cmds !! j = Some c ∧ wired n base j (argv_of fresh (m + j) c) k) s.
Proof using Hforked Hcmds Hlimit Hfresh Hzero.
  intros Ht Hp. unfold executeCommand. wp_step. rewrite Nat2Z.id. eapply wp_mono.
  - apply (wp_execute_loop s n s 0 None); [|lia]. constructor; [by case_decide|by rewrite Nat.add_0_r| |done]. exists []. by rewrite app_nil_r.
  - intros r s' [-> [Ht' _ Hk Hs]]. apply wp_close_from. cbn [table kids said set_table]. rewrite Ht', filter_held. done.
Qed.
End run.

(** The array of main with a line in it. *)
Definition typed (text : list Z) : list Z := text ++ replicate (1024 - length text) 0.

(** C18. A pipeline typed at the shell runs as written.  The line has one or
    more commands separated by single bars, each of 1 to 62 characters without
    tab or newline, at most 63 commands and 1022 characters in all; there are
    enough descriptors, and every fork succeeds.  The memory that malloc
    returns may hold anything, as long as there is a 0 in each command's block
    after the command's own terminator (without it tokenize runs out of the
    block).  Then the shell starts one child per command; each reads from the
    command before it and writes to the command after it, the first and the
    last use the shell's own input and output, and no child but the writer has
    a pipe's write end, so readers see its end.  The arguments of a child are
    the words of its command, followed by the complete words among the bytes up
    to that 0: exactly its own words when malloc's memory is zero.  All
    descriptors of the shell are as before. *)
Theorem pipeline_runs fresh limit forked s cmds :
  cmds ≠ [] → Forall plain cmds → (length cmds < 64)%nat → (length cmds + 4 ≤ limit)%nat → (length (join cmds) ≤ 1022)%nat →
  (∀ k, 1 < forked k) → (∀ k, length (fresh k) = 64%nat) →
  (∀ i c, cmds !! i = Some c → is_Some (strlen (drop (S (length c)) (fresh (S (blocks s) + i)%nat)))) → table s = std →
  wp (run_line fresh limit forked (typed (join cmds)))
    (λ _ s', table s' = std ∧ said s' = said s ∧ ∃ ks, kids s' = kids s ++ ks ∧ length ks = length cmds ∧
       ∀ j k, ks !! j = Some k → ∃ c, cmds !! j = Some c ∧
         wired (length cmds) (npipes s) j (words SPACE c ++ complete SPACE (stale fresh (S (blocks s) + j) c)) k ∧
         (Forall (λ x, x = 0) (fresh (S (blocks s) + j)%nat) → argv k = words SPACE c)) s.
Proof.
  intros Hne Hpl Hn Hlim Hlen Hf Hfr Hz Ht. unfold run_line, typed.
  replace (1024 - length (join cmds))%nat with (S (S (1022 - length (join cmds)))) by lia. cbn [replicate].
  pose proof (join_chars cmds Hpl) as Hch. wp_step. eapply wp_of_option; [by apply strlen_terminated|].
  pose proof (join_ne cmds Hne Hpl) as Hj. assert (length (join cmds) ≠ 0%nat) as Hj0 by (by destruct (join cmds)).
  rewrite (proj2 (Nat.eqb_neq _ _) Hj0), take_app_length, count_bars_join by done. wp_step. unfold tokenizeM. wp_step. eapply wp_intro; [done|].
  assert (tokens_of BAR (join cmds) [] = cmds) as Htk by (unfold tokens_of, complete; cbn; by rewrite words_join, app_nil_r).
  assert (tokens_fit BAR (join cmds) []) as Hfit.
  { split; [|cbn; lia]. rewrite Htk. split; [|done]. eapply Forall_impl; [done|]. intros c (_ & ? & _). cbn. lia. }
  change (0 :: 0 :: ?l) with (0 :: [] ++ 0 :: l). rewrite (tokenize_fits fresh Hfr) by (done || constructor). change (sep_of 1) with BAR. rewrite Htk. repeat wp_step.
  eapply wp_of_option; [done|]. apply wp_bind, wp_modify, wp_ret.
  eapply wp_mono; [exact (wp_executeCommand fresh limit cmds (npipes s) (S (blocks s)) forked Hf Hpl Hlim Hfr Hz (set_blocks (S (blocks s) + length cmds) s) Ht eq_refl)|].
  intros [] s' (Ht' & Hsd & ks & Hk & Hl & Hw). split; [done|]. split; [done|]. exists ks. split; [done|]. split; [done|]. intros j k Hjk.
  destruct (Hw j k Hjk) as (c & Hc & Hwk). exists c. split; [done|]. split; [exact Hwk|]. intros H0. rewrite (wi_argv _ _ _ _ _ Hwk). unfold argv_of, stale.
  pose proof (proj1 (Forall_lookup _ _) Hpl j c Hc) as (_ & Hlc & _). apply (Forall_drop _ (S (length c))) in H0.
  pose proof (length_drop (fresh (S (blocks s) + j)%nat) (S (length c))) as Hd. rewrite Hfr in Hd.
  destruct (drop (S (length c)) (fresh (S (blocks s) + j)%nat)) as [|x l]; [cbn in Hd; lia|]. apply Forall_cons in H0 as [-> _]. cbn. by rewrite app_nil_r.
Qed.

(** Blocks of zeros, and blocks where malloc left bytes behind. *)
Definition dirty : nat → list Z := λ _, replicate 8 120 ++ [32; 122] ++ replicate 54 0.
Lemma pipeline_runs_witness :
  let cmds := [[108; 115; 32; 45; 97]; [119; 99]; [32; 99; 97; 116]] in
  wp (run_line dirty 1024 (λ _, 50) (typed (join cmds)))
    (λ _ s', table s' = std ∧ said s' = [] ∧ ∃ ks, kids s' = ks ∧ length ks = 3%nat ∧
       ∀ j k, ks !! j = Some k → ∃ c, cmds !! j = Some c ∧ wired 3 0 j (words SPACE c ++ complete SPACE (stale dirty (1 + j) c)) k ∧
         (Forall (λ x, x = 0) (dirty (1 + j)%nat) → argv k = words SPACE c)) (Shell std 0 [] 0 0 [] [] []).
Proof.
  intros cmds. apply (pipeline_runs dirty 1024 (λ _, 50) (Shell std 0 [] 0 0 [] [] []) cmds); try done; try (vm_compute; lia).
  - repeat constructor; try done; vm_compute; lia.
  - intros [|[|[|i]]] c [= <-]; by eexists.
Defined.

(** While the shell waits for the children of a pipeline it has the read end
    of every pipe open, so a command whose reader has ended is not told so. *)
Theorem waiting_shell_reads limit forked s cmds m :
  Forall plain cmds → (1 < length cmds)%nat → (length cmds + 4 ≤ limit)%nat → (∀ k, 1 < forked k) → table s = std →
  wp (execute_loop zeroed limit forked (stored zeroed m cmds) (Z.of_nat (length cmds)) (length cmds) 0 None 0)
    (λ go s', go = true ∧ ∀ i, (i < length cmds)%nat → table s' !! (3 + Z.of_nat i) = Some (RdEnd (npipes s + i))) s.
Proof.
  intros Hpl Hn Hlim Hf Ht. eapply wp_mono.
  - apply (wp_execute_loop zeroed limit cmds (npipes s) m forked Hf Hpl Hlim (λ _, eq_refl)) with (s0 := s) (k := length cmds) (s := s) (i := 0%nat) (fd := None); [| |lia].
    { intros i c Hc. pose proof (proj1 (Forall_lookup _ _) Hpl i c Hc) as (_ & Hlc & _). rewrite drop_replicate.
      replace (64 - S (length c))%nat with (S (62 - length c)) by lia. by exists 0%nat. }
    constructor; [by case_decide|by rewrite Nat.add_0_r| |done]. exists []. by rewrite app_nil_r.
  - intros go s' [-> [Ht' _ _ _]]. split; [done|]. intros i Hi. rewrite Ht', decide_True, held_lookup, decide_True by lia. do 3 f_equal. lia.
Qed.

Lemma waiting_shell_reads_witness :
  wp (execute_loop zeroed 16 (λ _, 50) (stored zeroed 1 [[121]; [104]]) 2 2 0 None 0)
    (λ go s', go = true ∧ ∀ i, (i < 2)%nat → table s' !! (3 + Z.of_nat i) = Some (RdEnd i)) (Shell std 0 [] 0 1 [] [] []).
Proof.
  apply (waiting_shell_reads 16 (λ _, 50) (Shell std 0 [] 0 1 [] [] []) [[121]; [104]] 1); try done; try (vm_compute; lia).
  repeat constructor; try done; vm_compute; lia.
Defined.

(** Lines whose bars and commands do not match.  An empty command makes the
    shell dereference NULL ("a||b").  A tab ends a command without being
    counted: of "a(tab)b" only a is run, and of "a(tab)b|c" the commands a and b
    are run, b writing to a pipe that no command reads. *)
Theorem miscounted_lines :
  let run line := run_line zeroed 16 (λ _, 50) (typed line) (Shell std 0 [] 0 0 [] [] []) in
  (∃ s', run [97; 124; 124; 98] = Fail Fault s') ∧
  (∃ s', run [97; 9; 98] = Ret tt s' ∧ argv <$> kids s' = [[[97]]]) ∧
  (∃ s', run [97; 9; 98; 124; 99] = Ret tt s' ∧ argv <$> kids s' = [[[97]]; [[98]]] ∧
     (λ k, ctable k !! 1) <$> kids s' = [Some (WrEnd 0); Some (WrEnd 1)]).
Proof. split_and!; eexists; [|split|split; [|split]]; vm_compute; reflexivity. Qed.

Definition set_stream (b u : list Z) (s : shell) : shell := set_unread u (set_buffered b s).
Definition on_state {A} (f : shell → shell) (o : outcome shell A) : outcome shell A :=
  match o with Ret a s => Ret a (f s) | Fail e s => Fail e (f s) end.

(** The computation has nothing to do with the stream and has enough fuel. *)
Record apart {A} (m : M shell A) : Prop := {
  ap_stream b u s : m (set_stream b u s) = on_state (set_stream b u) (m s);
  ap_fuel s s' : m s ≠ Fail OutOfFuel s'
}.

Lemma apart_ret {A} (a : A) : apart (mret a).
Proof. by constructor. Qed.
Lemma apart_fault {A} : apart (fail Fault : M shell A).
Proof. by constructor. Qed.
Lemma apart_bind {A B} (m : M shell A) (f : A → M shell B) : apart m → (∀ a, apart (f a)) → apart (m ≫= f).
Proof.
  intros [H1 H2] Hf. constructor.
  - intros b u s. unfold mbind, M_bind. rewrite H1. destruct (m s) as [a s'|e s']; cbn; [apply Hf|done].
  - intros s s'. unfold mbind, M_bind. specialize (H2 s). destruct (m s) as [a s''|e s'']; [apply Hf|]. intros [= -> ->]. by apply (H2 s').
Qed.
Lemma apart_state {A} (f : shell → M shell A) : (∀ b u s, f (set_stream b u s) = f s) → (∀ s, apart (f s)) → apart (getS ≫= f).
Proof.
  intros He Hf. constructor.
  - intros b u s. unfold mbind, M_bind, getS. rewrite He. apply Hf.
  - intros s s'. unfold mbind, M_bind, getS. apply Hf.
Qed.
Lemma apart_modify f : (∀ b u s, f (set_stream b u s) = set_stream b u (f s)) → apart (modify f).
Proof. intros Hf. constructor; [|done]. intros b u s. unfold modify. by rewrite Hf. Qed.
Lemma apart_of_option {A} (o : option A) : apart (of_option o).
Proof. destruct o; [apply apart_ret|apply apart_fault]. Qed.

Create HintDb apart discriminated.
#[export] Hint Resolve apart_ret apart_fault apart_of_option : apart.

Ltac apart_step :=
  match goal with
  | |- apart (getS ≫= _) => apply apart_state; [done|]; intros ?
  | |- apart (_ ≫= _) => apply apart_bind; [|intros ?]
  | |- apart (modify _) => apply apart_modify; done
  | |- apart (if ?b then _ else _) => destruct b
  | |- apart (match ?x with _ => _ end) => destruct x
  | |- apart (let _ := _ in _) => cbn zeta
  end.
Ltac apart_solve := repeat first [solve [eauto with apart] | apart_step].

Section apart.
Context (fresh : nat → list Z) (limit : nat) (forked : nat → Z).

Lemma apart_tokenize line flag : apart (tokenizeM fresh line flag).
Proof. unfold tokenizeM. apart_solve. Qed.
Hint Resolve apart_tokenize : apart.

Lemma apart_pipe : apart (pipe limit).
Proof. unfold pipe. apart_solve. Qed.
Hint Resolve apart_pipe : apart.

Lemma apart_close fd : apart (close fd).
Proof. unfold close. apart_solve. Qed.
Hint Resolve apart_close : apart.

Lemma apart_execute_one commands cmd_cnt i fd fd_prev : apart (execute_one fresh limit forked commands cmd_cnt i fd fd_prev).
Proof. unfold execute_one. apart_solve. Qed.
Hint Resolve apart_execute_one : apart.

Lemma apart_execute_loop commands cmd_cnt n : ∀ i fd fd_prev, apart (execute_loop fresh limit forked commands cmd_cnt n i fd fd_prev).
Proof. induction n as [|n IH]; intros; cbn [execute_loop]; apart_solve. Qed.
Hint Resolve apart_execute_loop : apart.

Lemma apart_close_from n : ∀ fd, apart (close_from n fd).
Proof. induction n as [|n IH]; intros; cbn [close_from]; apart_solve. Qed.
Hint Resolve apart_close_from : apart.

Lemma apart_run_line line : apart (run_line fresh limit forked line).
Proof. unfold run_line, executeCommand. apart_solve. Qed.

(** ** Descriptor 3 *)

(** It is closed if the computation returns. *)
Definition closes {A} (m : M shell A) (s : shell) : Prop := wpx m (λ _ s', table s' !! 3 = None) (λ _ _, True) s.

Hypothesis (Hforked : ∀ k, forked k ≠ 1).

Lemma execute_one_goes commands cmd_cnt i fd fd_prev s :
  wpx (execute_one fresh limit forked commands cmd_cnt i fd fd_prev) (λ r _, r ≠ None) (λ _ _, True) s.
Proof using Hforked.
  unfold execute_one. do 4 (apply wpx_bind; match goal with |- wpx ?m _ _ ?s => unfold wpx at 1; destruct (m s); [|done] end).
  apply wpx_bind, wpx_ret. rewrite (proj2 (Z.eqb_neq _ _)) by apply Hforked.
  apply wpx_bind. match goal with |- wpx ?m _ _ ?s => unfold wpx at 1; destruct (m s); [|done] end.
  case_match; [|by apply wpx_ret]. apply wpx_bind. destruct (match a with Some _ => a | None => fd end) as [[r w]|]; [|done].
  by unfold wpx; cbn.
Qed.

Lemma execute_loop_goes commands cmd_cnt n : ∀ i fd fd_prev s,
  wpx (execute_loop fresh limit forked commands cmd_cnt n i fd fd_prev) (λ r _, r = true) (λ _ _, True) s.
Proof using Hforked.
  induction n as [|n IH]; intros; cbn [execute_loop]; [done|]. apply wpx_bind. eapply wpx_mono; [apply execute_one_goes| |done].
  intros [[fd' fd_prev']|] s' Hr; [apply IH|done].
Qed.

Lemma executeCommand_closes commands cmd_cnt s : 1 ≤ cmd_cnt → closes (executeCommand fresh limit forked commands cmd_cnt) s.
Proof using Hforked.
  intros Hc. apply wpx_bind. eapply wpx_mono; [apply execute_loop_goes| |done]. intros go s' ->. apply wpx_wp, wp_close_from.
  cbn [table set_table]. apply map_lookup_filter_None_2. right. intros o _. cbn. lia.
Qed.

Lemma count_bars_nonneg l : 0 ≤ count_bars l.
Proof. induction l as [|c l IH]; cbn [count_bars]; [done|]. case_match; lia. Qed.

Lemma run_line_closes line s : table s !! 3 = None ∨ (∃ c l, line = c :: l ∧ c ≠ 0) → closes (run_line fresh limit forked line) s.
Proof using Hforked.
  intros Hl. unfold run_line. apply wpx_bind. destruct (strlen line) as [n|] eqn:Hn; [|done]. apply wpx_ret. destruct (n =? 0)%nat eqn:Hn0.
  - apply Nat.eqb_eq in Hn0 as ->. destruct Hl as [Hl|(c & l & -> & Hc)]; [by apply wpx_ret|]. cbn in Hn.
    rewrite (proj2 (Z.eqb_neq c 0) Hc) in Hn. by destruct (strlen l).
  - apply wpx_bind. unfold wpx at 1. destruct (tokenizeM fresh line 1 s); [|done]. apply executeCommand_closes.
    pose proof (count_bars_nonneg (take n line)). lia.
Qed.
End apart.

(** ** Reading the script *)

Lemma fgets_unread bufsiz u n : ∀ acc s, (n ≤ length (buffered s))%nat ∨ table s !! 3 = None →
  fgets bufsiz n acc (set_unread u s) = on_state (set_unread u) (fgets bufsiz n acc s).
Proof.
  induction n as [|n IH]; intros acc s Hs; cbn [fgets]; [done|]. unfold getc, mbind, M_bind, getS. cbn [buffered set_unread].
  destruct (buffered s) as [|c b] eqn:Hb.
  - destruct Hs as [Hs|Hs]; [cbn in Hs; lia|]. cbn [table set_unread]. by rewrite Hs.
  - cbn. destruct (c =? NEWLINE); [done|]. apply (IH _ (set_buffered b s)). cbn [buffered table set_buffered]. destruct Hs; [left; cbn in *; lia|by right].
Qed.

Definition left_over (s : shell) : nat := (length (buffered s) + length (unread s))%nat.

Lemma getc_spec bufsiz s : wpx (getc bufsiz) (λ g s', table s' = table s ∧ (∀ c, g = Char c → (left_over s' < left_over s)%nat) ∧ (left_over s' ≤ left_over s)%nat)
  (λ e _, e = Fault) s.
Proof.
  unfold getc, left_over. apply wpx_bind, wpx_ret. destruct (buffered s) as [|c b] eqn:Hb.
  - destruct (table s !! 3) as [[]|] eqn:Ht; try (by apply wpx_fail).
    + destruct (take bufsiz (unread s)) as [|c b] eqn:Hu; [by apply wpx_ret; rewrite Hb|]. unfold wpx.
      cbn [mbind M_bind modify mret M_ret table buffered unread set_unread set_buffered]. assert (length (unread s) = S (length b) + length (drop bufsiz (unread s)))%nat as ->.
      { rewrite <- (take_drop bufsiz (unread s)) at 1. by rewrite length_app, Hu. }
      split; [done|]. cbn [length buffered unread set_unread set_buffered]. split; intros; lia.
    + apply wpx_ret. by rewrite Hb.
  - unfold wpx. cbn. split; [done|]. cbn [buffered unread set_buffered]. split; intros; lia.
Qed.

Lemma fgets_spec bufsiz n : ∀ acc s, wpx (fgets bufsiz n acc)
  (λ r s', table s' = table s ∧ (left_over s' ≤ left_over s)%nat ∧ ((0 < n)%nat → r ≠ None → acc = [] → (left_over s' < left_over s)%nat)) (λ e _, e = Fault) s.
Proof.
  induction n as [|n IH]; intros acc s; cbn [fgets]; [apply wpx_ret; split_and!; [done|lia|lia]|].
  apply wpx_bind. eapply wpx_mono; [apply getc_spec| |done]. intros g s1 (Ht & Hc & Hle). destruct g as [c| |].
  - specialize (Hc c eq_refl). destruct (c =? NEWLINE); [apply wpx_ret; split_and!; [done|lia|lia]|].
    eapply wpx_mono; [apply IH| |done]. intros r s2 (Ht2 & Hle2 & _). split_and!; [congruence|lia|intros; lia].
  - apply wpx_ret. split_and!; [done|lia|]. intros _ Hr ->. by rewrite decide_True in Hr.
  - apply wpx_ret. split_and!; [done|lia|done].
Qed.

Section batch.
Context (fresh : nat → list Z) (limit : nat) (forked : nat → Z) (bufsiz : nat).

Lemma run_line_stream line s : wpx (run_line fresh limit forked line) (λ _ s', left_over s' = left_over s) (λ e _, e ≠ OutOfFuel) s.
Proof.
  destruct (apart_run_line fresh limit forked line) as [H1 H2]. specialize (H1 (buffered s) (unread s) s). specialize (H2 s).
  replace (set_stream (buffered s) (unread s) s) with s in H1 by (by destruct s). unfold wpx. destruct (run_line fresh limit forked line s) as [a s'|e s'].
  - injection H1 as H1. unfold left_over. by rewrite H1.
  - intros ->. by apply (H2 s').
Qed.

Lemma run_line_unread line u s : run_line fresh limit forked line (set_unread u s) = on_state (set_unread u) (run_line fresh limit forked line s).
Proof.
  destruct (apart_run_line fresh limit forked line) as [H1 _]. pose proof (H1 (buffered s) (unread s) s) as H2. specialize (H1 (buffered s) u s).
  replace (set_stream (buffered s) (unread s) s) with s in H2 by (by destruct s).
  replace (set_stream (buffered s) u s) with (set_unread u s) in H1 by (by destruct s). rewrite H1.
  destruct (run_line fresh limit forked line s) as [a s'|e s']; cbn [on_state] in *; injection H2 as H2; rewrite H2; done.
Qed.

Lemma batch_round_spec s : wpx (batch_round fresh limit forked bufsiz) (λ r s', r = None → (left_over s' < left_over s)%nat) (λ e _, e ≠ OutOfFuel) s.
Proof.
  unfold batch_round. apply wpx_bind. eapply wpx_mono; [apply fgets_spec| |by intros e s' ->].
  intros [text|] s1 (_ & _ & Hlt); [|by apply wpx_ret]. apply wpx_bind. destruct (line_of text) as [line|]; [|done]. apply wpx_ret, wpx_bind.
  eapply wpx_mono; [apply run_line_stream| |done]. intros [] s2 Hs. apply wpx_ret. intros _. rewrite Hs. by apply Hlt; [vm_compute; lia|..].
Qed.

Lemma main_batch_S fuel s : main_batch fresh limit forked bufsiz (S fuel) s =
  match batch_round fresh limit forked bufsiz s with
  | Ret (Some u) s' => Ret u s'
  | Ret None s' => main_batch fresh limit forked bufsiz fuel s'
  | Fail e s' => Fail e s'
  end.
Proof.
  transitivity ((r ← batch_round fresh limit forked bufsiz; match r with Some a => mret a | None => main_batch fresh limit forked bufsiz fuel end) s); [done|].
  unfold mbind, M_bind. by destruct (batch_round fresh limit forked bufsiz s) as [[]|].
Qed.

Lemma main_batch_fuel fuel : ∀ s s', (left_over s < fuel)%nat → main_batch fresh limit forked bufsiz fuel s ≠ Fail OutOfFuel s'.
Proof.
  induction fuel as [|fuel IH]; intros s s' Hf; [lia|]. rewrite main_batch_S. pose proof (batch_round_spec s) as Hr. unfold wpx in Hr.
  destruct (batch_round fresh limit forked bufsiz s) as [[u|] s1|e s1]; [discriminate| |intros [= -> _]; by apply Hr].
  apply IH. specialize (Hr eq_refl). lia.
Qed.

Hypothesis (Hforked : ∀ k, forked k ≠ 1).

(** With descriptor 3 closed nothing more of the file is read. *)
Lemma batch_round_closed u s : table s !! 3 = None →
  batch_round fresh limit forked bufsiz (set_unread u s) = on_state (set_unread u) (batch_round fresh limit forked bufsiz s) ∧
  wpx (batch_round fresh limit forked bufsiz) (λ _ s', table s' !! 3 = None) (λ _ _, True) s.
Proof using Hforked.
  intros Hs. split.
  - unfold batch_round, mbind, M_bind. rewrite fgets_unread by (by right). destruct (fgets bufsiz _ [] s) as [[text|] s1|e s1]; cbn [on_state]; [|done..].
    destruct (line_of text) as [line|]; [|done]. cbn. rewrite run_line_unread. by destruct (run_line fresh limit forked line s1).
  - unfold batch_round. apply wpx_bind. eapply wpx_mono; [apply fgets_spec| |done]. intros [text|] s1 (Ht & _); [|apply wpx_ret; congruence].
    apply wpx_bind. destruct (line_of text) as [line|]; [|done]. apply wpx_ret, wpx_bind.
    eapply wpx_mono; [apply run_line_closes; [done|left; congruence]| |done]. intros [] s2 H2. by apply wpx_ret.
Qed.

Lemma main_batch_closed u fuel : ∀ s, table s !! 3 = None →
  main_batch fresh limit forked bufsiz fuel (set_unread u s) = on_state (set_unread u) (main_batch fresh limit forked bufsiz fuel s).
Proof using Hforked.
  induction fuel as [|fuel IH]; intros s Hs; [done|]. rewrite !main_batch_S. destruct (batch_round_closed u s Hs) as [He Hc].
  rewrite He. unfold wpx in Hc. destruct (batch_round fresh limit forked bufsiz s) as [[r|] s1|e s1]; cbn [on_state]; [done| |done].
  by apply IH.
Qed.

(** A line read from the buffer alone. *)
Lemma fgets_buffered n : ∀ acc s, (n ≤ length (buffered s))%nat → Forall (λ c, c ≠ 0) (buffered s) →
  wp (fgets bufsiz n acc) (λ r s', table s' = table s ∧ ∃ x, r = Some (acc ++ x) ∧ Forall (λ c, c ≠ 0) x ∧ (length x ≤ n)%nat ∧ ((0 < n)%nat → x ≠ [])) s.
Proof.
  induction n as [|n IH]; intros acc s Hn Hz; cbn [fgets].
  - apply wp_ret. split; [done|]. exists []. rewrite app_nil_r. split_and!; [done|by apply Forall_nil|done|lia].
  - destruct (buffered s) as [|c b] eqn:Hb; [cbn in Hn; lia|]. apply Forall_cons in Hz as [Hc Hz]. cbn [length] in Hn. wp_step.
    apply wp_intro with (a := Char c) (s' := set_buffered b s); [unfold getc, mbind, M_bind, getS; by rewrite Hb|]. destruct (c =? NEWLINE).
    + apply wp_ret. split; [done|]. exists [c]. split_and!; [done|by apply Forall_singleton|cbn; lia|done].
    + eapply wp_mono; [apply (IH _ (set_buffered b s)); [cbn; lia|done]|]. intros r s' (Ht & x & -> & Hx & Hl & _). split; [done|].
      exists (c :: x). rewrite <- app_assoc. split_and!; [done|by apply Forall_cons|cbn [length]; lia|done].
Qed.

Lemma line_of_head c x : x ≠ [] → Forall (λ z, z ≠ 0) (c :: x) → (length (c :: x) < 1024)%nat → ∃ l, line_of (c :: x) = Some (c :: l).
Proof.
  intros Hx Hz Hl. unfold line_of. change (Z.to_nat MAX_INPUT_SIZE) with 1024%nat. destruct (1024 - length (c :: x))%nat as [|m] eqn:Hm; [lia|].
  cbn [replicate]. rewrite strlen_terminated by done. rewrite some_bind. destruct x as [|d x]; [done|]. cbn [length Nat.eqb]. eexists. reflexivity.
Qed.

Lemma fgets_first n c b rest s : length (c :: b) = bufsiz → c ≠ NEWLINE → buffered s = [] → table s !! 3 = Some Script →
  fgets bufsiz (S n) [] (set_unread ((c :: b) ++ rest) s) = fgets bufsiz n [c] (set_unread rest (set_buffered b s)).
Proof.
  intros Hl Hc Hb Ht. cbn [fgets]. unfold getc, mbind, M_bind, getS. cbn [buffered table unread set_unread].
  rewrite Hb, Ht, take_app_length', drop_app_length' by done. unfold modify, mret, M_ret. cbn beta iota. by rewrite (proj2 (Z.eqb_neq c NEWLINE) Hc).
Qed.

(** What a round does after the first character. *)
Definition after_first (n : nat) (c : Z) : M shell (option unit) :=
  r ← fgets bufsiz n [c];
  match r with None => mret (Some tt) | Some text => line ← of_option (line_of text); run_line fresh limit forked line;; mret None end.

(** The first round of a script that begins with a command. *)
Lemma first_round c b rest s n :
  (Z.to_nat MAX_INPUT_SIZE - 1 = S n)%nat → length (c :: b) = bufsiz → c ≠ NEWLINE → buffered s = [] → table s !! 3 = Some Script →
  batch_round fresh limit forked bufsiz (set_unread ((c :: b) ++ rest) s) = after_first n c (set_unread rest (set_buffered b s)).
Proof. intros Hn Hl Hc Hb Ht. unfold batch_round, after_first, mbind, M_bind. by rewrite Hn, fgets_first. Qed.

Lemma after_first_unread n c rest s : (n ≤ length (buffered s))%nat →
  after_first n c (set_unread rest s) = on_state (set_unread rest) (after_first n c (set_unread [] s)).
Proof.
  intros Hn. unfold after_first, mbind, M_bind. change (set_unread rest s) with (set_unread rest (set_unread [] s)).
  rewrite (fgets_unread bufsiz rest n [c] (set_unread [] s)) by (by left). destruct (fgets bufsiz n [c] (set_unread [] s)) as [[text|] s2|e s2]; cbn [on_state]; [|done..].
  destruct (line_of text) as [line|]; [|done]. cbn. rewrite run_line_unread. by destruct (run_line fresh limit forked line s2).
Qed.

Lemma after_first_closes n c s : (0 < n ≤ 1022)%nat → (n ≤ length (buffered s))%nat → c ≠ 0 → Forall (λ z, z ≠ 0) (buffered s) →
  wpx (after_first n c) (λ r s', r = None ∧ table s' !! 3 = None) (λ _ _, True) s.
Proof using Hforked.
  intros Hn Hb Hc Hz. apply wpx_bind_wp. eapply wp_mono; [by apply fgets_buffered|].
  intros r s' (_ & x & -> & Hx & Hlx & Hne). destruct (line_of_head c x) as [l Hline]; [apply Hne; lia|by apply Forall_cons|cbn [length]; lia|].
  apply wpx_bind. cbn [app]. rewrite Hline. apply wpx_ret, wpx_bind. eapply wpx_mono; [apply run_line_closes; [done|right; by exists c, l]| |done].
  intros [] s2 H2. by apply wpx_ret.
Qed.
End batch.

(** C36. After its first command a script loses its descriptor: the loop that
    closes the pipes starts at descriptor 3, which is the script's own.  What
    stdio has not read by then is never run: the run of a script that begins
    with a command is the run of its first block, whatever the size of stdio's
    blocks, if they are at least as large as a line of the shell. *)
Theorem script_cut_short fresh limit forked bufsiz s block rest fuel :
  (∀ k, forked k ≠ 1) → MAX_INPUT_SIZE - 1 ≤ Z.of_nat bufsiz → length block = bufsiz → Forall (λ c, c ≠ 0) block → head block ≠ Some NEWLINE →
  buffered s = [] → table s !! 3 = Some Script →
  main_batch fresh limit forked bufsiz (S fuel) (set_unread (block ++ rest) s) =
  on_state (set_unread rest) (main_batch fresh limit forked bufsiz (S fuel) (set_unread block s)).
Proof.
  intros Hf Hsz Hl Hz Hh Hb Ht. unfold MAX_INPUT_SIZE in Hsz. destruct block as [|c b]; [cbn in Hl; lia|]. assert (c ≠ NEWLINE) as Hc by (intros ->; by apply Hh).
  apply Forall_cons in Hz as [Hc0 Hz]. destruct (Z.to_nat MAX_INPUT_SIZE - 1)%nat as [|n] eqn:Hn; [done|].
  assert (n = 1022%nat) as Hn' by (change (1023%nat = S n) in Hn; lia). assert (n ≤ length b)%nat as Hnb by (cbn [length] in Hl; lia).
  rewrite !main_batch_S. rewrite (first_round fresh limit forked bufsiz c b rest s n) by done. pose proof (first_round fresh limit forked bufsiz c b [] s n) as E.
  rewrite app_nil_r in E. rewrite E by done. rewrite after_first_unread by done.
  pose proof (after_first_closes fresh limit forked bufsiz Hf n c (set_unread [] (set_buffered b s)) ltac:(lia) Hnb Hc0 Hz) as H3. unfold wpx in H3.
  destruct (after_first fresh limit forked bufsiz n c (set_unread [] (set_buffered b s))) as [r s2|e s2]; cbn [on_state]; [|done].
  destruct H3 as [-> H3]. by apply main_batch_closed.
Qed.

Lemma script_cut_short_witness :
  let block := concat (replicate 2048 [97; 10]) in
  let s := Shell (<[3 := Script]> std) 0 [] 0 0 [] [] [] in
  main_batch zeroed 1024 (λ _, 50) 4096 5000 (set_unread (block ++ [98; 10]) s) =
  on_state (set_unread [98; 10]) (main_batch zeroed 1024 (λ _, 50) 4096 5000 (set_unread block s)).
Proof.
  intros block s. apply (script_cut_short zeroed 1024 (λ _, 50) 4096 s block [98; 10] 4999).
  - done.
  - vm_compute. discriminate.
  - vm_compute. reflexivity.
  - apply (bool_decide_unpack _). vm_compute. exact I.
  - vm_compute. discriminate.
  - reflexivity.
  - reflexivity.
Defined.

(** The loop over a script ends: with one round per byte of the script and
    one more, it never runs out. *)
Theorem script_ends fresh limit forked bufsiz s s' : main_batch fresh limit forked bufsiz (S (left_over s)) s ≠ Fail OutOfFuel s'.
Proof. apply main_batch_fuel. lia. Qed.
