(* ===== verification/Sh.v ===== *)
(** * The shell's parser (xv6: sh.c)

    The line is the list of its characters, without the terminating 0; pointers
    into it are positions, [es] is its length.  A node of the tree keeps where
    its words begin and end; nulterminate writes the zeros after them. *)

From S2P Require Import Prelude Bytes Xstring.

Definition MAXARGS : nat := 10.
Definition O_RDONLY : Z := 0.
Definition O_WRONLY : Z := 1.
Definition O_CREATE : Z := 0x200.

(** The characters the parser looks for. *)
Definition LT : Z := 60.
Definition GT : Z := 62.
Definition PLUS : Z := 43.
Definition BAR : Z := 124.
Definition AMP : Z := 38.
Definition SEMI : Z := 59.
Definition LPAR : Z := 40.
Definition RPAR : Z := 41.
Definition LETTER : Z := 97.

(** [struct cmd], src/hw3/xv6/sh.c:7-50
    [W] is how a word is given: its two pointers, or its characters. *)
Inductive cmd (W : Type) :=
  | EXEC (argv : list W)
  | REDIR (c : cmd W) (file : W) (mode fd : Z)
  | PIPE (left right : cmd W)
  | LIST (left right : cmd W)
  | BACK (c : cmd W).
Arguments EXEC {W} argv.
Arguments REDIR {W} c file mode fd.
Arguments PIPE {W} left right.
Arguments LIST {W} left right.
Arguments BACK {W} c.

(** A word of the line: where it begins and the position after it. *)
Abbreviation span := (nat * nat)%type.

(** [execcmd], src/hw3/xv6/sh.c:195-204 *)
Definition execcmd : cmd span := EXEC [].
(** [redircmd], src/hw3/xv6/sh.c:206-220 *)
Definition redircmd (subcmd : cmd span) (file efile : nat) (mode fd : Z) : cmd span := REDIR subcmd (file, efile) mode fd.
(** [pipecmd], src/hw3/xv6/sh.c:222-233 *)
Definition pipecmd (left right : cmd span) : cmd span := PIPE left right.
(** [listcmd], src/hw3/xv6/sh.c:235-246 *)
Definition listcmd (left right : cmd span) : cmd span := LIST left right.
(** [backcmd], src/hw3/xv6/sh.c:248-258 *)
Definition backcmd (subcmd : cmd span) : cmd span := BACK subcmd.

(** [whitespace], src/hw3/xv6/sh.c:262-262 *)
Definition whitespace : list Z := [32; 9; 13; 10; 11].
(** [symbols], src/hw3/xv6/sh.c:263-263 *)
Definition symbols : list Z := [60; 124; 62; 38; 59; 40; 41].

(** strchr(toks, c) as a condition *)
Definition chr_in (toks : list Z) (c : Z) : bool :=
  match strchr (cstr toks) c with Some (Some _) => true | _ => false end.

(** How far a loop [while(s < es && f( *s)) s++] goes. *)
Fixpoint run (f : Z → bool) (l : list Z) : nat :=
  match l with
  | [] => O
  | c :: l' => if f c then S (run f l') else O
  end.

Section line.
(** The line. *)
Context (buf : list Z).
Abbreviation es := (length buf).

(** The character at a position: a fault beyond the terminating 0. *)
Definition fetch (s : nat) : M nat Z := of_option ((buf ++ [0]) !! s).
Definition at_ (s : nat) : Z := nth s buf 0.
Definition skip (f : Z → bool) (s : nat) : nat := (s + run f (drop s buf))%nat.

(** [gettoken], src/hw3/xv6/sh.c:265-308
    The kind of token, and where it begins and ends. *)
Definition gettoken : M nat (Z * nat * nat) :=
  s ← getS;
  let s := skip (chr_in whitespace) s in
  let q := s in
  c ← fetch s;
  '(ret, s) ←
    (if c =? 0 then mret (c, s)
     else if (c =? BAR) || (c =? LPAR) || (c =? RPAR) || (c =? SEMI) || (c =? AMP) || (c =? LT) then mret (c, S s)
     else if c =? GT then d ← fetch (S s); if d =? GT then mret (PLUS, S (S s)) else mret (c, S s)
     else mret (LETTER, skip (λ c, negb (chr_in whitespace c) && negb (chr_in symbols c)) s));
  let eq := s in
  putS (skip (chr_in whitespace) s);;
  mret (ret, q, eq).

(** [peek], src/hw3/xv6/sh.c:310-320 *)
Definition peek (toks : list Z) : M nat bool :=
  s ← getS;
  let s := skip (chr_in whitespace) s in
  putS s;;
  c ← fetch s;
  mret (negb (c =? 0) && chr_in toks c).

(** [parseredirs], src/hw3/xv6/sh.c:374-397 *)
Fixpoint parseredirs (fuel : nat) (c : cmd span) : M nat (cmd span) :=
  match fuel with
  | O => fail OutOfFuel
  | S fuel' =>
      b ← peek [LT; GT];
      if (b : bool) then
        '(tok, _, _) ← gettoken;
        '(t, q, eq) ← gettoken;
        panic_unless (t =? LETTER) "missing file for redirection";;
        parseredirs fuel'
          (if tok =? LT then redircmd c q eq O_RDONLY 0
           else if tok =? GT then redircmd c q eq (Z.lor O_WRONLY O_CREATE) 1
           else if tok =? PLUS then redircmd c q eq (Z.lor O_WRONLY O_CREATE) 1
           else c)
      else mret c
  end.

(** [cmd->argv[argc] = q], src/hw3/xv6/sh.c:436-437
    The command is the innermost node of [ret], which parseredirs wraps. *)
Fixpoint add_arg (q eq : nat) (ret : cmd span) : cmd span :=
  match ret with
  | EXEC argv => EXEC (argv ++ [(q, eq)])
  | REDIR c f mode fd => REDIR (add_arg q eq c) f mode fd
  | _ => ret
  end.

(** [parseexec: the loop], src/hw3/xv6/sh.c:431-442
    [left] is how many arguments may still follow: MAXARGS - 1 - argc. *)
Fixpoint args_loop (left : nat) (ret : cmd span) : M nat (cmd span) :=
  b ← peek [BAR; RPAR; AMP; SEMI];
  if (b : bool) then mret ret
  else
    '(tok, q, eq) ← gettoken;
    if tok =? 0 then mret ret
    else
      panic_unless (tok =? LETTER) "syntax";;
      match left with
      | O => fail (Panic "too many args")
      | S left' =>
          ret ← parseredirs (S es) (add_arg q eq ret);
          args_loop left' ret
      end.

(** [parseline: the loop], src/hw3/xv6/sh.c:350-353 *)
Fixpoint back_loop (fuel : nat) (c : cmd span) : M nat (cmd span) :=
  match fuel with
  | O => fail OutOfFuel
  | S fuel' =>
      b ← peek [AMP];
      if (b : bool) then gettoken;; back_loop fuel' (backcmd c) else mret c
  end.

(** [parseblock], src/hw3/xv6/sh.c:399-413
    [parseline] is the call for the line between the parentheses. *)
Definition parseblock (parseline : M nat (cmd span)) : M nat (cmd span) :=
  b ← peek [LPAR];
  panic_unless b "parseblock";;
  gettoken;;
  c ← parseline;
  b ← peek [RPAR];
  panic_unless b "syntax - missing )";;
  gettoken;;
  parseredirs (S es) c.

(** [parseexec], src/hw3/xv6/sh.c:415-446 *)
Definition parseexec (parseline : M nat (cmd span)) : M nat (cmd span) :=
  b ← peek [LPAR];
  if (b : bool) then parseblock parseline
  else ret ← parseredirs (S es) execcmd; args_loop (MAXARGS - 1) ret.

(** [parsepipe], src/hw3/xv6/sh.c:361-372 *)
Fixpoint parsepipe (parseline : M nat (cmd span)) (fuel : nat) : M nat (cmd span) :=
  match fuel with
  | O => fail OutOfFuel
  | S fuel' =>
      c ← parseexec parseline;
      b ← peek [BAR];
      if (b : bool) then gettoken;; r ← parsepipe parseline fuel'; mret (pipecmd c r) else mret c
  end.

(** [parseline], src/hw3/xv6/sh.c:344-359 *)
Fixpoint parseline (fuel : nat) : M nat (cmd span) :=
  match fuel with
  | O => fail OutOfFuel
  | S fuel' =>
      c ← parsepipe (parseline fuel') (S es);
      c ← back_loop (S es) c;
      b ← peek [SEMI];
      if (b : bool) then gettoken;; r ← parseline fuel'; mret (listcmd c r) else mret c
  end.
End line.

(** [nulterminate], src/hw3/xv6/sh.c:448-493
    [b] is the line with its terminating 0. *)
Fixpoint nulterminate (c : cmd span) (b : list Z) : list Z :=
  match c with
  | EXEC argv => foldl (λ b w, <[snd w := 0]> b) b argv
  | REDIR c f _ _ => <[snd f := 0]> (nulterminate c b)
  | PIPE l r | LIST l r => nulterminate r (nulterminate l b)
  | BACK c => nulterminate c b
  end.

(** [parsecmd], src/hw3/xv6/sh.c:327-342
    The tree and the line with the zeros. *)
Definition parsecmd (buf : list Z) : M nat (cmd span * list Z) :=
  c ← parseline buf (S (length buf));
  peek buf [];;
  s ← getS;
  panic_unless (s =? length buf)%nat "syntax";;
  mret (c, nulterminate c (buf ++ [0])).

(** ** Tokens: the reference *)

Inductive tok := Sym (c : Z) | Append | Word (w : list Z).

Definition is_ws (c : Z) : bool := bool_decide (c ∈ whitespace).
Definition is_sym (c : Z) : bool := bool_decide (c ∈ symbols).
Definition is_word (c : Z) : bool := negb (is_ws c) && negb (is_sym c).

#[global] Arguments is_ws : simpl never.
#[global] Arguments is_sym : simpl never.

(** The tokens of a text; [w] is the word read so far. *)
Definition flush (w : list Z) : list tok := match w with [] => [] | _ => [Word w] end.
Fixpoint lex_from (w : list Z) (l : list Z) : list tok :=
  match l with
  | [] => flush w
  | c :: l' =>
      if is_ws c then flush w ++ lex_from [] l'
      else if is_sym c then
        flush w ++
        (if c =? GT then match l' with
                         | d :: l'' => if d =? GT then Append :: lex_from [] l'' else Sym c :: lex_from [] l'
                         | [] => Sym c :: lex_from [] l'
                         end
         else Sym c :: lex_from [] l')
      else lex_from (w ++ [c]) l'
  end.
Definition lex (l : list Z) : list tok := lex_from [] l.

(** What gettoken returns for a token. *)
Definition code (t : tok) : Z := match t with Sym c => c | Append => PLUS | Word _ => LETTER end.
(** The first character of a token, as peek sees it. *)
Definition first (t : tok) : option Z := match t with Sym c => Some c | Append => Some GT | Word _ => None end.

Lemma strchr_from_elem toks c : nonul toks → c ≠ 0 → ∀ n, match strchr_from n (cstr toks) c with Some (Some _) => true | _ => false end = bool_decide (c ∈ toks).
Proof.
  intros Hn Hc. induction toks as [|x toks IH]; intros n; cbn; [done|].
  apply Forall_cons in Hn as [Hx Hn]. rewrite (proj2 (Z.eqb_neq x 0)) by done. destruct (Z.eqb_spec x c) as [->|Hne].
  - symmetry. apply bool_decide_eq_true. by left.
  - rewrite IH by done. apply bool_decide_ext. rewrite elem_of_cons. naive_solver.
Qed.
Lemma chr_in_elem toks c : nonul toks → c ≠ 0 → chr_in toks c = bool_decide (c ∈ toks).
Proof. intros. by apply strchr_from_elem. Qed.
Lemma chr_in_ws c : c ≠ 0 → chr_in whitespace c = is_ws c.
Proof. intros. apply chr_in_elem; [|done]. by repeat constructor. Qed.
Lemma chr_in_sym c : c ≠ 0 → chr_in symbols c = is_sym c.
Proof. intros. apply chr_in_elem; [|done]. by repeat constructor. Qed.
