(* ===== verification/ShParse.v ===== *)
(** * Tokens of the line, and what the parser accepts (xv6: sh.c) *)

From S2P Require Import Prelude Bytes Xstring Sh.

Lemma run_le f l : (run f l ≤ length l)%nat.
Proof. induction l as [|c l IH]; cbn; [done|]. destruct (f c); lia. Qed.
Lemma run_ext f g l : Forall (λ c, f c = g c) l → run f l = run g l.
Proof. induction 1 as [|c l Hc _ IH]; cbn; [done|]. by rewrite Hc, IH. Qed.
Lemma run_all f l i : (i < run f l)%nat → f (nth i l 0) = true.
Proof. revert i. induction l as [|c l IH]; intros i Hi; cbn in *; [lia|]. destruct (f c) eqn:E; [|lia]. destruct i; [done|]. apply IH. lia. Qed.
Lemma run_stop f l : run f l = length l ∨ (run f l < length l)%nat ∧ f (nth (run f l) l 0) = false.
Proof.
  induction l as [|c l IH]; cbn; [by left|]. destruct (f c) eqn:E; [|right; split; [lia|done]].
  destruct IH as [->|[? ?]]; [by left|right]. split; [lia|done].
Qed.

Lemma lex_ws l : lex (drop (run is_ws l) l) = lex l.
Proof. unfold lex. induction l as [|c l IH]; cbn; [done|]. destruct (is_ws c) eqn:E; [by rewrite <- IH|]. cbn. by rewrite E. Qed.
Lemma lex_word w l : lex_from w l = flush (w ++ take (run is_word l) l) ++ lex (drop (run is_word l) l).
Proof.
  revert w. induction l as [|c l IH]; intros w; cbn [run lex_from]; [by rewrite !app_nil_r|]. unfold lex in *.
  assert (is_word c = negb (is_ws c) && negb (is_sym c)) as -> by done.
  destruct (is_ws c) eqn:E1; [cbn; by rewrite E1, app_nil_r|]. destruct (is_sym c) eqn:E2; [cbn; by rewrite E1, E2, app_nil_r|].
  cbn [negb andb take drop]. rewrite IH. by rewrite <- app_assoc.
Qed.

Lemma zero_symbols : 0 ∉ symbols.
Proof. by apply (bool_decide_eq_false_1 (0 ∈ symbols)). Qed.

Section lex.
Context (buf : list Z).
Hypothesis Hn : nonul buf.
Abbreviation es := (length buf).

Definition toks (p : nat) : list tok := lex (drop p buf).

(** The word at a span: nothing but word characters, and as long as it can be. *)
Definition word_at (q eq : nat) : Prop :=
  (q < eq ≤ es)%nat ∧ (∀ i, (q ≤ i < eq)%nat → is_word (at_ buf i) = true) ∧ (eq = es ∨ is_word (at_ buf eq) = false).

Lemma at_drop s i : nth i (drop s buf) 0 = at_ buf (s + i).
Proof. unfold at_. rewrite !nth_lookup, lookup_drop. done. Qed.
Lemma at_nonzero s : (s < es)%nat → at_ buf s ≠ 0.
Proof. intros Hs. unfold at_. rewrite nth_lookup. destruct (lookup_lt_is_Some_2 buf s Hs) as [c Hc]. rewrite Hc. cbn. unfold nonul in Hn. rewrite Forall_lookup in Hn. eauto. Qed.
Lemma at_end : at_ buf es = 0.
Proof. unfold at_. by rewrite nth_overflow. Qed.
Lemma drop_at s : (s < es)%nat → drop s buf = at_ buf s :: drop (S s) buf.
Proof.
  intros Hs. destruct (lookup_lt_is_Some_2 buf s Hs) as [c Hc]. rewrite (drop_S buf c s Hc). unfold at_. rewrite nth_lookup. by rewrite Hc.
Qed.

Lemma nonul_drop s : Forall (λ c, c ≠ 0) (drop s buf).
Proof. by apply Forall_drop. Qed.
Lemma skip_ws s : (s ≤ es)%nat → (s ≤ skip buf (chr_in whitespace) s ≤ es)%nat ∧ toks (skip buf (chr_in whitespace) s) = toks s ∧
  (skip buf (chr_in whitespace) s = es ∨ is_ws (at_ buf (skip buf (chr_in whitespace) s)) = false).
Proof.
  intros Hs. unfold skip, toks. rewrite (run_ext _ is_ws) by (eapply Forall_impl; [apply nonul_drop|]; intros; by apply chr_in_ws).
  pose proof (run_le is_ws (drop s buf)) as Hle. rewrite length_drop in Hle. split; [lia|]. rewrite <- drop_drop. split; [apply lex_ws|].
  destruct (run_stop is_ws (drop s buf)) as [E|[_ E]]; [left; rewrite E, length_drop; lia|right]. by rewrite at_drop in E.
Qed.

Lemma toks_end : toks es = [].
Proof. unfold toks. by rewrite drop_all. Qed.

Lemma wp_char s p (Q : Z → nat → Prop) : (s ≤ es)%nat → Q (at_ buf s) p → wp (fetch buf s) Q p.
Proof.
  intros Hs HQ. unfold fetch. apply wp_of_option with (at_ buf s); [|done]. unfold at_. destruct (decide (s = es)) as [->|].
  - rewrite lookup_app_r, Nat.sub_diag, nth_overflow by lia. done.
  - rewrite lookup_app_l by lia. destruct (lookup_lt_is_Some_2 buf s) as [x Hx]; [lia|]. by rewrite (nth_lookup_Some _ _ _ _ Hx).
Qed.

Lemma wp_peek set p (Q : bool → nat → Prop) :
  (p ≤ es)%nat → set ⊆ symbols →
  (∀ p', (p ≤ p' ≤ es)%nat → toks p' = toks p →
     Q (match toks p with t :: _ => match first t with Some c => bool_decide (c ∈ set) | None => false end | [] => false end) p') →
  wp (peek buf set) Q p.
Proof.
  intros Hp Hset HQ. destruct (skip_ws p Hp) as (Hr & Ht & Hw). unfold peek. apply wp_bind. change (wp getS ?K p) with (K p p). cbv beta zeta.
  set (s := skip buf (chr_in whitespace) p) in *. clearbody s. apply wp_bind. change (wp (putS s) ?K p) with (K tt s). cbv beta. apply wp_bind, wp_char; [lia|]. apply wp_ret.
  specialize (HQ s Hr Ht). rewrite <- Ht in HQ.
  destruct (decide (s = es)) as [->|Hne]; [rewrite at_end; by rewrite toks_end in HQ|]. destruct Hw as [?|Hw]; [done|]. assert (s < es)%nat as Hlt by lia.
  assert (nonul set) as Hns by (apply Forall_forall; intros c Hc ->; by apply zero_symbols, Hset).
  pose proof (at_nonzero s Hlt) as Hnz. rewrite (proj2 (Z.eqb_neq _ 0)), chr_in_elem by done. cbn [negb andb].
  unfold toks in HQ. rewrite (drop_at s Hlt) in HQ. unfold lex in HQ. cbn [lex_from] in HQ. rewrite Hw in HQ.
  destruct (is_sym (at_ buf s)) eqn:Hsy.
  - cbn [flush app] in HQ. destruct (Z.eqb_spec (at_ buf s) GT) as [E|]; [|done]. destruct (drop (S s) buf) as [|d r]; [done|]. destruct (d =? GT); [|done]. by rewrite E.
  - rewrite lex_word in HQ. cbn in HQ. replace (bool_decide (at_ buf s ∈ set)) with false; [done|]. symmetry. apply bool_decide_eq_false. intros Hin%Hset. apply bool_decide_eq_false in Hsy. done.
Qed.

(** At the end of the tokens peek skips the rest of the line. *)
Lemma toks_nil s : (s < es)%nat → is_ws (at_ buf s) = false → toks s ≠ [].
Proof.
  intros Hs Hw. unfold toks. rewrite (drop_at s Hs). unfold lex. cbn [lex_from]. rewrite Hw. destruct (is_sym (at_ buf s)); [|by rewrite lex_word].
  cbn [flush app]. destruct (at_ buf s =? GT); [|done]. destruct (drop (S s) buf) as [|d r]; [done|]. by destruct (d =? GT).
Qed.
Lemma wp_peek_end set p (Q : bool → nat → Prop) : (p ≤ es)%nat → toks p = [] → Q false es → wp (peek buf set) Q p.
Proof.
  intros Hp Hnil HQ. destruct (skip_ws p Hp) as (Hr & Ht & Hw).
  unfold peek. apply wp_bind. change (wp getS ?K p) with (K p p). cbv beta zeta.
  set (s := skip buf (chr_in whitespace) p) in *. clearbody s. apply wp_bind. change (wp (putS s) ?K p) with (K tt s). cbv beta. apply wp_bind, wp_char; [lia|]. apply wp_ret.
  destruct Hw as [->|Hw]; [by rewrite at_end|]. destruct (decide (s = es)) as [->|Hne]; [by rewrite at_end|].
  destruct (toks_nil s); [lia|done|]. by rewrite Ht.
Qed.

Lemma skip_word s : (s ≤ es)%nat → skip buf (λ c, negb (chr_in whitespace c) && negb (chr_in symbols c)) s = (s + run is_word (drop s buf))%nat.
Proof.
  intros Hs. unfold skip. f_equal. apply run_ext. eapply Forall_impl; [apply nonul_drop|]. intros c Hc. cbv beta. by rewrite chr_in_ws, chr_in_sym.
Qed.

Lemma wp_gettoken p (Q : Z * nat * nat → nat → Prop) :
  (p ≤ es)%nat → (toks p = [] → Q (0, es, es) es) →
  (∀ t rest q eq p', toks p = t :: rest → (p ≤ q ∧ q < eq ≤ p' ∧ p' ≤ es)%nat → toks p' = rest → 
     match t with Sym c => c ∈ symbols | Append => True | Word w => word_at q eq ∧ get q (eq - q) buf = w end → Q (code t, q, eq) p') →
  wp (gettoken buf) Q p.
Proof.
  intros Hp HQ0 HQ. destruct (skip_ws p Hp) as (Hr & Ht & Hw). unfold gettoken. apply wp_bind. change (wp getS ?K p) with (K p p). cbv beta zeta.
  set (s := skip buf (chr_in whitespace) p) in *. clearbody s. rewrite <- Ht in HQ0, HQ. clear Ht. apply wp_bind, wp_char; [lia|].
  destruct (decide (s = es)) as [->|Hne].
  { rewrite at_end. change (0 =? 0) with true. cbv iota. apply wp_bind, wp_ret, wp_bind. unfold skip. rewrite drop_all. cbn [run]. rewrite Nat.add_0_r. apply HQ0, toks_end. }
  destruct Hw as [?|Hw]; [done|]. assert (s < es)%nat as Hlt by lia. pose proof (at_nonzero s Hlt) as Hnz. rewrite (proj2 (Z.eqb_neq _ 0)) by done.
  assert (toks s = lex (at_ buf s :: drop (S s) buf)) as Htk by (unfold toks; by rewrite (drop_at s Hlt)). unfold lex in Htk. cbn [lex_from] in Htk. rewrite Hw in Htk.
  assert (∀ c s1, (s < s1 ≤ es)%nat → toks s = c :: toks s1 → match c with Sym c => c ∈ symbols | Append => True | Word w => word_at s s1 ∧ get s (s1 - s) buf = w end →
    wp (putS (skip buf (chr_in whitespace) s1);; mret (code c, s, s1)) Q p) as Hfin.
  { intros c s1 Hs1 Hc Hcc. apply wp_bind. destruct (skip_ws s1) as (Hr1 & Ht1 & _); [lia|]. apply (HQ c (toks s1)); [done|lia|done|done]. }
  destruct (is_sym (at_ buf s)) eqn:Hsy.
  - pose proof Hsy as Hin%bool_decide_eq_true. cbn [flush app] in Htk. destruct (Z.eqb_spec (at_ buf s) GT) as [E|Hgt].
    + rewrite E in *. cbn [Z.eqb orb]. destruct (decide (S s = es)) as [Ees|Hes].
      * rewrite Ees, drop_all in Htk. apply wp_bind, wp_bind, wp_char; [lia|]. rewrite Ees, at_end. change (0 =? GT) with false. cbv iota. apply wp_ret, (Hfin (Sym GT) es); [lia| |done]. by rewrite toks_end.
      * rewrite (drop_at (S s)) in Htk by lia. apply wp_bind, wp_bind, wp_char; [lia|]. destruct (Z.eqb_spec (at_ buf (S s)) GT) as [E2|E2]; cbv iota; apply wp_ret.
        -- apply (Hfin Append (S (S s))); [lia|done|done].
        -- apply (Hfin (Sym GT) (S s)); [lia| |done]. rewrite Htk. unfold toks. by rewrite (drop_at (S s)) by lia.
    + assert ((at_ buf s =? BAR) || (at_ buf s =? LPAR) || (at_ buf s =? RPAR) || (at_ buf s =? SEMI) || (at_ buf s =? AMP) || (at_ buf s =? LT) = true) as ->.
      { clear -Hin Hgt. generalize dependent (at_ buf s). intros c Hin Hgt. unfold symbols in Hin. rewrite !elem_of_cons, elem_of_nil in Hin.
        rewrite !orb_true_iff, !Z.eqb_eq. unfold BAR, LPAR, RPAR, SEMI, AMP, LT, GT in *. lia. }
      cbv iota. apply wp_bind, wp_ret, (Hfin (Sym (at_ buf s)) (S s)); [lia|done|done].
  - pose proof Hsy as Hnin%bool_decide_eq_false. assert (∀ c, c ∈ symbols → (at_ buf s =? c) = false) as Hno by (intros c Hc; apply Z.eqb_neq; intros E; apply Hnin; by rewrite E).
    rewrite !Hno by (by vm_compute; repeat constructor). cbn [orb]. rewrite skip_word by lia. rewrite lex_word in Htk.
    rewrite (drop_at s Hlt). cbn [run]. assert (is_word (at_ buf s) = true) as -> by (unfold is_word; by rewrite Hw, Hsy). set (n := run is_word (drop (S s) buf)) in *.
    pose proof (run_le is_word (drop (S s) buf)) as Hle. rewrite length_drop in Hle.
    apply wp_bind, wp_ret, (Hfin (Word (at_ buf s :: take n (drop (S s) buf))) (s + S n)%nat); [lia| |].
    + rewrite Htk. cbn. unfold toks. rewrite drop_drop. do 3 f_equal. lia.
    + split; [|unfold get; rewrite (drop_at s Hlt); by replace (s + S n - s)%nat with (S n) by lia]. split; [lia|]. split.
      * intros i Hi. destruct (decide (i = s)) as [->|His]; [unfold is_word; by rewrite Hw, Hsy|].
        pose proof (run_all is_word (drop (S s) buf) (i - S s)) as Ha. rewrite at_drop in Ha. replace (S s + (i - S s))%nat with i in Ha by lia. apply Ha. fold n. lia.
      * destruct (run_stop is_word (drop (S s) buf)) as [E|[_ E]]; [left; fold n in E; rewrite length_drop in E; lia|right]. fold n in E. rewrite at_drop in E. by replace (s + S n)%nat with (S s + n)%nat by lia.
Qed.
End lex.

Definition is_panic (e : failure) : Prop := ∃ msg, e = Panic msg.

(** ** The parser always ends *)

Section total.
Context (buf : list Z).
Hypothesis Hn : nonul buf.
Abbreviation es := (length buf).

(** The words of a tree lie in the line. *)
Definition span_in (w : span) : Prop := (fst w ≤ snd w ≤ es)%nat.
Fixpoint inside (c : cmd span) : Prop :=
  match c with
  | EXEC argv => Forall span_in argv
  | REDIR c f _ _ => inside c ∧ span_in f
  | PIPE l r | LIST l r => inside l ∧ inside r
  | BACK c => inside c
  end.
Lemma inside_add q eq c : inside c → span_in (q, eq) → inside (add_arg q eq c).
Proof using Type.
  intros Hc Hs. induction c; cbn in *; try done; [|destruct Hc; auto].
  apply Forall_app; auto.
Qed.

(** The parser returns further on in the line with such a tree, or panics. *)
Definition advances (m : M nat (cmd span)) (p : nat) : Prop :=
  wpx m (λ c p', (p ≤ p' ≤ es)%nat ∧ inside c) (λ e _, is_panic e) p.

Lemma advances_le (m : M nat (cmd span)) p p0 : (p0 ≤ p)%nat → advances m p → wpx m (λ c p', (p0 ≤ p' ≤ es)%nat ∧ inside c) (λ e _, is_panic e) p.
Proof. intros Hle H. eapply wpx_mono; [exact H| |done]. intros a p' [Hp Hc]. split; [lia|done]. Qed.

Lemma wpx_peek {B} set p (f : bool → M nat B) Q R :
  (p ≤ es)%nat → set ⊆ symbols →
  (∀ b p', (p ≤ p' ≤ es)%nat → (b = true → toks buf p' ≠ []) → wpx (f b) Q R p') → wpx (peek buf set ≫= f) Q R p.
Proof using Hn.
  intros Hp Hs HQ. apply wpx_bind_wp, wp_peek; [done|done|done|]. intros p' Hp' Ht. apply HQ; [done|]. rewrite Ht. by destruct (toks buf p).
Qed.
Lemma wpx_gettoken {B} p (f : Z * nat * nat → M nat B) Q R :
  (p ≤ es)%nat → (∀ t q eq p', (p ≤ p' ≤ es)%nat → span_in (q, eq) → (toks buf p ≠ [] → (p < p')%nat) → wpx (f (t, q, eq)) Q R p') →
  wpx (gettoken buf ≫= f) Q R p.
Proof using Hn.
  intros Hp HQ. apply wpx_bind_wp, wp_gettoken; [done|done|..].
  - intros Ht. apply HQ; [lia|unfold span_in; cbn; lia|done].
  - intros t rest q eq p' Ht Hr _ _. apply HQ; [lia|unfold span_in; cbn; lia|]. intros _. lia.
Qed.
Lemma wpx_panic_unless {B} b msg p (f : M nat B) Q : (b = true → wpx f Q (λ e _, is_panic e) p) → wpx (panic_unless b msg;; f) Q (λ e _, is_panic e) p.
Proof using Type. intros Hf. destruct b; [by apply Hf|]. by exists msg. Qed.

Lemma syms_sub (l : list Z) : forallb (λ c, bool_decide (c ∈ symbols)) l = true → l ⊆ symbols.
Proof using Type. intros H c Hc. rewrite forallb_forall in H. apply (bool_decide_eq_true_1 (c ∈ symbols)), H. by apply list_elem_of_In. Qed.

Lemma parseredirs_total fuel : ∀ p c, inside c → (p ≤ es)%nat → (es - p < fuel)%nat → advances (parseredirs buf fuel c) p.
Proof using Hn.
  induction fuel as [|fuel IH]; intros p c Hc Hp Hf; [lia|]. cbn [parseredirs]. apply wpx_peek; [done|by apply syms_sub|]. intros b p1 Hp1 Hb.
  destruct b; [|by apply wpx_ret]. specialize (Hb eq_refl). apply wpx_gettoken; [lia|]. intros tok q0 eq0 p2 Hp2 _ Hlt. specialize (Hlt Hb).
  apply wpx_gettoken; [lia|]. intros t q eq p3 Hp3 Hs _. apply wpx_panic_unless. intros _. apply (advances_le _ p3); [lia|].
  apply IH; [|lia|lia]. by repeat case_match.
Qed.

Lemma back_loop_total fuel : ∀ p c, inside c → (p ≤ es)%nat → (es - p < fuel)%nat → advances (back_loop buf fuel c) p.
Proof using Hn.
  induction fuel as [|fuel IH]; intros p c Hc Hp Hf; [lia|]. cbn [back_loop]. apply wpx_peek; [done|by apply syms_sub|]. intros b p1 Hp1 Hb.
  destruct b; [|by apply wpx_ret]. apply wpx_gettoken; [lia|]. intros t q eq p2 Hp2 _ Hlt. specialize (Hlt (Hb eq_refl)). apply (advances_le _ p2); [lia|]. apply IH; [done|lia|lia].
Qed.

Lemma args_loop_total left : ∀ p c, inside c → (p ≤ es)%nat → advances (args_loop buf left c) p.
Proof using Hn.
  induction left as [|left IH]; intros p c Hc Hp; cbn [args_loop]; (apply wpx_peek; [done|by apply syms_sub|]; intros b p1 Hp1 _);
    (destruct b; [by apply wpx_ret|]); (apply wpx_gettoken; [lia|]; intros tok q eq p2 Hp2 Hs _);
    (destruct (tok =? 0); [apply wpx_ret; split; [lia|done]|]); apply wpx_panic_unless; intros _; [by apply wpx_fail; exists "too many args"%string|].
  apply wpx_bind. eapply wpx_mono; [apply (parseredirs_total (S es) p2); [by apply inside_add|lia|lia]| |done].
  intros ret p3 [Hp3 Hret]. apply (advances_le _ p3); [lia|]. apply IH; [done|lia].
Qed.

Lemma parseexec_total pl p : (p ≤ es)%nat → (∀ p', (p < p' ≤ es)%nat → advances pl p') → advances (parseexec buf pl) p.
Proof using Hn.
  intros Hp Hpl. unfold parseexec. apply wpx_peek; [done|by apply syms_sub|]. intros b p1 Hp1 Hb. destruct b.
  - unfold parseblock. apply wpx_peek; [lia|by apply syms_sub|]. intros b p2 Hp2 Hb2. apply wpx_panic_unless. intros ->.
    apply wpx_gettoken; [lia|]. intros t q eq p3 Hp3 _ Hlt. specialize (Hlt (Hb2 eq_refl)). apply wpx_bind. eapply wpx_mono; [apply (Hpl p3); lia| |done]. intros c p4 [Hp4 Hc].
    apply wpx_peek; [lia|by apply syms_sub|]. intros b p5 Hp5 _. apply wpx_panic_unless. intros _. apply wpx_gettoken; [lia|]. intros t2 q2 eq2 p6 Hp6 _ _.
    apply (advances_le _ p6); [lia|]. apply parseredirs_total; [done|lia|lia].
  - apply wpx_bind. eapply wpx_mono; [apply (parseredirs_total (S es) p1); [by constructor|lia|lia]| |done]. intros ret p2 [Hp2 Hret].
    apply (advances_le _ p2); [lia|]. apply args_loop_total; [done|lia].
Qed.

Lemma parsepipe_total pl fuel : ∀ p, (p ≤ es)%nat → (es - p < fuel)%nat → (∀ p', (p < p' ≤ es)%nat → advances pl p') → advances (parsepipe buf pl fuel) p.
Proof using Hn.
  induction fuel as [|fuel IH]; intros p Hp Hf Hpl; [lia|]. cbn [parsepipe]. apply wpx_bind. eapply wpx_mono; [apply (parseexec_total pl p); done| |done].
  intros c p1 [Hp1 Hc]. apply wpx_peek; [lia|by apply syms_sub|]. intros b p2 Hp2 Hb. destruct b; [|apply wpx_ret; split; [lia|done]].
  apply wpx_gettoken; [lia|]. intros t q eq p3 Hp3 _ Hlt. specialize (Hlt (Hb eq_refl)). apply wpx_bind. eapply wpx_mono; [apply (IH p3); [lia|lia|]| |done].
  - intros p' Hp'. apply Hpl. lia.
  - intros r2 p4 [Hp4 Hr]. apply wpx_ret. split; [lia|done].
Qed.

Lemma parseline_total fuel : ∀ p, (p ≤ es)%nat → (es - p < fuel)%nat → advances (parseline buf fuel) p.
Proof using Hn.
  induction fuel as [|fuel IH]; intros p Hp Hf; [lia|]. cbn [parseline]. apply wpx_bind.
  eapply wpx_mono; [apply (parsepipe_total (parseline buf fuel) (S es) p); [done|lia|]| |done]; [intros p' Hp'; apply IH; lia|].
  intros c p1 [Hp1 Hc]. apply wpx_bind. eapply wpx_mono; [apply (back_loop_total (S es) p1); [done|lia|lia]| |done]. intros c2 p2 [Hp2 Hc2].
  apply wpx_peek; [lia|by apply syms_sub|]. intros b p3 Hp3 Hb. destruct b; [|apply wpx_ret; split; [lia|done]].
  apply wpx_gettoken; [lia|]. intros t q eq p4 Hp4 _ Hlt. specialize (Hlt (Hb eq_refl)). apply wpx_bind. eapply wpx_mono; [apply (IH p4); lia| |done].
  intros r2 p5 [Hp5 Hr]. apply wpx_ret. split; [lia|done].
Qed.
End total.

(** C29. For every line, parsecmd returns a tree or reports a syntax error: it
    does not loop, and it reads no character beyond the terminating 0.  With a
    tree it has read the whole line, and every word of the tree begins and ends
    in the line, so that the zeros of nulterminate are stored in it too. *)
Theorem parsecmd_terminates buf :
  nonul buf → wpx (parsecmd buf) (λ '(c, _) p, p = length buf ∧ inside buf c) (λ e _, is_panic e) 0%nat.
Proof.
  intros Hn. unfold parsecmd. apply wpx_bind. eapply wpx_mono; [apply (parseline_total buf Hn (S (length buf)) 0); lia| |done]. intros c p [Hp Hc].
  apply wpx_peek; [done|lia|by apply syms_sub|]. intros b p1 Hp1 _. apply wpx_bind. change (wpx getS ?K ?R p1) with (K p1 p1). cbv beta.
  apply wpx_panic_unless. intros E%Nat.eqb_eq. by apply wpx_ret.
Qed.
