(* ===== verification/ShPrint.v ===== *)
(** * Every command can be written and read back (xv6: sh.c) *)

From S2P Require Import Prelude Bytes Xstring Sh ShParse.

(** ** Writing a command down *)

(** The grammar's levels: a line (0), a pipeline with [&] (1), a pipeline (2),
    a command with its redirections (3).  A command of a lower level stands in
    parentheses. *)
Definition rd_toks (f : list Z) (fd : Z) : list tok := [Sym (if fd =? 0 then LT else GT); Word f].
Definition level {W} (c : cmd W) : nat :=
  match c with EXEC _ | REDIR _ _ _ _ => 3 | PIPE _ _ => 2 | BACK _ => 1 | LIST _ _ => 0 end.
Definition paren (lvl n : nat) (l : list tok) : list tok := if (lvl <=? n)%nat then l else Sym LPAR :: l ++ [Sym RPAR].
Fixpoint pr (lvl : nat) (c : cmd (list Z)) : list tok :=
  paren lvl (level c)
    match c with
    | EXEC argv => map Word argv
    | REDIR c f _ fd => pr 3 c ++ rd_toks f fd
    | PIPE l r => pr 3 l ++ Sym BAR :: pr 2 r
    | BACK c => pr 1 c ++ [Sym AMP]
    | LIST l r => pr 1 l ++ Sym SEMI :: pr 0 r
    end.

(** What the parser can build: less than MAXARGS words, and the modes of the
    two kinds of redirection. *)
Definition rd_ok (mode fd : Z) : Prop := mode = O_RDONLY ∧ fd = 0 ∨ mode = Z.lor O_WRONLY O_CREATE ∧ fd = 1.
Fixpoint cmd_ok (c : cmd (list Z)) : Prop :=
  match c with
  | EXEC argv => (length argv < MAXARGS)%nat
  | REDIR c _ mode fd => cmd_ok c ∧ rd_ok mode fd
  | PIPE l r | LIST l r => cmd_ok l ∧ cmd_ok r
  | BACK c => cmd_ok c
  end.

Fixpoint cmap {A B} (f : A → B) (c : cmd A) : cmd B :=
  match c with
  | EXEC argv => EXEC (map f argv)
  | REDIR c w mode fd => REDIR (cmap f c) (f w) mode fd
  | PIPE l r => PIPE (cmap f l) (cmap f r)
  | LIST l r => LIST (cmap f l) (cmap f r)
  | BACK c => BACK (cmap f c)
  end.
Fixpoint words {A} (c : cmd A) : list A :=
  match c with
  | EXEC argv => argv
  | REDIR c w _ _ => words c ++ [w]
  | PIPE l r | LIST l r => words l ++ words r
  | BACK c => words c
  end.

(** Redirections around a command, the first innermost. *)
Definition rd : Type := list Z * Z * Z.
Definition wrap (rs : list rd) (c : cmd (list Z)) : cmd (list Z) := foldl (λ c '(f, mode, fd), REDIR c f mode fd) c rs.
Definition rds (rs : list rd) : list tok := concat (map (λ '(f, _, fd), rd_toks f fd) rs).
Definition rds_ok (rs : list rd) : Prop := Forall (λ '(_, mode, fd), rd_ok mode fd) rs.

(** What may come next. *)
Definition follow (set : list Z) (rest : list tok) : Prop :=
  match rest with [] => True | Sym c :: _ => c ∈ set | _ => False end.

Definition subs (set : list Z) : bool := forallb (λ c, bool_decide (c ∈ symbols)) set.
Definition apart (l l' : list Z) : bool := forallb (λ c, negb (bool_decide (c ∈ l'))) l.
Lemma apart_spec l l' c : apart l l' = true → c ∈ l → c ∉ l'.
Proof. intros H Hc Hc'. unfold apart in H. rewrite forallb_forall in H. specialize (H c). rewrite bool_decide_eq_true_2 in H by done. apply list_elem_of_In in Hc. by specialize (H Hc). Qed.
Lemma follow_sub set set' rest : forallb (λ c, bool_decide (c ∈ set')) set = true → follow set rest → follow set' rest.
Proof.
  intros H Hf. destruct rest as [|[c| |w] rest]; try done. cbn in *. rewrite forallb_forall in H. apply (bool_decide_eq_true_1 (c ∈ set')), H. by apply list_elem_of_In.
Qed.

Section print.
Context (buf : list Z).
Hypothesis Hn : nonul buf.
Abbreviation es := (length buf).
Abbreviation T := (toks buf).

Definition slice (w : span) : list Z := get (fst w) (snd w - fst w) buf.
#[local] Arguments slice : simpl never.
(** The tree [c'] over positions stands for [c]. *)
Definition den (c' : cmd span) (c : cmd (list Z)) : Prop :=
  cmap slice c' = c ∧ Forall (λ w, word_at buf (fst w) (snd w)) (words c').

(** The result of a parser at [p] when [c] is followed by [rest]. *)
Definition yields (m : M nat (cmd span)) (p : nat) (c : cmd (list Z)) (rest : list tok) : Prop :=
  wp m (λ c' p', (p ≤ p' ≤ es)%nat ∧ T p' = rest ∧ den c' c) p.

(** ** peek and gettoken on a known token *)

Lemma peek_head {B} set p t rest (f : bool → M nat B) Q :
  (p ≤ es)%nat → subs set = true → T p = t :: rest →
  (∀ p', (p ≤ p' ≤ es)%nat → T p' = t :: rest → wp (f (match first t with Some c => bool_decide (c ∈ set) | None => false end)) Q p') →
  wp (peek buf set ≫= f) Q p.
Proof using Hn. intros Hp Hs Ht HQ. apply wp_bind, wp_peek; [done|done|by apply syms_sub|]. intros p' Hp' Ht'. rewrite Ht in *. by apply HQ. Qed.
Lemma peek_nil {B} set p (f : bool → M nat B) Q :
  (p ≤ es)%nat → subs set = true → T p = [] → (∀ p', (p ≤ p' ≤ es)%nat → T p' = [] → wp (f false) Q p') → wp (peek buf set ≫= f) Q p.
Proof using Hn. intros Hp Hs Ht HQ. apply wp_bind, wp_peek; [done|done|by apply syms_sub|]. intros p' Hp' Ht'. rewrite Ht in *. by apply HQ. Qed.
(** The next token is not one of [set]. *)
Lemma peek_other {B} set set' p rest (f : bool → M nat B) Q :
  (p ≤ es)%nat → subs set = true → T p = rest → follow set' rest → apart set' set = true →
  (∀ p', (p ≤ p' ≤ es)%nat → T p' = rest → wp (f false) Q p') → wp (peek buf set ≫= f) Q p.
Proof using Hn.
  intros Hp Hs Ht Hfo Hd HQ. destruct rest as [|t rest]; [by apply peek_nil|]. apply (peek_head _ p t rest); [done..|]. intros p' Hp' Ht'.
  destruct t as [c| |w]; try done. cbn [first]. rewrite bool_decide_eq_false_2 by (by apply (apart_spec set')). by apply HQ.
Qed.
Lemma get_head {B} p t rest (f : Z * nat * nat → M nat B) Q :
  (p ≤ es)%nat → T p = t :: rest →
  (∀ q eq p', (p < p' ≤ es)%nat → T p' = rest → match t with Word w => word_at buf q eq ∧ slice (q, eq) = w | _ => True end → wp (f (code t, q, eq)) Q p') →
  wp (gettoken buf ≫= f) Q p.
Proof using Hn.
  intros Hp Ht HQ. apply wp_bind, wp_gettoken; [done|done|congruence|]. intros t' rest' q eq p' Ht' Hr Hrest Hw. rewrite Ht in Ht'. injection Ht' as <- <-.
  apply HQ; [lia|done|]. by destruct t.
Qed.

(** ** Redirections *)

Lemma den_redir c' c q eq w mode fd :
  den c' c → word_at buf q eq → slice (q, eq) = w → den (REDIR c' (q, eq) mode fd) (REDIR c w mode fd).
Proof using Type. intros [H1 H2] Hw Hs. split; [cbn; by rewrite H1, Hs|]. apply Forall_app. split; [done|]. by constructor. Qed.

Lemma wp_redirs rs : ∀ fuel c' c p rest (Q : cmd span → nat → Prop),
  (p ≤ es)%nat → (es - p < fuel)%nat → rds_ok rs → T p = rds rs ++ rest →
  match rest with Sym c :: _ => c ≠ LT ∧ c ≠ GT | Append :: _ => False | _ => True end → den c' c →
  (∀ c' p', (p ≤ p' ≤ es)%nat → T p' = rest → den c' (wrap rs c) → Q c' p') → wp (parseredirs buf fuel c') Q p.
Proof using Hn.
  induction rs as [|[[f mode] fd] rs IH]; intros [|fuel] c' c p rest Q Hp Hf Hok Ht Hr Hd HQ; try lia; cbn [parseredirs].
  - change (rds [] ++ rest) with rest in Ht. destruct rest as [|t rest].
    + apply peek_nil; [done|done|done|]. intros p' Hp' Ht'. by apply wp_ret, HQ.
    + apply (peek_head _ p t rest); [done..|]. intros p' Hp' Ht'.
      assert (match first t with Some c => bool_decide (c ∈ [LT; GT]) | None => false end = false) as ->.
      { destruct t as [x| |w]; [|done|done]. cbn [first]. apply bool_decide_eq_false_2. rewrite !elem_of_cons, elem_of_nil. naive_solver. }
      by apply wp_ret, HQ.
  - apply Forall_cons in Hok as [Hmf Hok]. change (rds ((f, mode, fd) :: rs) ++ rest) with ((rd_toks f fd ++ rds rs) ++ rest) in Ht. rewrite <- app_assoc in Ht. cbn [rd_toks app] in Ht.
    eapply peek_head; [exact Hp|done|exact Ht|]. intros p1 Hp1 Ht1.
    assert (match first (Sym (if fd =? 0 then LT else GT)) with Some c => bool_decide (c ∈ [LT; GT]) | None => false end = true) as -> by (destruct (fd =? 0); done).
    eapply get_head; [|exact Ht1|]; [lia|]. intros q0 eq0 p2 Hp2 Ht2 _. eapply get_head; [|exact Ht2|]; [lia|]. intros q eq p3 Hp3 Ht3 [Hw Hs].
    apply wp_bind, wp_panic_unless; [done|].
    apply (IH fuel _ (REDIR c f mode fd) p3 rest Q); [lia|lia|done|done|done| |intros c2 p4 Hp4 Ht4 Hd4; apply HQ; [lia|done|done]].
    destruct Hmf as [[-> ->]|[-> ->]]; by apply den_redir.
Qed.

(** ** Arguments *)

Definition ends : list Z := [BAR; RPAR; AMP; SEMI].

Lemma ends_no_redir rest : follow ends rest → match rest with Sym c :: _ => c ≠ LT ∧ c ≠ GT | Append :: _ => False | _ => True end.
Proof using Type.
  intros Hfo. destruct rest as [|[c| |]]; try done. cbn in Hfo. unfold ends in Hfo. rewrite !elem_of_cons, elem_of_nil in Hfo. unfold LT, GT, BAR, RPAR, AMP, SEMI in *. lia.
Qed.

Lemma wp_args_end left ret p rest (Q : cmd span → nat → Prop) :
  (p ≤ es)%nat → T p = rest → follow ends rest → (∀ p', (p ≤ p' ≤ es)%nat → T p' = rest → Q ret p') → wp (args_loop buf left ret) Q p.
Proof using Hn.
  intros Hp Ht Hfo HQ. destruct rest as [|t rest].
  - destruct left; cbn [args_loop]; (apply peek_nil; [done|done|done|]; intros p1 Hp1 Ht1); (apply wp_bind, wp_gettoken; [done|lia| |congruence]; intros _);
      change (0 =? 0) with true; cbv iota; apply wp_ret, HQ; [lia|apply toks_end|lia|apply toks_end].
  - destruct t as [c| |w]; try done. destruct left; cbn [args_loop]; (apply (peek_head _ p (Sym c) rest); [done..|]; intros p1 Hp1 Ht1; cbn [first];
      rewrite bool_decide_eq_true_2 by done; apply wp_ret, HQ; [lia|done]).
Qed.

Lemma wp_args argv : ∀ left pre c' rs p rest (Q : cmd span → nat → Prop),
  (p ≤ es)%nat → (length argv ≤ left)%nat → rds_ok rs → T p = map Word argv ++ rds rs ++ rest → follow ends rest → (argv = [] → rs = []) →
  den c' (EXEC pre) → (∀ c' p', (p ≤ p' ≤ es)%nat → T p' = rest → den c' (wrap rs (EXEC (pre ++ argv))) → Q c' p') →
  wp (args_loop buf left c') Q p.
Proof using Hn.
  induction argv as [|w argv IH]; intros left pre c' rs p rest Q Hp Hle Hok Ht Hfo Hrs Hd HQ.
  - rewrite Hrs in * by done. rewrite app_nil_r in HQ. apply (wp_args_end _ _ p rest); [done|done|done|]. intros p' Hp' Ht'. by apply HQ.
  - cbn [map app] in Ht. destruct left as [|left]; [cbn in Hle; lia|]. cbn [args_loop]. eapply peek_head; [exact Hp|done|exact Ht|]. intros p1 Hp1 Ht1. cbn [first].
    eapply get_head; [|exact Ht1|]; [lia|]. intros q eq p2 Hp2 Ht2 [Hw Hs]. cbn [code]. change (LETTER =? 0) with false. cbv iota. apply wp_bind, wp_panic_unless; [done|].
    assert (den (add_arg q eq c') (EXEC (pre ++ [w]))) as Hd'.
    { destruct Hd as [H1 H2]. destruct c'; try done. cbn in H1, H2. injection H1 as H1. split; cbn; [by rewrite map_app, H1; cbn; rewrite Hs|]. apply Forall_app. split; [done|by constructor]. }
    apply wp_bind. destruct argv as [|w2 argv].
    + apply (wp_redirs rs (S es) _ (EXEC (pre ++ [w])) p2 rest); [lia|lia|exact Hok|exact Ht2|by apply ends_no_redir|done|].
      intros c2 p3 Hp3 Ht3 Hd3. apply (wp_args_end _ _ p3 rest); [lia|done|done|]. intros p4 Hp4 Ht4. apply HQ; [lia|done|done].
    + apply (wp_redirs [] (S es) _ (EXEC (pre ++ [w])) p2 (map Word (w2 :: argv) ++ rds rs ++ rest)); [lia|lia|constructor|exact Ht2|done|done|]. intros c2 p3 Hp3 Ht3 Hd3.
      apply (IH left (pre ++ [w]) c2 rs p3 rest); [lia|cbn in *; lia|done|done|done|done|done|]. intros c4 p4 Hp4 Ht4 Hd4. apply HQ; [lia|done|]. by rewrite <- app_assoc in Hd4.
Qed.

(** ** The levels of the grammar *)

Definition ends2 : list Z := [RPAR; AMP; SEMI].

Definition L3 (c : cmd (list Z)) : Prop := ∀ n rs p rest (Q : cmd span → nat → Prop),
  (p ≤ es)%nat → (es - p ≤ n)%nat → rds_ok rs → T p = pr 3 c ++ rds rs ++ rest → follow ends rest →
  (∀ c' p', (p ≤ p' ≤ es)%nat → T p' = rest → den c' (wrap rs c) → Q c' p') → wp (parseexec buf (parseline buf n)) Q p.
Definition L2 (c : cmd (list Z)) : Prop := ∀ n m p rest (Q : cmd span → nat → Prop),
  (p ≤ es)%nat → (es - p ≤ n)%nat → (es - p < m)%nat → T p = pr 2 c ++ rest → follow ends2 rest →
  (∀ c' p', (p ≤ p' ≤ es)%nat → T p' = rest → den c' c → Q c' p') → wp (parsepipe buf (parseline buf n) m) Q p.
Definition L1 (c : cmd (list Z)) : Prop := ∀ n p rest (Q : cmd span → nat → Prop),
  (p ≤ es)%nat → (es - p ≤ n)%nat → T p = pr 1 c ++ rest → follow ends2 rest →
  (∀ c' p' f, (p ≤ p' ≤ es)%nat → (es - p' < f)%nat → T p' = rest → den c' c → wp (back_loop buf f c') Q p') →
  wp (parsepipe buf (parseline buf n) (S es)) (λ c' p', wp (back_loop buf (S es) c') Q p') p.
Definition L0 (c : cmd (list Z)) : Prop := ∀ n p rest (Q : cmd span → nat → Prop),
  (p ≤ es)%nat → (es - p < n)%nat → T p = pr 0 c ++ rest → follow [RPAR] rest →
  (∀ c' p', (p ≤ p' ≤ es)%nat → T p' = rest → den c' c → Q c' p') → wp (parseline buf n) Q p.

Lemma L2_of_L3 c : pr 2 c = pr 3 c → L3 c → L2 c.
Proof using Hn.
  intros E H3 n [|m] p rest Q Hp Hl Hm Ht Hfo HQ; [lia|]. cbn [parsepipe]. rewrite E in Ht. apply wp_bind, (H3 n [] p rest); [done|done|by apply Forall_nil|done|eapply follow_sub; [|exact Hfo]; done|].
  intros c' p1 Hp1 Ht1 Hd. eapply peek_other; [|done|exact Ht1|exact Hfo|done|]; [lia|]. intros p2 Hp2 Ht2. apply wp_ret, HQ; [lia|done|done].
Qed.
Lemma L1_of_L2 c : pr 1 c = pr 2 c → L2 c → L1 c.
Proof using Type.
  intros E H2 n p rest Q Hp Hl Ht Hfo HQ. rewrite E in Ht. apply (H2 n (S es) p rest); [done|done|lia|done|done|]. intros c' p1 Hp1 Ht1 Hd. apply HQ; [done|lia|done|done].
Qed.
(** The end of a line: no more [&], no [;]. *)
Lemma L0_of_L1 c : pr 0 c = pr 1 c → L1 c → L0 c.
Proof using Hn.
  intros E H1 [|n] p rest Q Hp Hl Ht Hfo HQ; [lia|]. cbn [parseline]. rewrite E in Ht. apply wp_bind. eapply wp_mono.
  - apply (H1 n p rest (λ c p', wp (b ← peek buf [SEMI]; if (b : bool) then gettoken buf;; r ← parseline buf n; mret (listcmd c r) else mret c) Q p')); [done|lia|done|eapply follow_sub; [|exact Hfo]; done|].
    intros c' p1 [|f] Hp1 Hf Ht1 Hd; [lia|]. cbn [back_loop]. eapply peek_other; [|done|exact Ht1|exact Hfo|done|]; [lia|]. intros p2 Hp2 Ht2. apply wp_ret.
    eapply peek_other; [|done|exact Ht2|exact Hfo|done|]; [lia|]. intros p3 Hp3 Ht3. apply wp_ret, HQ; [lia|done|done].
  - intros c' p' Hw. by apply wp_bind.
Qed.
Lemma L3_of_L0 c : pr 3 c = Sym LPAR :: pr 0 c ++ [Sym RPAR] → L0 c → L3 c.
Proof using Hn.
  intros E H0 n rs p rest Q Hp Hl Hok Ht Hfo HQ. rewrite E in Ht. cbn [app] in Ht. unfold parseexec. eapply peek_head; [exact Hp|done|exact Ht|]. intros p1 Hp1 Ht1.
  change (match first (Sym LPAR) with Some c => bool_decide (c ∈ [LPAR]) | None => false end) with true. cbv iota. unfold parseblock.
  eapply peek_head; [|done|exact Ht1|]; [lia|]. intros p2 Hp2 Ht2. change (match first (Sym LPAR) with Some c => bool_decide (c ∈ [LPAR]) | None => false end) with true.
  apply wp_bind, wp_panic_unless; [done|]. eapply get_head; [|exact Ht2|]; [lia|]. intros q eq p3 Hp3 Ht3 _. rewrite <- app_assoc in Ht3. cbn [app] in Ht3.
  apply wp_bind, (H0 n p3 (Sym RPAR :: rds rs ++ rest)); [lia|lia|done|by left|]. intros c' p4 Hp4 Ht4 Hd. eapply peek_head; [|done|exact Ht4|]; [lia|]. intros p5 Hp5 Ht5.
  apply wp_bind, wp_panic_unless; [done|]. eapply get_head; [|exact Ht5|]; [lia|]. intros q2 eq2 p6 Hp6 Ht6 _.
  apply (wp_redirs rs (S es) c' c p6 rest); [lia|lia|done|done| |done|intros c2 p7 Hp7 Ht7 Hd7; apply HQ; [lia|done|done]]. by apply ends_no_redir.
Qed.

Lemma L3_EXEC argv : (length argv < MAXARGS)%nat → L3 (EXEC argv).
Proof using Hn.
  intros Hlen n rs p rest Q Hp Hl Hok Ht Hfo HQ. cbn in Ht. unfold parseexec.
  assert (match T p with Sym c :: _ => c ≠ LPAR | _ => True end) as Hnl.
  { rewrite Ht. destruct argv; [|done]. destruct rs as [|[[f mode] fd] rs]; [|cbn; by destruct (fd =? 0)].
    destruct rest as [|[c| |w] rest]; try done. cbn in Hfo |- *. intros ->. by apply (apart_spec ends [LPAR] LPAR) in Hfo; [destruct Hfo; left|]. }
  apply wp_bind, wp_peek; [done|done|by apply syms_sub|]. intros p1 Hp1 Ht1.
  assert (match T p with t :: _ => match first t with Some c => bool_decide (c ∈ [LPAR]) | None => false end | [] => false end = false) as ->.
  { destruct (T p) as [|[c| |w] l]; try done. cbn. apply bool_decide_eq_false_2. by rewrite list_elem_of_singleton. }
  rewrite Ht in Ht1. assert (den execcmd (EXEC [])) as Hd0 by (by split). apply wp_bind. destruct argv as [|w argv].
  - apply (wp_redirs rs (S es) _ (EXEC []) p1 rest); [lia|lia|done|done|by apply ends_no_redir|done|]. intros c' p2 Hp2 Ht2 Hd2.
    apply (wp_args_end _ _ p2 rest); [lia|done|done|]. intros p3 Hp3 Ht3. apply HQ; [lia|done|done].
  - apply (wp_redirs [] (S es) _ (EXEC []) p1 (map Word (w :: argv) ++ rds rs ++ rest)); [lia|lia|by apply Forall_nil|done|done|done|]. intros c' p2 Hp2 Ht2 Hd2.
    apply (wp_args (w :: argv) _ [] c' rs p2 rest); [lia|unfold MAXARGS in *; lia|done|done|done|done|done|]. intros c3 p3 Hp3 Ht3 Hd3. apply HQ; [lia|done|done].
Qed.
Lemma L3_REDIR c f mode fd : rd_ok mode fd → L3 c → L3 (REDIR c f mode fd).
Proof using Type.
  intros Hm H3 n rs p rest Q Hp Hl Hok Ht Hfo HQ. apply (H3 n ((f, mode, fd) :: rs) p rest); [done|done|by constructor| |done|done].
  rewrite Ht. cbn. by rewrite <- !app_assoc.
Qed.
Lemma L2_PIPE l r : L3 l → L2 r → L2 (PIPE l r).
Proof using Hn.
  intros Hl3 Hr2 n [|m] p rest Q Hp Hl Hm Ht Hfo HQ; [lia|]. cbn [parsepipe]. cbn in Ht. rewrite <- app_assoc in Ht. cbn [app] in Ht.
  apply wp_bind, (Hl3 n [] p (Sym BAR :: pr 2 r ++ rest)); [done|done|by apply Forall_nil|done|by left|]. intros c' p1 Hp1 Ht1 Hd1. eapply peek_head; [|done|exact Ht1|]; [lia|].
  intros p2 Hp2 Ht2. change (match first (Sym BAR) with Some c => bool_decide (c ∈ [BAR]) | None => false end) with true. cbv iota.
  eapply get_head; [|exact Ht2|]; [lia|]. intros q eq p3 Hp3 Ht3 _. apply wp_bind, (Hr2 n m p3 rest); [lia|lia|lia|done|done|]. intros c2 p4 Hp4 Ht4 Hd4.
  change (wrap [] l) with l in Hd1. apply wp_ret, HQ; [lia|done|]. destruct Hd1 as [<- H1], Hd4 as [<- H2]. split; [done|]. by apply Forall_app.
Qed.
Lemma L1_BACK c : L1 c → L1 (BACK c).
Proof using Hn.
  intros H1 n p rest Q Hp Hl Ht Hfo HQ. cbn in Ht. rewrite <- app_assoc in Ht. cbn [app] in Ht. apply (H1 n p (Sym AMP :: rest)); [done|done|done|right; by left|].
  intros c' p1 [|f] Hp1 Hf Ht1 Hd; [lia|]. cbn [back_loop]. eapply peek_head; [|done|exact Ht1|]; [lia|]. intros p2 Hp2 Ht2.
  change (match first (Sym AMP) with Some c => bool_decide (c ∈ [AMP]) | None => false end) with true. cbv iota.
  eapply get_head; [|exact Ht2|]; [lia|]. intros q eq p3 Hp3 Ht3 _. apply HQ; [lia|lia|done|]. destruct Hd as [<- ?]. by split.
Qed.
Lemma L0_LIST l r : L1 l → L0 r → L0 (LIST l r).
Proof using Hn.
  intros Hl1 Hr0 [|n] p rest Q Hp Hl Ht Hfo HQ; [lia|]. cbn [parseline]. cbn in Ht. rewrite <- app_assoc in Ht. cbn [app] in Ht. apply wp_bind. eapply wp_mono.
  - apply (Hl1 n p (Sym SEMI :: pr 0 r ++ rest) (λ c p', wp (b ← peek buf [SEMI]; if (b : bool) then gettoken buf;; r ← parseline buf n; mret (listcmd c r) else mret c) Q p')); [done|lia|done|by do 2 right; left|].
    intros c' p1 [|f] Hp1 Hf Ht1 Hd; [lia|]. cbn [back_loop]. eapply peek_head; [|done|exact Ht1|]; [lia|]. intros p2 Hp2 Ht2.
    change (match first (Sym SEMI) with Some c => bool_decide (c ∈ [AMP]) | None => false end) with false. cbv iota. apply wp_ret.
    eapply peek_head; [|done|exact Ht2|]; [lia|]. intros p3 Hp3 Ht3. change (match first (Sym SEMI) with Some c => bool_decide (c ∈ [SEMI]) | None => false end) with true. cbv iota.
    eapply get_head; [|exact Ht3|]; [lia|]. intros q eq p4 Hp4 Ht4 _. apply wp_bind, (Hr0 n p4 rest); [lia|lia|done|done|]. intros c2 p5 Hp5 Ht5 Hd5.
    apply wp_ret, HQ; [lia|done|]. destruct Hd as [<- H1], Hd5 as [<- H2]. split; [done|]. by apply Forall_app.
  - intros c' p' Hw. by apply wp_bind.
Qed.

Lemma parse_levels c : cmd_ok c → L0 c ∧ L1 c ∧ L2 c ∧ L3 c.
Proof using Hn.
  induction c as [argv|c IH f mode fd|l IHl r IHr|l IHl r IHr|c IH]; intros Hok.
  - assert (L3 (EXEC argv)) as H3 by (by apply L3_EXEC). assert (L2 (EXEC argv)) as H2 by (by apply L2_of_L3). assert (L1 (EXEC argv)) as H1 by (by apply L1_of_L2).
    split_and!; try done. by apply L0_of_L1.
  - destruct Hok as [Hc Hm]. assert (L3 (REDIR c f mode fd)) as H3 by (apply L3_REDIR; [done|by apply IH]). assert (L2 (REDIR c f mode fd)) as H2 by (by apply L2_of_L3).
    assert (L1 (REDIR c f mode fd)) as H1 by (by apply L1_of_L2). split_and!; try done. by apply L0_of_L1.
  - destruct Hok as [Hl Hr]. assert (L2 (PIPE l r)) as H2 by (apply L2_PIPE; [by apply IHl|by apply IHr]). assert (L1 (PIPE l r)) as H1 by (by apply L1_of_L2).
    assert (L0 (PIPE l r)) as H0 by (by apply L0_of_L1). split_and!; try done. by apply L3_of_L0.
  - destruct Hok as [Hl Hr]. assert (L0 (LIST l r)) as H0 by (apply L0_LIST; [by apply IHl|by apply IHr]). assert (L3 (LIST l r)) as H3 by (by apply L3_of_L0).
    assert (L2 (LIST l r)) as H2 by (by apply L2_of_L3). split_and!; try done. by apply L1_of_L2.
  - assert (L1 (BACK c)) as H1 by (apply L1_BACK; by apply IH). assert (L0 (BACK c)) as H0 by (by apply L0_of_L1). assert (L3 (BACK c)) as H3 by (by apply L3_of_L0).
    split_and!; try done. by apply L2_of_L3.
Qed.
End print.

(** ** The zeros after the words *)

(** The C string at a pointer. *)
Definition cstring (b : list Z) (q : nat) : list Z := match Bytes.strlen (drop q b) with Some n => get q n b | None => [] end.

Definition zero_at (ps : list nat) (b : list Z) : list Z := foldl (λ b p, <[p := 0]> b) b ps.

Lemma nulterminate_words c : ∀ b, nulterminate c b = zero_at (map snd (words c)) b.
Proof.
  unfold zero_at. induction c as [argv|c IH f mode fd|l IHl r IHr|l IHl r IHr|c IH]; intros b; cbn [nulterminate words].
  - revert b. induction argv as [|w argv IH]; intros b; [done|]. apply IH.
  - by rewrite map_app, foldl_app, <- IH.
  - by rewrite map_app, foldl_app, <- IHl, IHr.
  - by rewrite map_app, foldl_app, <- IHl, IHr.
  - apply IH.
Qed.
Lemma length_zero_at ps : ∀ b, length (zero_at ps b) = length b.
Proof. induction ps as [|p ps IH]; intros b; [done|]. unfold zero_at in *. cbn. by rewrite IH, length_insert. Qed.
Lemma lookup_zero_at ps : ∀ b i, (i < length b)%nat → zero_at ps b !! i = if decide (i ∈ ps) then Some 0 else b !! i.
Proof.
  induction ps as [|p ps IH]; intros b i Hi; [done|]. change (zero_at (p :: ps) b) with (zero_at ps (<[p := 0]> b)). rewrite IH by (by rewrite length_insert).
  destruct (decide (i ∈ ps)) as [H|H]; [by rewrite decide_True by (by right)|]. destruct (decide (i = p)) as [->|Hne].
  - rewrite decide_True by (by left). by apply list_lookup_insert_eq.
  - rewrite list_lookup_insert_ne by done. rewrite decide_False; [done|]. rewrite elem_of_cons. tauto.
Qed.

Lemma cmap_ext {A B} (f g : A → B) c : Forall (λ w, f w = g w) (words c) → cmap f c = cmap g c.
Proof.
  induction c as [argv|c IH w mode fd|l IHl r IHr|l IHl r IHr|c IH]; cbn [cmap words]; rewrite ?Forall_app.
  - intros H. f_equal. induction H as [|w l Hw _ IH]; [done|]. cbn. by rewrite Hw, IH.
  - intros [Hc Hw%Forall_cons_1]. f_equal; [by apply IH|apply Hw].
  - intros [Hl Hr]. f_equal; auto.
  - intros [Hl Hr]. f_equal; auto.
  - intros H. f_equal. auto.
Qed.

Lemma word_cstring buf ps q eq :
  nonul buf → word_at buf q eq → Forall (λ p, p = length buf ∨ is_word (at_ buf p) = false) ps → eq ∈ ps →
  cstring (zero_at ps (buf ++ [0])) q = get q (eq - q) buf.
Proof.
  intros Hn (Hr & Hw & He) Hps Hin. set (b := zero_at ps (buf ++ [0])). rewrite Forall_forall in Hps.
  assert (length b = S (length buf)) as Hlb by (unfold b; rewrite length_zero_at, length_app; cbn; lia).
  assert (∀ i, (q ≤ i < eq)%nat → b !! i = buf !! i) as Hsame.
  { intros i Hi. unfold b. rewrite lookup_zero_at by (rewrite length_app; cbn; lia). rewrite decide_False; [by rewrite lookup_app_l by lia|].
    intros Hip. destruct (Hps i Hip) as [->|Hf]; [lia|]. by rewrite (Hw i Hi) in Hf. }
  assert (b !! eq = Some 0) as Hz by (unfold b; rewrite lookup_zero_at by (rewrite length_app; cbn; lia); by rewrite decide_True).
  assert (get q (eq - q) b = get q (eq - q) buf) as Hg.
  { apply list_eq. intros i. rewrite !lookup_get. case_decide; [|done]. apply Hsame. lia. }
  assert (drop q b = get q (eq - q) buf ++ 0 :: drop (S eq) b) as Hd.
  { rewrite <- Hg, <- (drop_S b 0 eq Hz). unfold get. replace (drop eq b) with (drop (eq - q) (drop q b)) by (rewrite drop_drop; f_equal; lia). by rewrite take_drop. }
  unfold cstring. rewrite Hd, strlen_app by (apply Forall_get, Hn). rewrite length_get by lia. done.
Qed.

Lemma wp_parse_print buf c :
  nonul buf → cmd_ok c → lex buf = pr 0 c →
  wp (parsecmd buf) (λ '(c', b) _, cmap (λ w, cstring b (fst w)) c' = c) 0%nat.
Proof.
  intros Hn Hok Hlex. destruct (parse_levels buf Hn c Hok) as (H0 & _). unfold parsecmd.
  apply wp_bind, (H0 (S (length buf)) 0%nat []); [lia|lia|rewrite app_nil_r; exact Hlex|done|]. intros c' p Hp Ht [Hc Hw].
  apply wp_bind, wp_peek_end; [done|lia|done|]. apply wp_bind. change (wp getS ?K ?p1) with (K p1 p1). cbv beta. apply wp_bind, wp_panic_unless; [apply Nat.eqb_refl|]. apply wp_ret. rewrite <- Hc, nulterminate_words.
  apply cmap_ext. rewrite Forall_forall in Hw |- *. intros [q eq] Hin. apply word_cstring; [done|by apply (Hw _ Hin)| |].
  - apply Forall_forall. intros x (w & -> & Hx)%list_elem_of_fmap. apply (Hw w Hx).
  - apply list_elem_of_fmap. by exists (q, eq).
Qed.

(** C8. Every command with less than MAXARGS words per program can be written
    down, with parentheses where the grammar needs them, and whatever the
    spacing, parsecmd reads the same command back: the strings in the tree, as
    nulterminate leaves them, are its words. *)
Theorem parse_print buf c :
  nonul buf → cmd_ok c → lex buf = pr 0 c →
  wp (parsecmd buf) (λ '(c', b) _, cmap (λ w, cstring b (fst w)) c' = c) 0%nat.
Proof. apply wp_parse_print. Qed.
