(* ===== verification/ShRun.v ===== *)
(** * How the shell connects the programs it starts (xv6: sh.c)

    The kernel side is the table of open files: open, dup and pipe take the
    lowest free descriptors.  A run collects the programs that the process and
    its children exec, each with its table. *)

From S2P Require Import Prelude Bytes Xstring Sh ShParse ShPrint.

Definition NOFILE : nat := 16.

(** What a descriptor is connected to. *)
Inductive obj := Inherited (n : nat) | File (name : list Z) (mode : Z) | PipeR (k : nat) | PipeW (k : nat).
Abbreviation fdtab := (list (option obj)).

(** The lowest free descriptor. *)
Fixpoint free_fd (t : fdtab) : option nat :=
  match t with
  | [] => None
  | None :: _ => Some O
  | Some _ :: t' => S <$> free_fd t'
  end.
Definition fdalloc (o : obj) (t : fdtab) : option (nat * fdtab) := n ← free_fd t; Some (n, <[n := Some o]> t).
Definition close (fd : nat) (t : fdtab) : fdtab := <[fd := None]> t.
(** dup(fd); a failure leaves the table as it is. *)
Definition dup (fd : nat) (t : fdtab) : fdtab :=
  match t !! fd with
  | Some (Some o) => match fdalloc o t with Some (_, t') => t' | None => t end
  | _ => t
  end.
Definition pipe (k : nat) (t : fdtab) : option (nat * nat * fdtab) :=
  '(p0, t) ← fdalloc (PipeR k) t;
  '(p1, t) ← fdalloc (PipeW k) t;
  Some (p0, p1, t).

(** A program that was started, with its open files. *)
Definition job : Type := list (list Z) * fdtab.

Section run.
(** Which files open() can open. *)
Context (can_open : list Z → Z → bool).

(** [runcmd], src/hw3/xv6/sh.c:56-130
    [k] numbers the pipes; the result is what is started and the next number.
    fork succeeds; a process that could not do its part exits. *)
Fixpoint runcmd (c : cmd (list Z)) (t : fdtab) (k : nat) : list job * nat :=
  match c with
  | EXEC argv => match argv with [] => ([], k) | _ => ([(argv, t)], k) end
  | REDIR c file mode fd =>
      let t := close (Z.to_nat fd) t in
      if can_open file mode then
        match fdalloc (File file mode) t with
        | Some (_, t) => runcmd c t k
        | None => ([], k)
        end
      else ([], k)
  | LIST l r =>
      let '(js, k) := runcmd l t k in
      let '(js', k) := runcmd r t k in (js ++ js', k)
  | PIPE l r =>
      match pipe k t with
      | None => ([], S k)
      | Some (p0, p1, t) =>
          let '(js, k) := runcmd l (close p1 (close p0 (dup p1 (close 1 t)))) (S k) in
          let '(js', k) := runcmd r (close p1 (close p0 (dup p0 (close 0 t)))) k in (js ++ js', k)
      end
  | BACK c => runcmd c t k
  end.

(** ** What the command line means *)

(** Standard input, output and error. *)
Definition std (i o e : obj) : fdtab := [Some i; Some o; Some e] ++ replicate (NOFILE - 3) None.

Fixpoint meaning (c : cmd (list Z)) (i o e : obj) (k : nat) : list job * nat :=
  match c with
  | EXEC argv => (if decide (argv = []) then [] else [(argv, std i o e)], k)
  | REDIR c file mode fd =>
      if can_open file mode then if fd =? 0 then meaning c (File file mode) o e k else meaning c i (File file mode) e k
      else ([], k)
  | LIST l r =>
      let '(js, k) := meaning l i o e k in
      let '(js', k) := meaning r i o e k in (js ++ js', k)
  | PIPE l r =>
      let '(js, k') := meaning l i (PipeW k) e (S k) in
      let '(js', k') := meaning r (PipeR k) o e k' in (js ++ js', k')
  | BACK c => meaning c i o e k
  end.

Lemma run_meaning c : cmd_ok c → ∀ i o e k, runcmd c (std i o e) k = meaning c i o e k.
Proof.
  induction c as [argv|c IH f mode fd|l IHl r IHr|l IHl r IHr|c IH]; intros Hok i o e k; cbn [runcmd meaning].
  - by destruct argv.
  - destruct Hok as [Hc Hm]. destruct (can_open f mode); [|done]. destruct Hm as [[_ ->]|[_ ->]]; apply (IH Hc).
  - destruct Hok as [Hl Hr]. change (pipe k (std i o e)) with (Some (3%nat, 4%nat, <[4%nat := Some (PipeW k)]> (<[3%nat := Some (PipeR k)]> (std i o e)))). cbv beta iota.
    change (close 4 (close 3 (dup 4 (close 1 (<[4%nat := Some (PipeW k)]> (<[3%nat := Some (PipeR k)]> (std i o e))))))) with (std i (PipeW k) e).
    change (close 4 (close 3 (dup 3 (close 0 (<[4%nat := Some (PipeW k)]> (<[3%nat := Some (PipeR k)]> (std i o e))))))) with (std (PipeR k) o e).
    rewrite (IHl Hl). destruct (meaning l i (PipeW k) e (S k)) as [js k']. by rewrite (IHr Hr).
  - destruct Hok as [Hl Hr]. rewrite (IHl Hl). destruct (meaning l i o e k) as [js k']. by rewrite (IHr Hr).
  - apply (IH Hok).
Qed.
End run.

(** ** A line of input *)

Inductive action := Chdir (dir : list Z) | Run (c : cmd (list Z)) | Bad | Eof.

(** [getcmd], src/hw3/xv6/sh.c:132-142
    The line in the buffer, without its 0, and the input left. *)
Definition getcmd (nbuf : Z) (input : list Z) : option (list Z) * list Z :=
  let '(b, input) := ugets nbuf input in
  let line := cstring b 0 in
  (if bool_decide (line = []) then None else Some line, input).

(** [main: a round of the loop], src/hw3/xv6/sh.c:159-170 *)
Definition main_round (input : list Z) : action * list Z :=
  match getcmd 100 input with
  | (None, input) => (Eof, input)
  | (Some buf, input) =>
      (if bool_decide (take 3 buf = [99; 100; 32]) then Chdir (drop 3 (take (length buf - 1) buf))
       else match parsecmd buf 0%nat with
            | Ret (c, b) _ => Run (cmap (λ w, cstring b (fst w)) c)
            | Fail _ _ => Bad
            end, input)
  end.

Definition chars (s : string) : list Z := map (λ c, Z.of_N (Ascii.N_of_ascii c)) (String.list_ascii_of_string s).

(** A character of a line of input. *)
Definition plain_line (l : list Z) : Prop := Forall (λ c, c ≠ 0 ∧ c ≠ 10 ∧ c ≠ 13) l.

Lemma ugets_loop_line l rest : plain_line l → ∀ n acc, (length l < n)%nat → ugets_loop n (l ++ 10 :: rest) acc = (acc ++ l ++ [10; 0], rest).
Proof.
  induction 1 as [|c l (H1 & H2 & H3) _ IH]; intros [|n] acc Hn; cbn in Hn; try lia; cbn [ugets_loop app].
  - done.
  - rewrite (proj2 (Z.eqb_neq c 10)), (proj2 (Z.eqb_neq c 13)) by done. cbn [orb]. rewrite IH by lia. by rewrite <- app_assoc.
Qed.

Lemma cstring_cstr l r : nonul l → cstring (l ++ 0 :: r) 0 = l.
Proof. intros Hl. unfold cstring. rewrite drop_0, strlen_app by done. unfold get. by rewrite drop_0, take_app_length. Qed.

Lemma getcmd_line nbuf l rest : plain_line l → Z.of_nat (length l) + 1 < nbuf → getcmd nbuf (l ++ 10 :: rest) = (Some (l ++ [10]), rest).
Proof.
  intros Hl Hn. unfold getcmd, ugets. rewrite ugets_loop_line by (done || lia). cbn [app]. replace (l ++ [10; 0]) with ((l ++ [10]) ++ 0 :: []) by (by rewrite <- app_assoc).
  rewrite cstring_cstr.
  - rewrite bool_decide_eq_false_2; [done|]. by destruct l.
  - apply Forall_app. split; [|by repeat constructor]. eapply Forall_impl; [exact Hl|]. by intros c [? _].
Qed.

(** The newline at the end is not part of any token. *)
Lemma lex_newline l : ∀ w, lex_from w (l ++ [10]) = lex_from w l.
Proof.
  remember (length l) as n eqn:Hlen. revert l Hlen. induction (lt_wf n) as [n _ IH]. intros [|c l] -> w; cbn [app lex_from].
  - change (is_ws 10) with true. cbv iota. by rewrite app_nil_r.
  - destruct (is_ws c); [by rewrite (IH (length l)) by (done || cbn; lia)|]. destruct (is_sym c); [|by rewrite (IH (length l)) by (done || cbn; lia)].
    destruct (c =? GT); [|by rewrite (IH (length l)) by (done || cbn; lia)]. destruct l as [|d l]; [done|]. cbn [app].
    destruct (d =? GT); [by rewrite (IH (length l)) by (done || cbn; lia)|]. change (d :: l ++ [10]) with ((d :: l) ++ [10]). by rewrite (IH (length (d :: l))) by (done || cbn; lia).
Qed.

(** C7. A line that spells a command makes the shell start exactly the programs
    of the command, connected as it says: each one has standard input, output
    and error and no other open file, a redirection replaces one of them, and a
    pipe joins the output of its left side to the input of its right side. *)
Theorem shell_runs can_open line rest c i o e :
  plain_line line → (length line < 99)%nat → take 3 line ≠ chars "cd " → cmd_ok c → lex line = pr 0 c →
  main_round (line ++ 10 :: rest) = (Run c, rest) ∧ runcmd can_open c (std i o e) 0 = meaning can_open c i o e 0.
Proof.
  intros Hl Hlen Hcd Hok Hlex. split; [|by apply run_meaning]. unfold main_round. rewrite getcmd_line by (done || lia).
  assert (nonul (line ++ [10])) as Hn.
  { apply Forall_app. split; [|by repeat constructor]. eapply Forall_impl; [exact Hl|]. by intros x [? _]. }
  rewrite bool_decide_eq_false_2.
  - pose proof (wp_parse_print (line ++ [10]) c Hn Hok) as HW. unfold lex in HW. rewrite lex_newline in HW. specialize (HW Hlex).
    unfold wp in HW. destruct (parsecmd (line ++ [10]) 0%nat) as [[c' b] s|]; [|done]. by rewrite HW.
  - change [99; 100; 32] with (chars "cd ") in *. intros E. destruct (decide (3 ≤ length line)%nat) as [Hge|Hlt]; [rewrite take_app_le in E by lia; done|].
    destruct line as [|c1 [|c2 [|c3 l3]]]; cbn in E, Hlt; try lia; try done.
Qed.

Definition line0 : list Z := chars "(ls; cat <in&)|wc  >out".
Definition cmd0 : cmd (list Z) :=
  PIPE (LIST (EXEC [chars "ls"]) (BACK (REDIR (EXEC [chars "cat"]) (chars "in") O_RDONLY 0)))
       (REDIR (EXEC [chars "wc"]) (chars "out") (Z.lor O_WRONLY O_CREATE) 1).
Lemma line0_ok : plain_line line0 ∧ nonul line0 ∧ cmd_ok cmd0 ∧ lex line0 = pr 0 cmd0.
Proof.
  assert (cmd_ok cmd0) as Hc. { split; [split; [cbn; unfold MAXARGS; lia|split; [cbn; unfold MAXARGS; lia|by left]]|split; [cbn; unfold MAXARGS; lia|by right]]. }
  split; [by repeat (constructor; [done|])|]. split; [by repeat (constructor; [done|])|]. split; [exact Hc|]. vm_compute. reflexivity.
Qed.

Lemma shell_runs_witness :
  main_round (line0 ++ 10 :: []) = (Run cmd0, []) ∧
  runcmd (λ _ _, true) cmd0 (std (Inherited 0) (Inherited 1) (Inherited 2)) 0 = meaning (λ _ _, true) cmd0 (Inherited 0) (Inherited 1) (Inherited 2) 0.
Proof.
  destruct line0_ok as (H1 & _ & H2 & H3). apply (shell_runs (λ _ _, true) line0 [] cmd0 (Inherited 0) (Inherited 1) (Inherited 2)); [exact H1|vm_compute; lia|vm_compute; discriminate|exact H2|exact H3].
Defined.
Lemma parse_print_witness : wp (parsecmd line0) (λ '(c', b) _, cmap (λ w, cstring b (fst w)) c' = cmd0) 0%nat.
Proof. destruct line0_ok as (_ & H1 & H2 & H3). exact (parse_print line0 cmd0 H1 H2 H3). Defined.
Lemma parsecmd_terminates_witness : wpx (parsecmd line0) (λ '(c, _) p, p = length line0 ∧ inside line0 c) (λ e _, is_panic e) 0%nat.
Proof. destruct line0_ok as (_ & H1 & _). exact (parsecmd_terminates line0 H1). Defined.
