(* ===== verification/Pipe.v ===== *)
(** * Pipes (xv6: pipe.c)

    The pipe's lock and its two sleep channels make a monitor: a stretch of a
    call from taking the lock to releasing it, or to sleep(), is a segment, and
    wakeup() wakes every sleeper of a channel.  Which processes are marked as
    killed is part of the data; a kill can wake a sleeper, which is what the
    spurious wakeups of [Monitor] stand for. *)

From S2P Require Import Prelude Monitor.

Definition PIPESIZE : Z := 512.

(** [struct pipe], src/hw3/xv6/pipe.c:13-20
    [killed] holds p->killed of each process. *)
Record pipe := Pipe { pdata : list Z; nread : Z; nwrite : Z; readopen : bool; writeopen : bool; killed : list bool }.

Inductive chan := NREAD | NWRITE.
#[export] Instance chan_eq_dec : EqDecision chan.
Proof. solve_decision. Defined.

(** A call in progress, by process [t]: bytes still to write of a call for
    [n], a read of [n] bytes, a close, and kill() of a process. *)
Inductive ppc := PWrite (t : nat) (rest : list Z) (n : Z) | PRead (t : nat) (n : nat) | PClose (t : nat) (writable : bool) | PKill (t v : nat).
(** What the last call of process [who] returned; [bytes] is what a read got, or
    what a write did not write. *)
Record preturn := PReturn { who : nat; pret : Z; bytes : list Z }.

Abbreviation presult := (result pipe ppc chan preturn).
Abbreviation pconfig := (config pipe ppc chan preturn).
Abbreviation pstatus := (status ppc chan preturn).
Abbreviation pevent := (event ppc chan preturn).

Definition is_killed (t : nat) (p : pipe) : bool := default false (killed p !! t).

(** [pipealloc: a new pipe], src/hw3/xv6/pipe.c:33-36
    The page comes from kalloc with arbitrary contents. *)
Definition pipe_init (mem : list Z) (procs : nat) : pipe := Pipe mem 0 0 true true (replicate procs false).

(** p->data[p->nwrite++ % PIPESIZE] = c *)
Definition push (c : Z) (p : pipe) : pipe :=
  Pipe (<[Z.to_nat (nwrite p mod PIPESIZE) := c]> (pdata p)) (nread p) (u32 (nwrite p + 1)) (readopen p) (writeopen p) (killed p).
(** p->data[p->nread++ % PIPESIZE] *)
Definition front (p : pipe) : Z := nth (Z.to_nat (nread p mod PIPESIZE)) (pdata p) 0.
Definition pop (p : pipe) : pipe := Pipe (pdata p) (u32 (nread p + 1)) (nwrite p) (readopen p) (writeopen p) (killed p).

Definition full (p : pipe) : bool := nwrite p =? u32 (nread p + PIPESIZE).
Definition empty (p : pipe) : bool := nread p =? nwrite p.

(** [pipewrite: the loop up to a full buffer], src/hw3/xv6/pipe.c:84-94 *)
Fixpoint fill (p : pipe) (rest : list Z) : pipe * list Z :=
  match rest with
  | [] => (p, [])
  | c :: rest' => if full p then (p, rest) else fill (push c p) rest'
  end.

(** [pipewrite], src/hw3/xv6/pipe.c:78-98
    From the lock, or from sleep(), to the return or the next sleep(). *)
Definition pipewrite (t : nat) (rest : list Z) (n : Z) (p : pipe) : presult :=
  let '(p, rest) := fill p rest in
  match rest with
  | [] => Result p [Broadcast NREAD] (Leave (PReturn t n []))
  | _ =>
      if negb (readopen p) || is_killed t p then Result p [] (Leave (PReturn t (-1) rest))
      else Result p [Broadcast NREAD] (Block NWRITE (PWrite t rest n))
  end.

(** [piperead: the loop], src/hw3/xv6/pipe.c:113-117 *)
Fixpoint drain (n : nat) (p : pipe) : pipe * list Z :=
  match n with
  | O => (p, [])
  | S n' => if empty p then (p, []) else let '(p', bs) := drain n' (pop p) in (p', front p :: bs)
  end.

(** [piperead], src/hw3/xv6/pipe.c:100-121 *)
Definition piperead (t n : nat) (p : pipe) : presult :=
  if empty p && writeopen p then
    if is_killed t p then Result p [] (Leave (PReturn t (-1) [])) else Result p [] (Block NREAD (PRead t n))
  else
    let '(p, bs) := drain n p in
    Result p [Broadcast NWRITE] (Leave (PReturn t (lenZ bs) bs)).

(** [pipeclose], src/hw3/xv6/pipe.c:59-75
    The page is freed when both ends are closed. *)
Definition pipeclose (t : nat) (writable : bool) (p : pipe) : presult :=
  if writable then Result (Pipe (pdata p) (nread p) (nwrite p) (readopen p) false (killed p)) [Broadcast NREAD] (Leave (PReturn t 0 []))
  else Result (Pipe (pdata p) (nread p) (nwrite p) false (writeopen p) (killed p)) [Broadcast NWRITE] (Leave (PReturn t 0 [])).

Definition kill_flag (t v : nat) (p : pipe) : presult :=
  Result (Pipe (pdata p) (nread p) (nwrite p) (readopen p) (writeopen p) (<[v := true]> (killed p))) [] (Leave (PReturn t 0 [])).

Definition seg (c : ppc) (p : pipe) : option presult :=
  Some match c with
       | PWrite t rest n => pipewrite t rest n p
       | PRead t n => piperead t n p
       | PClose t w => pipeclose t w p
       | PKill t v => kill_flag t v p
       end.
Definition caller (c : ppc) : nat := match c with PWrite t _ _ | PRead t _ | PClose t _ | PKill t _ => t end.
Definition entry (r : preturn) (c : ppc) : bool := (who r =? caller c)%nat.

Definition pstart (mem : list Z) (procs : nat) : pconfig :=
  Config (pipe_init mem procs) (map (λ t, Rest (PReturn t 0 [])) (seq 0 procs)) [].
Definition pipe_reach (md : mode) (mem : list Z) (procs : nat) : pconfig → Prop := mreach seg entry md (pstart mem procs).

(** ** The bytes in the pipe *)

Definition count (p : pipe) : Z := u32 (nwrite p - nread p).
Definition byte_at (p : pipe) (i : nat) : Z := nth (Z.to_nat ((nread p + Z.of_nat i) mod PIPESIZE)) (pdata p) 0.
Definition contents (p : pipe) : list Z := map (byte_at p) (seq 0 (Z.to_nat (count p))).

Record pinv (p : pipe) : Prop := {
  pi_len : lenZ (pdata p) = PIPESIZE;
  pi_read : 0 ≤ nread p < 2 ^ 32;
  pi_write : 0 ≤ nwrite p < 2 ^ 32;
  pi_count : count p ≤ PIPESIZE
}.

Lemma count_range p : 0 ≤ count p < 2 ^ 32.
Proof. apply u32_range. Qed.
Lemma full_count p : pinv p → full p = (count p =? PIPESIZE).
Proof.
  intros [_ Hr Hw Hc]. pose proof (count_range p). unfold full, count in *. apply eq_true_iff_eq. rewrite !Z.eqb_eq. unfold u32, PIPESIZE in *. dlia.
Qed.
Lemma empty_count p : pinv p → empty p = (count p =? 0).
Proof.
  intros [_ Hr Hw Hc]. unfold empty, count in *. apply eq_true_iff_eq. rewrite !Z.eqb_eq. unfold u32, PIPESIZE in *. dlia.
Qed.
Lemma length_contents p : lenZ (contents p) = count p.
Proof. pose proof (count_range p). unfold contents, lenZ. rewrite length_map, length_seq. lia. Qed.
Lemma empty_contents p : pinv p → empty p = true → contents p = [].
Proof. intros HI He. rewrite (empty_count p HI) in He. apply Z.eqb_eq in He. unfold contents. by rewrite He. Qed.

Lemma pinv_push c p : pinv p → full p = false → pinv (push c p) ∧ count (push c p) = count p + 1 ∧ contents (push c p) = contents p ++ [c].
Proof.
  intros HI Hf. rewrite (full_count p HI) in Hf. apply Z.eqb_neq in Hf. destruct HI as [Hl Hr Hw Hc]. pose proof (count_range p) as Hcr.
  assert (count (push c p) = count p + 1) as Hc'.
  { unfold count in *. cbn [push nread nwrite]. unfold u32, PIPESIZE in *. clear -Hr Hw Hc Hf Hcr. dlia. }
  assert (length (pdata p) = 512%nat) as Hl' by (unfold lenZ, PIPESIZE in Hl; lia).
  split; [|split; [done|]].
  - constructor; [unfold lenZ; cbn; by rewrite length_insert|done|apply u32_range|]. unfold PIPESIZE in *. lia.
  - unfold contents. rewrite Hc'. replace (Z.to_nat (count p + 1)) with (Z.to_nat (count p) + 1)%nat by lia. rewrite seq_app, map_app. f_equal.
    + apply map_ext_in. intros i [_ Hi]%in_seq. unfold byte_at. cbn [push nread pdata]. rewrite !nth_lookup, list_lookup_insert_ne; [done|].
      unfold count, u32, PIPESIZE in *. clear -Hi Hr Hw Hc Hf. intros E%Z2Nat.inj; [|dlia..]. dlia.
    + cbn [seq map]. f_equal. unfold byte_at. cbn [push nread pdata]. rewrite nth_lookup.
      assert ((nread p + Z.of_nat (0 + Z.to_nat (count p))) mod PIPESIZE = nwrite p mod PIPESIZE) as ->.
      { unfold count, u32, PIPESIZE in *. clear -Hr Hw. dlia. }
      rewrite list_lookup_insert_eq; [done|]. unfold PIPESIZE. pose proof (Z.mod_pos_bound (nwrite p) 512). lia.
Qed.
Lemma pinv_pop p : pinv p → empty p = false → pinv (pop p) ∧ count (pop p) = count p - 1 ∧ contents p = front p :: contents (pop p).
Proof.
  intros HI He. rewrite (empty_count p HI) in He. apply Z.eqb_neq in He. destruct HI as [Hl Hr Hw Hc]. pose proof (count_range p) as Hcr.
  assert (count (pop p) = count p - 1) as Hc'.
  { unfold count in *. cbn [pop nread nwrite]. unfold u32, PIPESIZE in *. clear -Hr Hw Hc He Hcr. dlia. }
  split; [|split; [done|]].
  - constructor; [done|apply u32_range|done|]. unfold PIPESIZE in *. lia.
  - unfold contents. rewrite Hc'. replace (Z.to_nat (count p)) with (S (Z.to_nat (count p - 1))) by lia. cbn [seq map]. f_equal.
    + unfold byte_at, front. by rewrite Z.add_0_r.
    + rewrite <- seq_shift, map_map. apply map_ext. intros i. unfold byte_at. cbn [pop nread pdata]. do 2 f_equal. unfold u32, PIPESIZE. clear. dlia.
Qed.

(** The flags stay. *)
Definition same_flags (p p' : pipe) : Prop := readopen p' = readopen p ∧ writeopen p' = writeopen p ∧ killed p' = killed p.

Lemma fill_spec rest : ∀ p p' rest', pinv p → fill p rest = (p', rest') →
  pinv p' ∧ same_flags p p' ∧ (∃ w, rest = w ++ rest' ∧ contents p' = contents p ++ w) ∧ (rest' = [] ∨ full p' = true).
Proof.
  induction rest as [|c rest IH]; intros p p' rest' HI; cbn [fill].
  - intros [= <- <-]. split; [done|]. split; [done|]. split; [|by left]. exists []. split; [done|by rewrite app_nil_r].
  - destruct (full p) eqn:Hf.
    + intros [= <- <-]. split; [done|]. split; [done|]. split; [|by right]. exists []. split; [done|by rewrite app_nil_r].
    + intros Hfill. destruct (pinv_push c p HI Hf) as (HI' & _ & Hc). destruct (IH _ _ _ HI' Hfill) as (H1 & H2 & (w & -> & Hw) & H3).
      split; [done|]. split; [done|]. split; [|done]. exists (c :: w). rewrite Hw, Hc, <- app_assoc. done.
Qed.
Lemma drain_spec n : ∀ p p' bs, pinv p → drain n p = (p', bs) → pinv p' ∧ same_flags p p' ∧ contents p = bs ++ contents p' ∧ (n ≠ O → empty p = false → bs ≠ []).
Proof.
  induction n as [|n IH]; intros p p' bs HI; cbn [drain].
  - intros [= <- <-]. done.
  - destruct (empty p) eqn:He; [by intros [= <- <-]|]. destruct (drain n (pop p)) as [p2 bs2] eqn:Hd. intros [= <- <-].
    destruct (pinv_pop p HI He) as (HI' & _ & Hc). destruct (IH _ _ _ HI' Hd) as (H1 & H2 & H3 & _). split; [done|]. split; [done|]. split; [|done]. by rewrite Hc, H3.
Qed.

(** ** First in, first out *)

Definition ev_read (e : pevent) : list Z :=
  match epc e, enext e with PRead _ _, Leave r => bytes r | _, _ => [] end.
Definition ev_written (e : pevent) : list Z :=
  match epc e, enext e with
  | PWrite _ rest _, Leave r => take (length rest - length (bytes r)) rest
  | PWrite _ rest _, Block _ (PWrite _ rest' _) => take (length rest - length rest') rest
  | _, _ => []
  end.
(** All bytes that reads returned and that writes put in, in order; the log has
    the last event first. *)
Fixpoint history (f : pevent → list Z) (l : list pevent) : list Z :=
  match l with [] => [] | e :: l' => history f l' ++ f e end.

Lemma take_app_rest (w rest : list Z) : take (length (w ++ rest) - length rest) (w ++ rest) = w.
Proof. rewrite length_app. replace (length w + length rest - length rest)%nat with (length w) by lia. apply take_app_length. Qed.

Lemma seg_fifo i c p p' ns n :
  pinv p → seg c p = Some (Result p' ns n) →
  pinv p' ∧ contents p ++ ev_written (Event i c n) = ev_read (Event i c n) ++ contents p'.
Proof.
  intros HI [= Hs]. destruct c as [t rest m|t m|t w|t v].
  - unfold pipewrite in Hs. destruct (fill p rest) as [p1 rest'] eqn:Hf. destruct (fill_spec _ _ _ _ HI Hf) as (H1 & _ & (w & -> & Hc) & _).
    cbn [ev_read epc]. destruct rest' as [|c0 rest'].
    + injection Hs as <- <- <-. split; [done|]. cbn. rewrite app_nil_r, Nat.sub_0_r, take_ge by lia. done.
    + destruct (negb (readopen p1) || is_killed t p1); injection Hs as <- <- <-; (split; [done|]); unfold ev_written; cbn [epc enext bytes]; by rewrite take_app_rest, Hc.
  - unfold piperead in Hs. destruct (empty p && writeopen p).
    + destruct (is_killed t p); injection Hs as <- <- <-; (split; [done|]); cbn; by rewrite app_nil_r.
    + destruct (drain m p) as [p1 bs] eqn:Hd. destruct (drain_spec _ _ _ _ HI Hd) as (H1 & _ & Hc & _). injection Hs as <- <- <-. split; [done|]. cbn. by rewrite app_nil_r.
  - destruct HI as [H1 H2 H3 H4]. destruct w; injection Hs as <- <- <-; (split; [by constructor|]); cbn; by rewrite app_nil_r.
  - destruct HI as [H1 H2 H3 H4]. injection Hs as <- <- <-. split; [by constructor|]. cbn. by rewrite app_nil_r.
Qed.

Definition fifo (k : pconfig) : Prop := pinv (data k) ∧ history ev_written (log k) = history ev_read (log k) ++ contents (data k).

Lemma fifo_event i c p p' ns n l : fifo (Config p [] l) → seg c p = Some (Result p' ns n) → fifo (Config p' [] (Event i c n :: l)).
Proof.
  intros [HI Hh] Hs. cbn in HI, Hh. destruct (seg_fifo i c p p' ns n HI Hs) as [HI' He]. split; [done|]. cbn. by rewrite Hh, <- !app_assoc, He.
Qed.

(** C16. A pipe is first in, first out: in every interleaving of any number of
    writers and readers, with kills and closes at any moment, the bytes that
    reads returned followed by the bytes in the buffer are the bytes written,
    in order; the buffer holds at most PIPESIZE bytes, also after the 32-bit
    counters wrap around. *)
Theorem pipe_fifo md mem procs k :
  lenZ mem = PIPESIZE → pipe_reach md mem procs k →
  history ev_written (log k) = history ev_read (log k) ++ contents (data k) ∧ lenZ (contents (data k)) ≤ PIPESIZE.
Proof.
  intros Hm Hr. assert (fifo k) as [HI Hh]; [|split; [done|]; rewrite length_contents; apply HI].
  revert k Hr. apply mreach_inv.
  - split; [|done]. by constructor.
  - intros k k' HF Hs. destruct Hs as [i r c d ts l _ _|i c d ts ts' l d' ns n _ _ Hseg _|i c d ts ts' l d' ns n _ Hseg _|i c pc d ts l _ _]; [exact HF| | |exact HF];
      exact (fifo_event i c d d' ns n l HF Hseg).
Qed.

(** ** Sleepers *)

Lemma notify_gone {PC R} ns (ts ts' : list (status PC chan R)) c j p : notify ns ts ts' → Broadcast c ∈ ns → ts' !! j ≠ Some (Blocked c p).
Proof.
  intros Hn. induction Hn as [| c0 i pc ns ts ts' Hi _ IH | c0 ns ts ts' _ _ IH|c0 ns ts ts' Hn IH]; intros Hin; [by apply elem_of_nil in Hin|..];
    apply elem_of_cons in Hin as [E|Hin]; try done; try (by apply IH).
  injection E as <-. intros Hj. apply (notify_blocked _ _ _ _ _ _ Hn) in Hj. rewrite list_lookup_fmap in Hj.
  destruct (ts !! j) as [[| |c' q|]|]; cbn in Hj; try done. destruct (decide (c = c')); congruence.
Qed.

(** Why a thread may sleep. *)
Definition reason (p : pipe) (c : chan) : Prop :=
  match c with NREAD => empty p = true ∧ writeopen p = true | NWRITE => full p = true end.
(** As long as the read end is open and nobody is killed. *)
Definition calm (p : pipe) : Prop := readopen p = true ∧ Forall (λ b, b = false) (killed p).
Definition asleep_ok (k : pconfig) : Prop :=
  pinv (data k) ∧ (calm (data k) → ∀ j c pc, threads k !! j = Some (Blocked c pc) → reason (data k) c).

Lemma calm_killed t p : calm p → is_killed t p = false.
Proof. intros [_ Hk]. unfold is_killed. destruct (killed p !! t) as [b|] eqn:E; [|done]. cbn. by eapply Forall_lookup_1 in Hk. Qed.
Lemma calm_flags p p' : same_flags p p' → calm p' → calm p.
Proof. intros (H1 & H2 & H3) [C1 C2]. split; congruence. Qed.
Lemma Forall_unset (l : list bool) v : Forall (λ b, b = false) (<[v := true]> l) → Forall (λ b, b = false) l.
Proof.
  intros H. destruct (decide (v < length l)%nat) as [Hv|Hv]; [|by rewrite list_insert_ge in H by lia].
  rewrite Forall_lookup in H. specialize (H v true). rewrite list_lookup_insert_eq in H by done. by specialize (H eq_refl).
Qed.

(** A segment keeps the reasons of the sleepers that it does not wake, and has
    a reason itself when it sleeps. *)
Lemma seg_sleep c p p' ns n :
  pinv p → seg c p = Some (Result p' ns n) → calm p' →
  calm p ∧ (∀ ch, reason p ch → reason p' ch ∨ Broadcast ch ∈ ns) ∧ (∀ ch pc, n = Block ch pc → reason p' ch).
Proof.
  intros HI [= Hs] HC. destruct c as [t rest m|t m|t w|t v].
  - unfold pipewrite in Hs. destruct (fill p rest) as [p1 rest'] eqn:Hf. destruct (fill_spec _ _ _ _ HI Hf) as (H1 & Hfl & _ & Hfull).
    assert (full p = true → p1 = p) as Hsame by (intros E; destruct rest; cbn in Hf; [by injection Hf as <-|rewrite E in Hf; by injection Hf as <-]).
    destruct rest' as [|c0 rest'].
    + injection Hs as <- <- <-. split; [by eapply calm_flags|]. split; [|done]. intros [] Hr; [right; by left|left]. by rewrite (Hsame Hr).
    + assert (calm p1) as HC1 by (destruct (negb (readopen p1) || is_killed t p1); injection Hs as <- <- <-; done).
      rewrite (calm_killed t p1 HC1) in Hs. destruct HC1 as [Hro Hk]. rewrite Hro in Hs. injection Hs as <- <- <-.
      split; [by eapply calm_flags|]. split; [intros [] Hr; [right; by left|left; by rewrite (Hsame Hr)]|]. intros ch pc [= <- _]. by destruct Hfull.
  - unfold piperead in Hs. destruct (empty p && writeopen p) eqn:He.
    + assert (calm p) as HCp by (destruct (is_killed t p); injection Hs as <- <- <-; done). rewrite (calm_killed t p HCp) in Hs. injection Hs as <- <- <-.
      split; [done|]. split; [by left|]. intros ch pc [= <- _]. by apply andb_prop.
    + destruct (drain m p) as [p1 bs] eqn:Hd. destruct (drain_spec _ _ _ _ HI Hd) as (H1 & Hfl & _ & _). injection Hs as <- <- <-.
      split; [by eapply calm_flags|]. split; [|done]. intros [] Hr; [|right; by left]. destruct Hr as [E1 E2]. by rewrite E1, E2 in He.
  - destruct w; injection Hs as <- <- <-; [|by destruct HC as [[=] _]]. destruct HC as [C1 C2]. split; [by split|]. split; [|done]. intros [] Hr; [right; by left|by left].
  - injection Hs as <- <- <-. destruct HC as [C1 C2]. cbn in C1, C2. split; [split; [done|by eapply Forall_unset]|]. split; [|done]. intros [] Hr; by left.
Qed.

Lemma asleep_event i c p p' ns n ts ts' l l' :
  asleep_ok (Config p ts l) → seg c p = Some (Result p' ns n) → notify ns ts ts' → asleep_ok (Config p' (<[i := settle n]> ts') l').
Proof.
  intros [HI HS] Hseg Hn. cbn in HI. split; [by destruct (seg_fifo i c p p' ns n HI Hseg)|]. cbn in *. intros HC j ch pc Hj.
  destruct (seg_sleep c p p' ns n HI Hseg HC) as (HCp & Hkeep & Hnew). destruct (decide (j = i)) as [->|Hne].
  - assert (i < length ts')%nat as Hi by (apply lookup_lt_Some in Hj; by rewrite length_insert in Hj). rewrite list_lookup_insert_eq in Hj by done.
    injection Hj as Hj. destruct n as [c0 pc0| |]; try done. injection Hj as -> ->. by eapply Hnew.
  - rewrite list_lookup_insert_ne in Hj by done. destruct (Hkeep ch) as [?|Hin]; [|done|by apply (notify_gone _ _ _ _ j pc Hn) in Hin].
    apply (HS HCp j ch pc). by apply (notify_blocked _ _ _ _ _ _ Hn).
Qed.

(** C17. No wakeup is lost while the read end is open and nobody is killed: a
    process sleeps in piperead only if the buffer is empty and a writer may
    still come, and in pipewrite only if the buffer is full. *)
Theorem pipe_no_lost_wakeup md mem procs k :
  lenZ mem = PIPESIZE → pipe_reach md mem procs k → readopen (data k) = true → Forall (λ b, b = false) (killed (data k)) →
  ∀ j c pc, threads k !! j = Some (Blocked c pc) → reason (data k) c.
Proof.
  intros Hm Hr Hro Hk. assert (asleep_ok k) as [_ H]; [|by apply H; split]. clear Hro Hk. revert k Hr. apply mreach_inv.
  - split; [by constructor|]. cbn. intros _ j c pc Hj. apply list_lookup_fmap_Some in Hj as (x & Hx & _). done.
  - intros k k' HF Hs. destruct Hs as [i r c d ts l Hi _|i c d ts ts' l d' ns n _ _ Hseg Hn|i c d ts ts' l d' ns n _ Hseg Hn|i c pc d ts l _ Hi].
    + destruct HF as [HI HS]. split; [done|]. cbn in *. intros HC j ch pc Hj. apply (HS HC j ch pc). destruct (decide (j = i)) as [->|]; [|by rewrite list_lookup_insert_ne in Hj].
      by rewrite list_lookup_insert_eq in Hj by (by eapply lookup_lt_Some).
    + by apply (asleep_event i c d d' ns n ts ts' l).
    + by apply (asleep_event i c d d' ns n ts ts' l).
    + destruct HF as [HI HS]. split; [done|]. cbn in *. intros HC j ch pc' Hj. apply (HS HC j ch pc'). destruct (decide (j = i)) as [->|]; [|by rewrite list_lookup_insert_ne in Hj].
      by rewrite list_lookup_insert_eq in Hj by (by eapply lookup_lt_Some).
Qed.

(** ** Runs *)

Definition mem0 : list Z := replicate 512 0.
Definition demo_choices : list (choice ppc) :=
  [Start 0 (PRead 0 3); Run 0 []; Start 1 (PWrite 1 (replicate 600 7) 600); Run 1 []; Run 0 []; Start 0 (PRead 0 1000)].
Definition demo_end : pconfig := default (pstart mem0 2) (mrun seg entry (Mode false false) demo_choices (pstart mem0 2)).
Lemma demo_runs : mrun seg entry (Mode false false) demo_choices (pstart mem0 2) = Some demo_end.
Proof. vm_compute. reflexivity. Qed.
Lemma demo_reach : pipe_reach (Mode false false) mem0 2 demo_end.
Proof. exact (mrun_sound _ _ _ demo_choices _ _ demo_runs). Qed.

Lemma pipe_fifo_witness :
  history ev_written (log demo_end) = history ev_read (log demo_end) ++ contents (data demo_end) ∧ lenZ (contents (data demo_end)) ≤ PIPESIZE.
Proof. exact (pipe_fifo (Mode false false) mem0 2 demo_end eq_refl demo_reach). Defined.
(** A reader that sleeps on an empty pipe. *)
Definition sleep_choices : list (choice ppc) := [Start 0 (PRead 0 1); Run 0 []].
Definition sleep_end : pconfig := default (pstart mem0 2) (mrun seg entry (Mode false false) sleep_choices (pstart mem0 2)).
Lemma sleep_runs : mrun seg entry (Mode false false) sleep_choices (pstart mem0 2) = Some sleep_end.
Proof. vm_compute. reflexivity. Qed.

Lemma pipe_no_lost_wakeup_witness : reason (data sleep_end) NREAD.
Proof.
  eapply (pipe_no_lost_wakeup (Mode false false) mem0 2 sleep_end eq_refl (mrun_sound _ _ _ sleep_choices _ _ sleep_runs) _ _ 0%nat).
  vm_compute. reflexivity.
  Unshelve.
  - vm_compute. reflexivity.
  - assert (killed (data sleep_end) = [false; false]) as E by (vm_compute; reflexivity). rewrite E. repeat constructor.
Defined.

Definition lost_choices : list (choice ppc) :=
  [Start 0 (PRead 0 1); Run 0 []; Start 2 (PKill 2 1); Run 2 []; Start 1 (PWrite 1 (replicate 600 7) 600); Run 1 []].
Definition lost_end : pconfig := default (pstart mem0 3) (mrun seg entry (Mode false false) lost_choices (pstart mem0 3)).
Definition asleep_reading (t : nat) (k : pconfig) : bool := match threads k !! t with Some (Blocked NREAD _) => true | _ => false end.

(** A writer that was killed returns when the buffer is full without waking
    the readers: a reader can sleep on a pipe with PIPESIZE bytes in it. *)
Theorem pipe_killed_writer_no_wakeup :
  ∃ k, pipe_reach (Mode false false) mem0 3 k ∧ asleep_reading 0 k = true ∧ full (data k) = true ∧ writeopen (data k) = true.
Proof.
  exists lost_end. split; [|vm_compute; repeat split; reflexivity].
  apply (mrun_sound _ _ _ lost_choices). vm_compute. reflexivity.
Qed.
