(* ===== verification/Bio.v ===== *)
(** * Sleep locks, the disk driver and the buffer cache of xv6
      (sleeplock.c, ide.c, bio.c)

    The state is what one kernel thread sees while it works on the disk: the
    spin locks it holds, the buffers with the links of their LRU list, the
    queue of the disk driver and the disks.  While the thread sleeps for the
    disk, the interrupt handler runs.  [trace] keeps all writes that reached a
    disk, in order. *)

From S2P Require Import Prelude Bytes.

Definition BSIZE : nat := 512.
Definition FSSIZE : Z := 1000.
Definition NBUF : nat := 30.
Definition B_VALID : Z := 2.
Definition B_DIRTY : Z := 4.

(** [struct sleeplock], src/hw3/xv6/sleeplock.h:2-9
    Its spin lock is known by its address. *)
Record sleeplock := Sleeplock { slocked : bool; spid : Z }.

(** [struct buf], src/hw3/xv6/buf.h:1-11
    [prev] and [next] are positions in [cache]; the disk queue through [qnext]
    is the list [ideq]. *)
Record buf := Buf {
  flags : Z; dev : Z; blockno : Z; lk : sleeplock; refcnt : Z;
  prev : nat; next : nat; data : list Z
}.

Definition set_flags (x : Z) (b : buf) := Buf x (dev b) (blockno b) (lk b) (refcnt b) (prev b) (next b) (data b).
Definition set_lk (x : sleeplock) (b : buf) := Buf (flags b) (dev b) (blockno b) x (refcnt b) (prev b) (next b) (data b).
Definition set_refcnt (x : Z) (b : buf) := Buf (flags b) (dev b) (blockno b) (lk b) x (prev b) (next b) (data b).
Definition set_prev (x : nat) (b : buf) := Buf (flags b) (dev b) (blockno b) (lk b) (refcnt b) x (next b) (data b).
Definition set_next (x : nat) (b : buf) := Buf (flags b) (dev b) (blockno b) (lk b) (refcnt b) (prev b) x (data b).
Definition set_data (x : list Z) (b : buf) := Buf (flags b) (dev b) (blockno b) (lk b) (refcnt b) (prev b) (next b) x.
Definition set_block (d n : Z) (b : buf) := Buf (flags b) d n (lk b) (refcnt b) (prev b) (next b) (data b).

(** [bcache], src/hw3/xv6/bio.c:29-36
    [cache] holds the [NBUF] buffers and then the list head, at [HEAD]. *)
Record bio := Bio {
  spin : gset Z;                        (* addresses of the spin locks held *)
  cache : list buf;
  ideq : list nat;                      (* idequeue *)
  havedisk1 : bool;
  disks : gmap Z (list (list Z));
  trace : list (Z * Z * list Z);
  me : Z                                (* myproc()->pid *)
}.
Definition HEAD : nat := NBUF.

Definition set_spin (x : gset Z) (s : bio) := Bio x (cache s) (ideq s) (havedisk1 s) (disks s) (trace s) (me s).
Definition set_cache (x : list buf) (s : bio) := Bio (spin s) x (ideq s) (havedisk1 s) (disks s) (trace s) (me s).
Definition set_ideq (x : list nat) (s : bio) := Bio (spin s) (cache s) x (havedisk1 s) (disks s) (trace s) (me s).
Definition set_disks (x : gmap Z (list (list Z))) (s : bio) := Bio (spin s) (cache s) (ideq s) (havedisk1 s) x (trace s) (me s).
Definition set_trace (x : list (Z * Z * list Z)) (s : bio) := Bio (spin s) (cache s) (ideq s) (havedisk1 s) (disks s) x (me s).

(** ** Locks *)

(** acquire and release of spinlock.c, for one thread: taking a lock it holds
    and releasing one it does not hold are the panics they check for. *)
Definition acquire (a : Z) : M bio unit := λ s,
  if decide (a ∈ spin s) then Fail (Panic "acquire") s else Ret tt (set_spin ({[a]} ∪ spin s) s).
Definition release (a : Z) : M bio unit := λ s,
  if decide (a ∈ spin s) then Ret tt (set_spin (spin s ∖ {[a]}) s) else Fail (Panic "release") s.

Definition BCACHELOCK : Z := 0.
Definition IDELOCK : Z := 1.
Definition lkaddr (i : nat) : Z := 100 + Z.of_nat i.   (* &bcache.buf[i].lock.lk *)

Definition get_buf (i : nat) : M bio buf := s ← getS; of_option (cache s !! i).
Definition upd_buf (i : nat) (f : buf → buf) : M bio unit :=
  b ← get_buf i; modify (λ s, set_cache (<[i := f b]> (cache s)) s).

(** [initsleeplock], src/hw3/xv6/sleeplock.c:13-20 *)
Definition initsleeplock : sleeplock := Sleeplock false 0.

(** [acquiresleep], src/hw3/xv6/sleeplock.c:22-32
    Of the lock of buffer [i]; it sleeps while another thread has the lock. *)
Definition acquiresleep (i : nat) : M bio unit :=
  acquire (lkaddr i);;
  b ← get_buf i;
  (if slocked (lk b) then fail (Sleep (lkaddr i)) else mret tt);;
  pid ← gets me;
  upd_buf i (set_lk (Sleeplock true pid));;
  release (lkaddr i).

(** [releasesleep], src/hw3/xv6/sleeplock.c:34-42 *)
Definition releasesleep (i : nat) : M bio unit :=
  acquire (lkaddr i);;
  upd_buf i (set_lk (Sleeplock false 0));;
  release (lkaddr i).

(** [holdingsleep], src/hw3/xv6/sleeplock.c:44-53 *)
Definition holdingsleep (i : nat) : M bio bool :=
  acquire (lkaddr i);;
  b ← get_buf i; pid ← gets me;
  release (lkaddr i);;
  mret (slocked (lk b) && (spid (lk b) =? pid)).

(** ** The disk driver *)

Definition get_block (d n : Z) : M bio (list Z) :=
  s ← getS; bl ← of_option (disks s !! d); of_option (getZ bl n).
Definition put_block (d n : Z) (x : list Z) : M bio unit :=
  s ← getS; bl ← of_option (disks s !! d); _ ← of_option (getZ bl n);
  putS (set_trace (trace s ++ [(d, n, x)]) (set_disks (<[d := setZ bl n x]> (disks s)) s)).

(** [idestart], src/hw3/xv6/ide.c:72-100
    A write hands the data to the disk here. *)
Definition idestart (i : nat) : M bio unit :=
  b ← get_buf i;
  panic_unless (blockno b <? FSSIZE) "incorrect blockno";;
  if negb (Z.land (flags b) B_DIRTY =? 0) then put_block (dev b) (blockno b) (data b) else mret tt.

(** [ideintr], src/hw3/xv6/ide.c:102-131
    The disk reports no error. *)
Definition ideintr : M bio unit :=
  acquire IDELOCK;;
  q ← gets ideq;
  match q with
  | [] => release IDELOCK
  | i :: q' =>
      modify (set_ideq q');;
      b ← get_buf i;
      (if Z.land (flags b) B_DIRTY =? 0
       then x ← get_block (dev b) (blockno b); upd_buf i (set_data x) else mret tt);;
      upd_buf i (λ b, set_flags (Z.lor (flags b) B_VALID) b);;
      upd_buf i (λ b, set_flags (Z.land (flags b) (Z.lnot B_DIRTY)) b);;
      (match q' with j :: _ => idestart j | [] => mret tt end);;
      release IDELOCK
  end.

(** [iderw: waiting for the request], src/hw3/xv6/ide.c:161-164
    sleep releases idelock, the interrupts come, and it is taken again. *)
Fixpoint ide_wait (fuel : nat) (i : nat) : M bio unit :=
  b ← get_buf i;
  if Z.land (flags b) (Z.lor B_VALID B_DIRTY) =? B_VALID then mret tt
  else match fuel with
       | O => fail OutOfFuel
       | S fuel' => release IDELOCK;; ideintr;; acquire IDELOCK;; ide_wait fuel' i
       end.

(** [iderw], src/hw3/xv6/ide.c:137-168 *)
Definition iderw (i : nat) : M bio unit :=
  h ← holdingsleep i;
  panic_unless h "iderw: buf not locked";;
  b ← get_buf i;
  panic_unless (negb (Z.land (flags b) (Z.lor B_VALID B_DIRTY) =? B_VALID)) "iderw: nothing to do";;
  hd ← gets havedisk1;
  panic_unless (negb (negb (dev b =? 0) && negb hd)) "iderw: ide disk 1 not present";;
  acquire IDELOCK;;
  q ← gets ideq;
  modify (set_ideq (q ++ [i]));;
  (if bool_decide (q = []) then idestart i else mret tt);;
  ide_wait (S (length q)) i;;
  release IDELOCK.

(** ** The buffer cache *)

(** [binit: one buffer], src/hw3/xv6/bio.c:50-54 *)
Definition binit_buf (i : nat) : M bio unit :=
  h ← get_buf HEAD;
  upd_buf i (set_next (next h));;
  upd_buf i (set_prev HEAD);;
  upd_buf i (set_lk initsleeplock);;
  upd_buf (next h) (set_prev i);;
  upd_buf HEAD (set_next i).

(** [binit], src/hw3/xv6/bio.c:38-56 *)
Definition binit : M bio unit :=
  modify (λ s, set_spin (spin s ∖ {[BCACHELOCK]}) s);;
  upd_buf HEAD (set_prev HEAD);;
  upd_buf HEAD (set_next HEAD);;
  for_ (R := unit) NBUF 0 (λ i, binit_buf i;; mret None);;
  mret tt.

(** [bget: looking for the block], src/hw3/xv6/bio.c:68-76 *)
Fixpoint bget_find (fuel : nat) (d n : Z) (i : nat) : M bio (option nat) :=
  if decide (i = HEAD) then mret None
  else match fuel with
       | O => fail OutOfFuel
       | S fuel' =>
           b ← get_buf i;
           if (dev b =? d) && (blockno b =? n) then mret (Some i) else bget_find fuel' d n (next b)
       end.

(** [bget: looking for an unused buffer], src/hw3/xv6/bio.c:78-91 *)
Fixpoint bget_unused (fuel : nat) (i : nat) : M bio (option nat) :=
  if decide (i = HEAD) then mret None
  else match fuel with
       | O => fail OutOfFuel
       | S fuel' =>
           b ← get_buf i;
           if (refcnt b =? 0) && (Z.land (flags b) B_DIRTY =? 0) then mret (Some i)
           else bget_unused fuel' (prev b)
       end.

(** [bget], src/hw3/xv6/bio.c:58-93 *)
Definition bget (d n : Z) : M bio nat :=
  acquire BCACHELOCK;;
  h ← get_buf HEAD;
  r ← bget_find NBUF d n (next h);
  match r with
  | Some i =>
      upd_buf i (λ b, set_refcnt (u32 (refcnt b + 1)) b);;
      release BCACHELOCK;;
      acquiresleep i;;
      mret i
  | None =>
      r ← bget_unused NBUF (prev h);
      match r with
      | Some i =>
          upd_buf i (set_block d n);;
          upd_buf i (set_flags 0);;
          upd_buf i (set_refcnt 1);;
          release BCACHELOCK;;
          acquiresleep i;;
          mret i
      | None => fail (Panic "bget: no buffers")
      end
  end.

(** [bread], src/hw3/xv6/bio.c:95-106 *)
Definition bread (d n : Z) : M bio nat :=
  i ← bget d n;
  b ← get_buf i;
  (if Z.land (flags b) B_VALID =? 0 then iderw i else mret tt);;
  mret i.

(** [bwrite], src/hw3/xv6/bio.c:108-116 *)
Definition bwrite (i : nat) : M bio unit :=
  h ← holdingsleep i;
  panic_unless h "bwrite";;
  upd_buf i (λ b, set_flags (Z.lor (flags b) B_DIRTY) b);;
  iderw i.

(** [brelse: moving the buffer to the front], src/hw3/xv6/bio.c:130-138 *)
Definition to_front (i : nat) : M bio unit :=
  b ← get_buf i;
  upd_buf (next b) (set_prev (prev b));;
  b ← get_buf i;
  upd_buf (prev b) (set_next (next b));;
  h ← get_buf HEAD;
  upd_buf i (set_next (next h));;
  upd_buf i (set_prev HEAD);;
  h ← get_buf HEAD;
  upd_buf (next h) (set_prev i);;
  upd_buf HEAD (set_next i).

(** [brelse], src/hw3/xv6/bio.c:118-141 *)
Definition brelse (i : nat) : M bio unit :=
  h ← holdingsleep i;
  panic_unless h "brelse";;
  releasesleep i;;
  acquire BCACHELOCK;;
  upd_buf i (λ b, set_refcnt (u32 (refcnt b - 1)) b);;
  b ← get_buf i;
  (if refcnt b =? 0 then to_front i else mret tt);;
  release BCACHELOCK.
