(* ===== verification/BioList.v ===== *)
(** * The LRU list of the buffer cache (bio.c)

    The buffers are linked in a ring through [next] and [prev], with the list
    head at [HEAD].  [ring c order] says that the links of the cache [c] go
    through the buffers in [order]; [to_front] moves one to the front. *)

From S2P Require Import Prelude Bytes Bio.

(** [v] follows [u]. *)
Definition link (c : list buf) (u v : nat) : Prop :=
  (∃ b, c !! u = Some b ∧ next b = v) ∧ (∃ b, c !! v = Some b ∧ prev b = u).

Fixpoint chain (c : list buf) (l : list nat) : Prop :=
  match l with
  | u :: (v :: _) as l' => link c u v ∧ chain c l'
  | _ => True
  end.

Definition ring (c : list buf) (order : list nat) : Prop :=
  chain c (HEAD :: order ++ [HEAD]) ∧ NoDup (HEAD :: order).

Lemma chain_cons c u v l : chain c (u :: v :: l) ↔ link c u v ∧ chain c (v :: l).
Proof. done. Qed.

Lemma chain_app c l1 x l2 : chain c (l1 ++ x :: l2) ↔ chain c (l1 ++ [x]) ∧ chain c (x :: l2).
Proof.
  induction l1 as [|u l1 IH]; cbn [app].
  - split; [intros H; split; [done|exact H]|by intros [_ H]].
  - destruct l1 as [|v l1]; cbn [app] in *.
    + rewrite !chain_cons. cbn. tauto.
    + rewrite !(chain_cons c u v). rewrite IH. tauto.
Qed.

(** What a chain depends on: the [next] of all but its last element and the
    [prev] of all but its first. *)
Lemma chain_ext c c' l :
  (∀ u b, u ∈ removelast l → c !! u = Some b → ∃ b', c' !! u = Some b' ∧ next b' = next b) →
  (∀ u b, u ∈ tail l → c !! u = Some b → ∃ b', c' !! u = Some b' ∧ prev b' = prev b) →
  chain c l → chain c' l.
Proof.
  induction l as [|u l IH]; [done|]. destruct l as [|v l]; [done|]. intros Hn Hp. rewrite !chain_cons.
  intros [[(b & Hb & Hv) (b2 & Hb2 & Hu)] Hc]. split; [split|].
  - destruct (Hn u b) as (b' & Hb' & He); [by left|done|]. exists b'. split; [done|congruence].
  - destruct (Hp v b2) as (b' & Hb' & He); [by left|done|]. exists b'. split; [done|congruence].
  - apply IH; [|..|done].
    + intros w bw Hw. apply Hn. cbn. by right.
    + intros w bw Hw. apply Hp. cbn. by right.
Qed.

Lemma chain_ext_same c c' l :
  (∀ u b, c !! u = Some b → ∃ b', c' !! u = Some b' ∧ next b' = next b ∧ prev b' = prev b) →
  chain c l → chain c' l.
Proof. intros Hs. apply chain_ext; intros u b _ Hb; destruct (Hs u b Hb) as (b' & ? & ? & ?); by exists b'. Qed.

(** An update of the link out of [y], or into [y]. *)
Lemma chain_set_next c l y x b : c !! y = Some b → y ∉ removelast l → chain c l → chain (<[y := set_next x b]> c) l.
Proof.
  intros Hb Hy. apply chain_ext; intros u bu Hu Hbu.
  - exists bu. rewrite list_lookup_insert_ne by (intros ->; done). done.
  - destruct (decide (u = y)) as [->|]; [|exists bu; by rewrite list_lookup_insert_ne].
    exists (set_next x b). rewrite list_lookup_insert_eq by (by eapply lookup_lt_Some). split; [done|]. by simplify_eq.
Qed.
Lemma chain_set_prev c l y x b : c !! y = Some b → y ∉ tail l → chain c l → chain (<[y := set_prev x b]> c) l.
Proof.
  intros Hb Hy. apply chain_ext; intros u bu Hu Hbu.
  - destruct (decide (u = y)) as [->|]; [|exists bu; by rewrite list_lookup_insert_ne].
    exists (set_prev x b). rewrite list_lookup_insert_eq by (by eapply lookup_lt_Some). split; [done|]. by simplify_eq.
  - exists bu. rewrite list_lookup_insert_ne by (intros ->; done). done.
Qed.

(** ** Removing an element and putting it in front *)

Lemma removelast_snoc {A} (l : list A) x : removelast (l ++ [x]) = l.
Proof. apply removelast_last. Qed.

(** Updates of a slot that leave its links. *)
Lemma ring_same c order i b b' :
  c !! i = Some b → next b' = next b → prev b' = prev b → ring c order → ring (<[i := b']> c) order.
Proof.
  intros Hb Hn Hp [Hc Hnd]. split; [|done]. eapply chain_ext_same; [|exact Hc]. intros u bu Hu.
  destruct (decide (u = i)) as [->|]; [|exists bu; by rewrite list_lookup_insert_ne].
  exists b'. rewrite list_lookup_insert_eq by (by eapply lookup_lt_Some). by simplify_eq.
Qed.

Definition core (b : buf) : buf := set_prev 0 (set_next 0 b).

(** Running an update of one buffer. *)
Lemma wp_get_buf i b Q s : cache s !! i = Some b → Q b s → wp (get_buf i) Q s.
Proof. intros Hb HQ. apply wp_bind, wp_of_option with b; done. Qed.
Lemma wp_upd_buf i b f Q s :
  cache s !! i = Some b → Q tt (set_cache (<[i := f b]> (cache s)) s) → wp (upd_buf i f) Q s.
Proof. intros Hb HQ. apply wp_bind, wp_get_buf with b; done. Qed.

Lemma core_insert (c : list buf) i b b' : c !! i = Some b → core b' = core b → core <$> <[i := b']> c = core <$> c.
Proof.
  intros Hb He. rewrite list_fmap_insert, He. apply list_insert_id. by rewrite list_lookup_fmap, Hb.
Qed.

Lemma next_insert (c : list buf) y b' u b : <[y := b']> c !! u = Some b → (u = y ∧ b = b') ∨ (u ≠ y ∧ c !! u = Some b).
Proof.
  destruct (decide (u = y)) as [->|Hne]; [|rewrite list_lookup_insert_ne by done; by right].
  intros Hb. left. split; [done|]. apply list_lookup_insert_Some in Hb as [(_ & ? & _)|[? _]]; done.
Qed.

(** The neighbours of [i] in the ring, and what they are not. *)
Lemma ring_split c l1 i l2 bi :
  ring c (l1 ++ i :: l2) → c !! i = Some bi →
  ∃ p q bv bu, HEAD :: l1 = p ++ [prev bi] ∧ l2 ++ [HEAD] = next bi :: q ∧
    c !! next bi = Some bv ∧ c !! prev bi = Some bu ∧ i ≠ next bi ∧ i ≠ prev bi ∧
    chain c (HEAD :: l1) ∧ chain c (l2 ++ [HEAD]) ∧
    (next bi ∉ l1) ∧ (next bi ∉ q) ∧ (prev bi ∉ p) ∧ (prev bi ∉ l2) ∧ (i ∉ HEAD :: l1 ++ l2) ∧ NoDup (HEAD :: l1 ++ l2).
Proof.
  intros [Hc Hnd] Hi. rewrite <- app_assoc in Hc. cbn in Hc. change (chain c ((HEAD :: l1) ++ i :: (l2 ++ [HEAD]))) in Hc.
  destruct (exists_last (l := HEAD :: l1)) as (p & u & Hpu); [done|].
  assert (∃ v q, l2 ++ [HEAD] = v :: q) as (v & q & Hvq) by (destruct l2 as [|v l2]; [by exists HEAD, []|by exists v, (l2 ++ [HEAD])]).
  rewrite Hpu, Hvq, <- app_assoc in Hc. cbn in Hc.
  apply chain_app in Hc as [Hcu [[(bu & Hbu & _) (bi1 & Hi1 & Hpi)] [[(bi2 & Hi2 & Hni) (bv & Hbv & _)] Hcv]]].
  assert (bi1 = bi) as -> by congruence. assert (bi2 = bi) as -> by congruence. subst u v.
  rewrite <- Hpu in Hcu. rewrite <- Hvq in Hcv.
  assert (NoDup ((p ++ [prev bi]) ++ i :: l2)) as N by (rewrite <- Hpu; exact Hnd).
  assert (NoDup (HEAD :: l1 ++ l2)) as N1.
  { apply NoDup_cons in Hnd as [H1 H2]. apply NoDup_cons. rewrite NoDup_app in *. rewrite elem_of_app, elem_of_cons in H1.
    rewrite elem_of_app. destruct H2 as (H2 & H3 & [H4 H5]%NoDup_cons). split; [tauto|]. split_and!; [done| |done].
    intros x Hx Hx2. apply (H3 x Hx). by right. }
  assert (i ∉ HEAD :: l1 ++ l2) as N2.
  { rewrite app_comm_cons, Hpu, elem_of_app. apply NoDup_app in N as (_ & H3 & [H4 _]%NoDup_cons).
    intros [Hx|Hx]; [|done]. apply (H3 i Hx). by left. }
  assert (NoDup (l2 ++ [HEAD])) as N3.
  { apply NoDup_cons in N1 as [H1 [_ [_ H2]]%NoDup_app]. rewrite elem_of_app in H1. apply NoDup_app. split_and!; [done| |apply NoDup_singleton].
    intros x Hx ->%list_elem_of_singleton. tauto. }
  assert (next bi ∈ l2 ++ [HEAD]) as Hv by (rewrite Hvq; by left).
  assert (prev bi ∈ HEAD :: l1) as Hu by (rewrite Hpu; apply elem_of_app; right; by left).
  rewrite elem_of_app, list_elem_of_singleton in Hv. rewrite elem_of_cons in Hu. rewrite elem_of_cons, elem_of_app in N2.
  apply NoDup_cons in N1 as N1'. destruct N1' as [H1 (_ & H2 & _)%NoDup_app]. rewrite elem_of_app in H1.
  exists p, q, bv, bu. split_and!; try done.
  - intros Hx. apply N2. rewrite Hx. tauto.
  - intros Hx. apply N2. rewrite Hx. tauto.
  - intros Hx. destruct Hv as [Hv|Hv]; [by apply (H2 _ Hx)|]. rewrite Hv in Hx. tauto.
  - rewrite Hvq in N3. by apply NoDup_cons in N3 as [? _].
  - rewrite <- Hpu in N. apply NoDup_app in N as [_ _]. intros Hx.
    assert (NoDup (p ++ [prev bi])) as N4 by (rewrite <- Hpu; apply NoDup_cons in Hnd as [Ha [Hb _]%NoDup_app]; apply NoDup_cons; rewrite elem_of_app in Ha; tauto).
    apply NoDup_app in N4 as (_ & Hd & _). apply (Hd _ Hx). by left.
  - intros Hx. destruct Hu as [Hu|Hu]; [rewrite Hu in Hx; tauto|by apply (H2 _ Hu)].
  - rewrite elem_of_cons, elem_of_app. tauto.
Qed.

(** Taking [i] out: its neighbours are linked with each other. *)
Lemma unlink_ring c l1 i l2 bi :
  ring c (l1 ++ i :: l2) → c !! i = Some bi →
  ∃ bv bu, c !! next bi = Some bv ∧
    let c1 := <[next bi := set_prev (prev bi) bv]> c in
    c1 !! i = Some bi ∧ c1 !! prev bi = Some bu ∧
    let c2 := <[prev bi := set_next (next bi) bu]> c1 in
    c2 !! i = Some bi ∧ core <$> c2 = core <$> c ∧ ring c2 (l1 ++ l2) ∧ i ∉ HEAD :: l1 ++ l2.
Proof.
  intros Hr Hi.
  destruct (ring_split c l1 i l2 bi Hr Hi) as (p & q & bv & bu0 & Hpu & Hvq & Hbv & Hbu0 & Hiv & Hiu & Hc1 & Hc2 & N1 & N2 & N3 & N4 & N5 & N6).
  set (c1 := <[next bi := set_prev (prev bi) bv]> c).
  assert (next bi < length c)%nat as Hlv by (by eapply lookup_lt_Some). assert (prev bi < length c)%nat as Hlu by (by eapply lookup_lt_Some).
  destruct (lookup_lt_is_Some_2 c1 (prev bi)) as [bu Hbu]; [subst c1; by rewrite length_insert|].
  exists bv, bu. split; [done|]. cbn zeta. fold c1.
  assert (c1 !! i = Some bi) as Hi1 by (subst c1; by rewrite list_lookup_insert_ne).
  split_and!; [done|done|by rewrite list_lookup_insert_ne| | |done].
  { rewrite (core_insert c1 (prev bi) bu); [|done|done]. subst c1. by apply core_insert with bv. }
  set (c2 := <[prev bi := set_next (next bi) bu]> c1). split; [|done].
  rewrite <- app_assoc, Hvq, app_comm_cons, Hpu, <- app_assoc. cbn [app]. apply chain_app. rewrite chain_cons.
  rewrite <- Hpu, <- Hvq. split; [|split].
  - apply chain_set_next; [done|rewrite Hpu, removelast_snoc; done|]. apply chain_set_prev; done.
  - assert (prev bi < length c1)%nat by (subst c1; by rewrite length_insert). split.
    + exists (set_next (next bi) bu). split; [|done]. subst c2. by rewrite list_lookup_insert_eq.
    + destruct (decide (next bi = prev bi)) as [He|Hne].
      * exists (set_next (next bi) bu). subst c2. rewrite He at 1. rewrite list_lookup_insert_eq by done. split; [done|].
        subst c1. rewrite He in Hbu at 1. rewrite list_lookup_insert_eq in Hbu by done. by injection Hbu as <-.
      * exists (set_prev (prev bi) bv). subst c2. rewrite list_lookup_insert_ne by done. subst c1. by rewrite list_lookup_insert_eq.
  - apply chain_set_next; [done|by rewrite removelast_snoc|]. apply chain_set_prev; [done| |done]. by rewrite Hvq.
Qed.

(** Putting [i], which is in no chain, in front. *)
Lemma push_ring c l i bi :
  ring c l → c !! i = Some bi → i ∉ (HEAD :: l) →
  ∃ bh bw, c !! HEAD = Some bh ∧
    let c4 := <[i := set_prev HEAD (set_next (next bh) bi)]> c in
    c4 !! HEAD = Some bh ∧ c4 !! next bh = Some bw ∧
    let c5 := <[next bh := set_prev i bw]> c4 in
    ∃ bh', c5 !! HEAD = Some bh' ∧
    let c6 := <[HEAD := set_next i bh']> c5 in
    core <$> c6 = core <$> c ∧ ring c6 (i :: l).
Proof.
  intros [Hc Hnd] Hi Hni. assert (i ≠ HEAD ∧ i ∉ l) as [Hih Hil] by (rewrite elem_of_cons in Hni; tauto).
  assert (∃ w q, l ++ [HEAD] = w :: q) as (w & q & Hwq) by (destruct l as [|w l]; [by exists HEAD, []|by exists w, (l ++ [HEAD])]).
  pose proof Hc as Hc0. rewrite Hwq in Hc0. destruct Hc0 as [[(bh & Hbh & <-) (bw0 & Hbw0 & _)] Hcw].
  assert (i ≠ next bh) as Hiw.
  { intros Hx. assert (i ∈ l ++ [HEAD]) as Hin by (rewrite Hwq, Hx; by left). rewrite elem_of_app, list_elem_of_singleton in Hin. tauto. }
  assert (next bh ∉ q) as Hwn.
  { assert (NoDup (l ++ [HEAD])) as N; [|rewrite Hwq in N; by apply NoDup_cons in N as [? _]].
    apply NoDup_cons in Hnd as [H1 H2]. apply NoDup_app. split_and!; [done| |apply NoDup_singleton]. intros x Hx ->%list_elem_of_singleton. done. }
  set (c4 := <[i := set_prev HEAD (set_next (next bh) bi)]> c).
  assert (c4 !! HEAD = Some bh) as H4h by (subst c4; by rewrite list_lookup_insert_ne).
  assert (c4 !! next bh = Some bw0) as H4w by (subst c4; by rewrite list_lookup_insert_ne).
  exists bh, bw0. split; [done|]. cbn zeta. fold c4. split; [done|]. split; [done|].
  set (c5 := <[next bh := set_prev i bw0]> c4).
  assert (HEAD < length c5)%nat as Hhl by (subst c5 c4; rewrite !length_insert; by eapply lookup_lt_Some).
  assert (next bh < length c4)%nat as Hwl by (by eapply lookup_lt_Some).
  destruct (lookup_lt_is_Some_2 c5 HEAD Hhl) as [bh' Hbh']. exists bh'. split; [done|].
  set (c6 := <[HEAD := set_next i bh']> c5).
  assert (c6 !! i = Some (set_prev HEAD (set_next (next bh) bi))) as H6i.
  { subst c6 c5 c4. rewrite !list_lookup_insert_ne by done. apply list_lookup_insert_eq. by eapply lookup_lt_Some. }
  split.
  { subst c6. rewrite (core_insert c5 HEAD bh'); [|done|done]. subst c5. rewrite (core_insert c4 (next bh) bw0); [|done|done].
    subst c4. by apply core_insert with bi. }
  split; [|apply NoDup_cons; split; [rewrite elem_of_cons; apply NoDup_cons in Hnd as [? _]; naive_solver|apply NoDup_cons; split; [done|by apply NoDup_cons in Hnd as [_ ?]]]].
  cbn [app]. rewrite Hwq, !chain_cons. split; [|split].
  - split; [exists (set_next i bh'); split; [subst c6; by rewrite list_lookup_insert_eq|done]|]. exists (set_prev HEAD (set_next (next bh) bi)). done.
  - split; [exists (set_prev HEAD (set_next (next bh) bi)); done|].
    destruct (decide (next bh = HEAD)) as [He|Hne].
    + exists (set_next i bh'). subst c6. rewrite He at 1. rewrite list_lookup_insert_eq by done. split; [done|].
      subst c5. rewrite He in Hbh' at 1. rewrite list_lookup_insert_eq in Hbh' by (by rewrite <- He). by injection Hbh' as <-.
    + exists (set_prev i bw0). subst c6. rewrite list_lookup_insert_ne by done. subst c5. by rewrite list_lookup_insert_eq.
  - apply chain_set_next; [done|rewrite <- Hwq, removelast_snoc; by apply NoDup_cons in Hnd as [? _]|].
    apply chain_set_prev; [done|done|]. eapply chain_ext; [..|exact Hcw]; intros u b Hu Hb; exists b; subst c4;
      (rewrite list_lookup_insert_ne; [done|]); intros <-; apply Hni.
    + rewrite <- Hwq, removelast_snoc in Hu. by right.
    + assert (i ∈ l ++ [HEAD]) as Hin by (rewrite Hwq; by right). rewrite elem_of_app, list_elem_of_singleton in Hin. rewrite elem_of_cons. tauto.
Qed.

Lemma set_cache_twice c c' s : set_cache c (set_cache c' s) = set_cache c s.
Proof. done. Qed.

(** [to_front] moves the buffer to the front and changes nothing but links. *)
Lemma wp_to_front l1 i l2 s Q :
  ring (cache s) (l1 ++ i :: l2) → (∃ b, cache s !! i = Some b) →
  (∀ c', core <$> c' = core <$> cache s → ring c' (i :: l1 ++ l2) → Q tt (set_cache c' s)) →
  wp (to_front i) Q s.
Proof.
  intros Hr [bi Hi] HQ. destruct (unlink_ring _ _ _ _ _ Hr Hi) as (bv & bu & Hbv & H1i & Hbu & H2i & Hcore & Hr2 & Hni).
  unfold to_front. apply wp_bind, wp_get_buf with bi; [done|]. apply wp_bind, wp_upd_buf with bv; [done|].
  apply wp_bind, wp_get_buf with bi; [done|]. apply wp_bind, wp_upd_buf with bu; [done|]. rewrite set_cache_twice. cbn [cache set_cache].
  set (c2 := <[prev bi := _]> _) in *. destruct (push_ring c2 (l1 ++ l2) i bi Hr2 H2i Hni) as (bh & bw & Hbh & H4h & Hbw & bh' & Hbh' & Hcore' & Hr').
  apply wp_bind, wp_get_buf with bh; [done|]. apply wp_bind, wp_upd_buf with bi; [done|]. rewrite set_cache_twice. cbn [cache set_cache].
  assert (i < length c2)%nat as Hil by (by eapply lookup_lt_Some).
  apply wp_bind, wp_upd_buf with (set_next (next bh) bi); [by apply list_lookup_insert_eq|]. rewrite set_cache_twice. cbn [cache set_cache].
  rewrite list_insert_insert_eq. apply wp_bind, wp_get_buf with bh; [done|]. apply wp_bind, wp_upd_buf with bw; [done|].
  rewrite set_cache_twice. cbn [cache set_cache]. apply wp_upd_buf with bh'; [done|]. apply HQ; [|done].
  etransitivity; [exact Hcore'|exact Hcore].
Qed.
