(* ===== verification/BioSpec.v ===== *)
(** * What the buffer cache does (bio.c, ide.c, sleeplock.c)

    Between two operations of a thread that is alone in the disk code, no spin
    lock is held and the disk is idle: the state is [rest c d t m], given by
    the cache, the disks, the trace and the thread's pid. *)

From S2P Require Import Prelude Bytes Bio BioList.

Abbreviation rest c d t m := (Bio ∅ c [] true d t m).

Ltac bsimpl := cbn [spin cache ideq havedisk1 disks trace me set_spin set_cache set_ideq set_disks set_trace].

Lemma wp_bio_acquire a Q c q h d t m : Q tt (Bio {[a]} c q h d t m) → wp (acquire a) Q (Bio ∅ c q h d t m).
Proof.
  intros HQ. unfold wp, acquire. bsimpl. rewrite decide_False by set_solver. unfold set_spin. bsimpl.
  by rewrite (right_id_L ∅ union).
Qed.
Lemma wp_bio_release a Q c q h d t m : Q tt (Bio ∅ c q h d t m) → wp (release a) Q (Bio {[a]} c q h d t m).
Proof.
  intros HQ. unfold wp, release. bsimpl. rewrite decide_True by set_solver. unfold set_spin. bsimpl.
  by replace ({[a]} ∖ {[a]} : gset Z) with (∅ : gset Z) by set_solver.
Qed.

(** The same steps on a state given by its parts. *)
Lemma wp_getb i b Q sp c q h d t m : c !! i = Some b → Q b (Bio sp c q h d t m) → wp (get_buf i) Q (Bio sp c q h d t m).
Proof. intros. by apply wp_get_buf with b. Qed.
Lemma wp_updb i b f Q sp c q h d t m :
  c !! i = Some b → Q tt (Bio sp (<[i := f b]> c) q h d t m) → wp (upd_buf i f) Q (Bio sp c q h d t m).
Proof. intros. by apply wp_upd_buf with b. Qed.
Lemma wp_updb_again i b f Q sp c q h d t m :
  (i < length c)%nat → Q tt (Bio sp (<[i := f b]> c) q h d t m) → wp (upd_buf i f) Q (Bio sp (<[i := b]> c) q h d t m).
Proof.
  intros Hi HQ. apply wp_updb with b; [by apply list_lookup_insert_eq|]. by rewrite list_insert_insert_eq.
Qed.
Lemma wp_setq x Q sp c q h d t m : Q tt (Bio sp c x h d t m) → wp (modify (set_ideq x)) Q (Bio sp c q h d t m).
Proof. done. Qed.

(** ** Sleep locks *)

Definition unlocked : sleeplock := Sleeplock false 0.
Definition locked_by (m : Z) : sleeplock := Sleeplock true m.

Lemma wp_acquiresleep i b c q h d t m Q :
  c !! i = Some b → slocked (lk b) = false →
  Q tt (Bio ∅ (<[i := set_lk (locked_by m) b]> c) q h d t m) → wp (acquiresleep i) Q (Bio ∅ c q h d t m).
Proof.
  intros Hb Hl HQ. apply wp_bind, wp_bio_acquire. apply wp_bind, wp_getb with b; [done|]. rewrite Hl.
  apply wp_bind, wp_ret, wp_bind, wp_gets. apply wp_bind, wp_updb with b; [done|]. by apply wp_bio_release.
Qed.

Lemma wp_releasesleep i b c q h d t m Q :
  c !! i = Some b →
  Q tt (Bio ∅ (<[i := set_lk unlocked b]> c) q h d t m) → wp (releasesleep i) Q (Bio ∅ c q h d t m).
Proof.
  intros Hb HQ. apply wp_bind, wp_bio_acquire. apply wp_bind, wp_updb with b; [done|]. by apply wp_bio_release.
Qed.

Lemma wp_holdingsleep i b c q h d t m Q :
  c !! i = Some b → lk b = locked_by m → Q true (Bio ∅ c q h d t m) → wp (holdingsleep i) Q (Bio ∅ c q h d t m).
Proof.
  intros Hb Hl HQ. apply wp_bind, wp_bio_acquire. apply wp_bind, wp_getb with b; [done|]. apply wp_bind, wp_gets. bsimpl.
  apply wp_bind, wp_bio_release. apply wp_ret. rewrite Hl. cbn. by rewrite Z.eqb_refl.
Qed.

(** ** The disk *)

Definition block_at (d : gmap Z (list (list Z))) (v n : Z) : option (list Z) := bl ← d !! v; getZ bl n.

Lemma wp_get_block v n x Q s : block_at (disks s) v n = Some x → Q x s → wp (get_block v n) Q s.
Proof.
  unfold block_at. destruct (disks s !! v) as [bl|] eqn:Hd; [|done]. cbn. intros Hx HQ.
  apply wp_bind. unfold wp at 1, getS. rewrite Hd. apply wp_bind, wp_ret. rewrite Hx. done.
Qed.

Definition disk_write (d : gmap Z (list (list Z))) (v n : Z) (x : list Z) : gmap Z (list (list Z)) :=
  match d !! v with Some bl => <[v := setZ bl n x]> d | None => d end.

Lemma wp_put_block v n x y Q sp c q h d t m :
  block_at d v n = Some y →
  Q tt (Bio sp c q h (disk_write d v n x) (t ++ [(v, n, x)]) m) → wp (put_block v n x) Q (Bio sp c q h d t m).
Proof.
  unfold block_at, disk_write. destruct (d !! v) as [bl|] eqn:Hd; [|done]. cbn. intros Hx HQ.
  apply wp_bind. unfold wp at 1, getS. bsimpl. rewrite Hd. apply wp_bind, wp_ret. rewrite Hx. apply wp_bind, wp_ret. done.
Qed.

Lemma ide_wait_done fuel i b Q s :
  cache s !! i = Some b → flags b = 2 → Q tt s → wp (ide_wait fuel i) Q s.
Proof.
  intros Hb Hf HQ. destruct fuel; cbn [ide_wait]; apply wp_bind, wp_get_buf with b; try done; rewrite Hf; done.
Qed.

Lemma ide_wait_once fuel i b Q s :
  cache s !! i = Some b → (Z.land (flags b) (Z.lor B_VALID B_DIRTY) =? B_VALID) = false →
  wp (release IDELOCK;; ideintr;; acquire IDELOCK;; ide_wait fuel i) Q s → wp (ide_wait (S fuel) i) Q s.
Proof. intros Hb Hf HQ. apply wp_bind, wp_get_buf with b; [done|]. by rewrite Hf. Qed.

(** A read of a buffer that is not valid. *)
Lemma wp_iderw_read i b x c d t m Q :
  c !! i = Some b → lk b = locked_by m → flags b = 0 → blockno b < FSSIZE →
  block_at d (dev b) (blockno b) = Some x →
  Q tt (rest (<[i := set_flags 2 (set_data x b)]> c) d t m) → wp (iderw i) Q (rest c d t m).
Proof.
  intros Hb Hl Hf Hn Hx HQ. assert (i < length c)%nat as Hi by (by eapply lookup_lt_Some).
  apply wp_bind, wp_holdingsleep with b; [done|done|]. apply wp_bind, wp_panic_unless; [done|].
  apply wp_bind, wp_getb with b; [done|]. apply wp_bind, wp_panic_unless; [by rewrite Hf|].
  apply wp_bind, wp_gets. apply wp_bind, wp_panic_unless; [bsimpl; by rewrite andb_false_r|].
  apply wp_bind, wp_bio_acquire. apply wp_bind, wp_gets, wp_bind, wp_setq. bsimpl. cbn [app length].
  rewrite bool_decide_eq_true_2 by done. apply wp_bind. unfold idestart. apply wp_bind, wp_getb with b; [done|].
  apply wp_bind, wp_panic_unless; [by apply Z.ltb_lt|]. rewrite Hf. cbn [Z.land Z.eqb negb]. apply wp_ret.
  apply wp_bind, ide_wait_once with b; [done|by rewrite Hf|].
  apply wp_bind, wp_bio_release. apply wp_bind. unfold ideintr. apply wp_bind, wp_bio_acquire. apply wp_bind, wp_gets. bsimpl.
  apply wp_bind, wp_setq, wp_bind, wp_getb with b; [done|]. rewrite Hf. cbn [Z.land Z.eqb].
  apply wp_bind, wp_bind, wp_get_block with x; [done|]. apply wp_updb with b; [done|]. bsimpl.
  apply wp_bind, wp_updb_again; [done|]. apply wp_bind, wp_updb_again; [done|].
  apply wp_bind, wp_ret, wp_bio_release. apply wp_bind, wp_bio_acquire. cbn [flags set_flags set_data]. rewrite Hf.
  eapply ide_wait_done; [by apply list_lookup_insert_eq|done|]. by apply wp_bio_release.
Qed.

(** A write of a dirty buffer. *)
Lemma wp_iderw_write i b y c d t m Q :
  c !! i = Some b → lk b = locked_by m → flags b = 4 ∨ flags b = 6 → blockno b < FSSIZE →
  block_at d (dev b) (blockno b) = Some y →
  Q tt (rest (<[i := set_flags 2 b]> c) (disk_write d (dev b) (blockno b) (data b)) (t ++ [(dev b, blockno b, data b)]) m) →
  wp (iderw i) Q (rest c d t m).
Proof.
  intros Hb Hl Hf Hn Hx HQ. assert (i < length c)%nat as Hi by (by eapply lookup_lt_Some).
  assert ((Z.land (flags b) (Z.lor B_VALID B_DIRTY) =? B_VALID) = false) as Hv by (by destruct Hf as [->| ->]).
  assert ((Z.land (flags b) B_DIRTY =? 0) = false) as Hd by (by destruct Hf as [->| ->]).
  assert (Z.land (Z.lor (flags b) B_VALID) (Z.lnot B_DIRTY) = 2) as H2 by (by destruct Hf as [->| ->]).
  apply wp_bind, wp_holdingsleep with b; [done|done|]. apply wp_bind, wp_panic_unless; [done|].
  apply wp_bind, wp_getb with b; [done|]. apply wp_bind, wp_panic_unless; [by rewrite Hv|].
  apply wp_bind, wp_gets. apply wp_bind, wp_panic_unless; [bsimpl; by rewrite andb_false_r|].
  apply wp_bind, wp_bio_acquire. apply wp_bind, wp_gets, wp_bind, wp_setq. bsimpl. cbn [app length].
  rewrite bool_decide_eq_true_2 by done. apply wp_bind. unfold idestart. apply wp_bind, wp_getb with b; [done|].
  apply wp_bind, wp_panic_unless; [by apply Z.ltb_lt|]. rewrite Hd. cbn [negb]. apply wp_put_block with y; [done|].
  apply wp_bind, ide_wait_once with b; [done|done|].
  apply wp_bind, wp_bio_release. apply wp_bind. unfold ideintr. apply wp_bind, wp_bio_acquire. apply wp_bind, wp_gets. bsimpl.
  apply wp_bind, wp_setq, wp_bind, wp_getb with b; [done|]. rewrite Hd. apply wp_bind, wp_ret.
  apply wp_bind, wp_updb with b; [done|]. bsimpl.
  apply wp_bind, wp_updb_again; [done|].
  apply wp_bind, wp_ret, wp_bio_release. apply wp_bind, wp_bio_acquire. cbn [flags set_flags]. rewrite H2.
  eapply ide_wait_done; [by apply list_lookup_insert_eq|done|]. by apply wp_bio_release.
Qed.

(** ** Searching the list *)

Lemma wp_bget_find v n l : ∀ fuel i s Q,
  chain (cache s) (l ++ [HEAD]) → HEAD ∉ l → head (l ++ [HEAD]) = Some i → (length l ≤ fuel)%nat →
  (∀ j b, j ∈ l → cache s !! j = Some b → dev b = v → blockno b = n → Q (Some j) s) →
  ((∀ j b, j ∈ l → cache s !! j = Some b → ¬ (dev b = v ∧ blockno b = n)) → Q None s) →
  wp (bget_find fuel v n i) Q s.
Proof.
  induction l as [|x l IH]; intros fuel i s Q Hc Hni Hi Hf HS HN; cbn [app head] in Hi; injection Hi as <-.
  - destruct fuel; cbn [bget_find]; rewrite decide_True by done; apply wp_ret, HN; by intros j b ?%elem_of_nil.
  - destruct fuel as [|fuel]; [cbn in Hf; lia|]. cbn [bget_find]. rewrite decide_False by (intros ->; apply Hni; by left).
    assert (∃ y, head (l ++ [HEAD]) = Some y) as [y Hy] by (destruct l as [|y l]; [by exists HEAD|by exists y]).
    assert (∃ b, cache s !! x = Some b ∧ next b = y ∧ chain (cache s) (l ++ [HEAD])) as (b & Hb & Hnx & Hc').
    { destruct (l ++ [HEAD]) as [|z l'] eqn:E; [done|]. cbn in Hy. injection Hy as ->. cbn [app] in Hc. rewrite E in Hc.
      destruct Hc as [[(b & Hb & Hn) _] Hc]. by exists b. }
    apply wp_bind, wp_get_buf with b; [done|]. destruct ((dev b =? v) && (blockno b =? n)) eqn:Hm.
    + apply wp_ret. bool_solve. eapply HS; [by left|done..].
    + rewrite Hnx. apply IH; [done|by intros ?; apply Hni; right|done|cbn in Hf; lia|intros j bj Hj; apply HS; by right|].
      intros Hno. apply HN. intros j bj [->|Hj]%elem_of_cons Hbj [Hd Hk]; [|by eapply Hno].
      rewrite Hb in Hbj. injection Hbj as <-. by rewrite Hd, Hk, !Z.eqb_refl in Hm.
Qed.

Definition spare (b : buf) : Prop := refcnt b = 0 ∧ Z.land (flags b) B_DIRTY = 0.

Lemma wp_bget_unused l : ∀ fuel i s Q,
  chain (cache s) (HEAD :: l) → HEAD ∉ l → last (HEAD :: l) = Some i → (length l ≤ fuel)%nat →
  (∀ j b, j ∈ l → cache s !! j = Some b → spare b → Q (Some j) s) →
  ((∀ j b, j ∈ l → cache s !! j = Some b → ¬ spare b) → Q None s) →
  wp (bget_unused fuel i) Q s.
Proof.
  induction l as [|x l IH] using rev_ind; intros fuel i s Q Hc Hni Hi Hf HS HN.
  - cbn in Hi. injection Hi as <-. destruct fuel; cbn [bget_unused]; rewrite decide_True by done; apply wp_ret, HN; by intros j b ?%elem_of_nil.
  - rewrite app_comm_cons, last_snoc in Hi. injection Hi as <-. rewrite length_app in Hf. cbn in Hf.
    destruct fuel as [|fuel]; [lia|]. cbn [bget_unused].
    rewrite decide_False by (intros ->; apply Hni; apply elem_of_app; right; by left).
    destruct (exists_last (l := HEAD :: l)) as (p & u & Hpu); [done|].
    assert (∃ b, cache s !! x = Some b ∧ prev b = u ∧ chain (cache s) (HEAD :: l)) as (b & Hb & Hpv & Hc').
    { rewrite app_comm_cons, Hpu, <- app_assoc in Hc. cbn in Hc. apply chain_app in Hc as [Hc [[_ (b & Hb & Hp)] _]].
      exists b. rewrite Hpu. done. }
    apply wp_bind, wp_get_buf with b; [done|]. destruct ((refcnt b =? 0) && _) eqn:Hm.
    + apply wp_ret. bool_solve. eapply HS; [apply elem_of_app; right; by left|done|by split].
    + rewrite Hpv. apply IH; [done|intros ?; apply Hni, elem_of_app; by left|by rewrite Hpu, last_snoc|lia|intros j bj Hj; apply HS, elem_of_app; by left|].
      intros Hno. apply HN. intros j bj [Hj| ->%list_elem_of_singleton]%elem_of_app Hbj Hs; [by eapply Hno|].
      rewrite Hb in Hbj. injection Hbj as <-. destruct Hs as [Hr Hd]. by rewrite Hr, Hd in Hm.
Qed.

(** ** The cache invariant *)

Definition used (b : buf) : Prop := refcnt b = 1.

Record buf_ok (d : gmap Z (list (list Z))) (m : Z) (b : buf) : Prop := {
  ok_flags : flags b = 0 ∨ flags b = 2 ∨ flags b = 6;
  ok_ref : (refcnt b = 0 ∧ lk b = unlocked) ∨ (refcnt b = 1 ∧ lk b = locked_by m ∧ flags b ≠ 0 ∧ dev b = 1);
  ok_data : dev b = 1 → flags b ≠ 0 → 0 ≤ blockno b < FSSIZE ∧ length (data b) = BSIZE;
  ok_clean : dev b = 1 → flags b = 2 → refcnt b = 0 → block_at d 1 (blockno b) = Some (data b);
  ok_dev : flags b = 6 → dev b = 1
}.

Definition disk_ok (d : gmap Z (list (list Z))) : Prop :=
  ∃ bl, d !! 1 = Some bl ∧ lenZ bl = FSSIZE ∧ Forall (λ x, length x = BSIZE) bl.

Record binv (c : list buf) (d : gmap Z (list (list Z))) (m : Z) : Prop := {
  bi_len : length c = S NBUF;
  bi_ring : ∃ order, ring c order ∧ length order = NBUF ∧ ∀ i, i ∈ order ↔ (i < NBUF)%nat;
  bi_disk : disk_ok d;
  bi_buf i b : (i < NBUF)%nat → c !! i = Some b → buf_ok d m b;
  bi_uniq i j b b' : (i < NBUF)%nat → (j < NBUF)%nat → c !! i = Some b → c !! j = Some b' →
    dev b = 1 → dev b' = 1 → blockno b = blockno b' → i = j
}.

Lemma block_in d n : disk_ok d → 0 ≤ n < FSSIZE → ∃ x, block_at d 1 n = Some x ∧ length x = BSIZE.
Proof.
  intros (bl & Hd & Hl & Hf) Hn. unfold block_at. rewrite Hd. cbn.
  destruct (getZ_is_Some bl n) as [x Hx]; [lia|]. exists x. split; [done|].
  unfold getZ in Hx. destruct (0 <=? n); [|done]. rewrite Forall_lookup in Hf. exact (Hf _ _ Hx).
Qed.

(** What a thread reads as block [n] of the file system's disk. *)
Definition holds (n : Z) (b : buf) : Prop := dev b = 1 ∧ blockno b = n ∧ flags b ≠ 0.
#[global] Instance holds_dec n b : Decision (holds n b).
Proof. unfold holds. apply _. Defined.
Definition vol (c : list buf) (d : gmap Z (list (list Z))) (n : Z) : option (list Z) :=
  match list_find (holds n) (take NBUF c) with
  | Some (_, b) => Some (data b)
  | None => block_at d 1 n
  end.

Lemma vol_cached c d m i b n :
  binv c d m → (i < NBUF)%nat → c !! i = Some b → holds n b → vol c d n = Some (data b).
Proof.
  intros HI Hi Hb Hh. unfold vol. destruct (list_find _ _) as [[j b']|] eqn:Hf.
  - apply list_find_Some in Hf as (Hj & Hh' & _). assert (j < NBUF)%nat as Hjn.
    { apply lookup_lt_Some in Hj. rewrite length_take in Hj. lia. }
    rewrite lookup_take_lt in Hj by done. destruct Hh as (? & ? & _), Hh' as (? & ? & _).
    assert (j = i) as -> by (eapply (bi_uniq _ _ _ HI j i b' b); [done..|congruence]). by simplify_eq.
  - apply list_find_None in Hf. exfalso. rewrite Forall_lookup in Hf. apply (Hf i b); [by rewrite lookup_take_lt|done].
Qed.

Lemma vol_disk c d n :
  (∀ i b, (i < NBUF)%nat → c !! i = Some b → ¬ holds n b) → vol c d n = block_at d 1 n.
Proof.
  intros Hno. unfold vol. destruct (list_find _ _) as [[j b']|] eqn:Hf; [|done].
  apply list_find_Some in Hf as (Hj & Hh' & _). assert (j < NBUF)%nat as Hjn.
  { apply lookup_lt_Some in Hj. rewrite length_take in Hj. lia. }
  rewrite lookup_take_lt in Hj by done. by destruct (Hno j b').
Qed.
