(* ===== verification/BioOps.v ===== *)
(** * The buffer cache as its clients see it

    Each operation of bio.c in terms of what a client may observe: the contents
    [vol] of the disk as seen through the cache, the buffers it holds ([held]),
    the blocks pinned by the log ([dirty]) and how many buffers are to spare. *)

From S2P Require Import Prelude Bytes Bio BioList BioSpec.

Implicit Types (c : list buf) (d : gmap Z (list (list Z))) (n : Z).

(** ** Changing one slot *)

Section slot.
Context (c : list buf) (d : gmap Z (list (list Z))) (m : Z) (i : nat) (b b' : buf).
Hypotheses (HI : binv c d m) (Hi : (i < NBUF)%nat) (Hb : c !! i = Some b).
Hypotheses (Hnx : next b' = next b) (Hpv : prev b' = prev b).

Lemma slot_lookup j bj : <[i := b']> c !! j = Some bj → (j = i ∧ bj = b') ∨ (j ≠ i ∧ c !! j = Some bj).
Proof using Type. apply next_insert. Qed.

(** What remains to be shown for the invariant. *)
Lemma binv_slot d' :
  disk_ok d' → buf_ok d' m b' →
  (dev b' = 1 → ∀ j bj, (j < NBUF)%nat → j ≠ i → c !! j = Some bj → ¬ (dev bj = 1 ∧ blockno bj = blockno b')) →
  (∀ j bj, (j < NBUF)%nat → j ≠ i → c !! j = Some bj → dev bj = 1 → block_at d' 1 (blockno bj) = block_at d 1 (blockno bj)) →
  binv (<[i := b']> c) d' m.
Proof using HI Hi Hb Hnx Hpv.
  intros Hd Hok Hu Hsame. constructor.
  - by rewrite length_insert, (bi_len _ _ _ HI).
  - destruct (bi_ring _ _ _ HI) as (order & Hr & Hl & Hall). exists order. split; [|done]. by apply ring_same with b.
  - done.
  - intros j bj Hj Hbj. apply slot_lookup in Hbj as [[-> ->]|[Hne Hbj]]; [done|].
    destruct (bi_buf _ _ _ HI j bj Hj Hbj) as [H1 H2 H3 H4]. constructor; [done|done|done| |done].
    intros Hv Hf Hr. rewrite (Hsame j bj); auto.
  - intros j k bj bk Hj Hk Hbj Hbk Hdj Hdk He.
    apply slot_lookup in Hbj as [[-> ->]|[Hnj Hbj]], Hbk as [[-> ->]|[Hnk Hbk]]; [done|..].
    + by destruct (Hu Hdj k bk Hk Hnk Hbk).
    + by destruct (Hu Hdk j bj Hj Hnj Hbj).
    + by apply (bi_uniq _ _ _ HI j k bj bk).
Qed.

(** The contents of a block that neither the old nor the new buffer holds. *)
Lemma vol_other d' k :
  binv (<[i := b']> c) d' m → block_at d' 1 k = block_at d 1 k → ¬ holds k b' →
  (holds k b → block_at d 1 k = Some (data b)) → vol (<[i := b']> c) d' k = vol c d k.
Proof using HI Hi Hb.
  clear Hnx Hpv. intros HI' Hbk Hn Hold.
  destruct (list_find (holds k) (take NBUF (<[i := b']> c))) as [[j bj]|] eqn:Hf.
  - apply list_find_Some in Hf as (Hj & Hh & _). assert (j < NBUF)%nat as Hjn.
    { apply lookup_lt_Some in Hj. rewrite length_take in Hj. lia. }
    rewrite lookup_take_lt in Hj by done. apply slot_lookup in Hj as Hj'.
    destruct Hj' as [[-> ->]|[Hne Hj']]; [done|].
    rewrite (vol_cached _ _ m j bj), (vol_cached c d m j bj); done.
  - rewrite (vol_disk (<[i := b']> c)).
    2: { intros j bj Hj Hbj Hh. apply list_find_None in Hf. rewrite Forall_lookup in Hf.
         apply (Hf j bj); [by rewrite lookup_take_lt|done]. }
    destruct (decide (holds k b)) as [Hh|Hh]; [by rewrite (vol_cached c d m i b), Hbk, Hold|].
    rewrite (vol_disk c); [done|]. intros j bj Hj Hbj Hh'. apply list_find_None in Hf. rewrite Forall_lookup in Hf.
    destruct (decide (j = i)) as [->|Hne]; [by simplify_eq|].
    apply (Hf j bj); [|done]. rewrite lookup_take_lt, list_lookup_insert_ne by done. done.
Qed.
End slot.

(** ** What clients see *)

Definition held c (i : nat) n (x : list Z) (f : Z) : Prop :=
  (i < NBUF)%nat ∧ ∃ b, c !! i = Some b ∧ dev b = 1 ∧ blockno b = n ∧ refcnt b = 1 ∧ data b = x ∧ flags b = f.
Definition busy c n : Prop := ∃ i b, (i < NBUF)%nat ∧ c !! i = Some b ∧ dev b = 1 ∧ blockno b = n ∧ refcnt b = 1.
Definition dirty c n : Prop := ∃ i b, (i < NBUF)%nat ∧ c !! i = Some b ∧ dev b = 1 ∧ blockno b = n ∧ flags b = 6.

#[global] Instance spare_dec b : Decision (spare b).
Proof. unfold spare. apply _. Defined.
Definition spares c : nat := length (filter spare (take NBUF c)).
#[global] Arguments spares : simpl never.

Lemma spares_insert c i b b' :
  (i < NBUF)%nat → c !! i = Some b →
  (spares (<[i := b']> c) + (if decide (spare b) then 1 else 0))%nat = (spares c + (if decide (spare b') then 1 else 0))%nat.
Proof.
  intros Hi Hb. unfold spares. rewrite <- (length_filter_insert spare (take NBUF c) i b b') by (by rewrite lookup_take_lt).
  do 3 f_equal. apply list_eq. intros j. destruct (decide (j < NBUF)%nat) as [Hj|Hj].
  - rewrite lookup_take_lt by done. destruct (decide (j = i)) as [->|Hne].
    + rewrite !list_lookup_insert_eq; [done|rewrite length_take|]; apply lookup_lt_Some in Hb; lia.
    + by rewrite !list_lookup_insert_ne, lookup_take_lt by done.
  - rewrite lookup_take_ge by lia. symmetry. apply lookup_ge_None. rewrite length_insert, length_take. lia.
Qed.

Lemma spares_pos c : (0 < spares c)%nat → ∃ i b, (i < NBUF)%nat ∧ c !! i = Some b ∧ spare b.
Proof.
  unfold spares. destruct (filter spare (take NBUF c)) as [|b l] eqn:He; cbn; [lia|]. intros _.
  assert (b ∈ filter spare (take NBUF c)) as Hin by (rewrite He; by left).
  apply list_elem_of_filter in Hin as [Hs [i Hi]%list_elem_of_lookup]. exists i, b.
  assert (i < NBUF)%nat as Hlt by (apply lookup_lt_Some in Hi; rewrite length_take in Hi; lia).
  rewrite lookup_take_lt in Hi by done. done.
Qed.

(** Only slot [i] of the cache changed, and it held no block for the client. *)
Definition others_held c c' : Prop := ∀ j k x f, held c j k x f → held c' j k x f.

Lemma others_insert c i b b' : c !! i = Some b → refcnt b = 0 → others_held c (<[i := b']> c).
Proof.
  intros Hb Hr j k x f [Hj (bj & Hbj & ? & ? & Hr' & Hrest)]. split; [done|]. exists bj.
  rewrite list_lookup_insert_ne; [done|]. intros ->. rewrite Hb in Hbj. injection Hbj as <-. lia.
Qed.

(** ** bget and bread *)

(** The buffer [b] of slot [i] taken for block [n]: it already is the buffer of
    that block, or no buffer is and it was to spare. *)
Definition taken c i b n : Prop :=
  (i < NBUF)%nat ∧ c !! i = Some b ∧ refcnt b = 0 ∧
  ((dev b = 1 ∧ blockno b = n) ∨
   (spare b ∧ ∀ j bj, (j < NBUF)%nat → c !! j = Some bj → ¬ (dev bj = 1 ∧ blockno bj = n))).

Definition got m n b : buf :=
  Buf (if decide (dev b = 1 ∧ blockno b = n) then flags b else 0) 1 n (locked_by m) 1 (prev b) (next b) (data b).

Lemma ring_ends c order :
  ring c order → ∃ bh, c !! HEAD = Some bh ∧ head (order ++ [HEAD]) = Some (next bh) ∧ last (HEAD :: order) = Some (prev bh).
Proof.
  intros [Hc _]. assert (∃ w q, order ++ [HEAD] = w :: q) as (w & q & Hwq) by (destruct order as [|w l]; [by exists HEAD, []|by exists w, (l ++ [HEAD])]).
  destruct (exists_last (l := HEAD :: order)) as (p & u & Hpu); [done|]. pose proof Hc as Hc'.
  rewrite app_comm_cons, Hpu, <- app_assoc in Hc'. cbn in Hc'. apply chain_app in Hc' as [_ [[_ (bh & Hbh & Hp)] _]].
  rewrite Hwq in Hc. destruct Hc as [[(bh' & Hbh' & Hn) _] _]. exists bh. assert (bh' = bh) as -> by congruence.
  rewrite Hpu, last_snoc, Hwq. cbn. subst. done.
Qed.

Lemma wp_bget c d t m n Q :
  binv c d m → 0 ≤ n → ¬ busy c n → (0 < spares c)%nat ∨ (∃ i b, (i < NBUF)%nat ∧ c !! i = Some b ∧ dev b = 1 ∧ blockno b = n) →
  (∀ i b, taken c i b n → Q i (rest (<[i := got m n b]> c) d t m)) →
  wp (bget 1 n) Q (rest c d t m).
Proof.
  intros HI Hn Hb Hroom HQ. destruct (bi_ring _ _ _ HI) as (order & Hr & Hl & Hall).
  destruct (ring_ends _ _ Hr) as (bh & Hbh & Hfst & Hlst). pose proof Hr as [Hc [Hni Hnd]%NoDup_cons].
  assert (chain c (order ++ [HEAD])) as Hcn by (destruct (order ++ [HEAD]) as [|w q]; [done|by destruct Hc]).
  assert (chain c (HEAD :: order)) as Hcp.
  { destruct (exists_last (l := HEAD :: order)) as (p & u & Hpu); [done|].
    rewrite app_comm_cons, Hpu, <- app_assoc in Hc. cbn in Hc. rewrite Hpu. by apply chain_app in Hc as [? _]. }
  apply wp_bind, wp_bio_acquire. apply wp_bind, wp_getb with bh; [done|]. apply wp_bind.
  apply (wp_bget_find 1 n order); [done|done|done|lia|..].
  - intros i b Hi%Hall Hbi Hd Hk. bsimpl. cbn [cache] in Hbi. assert (i < length c)%nat as Hil by (by eapply lookup_lt_Some).
    destruct (bi_buf _ _ _ HI i b Hi Hbi) as [_ [[Hr0 Hl0]|(Hr1 & _)] _ _].
    2: { exfalso. apply Hb. exists i, b. done. }
    apply wp_bind, wp_updb with b; [done|]. apply wp_bind, wp_bio_release. rewrite Hr0.
    apply wp_bind. eapply wp_acquiresleep; [by apply list_lookup_insert_eq|cbn; by rewrite Hl0|].
    rewrite list_insert_insert_eq. apply wp_ret.
    replace (set_lk _ _) with (got m n b).
    { apply HQ. split_and!; [done..|by left]. }
    unfold got. rewrite decide_True by done. unfold set_lk, set_refcnt. cbn. by rewrite Hd, Hk.
  - intros Hno. bsimpl. apply wp_bind. apply (wp_bget_unused order); [done|done|done|lia|..].
    + intros i b Hi%Hall Hbi Hs. cbn [cache] in Hbi. assert (i < length c)%nat as Hil by (by eapply lookup_lt_Some).
      destruct (bi_buf _ _ _ HI i b Hi Hbi) as [_ [[Hr0 Hl0]|(Hr1 & _)] _ _]; [|destruct Hs; lia].
      assert (∀ j bj, (j < NBUF)%nat → c !! j = Some bj → ¬ (dev bj = 1 ∧ blockno bj = n)) as Hno'.
      { intros j bj Hj Hbj. apply (Hno j bj); [by apply Hall|done]. }
      apply wp_bind, wp_updb with b; [done|]. apply wp_bind, wp_updb_again; [done|]. apply wp_bind, wp_updb_again; [done|].
      apply wp_bind, wp_bio_release. apply wp_bind. eapply wp_acquiresleep; [by apply list_lookup_insert_eq|cbn; by rewrite Hl0|].
      rewrite list_insert_insert_eq. apply wp_ret. replace (set_lk _ _) with (got m n b).
      { apply HQ. split_and!; [done..|]. right. done. }
      unfold got. rewrite decide_False by (by apply (Hno' i)). done.
    + intros Hns. exfalso. destruct Hroom as [Hsp|(i & b & Hi & Hbi & Hd & Hk)].
      * destruct (spares_pos c Hsp) as (i & b & Hi & Hbi & Hs). apply (Hns i b); [by apply Hall|done|done].
      * apply (Hno i b); [by apply Hall|done|done].
Qed.

(** What changes when a free buffer is taken for block [n], with contents [x]. *)
Definition loaded m n x f b : buf := Buf f 1 n (locked_by m) 1 (prev b) (next b) x.

Record opened c d m n i x f c' : Prop := {
  op_inv : binv c' d m;
  op_held : held c' i n x f;
  op_flags : (f = 6 ∧ dirty c n) ∨ (f = 2 ∧ ¬ dirty c n ∧ block_at d 1 n = Some x);
  op_x : vol c d n = Some x ∧ length x = BSIZE;
  op_vol k : vol c' d k = vol c d k;
  op_others : others_held c c';
  op_dirty k : dirty c' k ↔ dirty c k;
  op_busy k : busy c' k ↔ busy c k ∨ k = n;
  op_spares : (spares c ≤ S (spares c'))%nat;
  op_pinned : f = 6 → spares c' = spares c
}.

Lemma taken_uniq c d m i b n j bj :
  binv c d m → taken c i b n → (j < NBUF)%nat → c !! j = Some bj → dev bj = 1 → blockno bj = n → j = i.
Proof.
  intros HI (Hi & Hb & _ & [[Hd Hk]|[_ Hno]]) Hj Hbj Hdj Hkj; [|by destruct (Hno j bj)].
  eapply (bi_uniq _ _ _ HI j i bj b); [done..|congruence].
Qed.

Lemma dirty_insert c i b b' k :
  (i < NBUF)%nat → c !! i = Some b →
  (dirty (<[i := b']> c) k ↔ (dev b' = 1 ∧ blockno b' = k ∧ flags b' = 6) ∨ ∃ j bj, j ≠ i ∧ (j < NBUF)%nat ∧ c !! j = Some bj ∧ dev bj = 1 ∧ blockno bj = k ∧ flags bj = 6).
Proof.
  intros Hi Hb. split.
  - intros (j & bj & Hj & Hbj & Hrest). apply next_insert in Hbj as [[-> ->]|[Hne Hbj]]; [by left|]. right. by exists j, bj.
  - intros [Hrest|(j & bj & Hne & Hj & Hbj & Hrest)].
    + exists i, b'. rewrite list_lookup_insert_eq by (by eapply lookup_lt_Some). done.
    + exists j, bj. rewrite list_lookup_insert_ne by done. done.
Qed.
Lemma busy_insert c i b b' k :
  (i < NBUF)%nat → c !! i = Some b →
  (busy (<[i := b']> c) k ↔ (dev b' = 1 ∧ blockno b' = k ∧ refcnt b' = 1) ∨ ∃ j bj, j ≠ i ∧ (j < NBUF)%nat ∧ c !! j = Some bj ∧ dev bj = 1 ∧ blockno bj = k ∧ refcnt bj = 1).
Proof.
  intros Hi Hb. split.
  - intros (j & bj & Hj & Hbj & Hrest). apply next_insert in Hbj as [[-> ->]|[Hne Hbj]]; [by left|]. right. by exists j, bj.
  - intros [Hrest|(j & bj & Hne & Hj & Hbj & Hrest)].
    + exists i, b'. rewrite list_lookup_insert_eq by (by eapply lookup_lt_Some). done.
    + exists j, bj. rewrite list_lookup_insert_ne by done. done.
Qed.

Lemma opened_ok c d m n i b x f :
  binv c d m → 0 ≤ n < FSSIZE → taken c i b n → vol c d n = Some x → length x = BSIZE →
  (f = 6 ∧ dev b = 1 ∧ blockno b = n ∧ flags b = 6) ∨
  (f = 2 ∧ ¬ (dev b = 1 ∧ blockno b = n ∧ flags b = 6) ∧ block_at d 1 n = Some x) →
  opened c d m n i x f (<[i := loaded m n x f b]> c).
Proof.
  intros HI Hn HT Hx Hlx Hf. pose proof HT as (Hi & Hb & Hr0 & Hwhy).
  assert (Huq : ∀ j bj, (j < NBUF)%nat → j ≠ i → c !! j = Some bj → ¬ (dev bj = 1 ∧ blockno bj = n)).
  { intros j bj Hj Hne Hbj [Hd Hk]. exact (Hne (taken_uniq c d m i b n j bj HI HT Hj Hbj Hd Hk)). }
  assert (f = 6 ∨ f = 2) as Hff by (destruct Hf as [[? _]|[? _]]; auto).
  assert (binv (<[i := loaded m n x f b]> c) d m) as HI'.
  { apply (binv_slot c d m i b (loaded m n x f b) HI Hi Hb eq_refl eq_refl d (bi_disk _ _ _ HI)); [|intros _; exact Huq|done]. constructor; cbn.
    - lia.
    - right. split_and!; [done|done|lia|done].
    - done.
    - lia.
    - done. }
  assert (¬ (dirty c n) ∨ (dev b = 1 ∧ blockno b = n ∧ flags b = 6)) as Hdn.
  { destruct (decide (dev b = 1 ∧ blockno b = n ∧ flags b = 6)) as [|Hnd]; [by right|left]. intros (j & bj & Hj & Hbj & Hd & Hk & Hfl).
    pose proof (taken_uniq c d m i b n j bj HI HT Hj Hbj Hd Hk) as ->. rewrite Hb in Hbj. injection Hbj as <-. by apply Hnd. }
  assert (spare b ∨ (dev b = 1 ∧ blockno b = n)) as Hsb by tauto.
  constructor; try done.
  - split; [done|]. exists (loaded m n x f b). rewrite list_lookup_insert_eq by (by eapply lookup_lt_Some). done.
  - destruct Hf as [(-> & Hd & Hk & Hfl)|(-> & Hnd & Hblk)]; [left; split; [done|by exists i, b]|right].
    split_and!; [done|tauto|done].
  - intros k. destruct (decide (k = n)) as [->|Hkn].
    + rewrite Hx. rewrite (vol_cached _ d m i (loaded m n x f b)); [done..|apply list_lookup_insert_eq; by eapply lookup_lt_Some|].
      split_and!; [done|done|]. cbn. lia.
    + apply (vol_other c d m i b); try done.
      * intros (_ & Hk & _). cbn in Hk. congruence.
      * intros (Hd & Hk & Hfl). destruct Hwhy as [[_ ?]|[Hsp _]]; [congruence|].
        destruct (bi_buf _ _ _ HI i b Hi Hb) as [[|[|]] _ _ Hclean]; [done| |destruct Hsp as [_ Hsp]; rewrite H in Hsp; done].
        rewrite <- Hk. by apply Hclean.
  - by apply others_insert with b.
  - intros k. rewrite (dirty_insert c i b) by done. split.
    + intros [(_ & Hk & H6)|(j & bj & _ & Hrest)]; [|by exists j, bj]. cbn in Hk, H6. subst k f.
      destruct Hf as [(_ & Hrest)|[? _]]; [|lia]. exists i, b. done.
    + intros (j & bj & Hj & Hbj & Hd & Hk & Hfl). destruct (decide (j = i)) as [->|Hne]; [left|right; by exists j, bj].
      simplify_eq. destruct Hwhy as [[_ Hbn]|[[_ Hsp] _]]; [|rewrite Hfl in Hsp; done].
      split_and!; [done|cbn; congruence|]. cbn. destruct Hf as [[? _]|(_ & Hnd & _)]; [done|]. by destruct Hnd.
  - intros k. rewrite (busy_insert c i b) by done. split.
    + intros [(_ & Hk & _)|(j & bj & _ & Hrest)]; [right; cbn in Hk; congruence|left; by exists j, bj].
    + intros [(j & bj & Hj & Hbj & Hrest)| ->]; [right|left; done]. exists j, bj. split; [|done]. intros ->. simplify_eq. lia.
  - pose proof (spares_insert c i b (loaded m n x f b) Hi Hb) as Hs. repeat case_decide; lia.
  - intros ->. destruct Hf as [(_ & _ & _ & H6)|[? _]]; [|lia].
    pose proof (spares_insert c i b (loaded m n x 6 b) Hi Hb) as Hs.
    rewrite (decide_False (P := spare b)) in Hs by (intros [_ Hsp]; by rewrite H6 in Hsp).
    rewrite (decide_False (P := spare (loaded _ _ _ _ _))) in Hs by (intros [Hsp _]; cbn in Hsp; lia). lia.
Qed.

(** [bread]: the block's contents, in a buffer that is now the caller's. *)
Lemma wp_bread c d t m n Q :
  binv c d m → 0 ≤ n < FSSIZE → ¬ busy c n → (0 < spares c)%nat ∨ dirty c n →
  (∀ i x f c', opened c d m n i x f c' → Q i (rest c' d t m)) → wp (bread 1 n) Q (rest c d t m).
Proof.
  intros HI Hn Hb Hroom HQ. apply wp_bind, wp_bget; [done|lia|done|..].
  { destruct Hroom as [?|(i & b & Hi & Hbi & Hd & Hk & _)]; [by left|right]. by exists i, b. }
  intros i b HT. pose proof HT as (Hi & Hbi & Hr0 & Hwhy). assert (i < length c)%nat as Hil by (by eapply lookup_lt_Some).
  apply wp_bind. eapply wp_getb; [by apply list_lookup_insert_eq|]. cbn [flags got].
  pose proof (bi_buf _ _ _ HI i b Hi Hbi) as [Hfl _ Hdata Hclean].
  destruct (decide (holds n b)) as [Hh|Hh].
  - pose proof Hh as (Hd & Hk & Hnz). pose proof (vol_cached c d m i b n HI Hi Hbi Hh) as Hx.
    rewrite decide_True by done. replace (Z.land (flags b) B_VALID =? 0) with false by (destruct Hfl as [|[->| ->]]; done).
    apply wp_bind, wp_ret, wp_ret. replace (got m n b) with (loaded m n (data b) (flags b) b) by (unfold got; by rewrite decide_True).
    apply (HQ i (data b) (flags b)). apply opened_ok; try done; [by apply Hdata|].
    destruct Hfl as [|[H2|H6]]; [done|right|by left]. split_and!; [done|intros (_ & _ & ?); lia|]. rewrite <- Hk. by apply Hclean.
  - assert (vol c d n = block_at d 1 n) as Hv.
    { apply vol_disk. intros j bj Hj Hbj (Hd & Hk & Hnz). pose proof (taken_uniq c d m i b n j bj HI HT Hj Hbj Hd Hk) as ->.
      rewrite Hbi in Hbj. injection Hbj as <-. by apply Hh. }
    destruct (block_in d n (bi_disk _ _ _ HI) Hn) as (x & Hx & Hlx).
    assert ((if decide (dev b = 1 ∧ blockno b = n) then flags b else 0) = 0) as Hf0.
    { destruct (decide (dev b = 1 ∧ blockno b = n)) as [[Hd Hk]|]; [|done].
      destruct (decide (flags b = 0)); [done|]. by destruct Hh. }
    rewrite Hf0. cbn [Z.land Z.eqb]. apply wp_bind. eapply wp_iderw_read; [by apply list_lookup_insert_eq|done|done|cbn; lia|done|].
    rewrite list_insert_insert_eq. apply wp_ret.
    replace (set_flags 2 (set_data x (got m n b))) with (loaded m n x 2 b) by done.
    apply (HQ i x 2). apply opened_ok; try done; [congruence|]. right. split_and!; [done| |done].
    intros (Hd & Hk & H6). rewrite decide_True in Hf0 by done. lia.
Qed.

(** ** Changing, writing and releasing a held buffer *)

Lemma held_fun c i n x f n' x' f' : held c i n x f → held c i n' x' f' → n = n' ∧ x = x' ∧ f = f'.
Proof. intros [_ (b & Hb & _ & <- & _ & <- & <-)] [_ (b' & Hb' & _ & <- & _ & <- & <-)]. by simplify_eq. Qed.

Lemma held_uniq c d m i n x f j y g : binv c d m → held c i n x f → held c j n y g → i = j.
Proof.
  intros HI [Hi (b & Hb & Hd & Hk & _)] [Hj (b' & Hb' & Hd' & Hk' & _)].
  eapply (bi_uniq _ _ _ HI i j b b'); [done..|congruence].
Qed.

Lemma held_other c i j b' k x f : j ≠ i → held c j k x f → held (<[i := b']> c) j k x f.
Proof. intros Hne [Hj (b & Hb & Hrest)]. split; [done|]. exists b. by rewrite list_lookup_insert_ne. Qed.

(** A store into the buffer, or a change of its flags between valid states. *)
Record changed c d m i n y g c' : Prop := {
  ch_inv : binv c' d m;
  ch_held : held c' i n y g;
  ch_vol k : vol c' d k = if decide (k = n) then Some y else vol c d k;
  ch_others j k z h : j ≠ i → held c j k z h → held c' j k z h;
  ch_dirty k : k ≠ n → (dirty c' k ↔ dirty c k);
  ch_dirty_n : dirty c' n ↔ g = 6;
  ch_busy k : busy c' k ↔ busy c k;
  ch_spares : spares c' = spares c
}.

Lemma changed_ok c d m i n x y f g b :
  binv c d m → c !! i = Some b → held c i n x f → length y = BSIZE → g = 2 ∨ g = 6 →
  changed c d m i n y g (<[i := set_flags g (set_data y b)]> c).
Proof.
  intros HI Hb [Hi (b0 & Hb0 & Hd & Hk & Hr & Hx & Hf)] Hly Hg. rewrite Hb in Hb0. injection Hb0 as <-.
  pose proof (bi_buf _ _ _ HI i b Hi Hb) as [Hfl [[? _]|(_ & Hl & Hnz & _)] Hdata _]; [lia|].
  assert (i < length c)%nat as Hil by (by eapply lookup_lt_Some).
  assert (binv (<[i := set_flags g (set_data y b)]> c) d m) as HI'.
  { apply (binv_slot c d m i b (set_flags g (set_data y b)) HI Hi Hb eq_refl eq_refl d (bi_disk _ _ _ HI)); [| |done].
    - constructor; cbn.
      + lia.
      + right. split_and!; [done|done|lia|done].
      + intros _ _. split; [by apply Hdata|done].
      + lia.
      + done.
    - intros _ j bj Hj Hne Hbj [Hdj Hkj]. apply Hne. eapply (bi_uniq _ _ _ HI j i bj b); done. }
  constructor; try done.
  - split; [done|]. eexists. split; [by apply list_lookup_insert_eq|]. done.
  - intros k. destruct (decide (k = n)) as [->|Hne].
    + rewrite (vol_cached _ d m i (set_flags g (set_data y b))); [done..|by apply list_lookup_insert_eq|]. split_and!; [done|done|cbn; lia].
    + apply (vol_other c d m i b); try done; [intros (_ & ? & _); cbn in *; congruence|intros (_ & ? & _); congruence].
  - intros j k z h Hne. by apply held_other.
  - intros k Hne. rewrite (dirty_insert c i b) by done. split.
    + intros [(_ & ? & _)|(j & bj & _ & Hrest)]; [cbn in *; congruence|by exists j, bj].
    + intros (j & bj & Hj & Hbj & Hrest). right. exists j, bj. split; [|done]. intros ->. rewrite Hb in Hbj. injection Hbj as <-. naive_solver.
  - rewrite (dirty_insert c i b) by done. split.
    + intros [(_ & _ & ?)|(j & bj & Hne & Hj & Hbj & Hdj & Hkj & _)]; [done|]. exfalso. apply Hne.
      eapply (bi_uniq _ _ _ HI j i bj b); [done..|congruence].
    + intros ->. left. done.
  - intros k. rewrite (busy_insert c i b) by done. split.
    + intros [(_ & ? & _)|(j & bj & _ & Hrest)]; [exists i, b; cbn in *; done|by exists j, bj].
    + intros (j & bj & Hj & Hbj & Hrest). destruct (decide (j = i)) as [->|]; [left|right; by exists j, bj].
      rewrite Hb in Hbj. injection Hbj as <-. done.
  - pose proof (spares_insert c i b (set_flags g (set_data y b)) Hi Hb) as Hs.
    rewrite !decide_False in Hs by (intros [? _]; cbn in *; lia). lia.
Qed.

(** Storing into [b->data]. *)
Lemma wp_set_data c d t m i n x f y Q :
  binv c d m → held c i n x f → length y = BSIZE →
  (∀ c', changed c d m i n y f c' → Q tt (rest c' d t m)) → wp (upd_buf i (set_data y)) Q (rest c d t m).
Proof.
  intros HI Hh Hly HQ. pose proof Hh as [Hi (b & Hb & _ & _ & Hr & _ & Hf)]. apply wp_updb with b; [done|].
  pose proof (bi_buf _ _ _ HI i b Hi Hb) as [Hfl [[? _]|(_ & _ & Hnz & _)] _ _]; [lia|].
  replace (set_data y b) with (set_flags f (set_data y b)) by (unfold set_flags, set_data; cbn; by rewrite <- Hf).
  apply HQ. apply (changed_ok c d m i n x _ f); try done. lia.
Qed.

(** Pinning the buffer, as log_write does. *)
Lemma wp_pin c d t m i n x f Q :
  binv c d m → held c i n x f →
  (∀ c', changed c d m i n x 6 c' → Q tt (rest c' d t m)) →
  wp (upd_buf i (λ b, set_flags (Z.lor (flags b) B_DIRTY) b)) Q (rest c d t m).
Proof.
  intros HI Hh HQ. pose proof Hh as [Hi (b & Hb & Hd & _ & Hr & Hx & Hf)]. apply wp_updb with b; [done|].
  pose proof (bi_buf _ _ _ HI i b Hi Hb) as [Hfl [[? _]|(_ & _ & Hnz & _)] Hdata _]; [lia|].
  replace (set_flags (Z.lor (flags b) B_DIRTY) b) with (set_flags 6 (set_data x b)).
  { apply HQ. apply (changed_ok c d m i n x _ f); try done; [|by right]. rewrite <- Hx. by apply Hdata. }
  unfold set_flags, set_data. cbn. rewrite Hx. f_equal. destruct Hfl as [|[->| ->]]; done.
Qed.

(** ** bwrite *)

Lemma block_at_write d n x k :
  0 ≤ n < FSSIZE → disk_ok d → block_at (disk_write d 1 n x) 1 k = if decide (k = n) then Some x else block_at d 1 k.
Proof.
  intros Hn (bl & Hd & Hl & _). unfold block_at, disk_write. rewrite Hd, lookup_insert_eq. cbn.
  destruct (decide (k = n)) as [->|Hne]; [apply getZ_setZ_eq; lia|]. by apply getZ_setZ_ne.
Qed.

Lemma disk_ok_write d n x : disk_ok d → length x = BSIZE → disk_ok (disk_write d 1 n x).
Proof.
  intros (bl & Hd & Hl & Hf) Hx. exists (setZ bl n x). unfold disk_write. rewrite Hd, lookup_insert_eq.
  split_and!; [done|by rewrite lenZ_setZ|]. unfold setZ. destruct (0 <=? n); [by apply Forall_insert|done].
Qed.

Record written c d m i n x c' d' : Prop := {
  wr_inv : binv c' d' m;
  wr_disk : d' = disk_write d 1 n x;
  wr_held : held c' i n x 2;
  wr_vol k : vol c' d' k = vol c d k;
  wr_others j k z h : j ≠ i → held c j k z h → held c' j k z h;
  wr_dirty k : dirty c' k ↔ dirty c k ∧ k ≠ n;
  wr_busy k : busy c' k ↔ busy c k;
  wr_spares : spares c' = spares c
}.

Lemma wp_bwrite c d t m i n x f Q :
  binv c d m → held c i n x f →
  (∀ c' d', written c d m i n x c' d' → Q tt (rest c' d' (t ++ [(1, n, x)]) m)) → wp (bwrite i) Q (rest c d t m).
Proof.
  intros HI Hh HQ. pose proof Hh as [Hi (b & Hb & Hd & Hk & Hr & Hx & Hf)].
  pose proof (bi_buf _ _ _ HI i b Hi Hb) as [Hfl [[? _]|(_ & Hl & Hnz & _)] Hdata _]; [lia|].
  destruct (Hdata Hd Hnz) as [Hn Hlx]. rewrite Hk in Hn. rewrite Hx in Hlx. assert (i < length c)%nat as Hil by (by eapply lookup_lt_Some).
  destruct (block_in d n (bi_disk _ _ _ HI) Hn) as (y & Hy & _).
  apply wp_bind, wp_holdingsleep with b; [done|done|]. apply wp_bind, wp_panic_unless; [done|].
  apply wp_bind, wp_updb with b; [done|].
  assert (Z.lor (flags b) B_DIRTY = 6) as H6 by (destruct Hfl as [|[->| ->]]; done). rewrite H6.
  eapply wp_iderw_write; [by apply list_lookup_insert_eq|done|by right|cbn; lia|cbn; by rewrite Hd, Hk|].
  rewrite list_insert_insert_eq. cbn [dev blockno data set_flags]. rewrite Hd, Hk, Hx.
  replace (set_flags 2 (set_flags 6 b)) with (set_flags 2 (set_data x b)) by (unfold set_flags, set_data; cbn; by rewrite Hx).
  destruct (changed_ok c d m i n x x f 2 b HI Hb Hh Hlx (or_introl eq_refl)) as [C1 C2 C3 C4 C5 C6 C7 C8].
  set (b' := set_flags 2 (set_data x b)) in *. apply HQ.
  assert (vol c d n = Some x) as Hvx by (rewrite <- Hx; apply (vol_cached c d m i b n HI Hi Hb); by split).
  assert (∀ k, k ≠ n → block_at (disk_write d 1 n x) 1 k = block_at d 1 k) as Hsame
    by (intros k Hne; rewrite block_at_write; [by rewrite decide_False|done|apply HI]).
  assert (binv (<[i := b']> c) (disk_write d 1 n x) m) as HI'.
  { apply (binv_slot c d m i b b' HI Hi Hb eq_refl eq_refl).
    - by apply disk_ok_write; [apply HI|].
    - destruct (bi_buf _ _ _ C1 i b' Hi ltac:(by apply list_lookup_insert_eq)) as [A1 A2 A3 A4]. constructor; [done|done|done| |done].
      intros _ _ Hr'. cbn in Hr'. lia.
    - intros _ j bj Hj Hne Hbj [Hdj Hkj]. apply Hne. eapply (bi_uniq _ _ _ HI j i bj b); done.
    - intros j bj Hj Hne Hbj Hdj. apply Hsame. intros Hkj. apply Hne. eapply (bi_uniq _ _ _ HI j i bj b); [done..|congruence]. }
  constructor; try done.
  - intros k. destruct (decide (k = n)) as [->|Hne].
    + rewrite Hvx. rewrite (vol_cached _ _ m i b'); [done..|by apply list_lookup_insert_eq|]. by split.
    + rewrite <- (vol_other c d m i b b' HI Hi Hb (disk_write d 1 n x) k); [done|done|by apply Hsame|..].
      * intros (_ & ? & _). cbn in *. congruence.
      * intros (_ & ? & _). congruence.
  - intros k. destruct (decide (k = n)) as [->|Hne]; [rewrite C6; naive_solver lia|]. rewrite C5 by done. naive_solver.
Qed.

(** ** brelse *)

Lemma core_lookup c c' i b' : core <$> c' = core <$> c → c' !! i = Some b' → ∃ b, c !! i = Some b ∧ core b' = core b.
Proof.
  intros He Hb'. assert ((core <$> c') !! i = Some (core b')) as Hc by (by rewrite list_lookup_fmap, Hb').
  rewrite He, list_lookup_fmap in Hc. destruct (c !! i) as [b|]; [|done]. exists b. split; [done|]. by apply (inj Some) in Hc.
Qed.

Lemma core_fields b b' :
  core b' = core b → dev b' = dev b ∧ blockno b' = blockno b ∧ flags b' = flags b ∧ refcnt b' = refcnt b ∧ lk b' = lk b ∧ data b' = data b.
Proof. destruct b, b'. unfold core. cbn. intros [=]. subst. done. Qed.

(** Only links changed. *)
Section relink.
Context (c c' : list buf) (d : gmap Z (list (list Z))) (m : Z).
Hypothesis (Hcore : core <$> c' = core <$> c).

Lemma relink_binv order :
  binv c d m → ring c' order → length order = NBUF → (∀ i, i ∈ order ↔ (i < NBUF)%nat) → binv c' d m.
Proof using Hcore.
  intros HI Hr Hl Hall. constructor.
  - apply (f_equal length) in Hcore. rewrite !length_fmap in Hcore. rewrite Hcore. apply HI.
  - by exists order.
  - apply HI.
  - intros i b' Hi Hb'. destruct (core_lookup _ _ _ _ Hcore Hb') as (b & Hb & (E1 & E2 & E3 & E4 & E5 & E6)%core_fields).
    destruct (bi_buf _ _ _ HI i b Hi Hb). constructor; rewrite ?E1, ?E2, ?E3, ?E4, ?E5, ?E6; done.
  - intros i j bi bj Hi Hj Hbi Hbj.
    destruct (core_lookup _ _ _ _ Hcore Hbi) as (b1 & Hb1 & (-> & -> & _)%core_fields).
    destruct (core_lookup _ _ _ _ Hcore Hbj) as (b2 & Hb2 & (-> & -> & _)%core_fields).
    by apply (bi_uniq _ _ _ HI i j b1 b2).
Qed.

Lemma relink_find (P : buf → Prop) `{∀ b, Decision (P b)} (l l' : list buf) :
  (∀ b, P (core b) ↔ P b) → core <$> l' = core <$> l →
  match list_find P l, list_find P l' with
  | Some (i, b), Some (j, b') => i = j ∧ core b' = core b | None, None => True | _, _ => False
  end.
Proof using Type.
  intros HP. revert l'. induction l as [|b l IH]; intros [|b' l'] He; try done. cbn in He. apply (inj2 cons) in He as [Hb He].
  cbn [list_find]. specialize (IH l' He). destruct (decide (P b)) as [H1|H1], (decide (P b')) as [H2|H2].
  - done.
  - rewrite <- HP, <- Hb, HP in H1. done.
  - rewrite <- HP, Hb, HP in H2. done.
  - destruct (list_find P l) as [[i x]|], (list_find P l') as [[j y]|]; cbn; try done. destruct IH. split; [lia|done].
Qed.

Lemma relink_vol k : vol c' d k = vol c d k.
Proof using Hcore.
  unfold vol. pose proof (relink_find (holds k) (take NBUF c) (take NBUF c')) as Hf.
  destruct (list_find _ (take NBUF c)) as [[i b]|], (list_find _ (take NBUF c')) as [[j b']|]; try done.
  - destruct Hf as [_ Hb]; [done|by rewrite !fmap_take, Hcore|]. destruct (core_fields _ _ Hb) as (_ & _ & _ & _ & _ & ->). done.
  - exfalso. apply Hf; [done|by rewrite !fmap_take, Hcore].
  - exfalso. apply Hf; [done|by rewrite !fmap_take, Hcore].
Qed.
End relink.

(** A buffer given back: it must be pinned by the log, or as on the disk. *)
Record closed c d m (i : nat) n (f : Z) c' : Prop := {
  cl_inv : binv c' d m;
  cl_vol k : vol c' d k = vol c d k;
  cl_others j k z h : j ≠ i → held c j k z h → held c' j k z h;
  cl_dirty k : dirty c' k ↔ dirty c k;
  cl_busy k : busy c' k ↔ busy c k ∧ k ≠ n;
  cl_spares : spares c' = if decide (f = 2) then S (spares c) else spares c
}.

Definition released b : buf := Buf (flags b) (dev b) (blockno b) unlocked 0 (prev b) (next b) (data b).

Lemma closed_slot c d m i n x f b :
  binv c d m → c !! i = Some b → held c i n x f → f = 6 ∨ block_at d 1 n = Some x →
  closed c d m i n f (<[i := released b]> c).
Proof.
  intros HI Hb [Hi (b0 & Hb0 & Hd & Hk & Hr & Hx & Hf)] Hsafe. rewrite Hb in Hb0. injection Hb0 as <-.
  pose proof (bi_buf _ _ _ HI i b Hi Hb) as [Hfl [[? _]|(_ & Hl & Hnz & _)] Hdata _]; [lia|].
  assert (i < length c)%nat as Hil by (by eapply lookup_lt_Some).
  assert (binv (<[i := released b]> c) d m) as HI'.
  { apply (binv_slot c d m i b (released b) HI Hi Hb eq_refl eq_refl d (bi_disk _ _ _ HI)); [| |done].
    - constructor; cbn; [done|by left|done| |done]. intros _ H2 _. destruct Hsafe as [|Hs]; [lia|]. by rewrite Hk, Hx.
    - intros _ j bj Hj Hne Hbj [Hdj Hkj]. apply Hne. eapply (bi_uniq _ _ _ HI j i bj b); done. }
  constructor; try done.
  - intros k. destruct (decide (k = n)) as [->|Hne].
    + rewrite (vol_cached _ d m i (released b)); [symmetry; apply (vol_cached c d m i b); [done..|by split]|done|done|by apply list_lookup_insert_eq|by split].
    + apply (vol_other c d m i b); try done; intros (_ & ? & _); cbn in *; congruence.
  - intros j k z h Hne. by apply held_other.
  - intros k. rewrite (dirty_insert c i b) by done. split.
    + intros [Hrest|(j & bj & _ & Hrest)]; [exists i, b|exists j, bj]; done.
    + intros (j & bj & Hj & Hbj & Hrest). destruct (decide (j = i)) as [->|]; [left|right; by exists j, bj].
      rewrite Hb in Hbj. injection Hbj as <-. done.
  - intros k. rewrite (busy_insert c i b) by done. split.
    + intros [(_ & _ & ?)|(j & bj & Hne & Hj & Hbj & Hdj & Hkj & Hrj)]; [cbn in *; lia|]. split; [by exists j, bj|].
      intros ->. apply Hne. eapply (bi_uniq _ _ _ HI j i bj b); [done..|congruence].
    + intros [(j & bj & Hj & Hbj & Hdj & Hkj & Hrj) Hne]. right. exists j, bj. split; [|done].
      intros ->. rewrite Hb in Hbj. injection Hbj as <-. congruence.
  - pose proof (spares_insert c i b (released b) Hi Hb) as Hs. rewrite (decide_False (P := spare b)) in Hs by (intros [? _]; lia).
    destruct (decide (f = 2)) as [->|Hne].
    + rewrite decide_True in Hs by (split; [done|]; cbn; by rewrite Hf). lia.
    + assert (flags b = 6) as H6 by lia. rewrite decide_False in Hs by (intros [_ ?]; cbn in *; by rewrite H6 in *). lia.
Qed.

Lemma wp_brelse c d t m i n x f Q :
  binv c d m → held c i n x f → f = 6 ∨ block_at d 1 n = Some x →
  (∀ c', closed c d m i n f c' → Q tt (rest c' d t m)) → wp (brelse i) Q (rest c d t m).
Proof.
  intros HI Hh Hsafe HQ. pose proof Hh as [Hi (b & Hb & Hd & Hk & Hr & Hx & Hf)].
  pose proof (bi_buf _ _ _ HI i b Hi Hb) as [Hfl [[? _]|(_ & Hl & Hnz & _)] Hdata _]; [lia|].
  assert (i < length c)%nat as Hil by (by eapply lookup_lt_Some).
  apply wp_bind, wp_holdingsleep with b; [done|done|]. apply wp_bind, wp_panic_unless; [done|].
  apply wp_bind, wp_releasesleep with b; [done|]. apply wp_bind, wp_bio_acquire. apply wp_bind, wp_updb_again; [done|].
  apply wp_bind. eapply wp_getb; [by apply list_lookup_insert_eq|]. cbn [refcnt set_refcnt set_lk]. rewrite Hr.
  change (set_refcnt (u32 (1 - 1)) (set_lk unlocked b)) with (released b). change (u32 (1 - 1) =? 0) with true. cbv iota.
  destruct (bi_ring _ _ _ HI) as (order & Hring & Hlen & Hall).
  destruct (list_elem_of_split order i) as (l1 & l2 & ->); [by apply Hall|].
  destruct (closed_slot c d m i n x f b HI Hb Hh Hsafe) as [C1 C2 C3 C4 C5 C6].
  apply wp_bind, (wp_to_front l1 i l2).
  { bsimpl. by apply ring_same with b. }
  { exists (released b). bsimpl. by apply list_lookup_insert_eq. }
  intros c' Hcore Hring'. cbn [cache] in Hcore. bsimpl. apply wp_bio_release. apply HQ.
  assert (∀ k, (∀ b b', core b' = core b → (dev b' = 1 ∧ blockno b' = k ∧ flags b' = 6 ↔ dev b = 1 ∧ blockno b = k ∧ flags b = 6))) as Hd6
    by (intros k b1 b2 (-> & -> & -> & _)%core_fields; done).
  constructor.
  - apply (relink_binv _ c' d m Hcore (i :: l1 ++ l2)); [done|done| |].
    + rewrite length_app in *. cbn in *. rewrite length_app. lia.
    + intros j. rewrite <- Hall, elem_of_cons, !elem_of_app, elem_of_cons. tauto.
  - intros k. by rewrite (relink_vol _ c' d Hcore).
  - intros j k z h Hne Hj. destruct (C3 j k z h Hne Hj) as [Hjn (bj & Hbj & Hrest)]. split; [done|].
    assert (core <$> <[i := released b]> c = core <$> c') as Hcore' by done.
    destruct (core_lookup _ _ _ _ Hcore' Hbj) as (bj' & Hbj' & (E1 & E2 & E3 & E4 & _ & E6)%core_fields).
    exists bj'. rewrite <- E1, <- E2, <- E3, <- E4, <- E6. done.
  - intros k. rewrite <- C4. split; intros (j & bj & Hj & Hbj & Hrest).
    + destruct (core_lookup _ _ _ _ Hcore Hbj) as (bj' & Hbj' & Hc). exists j, bj'. split; [done|]. split; [done|]. by apply (Hd6 k _ _ Hc).
    + destruct (core_lookup _ _ _ _ (eq_sym Hcore) Hbj) as (bj' & Hbj' & Hc). exists j, bj'. split; [done|]. split; [done|]. by apply (Hd6 k _ _ Hc).
  - intros k. rewrite <- C5. split; intros (j & bj & Hj & Hbj & Hrest).
    + destruct (core_lookup _ _ _ _ Hcore Hbj) as (bj' & Hbj' & (E1 & E2 & _ & E4 & _)%core_fields). exists j, bj'. by rewrite <- E1, <- E2, <- E4.
    + destruct (core_lookup _ _ _ _ (eq_sym Hcore) Hbj) as (bj' & Hbj' & (E1 & E2 & _ & E4 & _)%core_fields). exists j, bj'. by rewrite <- E1, <- E2, <- E4.
  - rewrite <- C6. unfold spares. assert (∀ l l' : list buf, core <$> l' = core <$> l → length (filter spare l') = length (filter spare l)) as Hfl'.
    { induction l as [|b1 l IH]; intros [|b2 l'] He; try done. cbn in He. apply (inj2 cons) in He as [Hc He].
      rewrite !filter_cons. assert (spare b2 ↔ spare b1) as Hsp by (unfold spare; destruct (core_fields _ _ Hc) as (_ & _ & -> & -> & _); done).
      specialize (IH l' He). repeat case_decide; cbn; tauto || lia. }
    apply Hfl'. by rewrite !fmap_take, Hcore.
Qed.
