(* ===== verification/Log.v ===== *)
(** * The write-ahead log of xv6's file system (log.c)

    The state is the buffer cache and the disk of Bio.v, the log's own record
    and the list of channels that were woken.  One thread runs the code; what
    other threads did to the log is part of the state it starts in. *)

From S2P Require Import Prelude Bytes Bio.

Definition MAXOPBLOCKS : Z := 10.
Definition LOGSIZE : Z := 30.

(** [struct log], src/hw3/xv6/log.c:34-48 *)
Record log := Log {
  start : Z; log_size : Z; outstanding : Z; committing : bool; log_dev : Z;
  lh_n : Z;              (* lh.n *)
  lh_block : list Z      (* lh.block, LOGSIZE entries *)
}.
Definition set_outstanding (x : Z) (l : log) := Log (start l) (log_size l) x (committing l) (log_dev l) (lh_n l) (lh_block l).
Definition set_committing (x : bool) (l : log) := Log (start l) (log_size l) (outstanding l) x (log_dev l) (lh_n l) (lh_block l).
Definition set_lh_n (x : Z) (l : log) := Log (start l) (log_size l) (outstanding l) (committing l) (log_dev l) x (lh_block l).
Definition set_lh_block (x : list Z) (l : log) := Log (start l) (log_size l) (outstanding l) (committing l) (log_dev l) (lh_n l) x.

Record lsys := Lsys { io : bio; lg : log; woken : list Z }.
Definition set_io (x : bio) (s : lsys) := Lsys x (lg s) (woken s).
Definition set_lg (x : log) (s : lsys) := Lsys (io s) x (woken s).

(** An operation of the buffer cache, and a change of the log's record. *)
Definition bio_ {A} (m : M bio A) : M lsys A := zoom io set_io m.
Definition upd_log (f : log → log) : M lsys unit := modify (λ s, set_lg (f (lg s)) s).

Definition LOGLOCK : Z := 2.                       (* &log.lock *)
Definition LOGCHAN : Z := 3.                       (* &log *)
Definition wakeup (c : Z) : M lsys unit := modify (λ s, Lsys (io s) (lg s) (woken s ++ [c])).

Definition HDRSIZE : nat := 124.                   (* sizeof(struct logheader) *)
Definition hdr_n : nat := 0.                       (* offset of n *)
Definition hdr_block (i : nat) : nat := 4 + 4 * i. (* offset of block[i] *)

(** memmove(dst->data, src->data, BSIZE) *)
Definition copy_data (dst src : nat) : M bio unit :=
  b ← get_buf src; upd_buf dst (set_data (data b)).

(** [install_trans: one block], src/hw3/xv6/log.c:75-80 *)
Definition install_block (tail : nat) : M lsys unit :=
  l ← gets lg;
  n ← int_ (start l + Z.of_nat tail + 1);
  lbuf ← bio_ (bread (u32 (log_dev l)) (u32 n));
  b ← of_option (lh_block l !! tail);
  dbuf ← bio_ (bread (u32 (log_dev l)) (u32 b));
  bio_ (copy_data dbuf lbuf);;
  bio_ (bwrite dbuf);;
  bio_ (brelse lbuf);;
  bio_ (brelse dbuf).

(** [install_trans], src/hw3/xv6/log.c:68-82 *)
Definition install_trans : M lsys unit :=
  l ← gets lg;
  for_ (R := unit) (Z.to_nat (lh_n l)) 0 (λ tail, install_block tail;; mret None);;
  mret tt.

(** [read_head], src/hw3/xv6/log.c:84-96 *)
Definition read_head : M lsys unit :=
  l ← gets lg;
  buf ← bio_ (bread (u32 (log_dev l)) (u32 (start l)));
  b ← bio_ (get_buf buf);
  upd_log (set_lh_n (get_i32 hdr_n (data b)));;
  for_ (R := unit) (Z.to_nat (get_i32 hdr_n (data b))) 0 (λ i,
    l ← gets lg;
    _ ← of_option (lh_block l !! i);
    upd_log (set_lh_block (<[i := get_i32 (hdr_block i) (data b)]> (lh_block l)));;
    mret None);;
  bio_ (brelse buf).

(** [write_head], src/hw3/xv6/log.c:98-113 *)
Definition write_head : M lsys unit :=
  l ← gets lg;
  buf ← bio_ (bread (u32 (log_dev l)) (u32 (start l)));
  bio_ (b ← get_buf buf; upd_buf buf (set_data (put_u32 hdr_n (lh_n l) (data b))));;
  for_ (R := unit) (Z.to_nat (lh_n l)) 0 (λ i,
    x ← of_option (lh_block l !! i);
    bio_ (b ← get_buf buf; upd_buf buf (set_data (put_u32 (hdr_block i) x (data b))));;
    mret None);;
  bio_ (bwrite buf);;
  bio_ (brelse buf).

(** [recover_from_log], src/hw3/xv6/log.c:115-122 *)
Definition recover_from_log : M lsys unit :=
  read_head;;
  install_trans;;
  upd_log (set_lh_n 0);;
  write_head.

(** [begin_op], src/hw3/xv6/log.c:124-141
    When the thread has to wait it sleeps on the log, without the lock. *)
Definition begin_op : M lsys unit :=
  bio_ (acquire LOGLOCK);;
  l ← gets lg;
  if committing l then bio_ (release LOGLOCK);; fail (Sleep LOGCHAN)
  else if lh_n l + (outstanding l + 1) * MAXOPBLOCKS >? LOGSIZE then bio_ (release LOGLOCK);; fail (Sleep LOGCHAN)
  else
    upd_log (set_outstanding (outstanding l + 1));;
    bio_ (release LOGLOCK).

(** [write_log: one block], src/hw3/xv6/log.c:183-188 *)
Definition write_log_block (tail : nat) : M lsys unit :=
  l ← gets lg;
  n ← int_ (start l + Z.of_nat tail + 1);
  to ← bio_ (bread (u32 (log_dev l)) (u32 n));
  b ← of_option (lh_block l !! tail);
  from ← bio_ (bread (u32 (log_dev l)) (u32 b));
  bio_ (copy_data to from);;
  bio_ (bwrite to);;
  bio_ (brelse from);;
  bio_ (brelse to).

(** [write_log], src/hw3/xv6/log.c:176-190 *)
Definition write_log : M lsys unit :=
  l ← gets lg;
  for_ (R := unit) (Z.to_nat (lh_n l)) 0 (λ tail, write_log_block tail;; mret None);;
  mret tt.

(** [commit], src/hw3/xv6/log.c:192-202 *)
Definition commit : M lsys unit :=
  l ← gets lg;
  if lh_n l >? 0 then
    write_log;;
    write_head;;
    install_trans;;
    upd_log (set_lh_n 0);;
    write_head
  else mret tt.

(** [end_op], src/hw3/xv6/log.c:143-174 *)
Definition end_op : M lsys unit :=
  bio_ (acquire LOGLOCK);;
  upd_log (λ l, set_outstanding (outstanding l - 1) l);;
  l ← gets lg;
  panic_unless (negb (committing l)) "log.committing";;
  let do_commit := outstanding l =? 0 in
  (if do_commit then upd_log (set_committing true) else wakeup LOGCHAN);;
  bio_ (release LOGLOCK);;
  if do_commit then
    commit;;
    bio_ (acquire LOGLOCK);;
    upd_log (set_committing false);;
    wakeup LOGCHAN;;
    bio_ (release LOGLOCK)
  else mret tt.

(** [log_write: the place of the block in the header], src/hw3/xv6/log.c:224-227 *)
Fixpoint log_slot (n : nat) (blocks : list Z) (b : Z) : nat :=
  match n, blocks with
  | S n', x :: blocks' => if u32 x =? b then 0 else S (log_slot n' blocks' b)
  | _, _ => 0
  end.

(** [log_write], src/hw3/xv6/log.c:204-233 *)
Definition log_write (i : nat) : M lsys unit :=
  l ← gets lg;
  panic_unless (negb ((LOGSIZE <=? lh_n l) || (log_size l - 1 <=? lh_n l))) "too big a transaction";;
  panic_unless (negb (outstanding l <? 1)) "log_write outside of trans";;
  bio_ (acquire LOGLOCK);;
  b ← bio_ (get_buf i);
  let k := log_slot (Z.to_nat (lh_n l)) (lh_block l) (blockno b) in
  _ ← of_option (lh_block l !! k);
  upd_log (set_lh_block (<[k := i32 (blockno b)]> (lh_block l)));;
  (if Z.of_nat k =? lh_n l then upd_log (set_lh_n (lh_n l + 1)) else mret tt);;
  bio_ (upd_buf i (λ b, set_flags (Z.lor (flags b) B_DIRTY) b));;
  bio_ (release LOGLOCK).

(** [struct superblock], src/hw3/xv6/fs.h:14-22 *)
Record superblock := Superblock {
  sb_size : Z; nblocks : Z; ninodes : Z; nlog : Z; logstart : Z; inodestart : Z; bmapstart : Z
}.
Definition sb_of (x : list Z) : superblock :=
  Superblock (get_u32 0 x) (get_u32 4 x) (get_u32 8 x) (get_u32 12 x) (get_u32 16 x) (get_u32 20 x) (get_u32 24 x).

(** [readsb], src/hw3/xv6/fs.c:30-39 *)
Definition readsb (dev : Z) : M bio superblock :=
  bp ← bread (u32 dev) 1;
  b ← get_buf bp;
  brelse bp;;
  mret (sb_of (data b)).

(** [initlog], src/hw3/xv6/log.c:53-66 *)
Definition initlog (dev : Z) : M lsys unit :=
  panic_unless (negb (bool_decide (BSIZE ≤ HDRSIZE)%nat)) "initlog: too big logheader";;
  bio_ (modify (λ s, set_spin (spin s ∖ {[LOGLOCK]}) s));;
  sb ← bio_ (readsb dev);
  upd_log (λ l, Log (i32 (logstart sb)) (i32 (nlog sb)) (outstanding l) (committing l) dev (lh_n l) (lh_block l));;
  recover_from_log.
