(* ===== verification/LogSpec.v ===== *)
(** * What the steps of the log do to the cache and the disk (log.c)

    The log's loops copy blocks between the log area and their homes.  Each
    step is described by the one disk write it makes and by what it leaves of
    the cache: its contents [vol], the pinned blocks and the buffers to
    spare. *)

From S2P Require Import Prelude Bytes Bio BioList BioSpec BioOps Log.

Implicit Types (c : list buf) (d : gmap Z (list (list Z))) (n : Z) (l : log) (w : list Z).

Lemma wp_bio {A} (m : M bio A) Q b l w : wp m (λ a b', Q a (Lsys b' l w)) b → wp (bio_ m) Q (Lsys b l w).
Proof. intros. by apply wp_zoom. Qed.

Lemma held_vol c d m i n x f : binv c d m → held c i n x f → vol c d n = Some x ∧ length x = BSIZE ∧ 0 ≤ n < FSSIZE ∧ (f = 2 ∨ f = 6).
Proof.
  intros HI [Hi (b & Hb & Hd & Hk & Hr & Hx & Hf)].
  destruct (bi_buf _ _ _ HI i b Hi Hb) as [Hfl [[? _]|(_ & Hl & Hnz & _)] Hdata _]; [lia|].
  destruct (Hdata Hd Hnz). subst. split; [by apply (vol_cached c d m i b)|]. repeat split; try done; lia.
Qed.

Lemma wp_get_held c d t m i n x f Q :
  held c i n x f → (∀ b, data b = x → blockno b = n → flags b = f → Q b (rest c d t m)) → wp (get_buf i) Q (rest c d t m).
Proof. intros [Hi (b & Hb & Hd & Hk & Hr & Hx & Hf)] HQ. apply wp_getb with b; auto. Qed.

(** ** A copy of one held buffer to another, written to the disk *)

Record moved c d m (a b : Z) (f : Z) (x : list Z) c' d' : Prop := {
  mv_inv : binv c' d' m;
  mv_disk : d' = disk_write d 1 b x;
  mv_vol k : vol c' d' k = if decide (k = b) then Some x else vol c d k;
  mv_dirty k : dirty c' k ↔ dirty c k ∧ k ≠ b;
  mv_busy k : busy c' k ↔ busy c k ∧ k ≠ a ∧ k ≠ b;
  mv_spares : spares c' = (spares c + 1 + if decide (f = 2)%Z then 1 else 0)%nat
}.

Lemma wp_move c d t m i a x f j b y g l w Q :
  binv c d m → held c i a x f → held c j b y g → a ≠ b → f = 6 ∨ block_at d 1 a = Some x →
  (∀ c' d', moved c d m a b f x c' d' → Q tt (Lsys (rest c' d' (t ++ [(1, b, x)]) m) l w)) →
  wp (bio_ (copy_data j i);; bio_ (bwrite j);; bio_ (brelse i);; bio_ (brelse j)) Q (Lsys (rest c d t m) l w).
Proof.
  intros HI Hi Hj Hab Hsafe HQ. destruct (held_vol _ _ _ _ _ _ _ HI Hi) as (Hvx & Hlx & Ha & Hff).
  destruct (held_vol _ _ _ _ _ _ _ HI Hj) as (_ & _ & Hb & _).
  assert (i ≠ j) as Hij by (intros ->; by destruct (held_fun _ _ _ _ _ _ _ _ Hi Hj)).
  apply wp_bind, wp_bio, wp_bind. eapply wp_get_held; [done|]. intros bf Hd _ _. rewrite Hd.
  apply (wp_set_data c d t m j b y g x); [done..|]. intros c1 [C1 C2 C3 C4 C5 C6 C7 C8].
  apply wp_bind, wp_bio, (wp_bwrite c1 d t m j b x g); [done..|]. intros c2 d2 [W1 W2 W3 W4 W5 W6 W7 W8].
  assert (block_at d2 1 a = block_at d 1 a) as Hba by (rewrite W2, block_at_write, decide_False; [done|done|done|apply HI]).
  apply wp_bind, wp_bio, (wp_brelse c2 d2 _ m i a x f); [done|by auto|by rewrite Hba|]. intros c3 [E1 E2 E3 E4 E5 E6].
  apply wp_bio, (wp_brelse c3 d2 _ m j b x 2); [done|by apply E3| |].
  { right. rewrite W2, block_at_write, decide_True; [done|done|done|apply HI]. }
  intros c4 [F1 F2 F3 F4 F5 F6]. apply HQ. constructor; [done..| | | |].
  - intros k. by rewrite F2, E2, W4, C3.
  - intros k. rewrite F4, E4, W6. destruct (decide (k = b)) as [->|Hne]; [naive_solver|]. by rewrite C5.
  - intros k. rewrite F5, E5, W7, C7. tauto.
  - rewrite F6, decide_True, E6, W8, C8 by done. clear. case_decide; lia.
Qed.

(** ** One block of write_log and of install_trans *)

(** No buffer is in use, and the pinned blocks are those of [P]. *)
Record quiet c d m (P : Z → Prop) : Prop := {
  q_inv : binv c d m;
  q_idle k : ¬ busy c k;
  q_dirty k : dirty c k ↔ P k
}.

(** A block that is not pinned is on the disk what it is in the cache. *)
Lemma quiet_clean c d m P k : quiet c d m P → ¬ P k → vol c d k = block_at d 1 k.
Proof.
  intros [HI Hb Hd] Hk. unfold vol. destruct (list_find _ _) as [[j b]|] eqn:Hf; [|done].
  apply list_find_Some in Hf as (Hj & (Hd1 & Hkb & Hnz) & _). assert (j < NBUF)%nat as Hjn.
  { apply lookup_lt_Some in Hj. rewrite length_take in Hj. lia. }
  rewrite lookup_take_lt in Hj by done. symmetry. subst k.
  destruct (bi_buf _ _ _ HI j b Hjn Hj) as [[|[|H6]] Href _ Hclean]; [done| |].
  - apply Hclean; [done..|]. destruct Href as [[? _]|[? _]]; [done|]. exfalso. apply (Hb (blockno b)). by exists j, b.
  - exfalso. apply Hk, Hd. by exists j, b.
Qed.

Lemma wp_write_log_block c d t m P l w tail b x Q :
  quiet c d m P → log_dev l = 1 → lh_block l !! tail = Some b →
  0 ≤ start l + Z.of_nat tail + 1 < FSSIZE → 0 ≤ b < FSSIZE → P b → ¬ P (start l + Z.of_nat tail + 1) →
  (1 ≤ spares c)%nat → vol c d b = Some x →
  (∀ c', let a := start l + Z.of_nat tail + 1 in let d' := disk_write d 1 a x in
     quiet c' d' m P → (∀ k, vol c' d' k = if decide (k = a) then Some x else vol c d k) → (spares c ≤ spares c')%nat →
     Q tt (Lsys (rest c' d' (t ++ [(1, a, x)]) m) l w)) →
  wp (write_log_block tail) Q (Lsys (rest c d t m) l w).
Proof.
  intros [HI Hidle Hdirty] Hdev Hlb Ha Hb HPb HPa Hsp Hx HQ. set (a := start l + Z.of_nat tail + 1) in *.
  apply wp_bind, wp_gets. cbn [lg]. change (start l + Z.of_nat tail + 1) with a.
  apply wp_bind, wp_int; [unfold FSSIZE in *; lia|]. rewrite Hdev, (u32_small a) by (unfold FSSIZE in *; lia). change (u32 1) with 1.
  apply wp_bind, wp_bio, wp_bread; [done|done|done|left; lia|]. intros i1 x1 f1 c1 [O1 O2 O3 O4 O5 O6 O7 O8 O9 O10].
  apply wp_bind, wp_of_option with b; [done|]. rewrite (u32_small b) by (unfold FSSIZE in *; lia).
  assert (a ≠ b) as Hab by (intros ->; done).
  apply wp_bind, wp_bio, wp_bread; [done|done|rewrite O8; naive_solver|right; by rewrite O7, Hdirty|].
  intros i2 x2 f2 c2 [R1 R2 R3 R4 R5 R6 R7 R8 R9 R10].
  assert (x2 = x) as -> by (rewrite O5, Hx in R4; destruct R4; congruence).
  assert (f2 = 6) as -> by (destruct R3 as [[? _]|(_ & Hn & _)]; [done|]; exfalso; apply Hn; by rewrite O7, Hdirty).
  apply (wp_move c2 d t m i2 b x 6 i1 a x1 f1); [done|done|by apply R6|done|by left|].
  intros c3 d3 [M1 -> M3 M4 M5 M6]. apply HQ.
  - constructor; [done| |].
    + intros k. rewrite M5, R8, O8. naive_solver.
    + intros k. rewrite M4, R7, O7, Hdirty. naive_solver.
  - intros k. by rewrite M3, R5, O5.
  - rewrite M6, decide_False, R10 by done. lia.
Qed.

Lemma wp_install_block c d t m P l w tail b x Q :
  quiet c d m P → log_dev l = 1 → lh_block l !! tail = Some b →
  0 ≤ start l + Z.of_nat tail + 1 < FSSIZE → 0 ≤ b < FSSIZE → ¬ P (start l + Z.of_nat tail + 1) → start l + Z.of_nat tail + 1 ≠ b →
  (1 ≤ spares c)%nat → P b ∨ (2 ≤ spares c)%nat → vol c d (start l + Z.of_nat tail + 1) = Some x →
  (∀ c', let d' := disk_write d 1 b x in
     quiet c' d' m (λ k, P k ∧ k ≠ b) → (∀ k, vol c' d' k = if decide (k = b) then Some x else vol c d k) → (spares c ≤ spares c')%nat →
     Q tt (Lsys (rest c' d' (t ++ [(1, b, x)]) m) l w)) →
  wp (install_block tail) Q (Lsys (rest c d t m) l w).
Proof.
  intros [HI Hidle Hdirty] Hdev Hlb Ha Hb HPa Hab Hsp Hroom Hx HQ. set (a := start l + Z.of_nat tail + 1) in *.
  apply wp_bind, wp_gets. cbn [lg]. change (start l + Z.of_nat tail + 1) with a.
  apply wp_bind, wp_int; [unfold FSSIZE in *; lia|]. rewrite Hdev, (u32_small a) by (unfold FSSIZE in *; lia). change (u32 1) with 1.
  apply wp_bind, wp_bio, wp_bread; [done|done|done|left; lia|]. intros i1 x1 f1 c1 [O1 O2 O3 O4 O5 O6 O7 O8 O9 O10].
  assert (x1 = x) as -> by (rewrite Hx in O4; destruct O4; congruence).
  assert (f1 = 2 ∧ block_at d 1 a = Some x) as [-> Hxa] by (destruct O3 as [[_ Hn]|(? & _ & ?)]; [by rewrite Hdirty in Hn|done]).
  apply wp_bind, wp_of_option with b; [done|]. rewrite (u32_small b) by (unfold FSSIZE in *; lia).
  apply wp_bind, wp_bio, wp_bread; [done|done|rewrite O8; naive_solver| |].
  { destruct Hroom; [right; by rewrite O7, Hdirty|left; lia]. }
  intros i2 x2 f2 c2 [R1 R2 R3 R4 R5 R6 R7 R8 R9 R10].
  apply (wp_move c2 d t m i1 a x 2 i2 b x2 f2); [done|by apply R6|done|done|by right|].
  intros c3 d3 [M1 -> M3 M4 M5 M6]. apply HQ.
  - constructor; [done| |].
    + intros k. rewrite M5, R8, O8. naive_solver.
    + intros k. rewrite M4, R7, O7, Hdirty. done.
  - intros k. by rewrite M3, R5, O5.
  - rewrite M6, decide_True by done. lia.
Qed.
