(* ===== verification/LogLoops.v ===== *)
(** * The loops of the log: header, write_log and install_trans (log.c) *)

From S2P Require Import Prelude Bytes Bio BioList BioSpec BioOps Log LogSpec.

Implicit Types (c : list buf) (d : gmap Z (list (list Z))) (n : Z) (l : log) (w : list Z).

(** ** The header block *)

(** The block numbers a header block lists. *)
Definition hdr_blocks (x : list Z) : list Z := (λ i, get_i32 (hdr_block i) x) <$> seq 0 (Z.to_nat (get_i32 hdr_n x)).

Lemma hdr_blocks_eq x (bs : list Z) :
  get_i32 hdr_n x = lenZ bs → (∀ i b, bs !! i = Some b → get_i32 (hdr_block i) x = b) → hdr_blocks x = bs.
Proof.
  intros Hn Hb. unfold hdr_blocks. rewrite Hn. unfold lenZ. rewrite Nat2Z.id. apply list_eq. intros i.
  rewrite list_lookup_fmap. destruct (bs !! i) as [b|] eqn:Hi.
  - rewrite lookup_seq_lt by (by eapply lookup_lt_Some). cbn. f_equal. by apply Hb.
  - by rewrite lookup_seq_ge by (by apply lookup_ge_None).
Qed.

Lemma get_i32_put_ne off off' z (x : list Z) :
  (off + 4 ≤ length x)%nat → (off' + 4 ≤ off ∨ off + 4 ≤ off')%nat → get_i32 off' (put_u32 off z x) = get_i32 off' x.
Proof. intros. unfold get_i32, put_u32. by rewrite get_put_ne; rewrite ?length_le_enc. Qed.

(** The header block [h] is that of the list [bs]. *)
Definition header (h bs : list Z) : Prop := get_i32 hdr_n h = lenZ bs ∧ hdr_blocks h = bs.

(** ** Stores into one held buffer *)

Lemma changed_trans c d m i n y g c' z c'' :
  changed c d m i n y g c' → changed c' d m i n z g c'' → changed c d m i n z g c''.
Proof.
  intros [A1 A2 A3 A4 A5 A6 A7 A8] [B1 B2 B3 B4 B5 B6 B7 B8]. constructor; try done.
  - intros k. rewrite B3, A3. by destruct (decide (k = n)).
  - eauto.
  - intros k Hk. by rewrite B5, A5.
  - intros k. by rewrite B7, A7.
  - by rewrite B8, A8.
Qed.

Lemma wp_store c d t m i n x f (g : list Z → list Z) Q :
  binv c d m → held c i n x f → length (g x) = BSIZE →
  (∀ c', changed c d m i n (g x) f c' → Q tt (rest c' d t m)) →
  wp (b ← get_buf i; upd_buf i (set_data (g (data b)))) Q (rest c d t m).
Proof.
  intros HI Hh Hl HQ. apply wp_bind. eapply wp_get_held; [done|]. intros b Hd _ _. rewrite Hd. by eapply wp_set_data.
Qed.

(** The header being filled in: [j] of the block numbers are in place. *)
Definition hdr_upto (bs : list Z) (j : nat) (h : list Z) : Prop :=
  length h = BSIZE ∧ get_i32 hdr_n h = lenZ bs ∧ ∀ i b, (i < j)%nat → bs !! i = Some b → get_i32 (hdr_block i) h = b.

Lemma hdr_upto_0 bs x : (length bs ≤ 30)%nat → length x = BSIZE → hdr_upto bs 0 (put_u32 hdr_n (lenZ bs) x).
Proof.
  intros Hb Hx. unfold hdr_upto, BSIZE, hdr_n in *. rewrite length_put_u32, get_i32_put by lia.
  split; [done|]. split; [|lia]. apply i32_small. unfold lenZ. lia.
Qed.

Lemma hdr_upto_S bs j b h :
  (length bs ≤ 30)%nat → bs !! j = Some b → 0 ≤ b < FSSIZE → hdr_upto bs j h → hdr_upto bs (S j) (put_u32 (hdr_block j) b h).
Proof.
  intros Hb Hj Hr (Hl & Hn & Hi). pose proof (lookup_lt_Some _ _ _ Hj). unfold hdr_upto, BSIZE, hdr_n, hdr_block, FSSIZE in *. split_and!.
  - by rewrite length_put_u32 by lia.
  - by rewrite get_i32_put_ne by lia.
  - intros i bi Hlt Hbi. destruct (decide (i = j)) as [->|].
    + simplify_eq. rewrite get_i32_put by lia. apply i32_small. lia.
    + rewrite get_i32_put_ne by lia. apply Hi; [lia|done].
Qed.

(** The log's record lists [bs]. *)
Record lists l (bs : list Z) : Prop := {
  ls_dev : log_dev l = 1;
  ls_n : lh_n l = lenZ bs;
  ls_len : length (lh_block l) = 30%nat;
  ls_le : (length bs ≤ 30)%nat;
  ls_blocks i b : bs !! i = Some b → lh_block l !! i = Some b ∧ 0 ≤ b < FSSIZE
}.

Lemma wp_write_head c d t m P l w bs Q :
  quiet c d m P → lists l bs → 0 ≤ start l < FSSIZE → ¬ P (start l) → (1 ≤ spares c)%nat →
  (∀ c' h, let d' := disk_write d 1 (start l) h in
     header h bs → length h = BSIZE → quiet c' d' m P →
     (∀ k, vol c' d' k = if decide (k = start l) then Some h else vol c d k) → (spares c ≤ spares c')%nat →
     Q tt (Lsys (rest c' d' (t ++ [(1, start l, h)]) m) l w)) →
  wp write_head Q (Lsys (rest c d t m) l w).
Proof.
  intros [HI Hidle Hdirty] HL Hs HPs Hsp HQ. apply wp_bind, wp_gets. cbn [lg].
  rewrite (ls_dev _ _ HL), (u32_small (start l)) by (unfold FSSIZE in *; lia). change (u32 1) with 1.
  apply wp_bind, wp_bio, wp_bread; [done|done|done|left; lia|]. intros i x f c1 [O1 O2 O3 [O4 Hlx] O5 O6 O7 O8 O9 O10].
  assert (f = 2) as -> by (destruct O3 as [[_ Hn]|[? _]]; [by rewrite Hdirty in Hn|done]).
  rewrite (ls_n _ _ HL). pose proof (ls_le _ _ HL) as Hle.
  apply wp_bind, wp_bio, (wp_store c1 d t m i (start l) x 2 (put_u32 hdr_n (lenZ bs))); [done|done|by apply hdr_upto_0|]. intros c2 Hc2.
  apply wp_bind. apply (wp_for _ _ _ (λ j s, ∃ c h, s = Lsys (rest c d t m) l w ∧ changed c1 d m i (start l) h 2 c ∧ hdr_upto bs j h)).
  { do 2 eexists. split; [done|]. split; [done|by apply hdr_upto_0]. }
  - intros j s Hj (c3 & h & -> & Hch & Hup). unfold lenZ in Hj. rewrite Nat2Z.id in Hj.
    destruct (lookup_lt_is_Some_2 bs j) as [b Hb]; [lia|]. destruct (ls_blocks _ _ HL j b Hb) as [Hlb Hr].
    apply wp_bind, wp_of_option with b; [done|]. pose proof Hch as [H1 H2 _ _ _ _ _ _].
    pose proof (hdr_upto_S bs j b h Hle Hb Hr Hup) as Hup'.
    apply wp_bind, wp_bio, (wp_store c3 d t m i (start l) h 2 (put_u32 (hdr_block j) b)); [done|done|by destruct Hup'|].
    intros c4 Hc4. apply wp_ret. exists c4. eexists. split; [done|]. split; [|done]. by eapply changed_trans.
  - intros s (c3 & h & -> & [C1 C2 C3 C4 C5 C6 C7 C8] & (Hlh & Hhn & Hhb)).
    apply wp_bind, wp_bio, (wp_bwrite c3 d t m i (start l) h 2); [done|done|]. intros c4 d4 [W1 -> W3 W4 W5 W6 W7 W8].
    apply wp_bio, (wp_brelse c4 _ _ m i (start l) h 2); [done|done| |].
    { right. rewrite block_at_write, decide_True; [done|done|done|apply HI]. }
    intros c5 [E1 E2 E3 E4 E5 E6]. apply HQ; [| |constructor| |].
    + split; [done|]. apply hdr_blocks_eq; [done|]. intros j b Hj. apply Hhb; [|done]. apply lookup_lt_Some in Hj. unfold lenZ. lia.
    + done.
    + done.
    + intros k. rewrite E5, W7, C7, O8. naive_solver.
    + intros k. rewrite E4, W6. destruct (decide (k = start l)) as [->|Hne]; [naive_solver|]. rewrite C5, O7, Hdirty by done. naive_solver.
    + intros k. by rewrite E2, W4, C3, O5.
    + rewrite E6, decide_True, W8, C8 by done. lia.
Qed.

Lemma wp_read_head c d t m P l w h bs Q :
  quiet c d m P → log_dev l = 1 → length (lh_block l) = 30%nat → 0 ≤ start l < FSSIZE → ¬ P (start l) → (1 ≤ spares c)%nat →
  vol c d (start l) = Some h → header h bs → (length bs ≤ 30)%nat → Forall (λ b, 0 ≤ b < FSSIZE) bs →
  (∀ c' l', quiet c' d m P → (∀ k, vol c' d k = vol c d k) → (spares c ≤ spares c')%nat →
     lists l' bs → start l' = start l → log_size l' = log_size l → outstanding l' = outstanding l → committing l' = committing l →
     Q tt (Lsys (rest c' d t m) l' w)) →
  wp read_head Q (Lsys (rest c d t m) l w).
Proof.
  intros [HI Hidle Hdirty] Hdev Hlen Hs HPs Hsp Hh [Hn Hbs] Hle Hall HQ. unfold lenZ in Hn. apply wp_bind, wp_gets. cbn [lg].
  rewrite Hdev, (u32_small (start l)) by (unfold FSSIZE in *; lia). change (u32 1) with 1.
  apply wp_bind, wp_bio, wp_bread; [done|done|done|left; lia|]. intros i x f c1 [O1 O2 O3 [O4 Hlx] O5 O6 O7 O8 O9 O10].
  assert (x = h) as -> by congruence.
  assert (f = 2 ∧ block_at d 1 (start l) = Some h) as [-> Hblk] by (destruct O3 as [[_ Hd]|(? & _ & ?)]; [by rewrite Hdirty in Hd|done]).
  apply wp_bind, wp_bio. eapply wp_get_held; [done|]. intros b Hd _ _. rewrite Hd. apply wp_bind, wp_modify. unfold set_lg. cbn [io lg woken].
  apply wp_bind. apply (wp_for _ _ _ (λ j s, ∃ bl, s = Lsys (rest c1 d t m) (set_lh_block bl (set_lh_n (get_i32 hdr_n h) l)) w ∧
    length bl = 30%nat ∧ ∀ k y, (k < j)%nat → hdr_blocks h !! k = Some y → bl !! k = Some y)).
  { exists (lh_block l). split_and!; [by destruct l|done|lia]. }
  - intros j s Hj (bl & -> & Hbl & Hk). apply wp_bind, wp_gets. cbn [lg lh_block set_lh_block].
    destruct (lookup_lt_is_Some_2 bl j) as [y Hy]; [lia|]. apply wp_bind, wp_of_option with y; [done|].
    apply wp_bind, wp_modify, wp_ret. eexists. split; [done|]. rewrite length_insert. split; [done|]. intros k z Hlt Hz.
    destruct (decide (k = j)) as [->|Hne]; [|rewrite list_lookup_insert_ne by done; apply Hk; [lia|done]].
    rewrite list_lookup_insert_eq by lia. unfold hdr_blocks in Hz. rewrite list_lookup_fmap, lookup_seq_lt in Hz by lia. done.
  - intros s (bl & -> & Hbl & Hk). apply wp_bio, (wp_brelse c1 d t m i (start l) h 2); [done|done|by right|].
    intros c2 [E1 E2 E3 E4 E5 E6]. rewrite Hbs in Hk. apply HQ; [constructor|..]; try done.
    + intros k. rewrite E5, O8. naive_solver.
    + intros k. by rewrite E4, O7, Hdirty.
    + intros k. by rewrite E2, O5.
    + rewrite E6, decide_True by done. lia.
    + constructor; cbn; [done|done|done|lia|]. intros k y Hy. rewrite Forall_lookup in Hall.
      split; [|by eapply Hall]. apply Hk; [|done]. apply lookup_lt_Some in Hy. lia.
Qed.
