(* ===== verification/LogCrash.v ===== *)
(** * What the disk holds after a crash (log.c)

    The log writes to the disk one block at a time, so a crash leaves the disk
    as it was after some of the writes.  What recovery will make of it is
    [recovered]: a block listed in the header is taken from the log. *)

From S2P Require Import Prelude Bytes Bio BioList BioSpec BioOps Log LogSpec LogLoops.

Implicit Types (c : list buf) (d : gmap Z (list (list Z))) (W : list (Z * Z * list Z)).

Definition replay d W : gmap Z (list (list Z)) := foldl (λ d '(v, n, x), disk_write d v n x) d W.

Definition recovered d (S k : Z) : option (list Z) :=
  h ← block_at d 1 S;
  match list_find (eq k) (hdr_blocks h) with
  | Some (i, _) => block_at d 1 (S + Z.of_nat i + 1)
  | None => block_at d 1 k
  end.

(** ** Replaying writes *)

Definition write_ok : Z * Z * list Z → Prop := λ '(v, n, x), v = 1 ∧ 0 ≤ n < FSSIZE ∧ length x = BSIZE.
Definition target : Z * Z * list Z → Z := λ '(_, n, _), n.

Lemma replay_app d W W' : replay d (W ++ W') = replay (replay d W) W'.
Proof. apply foldl_app. Qed.

Lemma disk_ok_replay d W : disk_ok d → Forall write_ok W → disk_ok (replay d W).
Proof.
  intros Hd HW. revert d Hd. induction HW as [|[[v n] x] W (-> & Hn & Hx) HW IH]; intros d Hd; [done|].
  cbn. apply IH. by apply disk_ok_write.
Qed.

Lemma replay_other d W k : disk_ok d → Forall write_ok W → k ∉ target <$> W → block_at (replay d W) 1 k = block_at d 1 k.
Proof.
  intros Hd HW. revert d Hd. induction HW as [|[[v n] x] W (-> & Hn & Hx) HW IH]; intros d Hd Hk; [done|].
  cbn in Hk. apply not_elem_of_cons in Hk as [Hne Hk]. cbn. rewrite IH; [|by apply disk_ok_write|done].
  by rewrite block_at_write, decide_False.
Qed.

Lemma replay_at d W i n x :
  disk_ok d → Forall write_ok W → NoDup (target <$> W) → W !! i = Some (1, n, x) → block_at (replay d W) 1 n = Some x.
Proof.
  intros Hd HW. revert d i Hd. induction HW as [|[[v n'] x'] W (-> & Hn & Hx) HW IH]; intros d i Hd Hnd Hi; [done|].
  cbn in Hnd. apply NoDup_cons in Hnd as [Hni Hnd]. cbn. destruct i as [|i]; cbn in Hi.
  - injection Hi as -> ->. rewrite replay_other; [|by apply disk_ok_write|done|done]. by rewrite block_at_write, decide_True.
  - apply (IH _ i); [by apply disk_ok_write|done|done].
Qed.

(** ** The writes of a commit *)

(** Header at [S], log blocks after it, and the homes [bs] elsewhere. *)
Record geometry (S : Z) (bs : list Z) : Prop := {
  ge_log : 0 ≤ S ∧ S + lenZ bs < FSSIZE;
  ge_nodup : NoDup bs;
  ge_home i b : bs !! i = Some b → 0 ≤ b < FSSIZE ∧ ¬ (S ≤ b ≤ S + lenZ bs)
}.

Definition logwrites (S : Z) (bs : list Z) (f : Z → list Z) : list (Z * Z * list Z) := imap (λ i b, (1, S + Z.of_nat i + 1, f b)) bs.
Definition homewrites (bs : list Z) (f : Z → list Z) : list (Z * Z * list Z) := (λ b, (1, b, f b)) <$> bs.

Section writes.
Context (S : Z) (bs : list Z) (f : Z → list Z).
Hypotheses (HG : geometry S bs) (Hf : ∀ i b, bs !! i = Some b → length (f b) = BSIZE).

Lemma logwrites_lookup i w : logwrites S bs f !! i = Some w ↔ ∃ b, bs !! i = Some b ∧ w = (1, S + Z.of_nat i + 1, f b).
Proof using Type. unfold logwrites. rewrite list_lookup_imap. destruct (bs !! i); cbn; naive_solver. Qed.

Lemma logwrites_ok : Forall write_ok (logwrites S bs f).
Proof using HG Hf.
  apply Forall_lookup. intros i w (b & Hb & ->)%logwrites_lookup. pose proof (lookup_lt_Some _ _ _ Hb).
  pose proof (ge_log _ _ HG). unfold lenZ in *. repeat split; [lia|lia|by eapply Hf].
Qed.
Lemma homewrites_ok : Forall write_ok (homewrites bs f).
Proof using HG Hf.
  apply Forall_fmap, Forall_lookup. intros i b Hb. destruct (ge_home _ _ HG i b Hb). repeat split; [lia|lia|by eapply Hf].
Qed.

Lemma logwrites_targets k : k ∈ target <$> logwrites S bs f → S < k ≤ S + lenZ bs.
Proof using Type.
  intros (w & -> & [i (b & Hb & ->)%logwrites_lookup]%list_elem_of_lookup)%list_elem_of_fmap. cbn.
  apply lookup_lt_Some in Hb. unfold lenZ. lia.
Qed.
Lemma homewrites_targets : target <$> homewrites bs f = bs.
Proof using Type. unfold homewrites. rewrite <- list_fmap_compose. apply list_fmap_id. Qed.

Lemma logwrites_nodup : NoDup (target <$> logwrites S bs f).
Proof using Type.
  apply NoDup_alt. intros i j k. rewrite !list_lookup_fmap.
  destruct (logwrites S bs f !! i) as [w|] eqn:Hi; [|done]. destruct (logwrites S bs f !! j) as [w'|] eqn:Hj; [|done].
  apply logwrites_lookup in Hi as (b & _ & ->), Hj as (b' & _ & ->). cbn. intros [= <-] [= ?]. lia.
Qed.

(** While the log blocks are written, recovery finds the old contents. *)
Lemma crash_logwrites d n k :
  disk_ok d → (∃ h, block_at d 1 S = Some h ∧ header h []) → ¬ (S ≤ k ≤ S + lenZ bs) →
  recovered (replay d (take n (logwrites S bs f))) S k = block_at d 1 k.
Proof using HG Hf.
  intros Hd (h & Hh & [Hn He]) Hk. assert (∀ z, z ∈ target <$> take n (logwrites S bs f) → S < z ≤ S + lenZ bs) as Ht.
  { intros z Hz. apply logwrites_targets. rewrite fmap_take in Hz. by eapply subseteq_take. }
  pose proof (Forall_take _ n _ logwrites_ok) as Hok. unfold recovered.
  rewrite (replay_other _ _ S), Hh; [|done|done|intros ?%Ht; lia]. cbn. rewrite He. cbn.
  apply replay_other; [done|done|]. intros ?%Ht. lia.
Qed.

(** The disk [d] holds a committed transaction. *)
Record committed d : Prop := {
  co_disk : disk_ok d;
  co_head : ∃ h, block_at d 1 S = Some h ∧ header h bs;
  co_blocks i b : bs !! i = Some b → block_at d 1 (S + Z.of_nat i + 1) = Some (f b)
}.

Definition now d k : option (list Z) := if decide (k ∈ bs) then Some (f k) else block_at d 1 k.

Lemma recovered_committed d k : committed d → recovered d S k = now d k.
Proof using Type.
  intros [Hd (h & Hh & [Hn He]) Hb]. unfold recovered, now. rewrite Hh. cbn. rewrite He.
  destruct (list_find (eq k) bs) as [[i b]|] eqn:Hfd.
  - apply list_find_Some in Hfd as (Hi & <- & _). rewrite decide_True by (by apply list_elem_of_lookup; exists i). by apply Hb.
  - apply list_find_None in Hfd. rewrite decide_False; [done|]. intros Hin. rewrite Forall_forall in Hfd. by apply (Hfd k).
Qed.

Lemma commit_point d h :
  disk_ok d → header h bs → length h = BSIZE →
  let d' := replay d (logwrites S bs f ++ [(1, S, h)]) in
  committed d' ∧ ∀ k, ¬ (S ≤ k ≤ S + lenZ bs) → now d' k = now d k.
Proof using HG Hf.
  intros Hd Hh Hl. pose proof (ge_log _ _ HG) as Hge. unfold lenZ in *. pose proof logwrites_ok as Hok.
  pose proof (disk_ok_replay _ _ Hd Hok) as Hd1. rewrite replay_app. cbn. split; [constructor|].
  - by apply disk_ok_write.
  - exists h. split; [|done]. rewrite block_at_write, decide_True; [done|done|lia|done].
  - intros i b Hb. rewrite block_at_write, decide_False; [|lia|lia|done].
    apply (replay_at d _ i); [done|done|apply logwrites_nodup|]. apply logwrites_lookup. by exists b.
  - intros k Hk. unfold now. case_decide; [done|]. rewrite block_at_write, decide_False; [|lia|lia|done].
    apply replay_other; [done|done|]. intros ?%logwrites_targets. unfold lenZ in *. lia.
Qed.

(** Installing blocks does not change what recovery finds. *)
Lemma committed_home d n :
  committed d → let d' := replay d (take n (homewrites bs f)) in
  committed d' ∧ ∀ k, ¬ (S ≤ k ≤ S + lenZ bs) → now d' k = now d k.
Proof using HG Hf.
  intros [Hd (h & Hh & [Hn He]) Hb]. pose proof (Forall_take _ n _ homewrites_ok) as Hok.
  assert (∀ z, z ∈ target <$> take n (homewrites bs f) → z ∈ bs) as Ht.
  { intros z Hz. rewrite fmap_take, homewrites_targets in Hz. by eapply subseteq_take. }
  assert (∀ z, S ≤ z ≤ S + lenZ bs → z ∉ target <$> take n (homewrites bs f)) as Hlog.
  { intros z Hz [i Hi]%Ht%list_elem_of_lookup. by destruct (ge_home _ _ HG i z Hi). }
  pose proof (ge_log _ _ HG). unfold lenZ in *. cbn. split; [constructor|].
  - by apply disk_ok_replay.
  - exists h. rewrite replay_other; [done|done|done|]. apply Hlog. lia.
  - intros i b Hi. pose proof (lookup_lt_Some _ _ _ Hi). rewrite replay_other; [by apply Hb|done|done|]. apply Hlog. lia.
  - intros k Hk. unfold now. case_decide; [done|]. apply replay_other; [done|done|]. by intros ?%Ht.
Qed.

(** After all of them the homes hold what recovery found. *)
Lemma installed d k : committed d → block_at (replay d (homewrites bs f)) 1 k = now d k.
Proof using HG Hf.
  intros [Hd _ _]. unfold now. case_decide as Hin.
  - apply list_elem_of_lookup in Hin as [i Hi]. apply (replay_at d _ i); [done|by apply homewrites_ok| |].
    + rewrite homewrites_targets. apply HG.
    + unfold homewrites. by rewrite list_lookup_fmap, Hi.
  - apply replay_other; [done|by apply homewrites_ok|]. by rewrite homewrites_targets.
Qed.

(** At every crash point of the second half, recovery finds the new contents. *)
Lemma crash_install d h0 n k :
  committed d → header h0 [] → length h0 = BSIZE → ¬ (S ≤ k ≤ S + lenZ bs) →
  recovered (replay d (take n (homewrites bs f ++ [(1, S, h0)]))) S k = now d k.
Proof using HG Hf.
  intros HC [_ H0] Hl Hk. pose proof (ge_log _ _ HG) as Hge. rewrite take_app, replay_app.
  destruct (decide (n ≤ length (homewrites bs f))%nat) as [Hn|Hn].
  - replace (n - _)%nat with 0%nat by lia. cbn. destruct (committed_home d n HC) as [HC' Hnow].
    by rewrite recovered_committed, Hnow.
  - rewrite (take_ge _ n), (take_ge [_]) by (cbn; lia). cbn.
    pose proof (disk_ok_replay _ _ (co_disk _ HC) homewrites_ok) as Hd. unfold recovered, lenZ in *.
    rewrite (block_at_write _ _ _ S), decide_True; [|done|lia|done]. cbn. rewrite H0. cbn.
    rewrite block_at_write, decide_False; [|lia|lia|done]. by apply installed.
Qed.

(** The header block itself at the crash points. *)
Lemma head_logwrites d n : disk_ok d → block_at (replay d (take n (logwrites S bs f))) 1 S = block_at d 1 S.
Proof using HG Hf.
  intros Hd. apply replay_other; [done|by apply Forall_take, logwrites_ok|]. rewrite fmap_take. intros Hin.
  apply subseteq_take, logwrites_targets in Hin. lia.
Qed.

Lemma head_install d h0 n :
  committed d → header h0 [] → length h0 = BSIZE →
  ∃ h, block_at (replay d (take n (homewrites bs f ++ [(1, S, h0)]))) 1 S = Some h ∧ (header h bs ∨ header h []).
Proof using HG Hf.
  intros HC H0 Hl. pose proof (ge_log _ _ HG) as Hge. unfold lenZ in Hge. rewrite take_app, replay_app.
  destruct (decide (n ≤ length (homewrites bs f))%nat) as [Hn|Hn].
  - replace (n - _)%nat with 0%nat by lia. cbn. destruct (committed_home d n HC) as [[_ (h & Hh & Hb) _] _]. exists h. auto.
  - rewrite (take_ge _ n), (take_ge [_]) by (cbn; lia). cbn. exists h0. split; [|by right].
    rewrite block_at_write, decide_True; [done|done|lia|]. apply disk_ok_replay; [apply HC|apply homewrites_ok].
Qed.
End writes.
