(* ===== verification/LogCommit.v ===== *)
(** * Commit and recovery, run on the cache (log.c) *)

From S2P Require Import Prelude Bytes Bio BioList BioSpec BioOps Log LogSpec LogLoops LogCrash.

Implicit Types (c : list buf) (d : gmap Z (list (list Z))) (l : log) (w : list Z).

(** ** The loops *)

Lemma take_snoc {A} (W : list A) j x : W !! j = Some x → take (S j) W = take j W ++ [x].
Proof. apply take_S_r. Qed.

Lemma replay_snoc d W v n x : replay d (W ++ [(v, n, x)]) = disk_write (replay d W) v n x.
Proof. by rewrite replay_app. Qed.

(** A loop whose round [j] makes the [j]th of the writes [W]. *)
Lemma wp_for_writes d t m l w W (body : nat → M lsys unit) (J : nat → list buf → Prop) c Q :
  J 0%nat c →
  (∀ j c x, W !! j = Some x → J j c →
     wp (body j) (λ _ s, ∃ c', s = Lsys (rest c' (replay d (take j W ++ [x])) ((t ++ take j W) ++ [x]) m) l w ∧ J (S j) c')
        (Lsys (rest c (replay d (take j W)) (t ++ take j W) m) l w)) →
  (∀ c', J (length W) c' → Q tt (Lsys (rest c' (replay d W) (t ++ W) m) l w)) →
  wp (for_ (R := unit) (length W) 0 (λ tail, body tail;; mret None);; mret tt) Q (Lsys (rest c d t m) l w).
Proof.
  intros H0 Hbody HQ. apply wp_bind.
  apply (wp_for _ _ _ (λ j s, ∃ c, s = Lsys (rest c (replay d (take j W)) (t ++ take j W) m) l w ∧ J j c)).
  { exists c. cbn. by rewrite app_nil_r. }
  - intros j s Hj (cj & -> & HJ). destruct (lookup_lt_is_Some_2 W j) as [x Hx]; [lia|].
    apply wp_bind. eapply wp_mono; [by apply (Hbody j cj x)|]. intros _ s (c' & -> & HJ'). apply wp_ret.
    exists c'. rewrite (take_snoc W j x), app_assoc by done. done.
  - intros s (cj & -> & HJ). cbn. rewrite take_ge by lia. by apply wp_ret, HQ.
Qed.

Lemma wp_write_log c d t m l w bs f Q :
  quiet c d m (.∈ bs) → lists l bs → geometry (start l) bs → (1 ≤ spares c)%nat → (∀ b, b ∈ bs → vol c d b = Some (f b)) →
  (∀ c', let d' := replay d (logwrites (start l) bs f) in
     quiet c' d' m (.∈ bs) → (spares c ≤ spares c')%nat → Q tt (Lsys (rest c' d' (t ++ logwrites (start l) bs f) m) l w)) →
  wp write_log Q (Lsys (rest c d t m) l w).
Proof.
  intros HQt HL HG Hsp Hf HQ. apply wp_bind, wp_gets. cbn [lg]. rewrite (ls_n _ _ HL). unfold lenZ. rewrite Nat2Z.id.
  replace (length bs) with (length (logwrites (start l) bs f)) by (unfold logwrites; apply length_imap).
  pose proof (ge_log _ _ HG) as [HS1 HS2]. unfold lenZ in HS2.
  assert (∀ j b, bs !! j = Some b → start l + Z.of_nat j + 1 ∉ bs) as Hout.
  { intros j b Hb [i Hi]%list_elem_of_lookup. apply lookup_lt_Some in Hb. destruct (ge_home _ _ HG i _ Hi) as [_ Hn].
    apply Hn. unfold lenZ. lia. }
  apply (wp_for_writes _ _ _ _ _ _ _ (λ j c', quiet c' (replay d (take j (logwrites (start l) bs f))) m (.∈ bs) ∧
    (spares c ≤ spares c')%nat ∧ ∀ b, b ∈ bs → vol c' (replay d (take j (logwrites (start l) bs f))) b = Some (f b))).
  - done.
  - intros j cj x Hx (Hq & Hs & Hv). pose proof Hx as (b & Hb & ->)%logwrites_lookup. pose proof (lookup_lt_Some _ _ _ Hb).
    destruct (ls_blocks _ _ HL j b Hb) as [Hlb Hr]. pose proof (ls_dev _ _ HL).
    apply (wp_write_log_block cj _ _ m (.∈ bs) l w j b (f b)); try done; [lia| |by eapply Hout|lia|apply Hv|].
    1, 2: apply list_elem_of_lookup; by exists j.
    intros c' a d' Hq' Hv' Hs'. exists c'. rewrite (take_snoc _ j _ Hx), replay_snoc. split_and!; [done|done|lia|].
    intros b' Hb'. subst d'. rewrite Hv', decide_False; [by apply Hv|]. intros ->. by apply (Hout j b Hb).
  - intros c' (Hq & Hs & _). rewrite take_ge in Hq by done. by apply HQ.
Qed.

Lemma quiet_ext c d m (P P' : Z → Prop) : (∀ k, P k ↔ P' k) → quiet c d m P → quiet c d m P'.
Proof. intros Hp [H1 H2 H3]. constructor; [done|done|]. intros k. by rewrite H3, Hp. Qed.

Lemma wp_install_trans c d t m P l w bs f Q :
  quiet c d m P → lists l bs → geometry (start l) bs → committed (start l) bs f d → (∀ b, b ∈ bs → length (f b) = BSIZE) →
  (∀ k, start l ≤ k ≤ start l + lenZ bs → ¬ P k) → (1 ≤ spares c)%nat → (∀ b, b ∈ bs → P b) ∨ (2 ≤ spares c)%nat →
  (∀ c', let d' := replay d (homewrites bs f) in
     quiet c' d' m (λ k, P k ∧ k ∉ bs) → (spares c ≤ spares c')%nat → Q tt (Lsys (rest c' d' (t ++ homewrites bs f) m) l w)) →
  wp install_trans Q (Lsys (rest c d t m) l w).
Proof.
  intros HQt HL HG HC Hf HP Hsp Hroom HQ. apply wp_bind, wp_gets. cbn [lg]. rewrite (ls_n _ _ HL). unfold lenZ. rewrite Nat2Z.id.
  replace (length bs) with (length (homewrites bs f)) by apply length_fmap.
  pose proof (ge_log _ _ HG) as [HS1 HS2]. unfold lenZ in HS2, HP.
  assert (∀ i b, bs !! i = Some b → length (f b) = BSIZE) as Hf' by (intros i b Hb; apply Hf, list_elem_of_lookup; by exists i).
  apply (wp_for_writes _ _ _ _ _ _ _ (λ j c', quiet c' (replay d (take j (homewrites bs f))) m (λ k, P k ∧ k ∉ take j bs) ∧
    (spares c ≤ spares c')%nat)).
  - split; [|done]. apply (quiet_ext _ _ _ P); [|done]. intros k. cbn. split; [|tauto]. split; [done|]. apply not_elem_of_nil.
  - intros j cj x Hx (Hq & Hs). assert (∃ b, bs !! j = Some b ∧ x = (1, b, f b)) as (b & Hb & ->).
    { unfold homewrites in Hx. rewrite list_lookup_fmap in Hx. destruct (bs !! j) as [b|]; [|done]. exists b. cbn in Hx. by injection Hx. }
    pose proof (lookup_lt_Some _ _ _ Hb). destruct (ls_blocks _ _ HL j b Hb) as [Hlb Hr]. pose proof (ls_dev _ _ HL).
    destruct (ge_home _ _ HG j b Hb) as [_ Hnb]. unfold lenZ in Hnb.
    destruct (committed_home (start l) bs f HG Hf' d j HC) as [HC' _].
    assert (¬ (P (start l + Z.of_nat j + 1) ∧ start l + Z.of_nat j + 1 ∉ take j bs)) as HPa by (intros [Hp _]; revert Hp; apply HP; lia).
    assert (b ∉ take j bs) as Hbj.
    { intros [i [Hi Hij]%lookup_take_Some]%list_elem_of_lookup. pose proof (NoDup_lookup _ _ _ _ (ge_nodup _ _ HG) Hb Hi). lia. }
    assert (b ∈ bs) as Hin by (apply list_elem_of_lookup; by exists j).
    apply (wp_install_block cj _ _ m (λ k, P k ∧ k ∉ take j bs) l w j b (f b)); try done; [lia|lia|lia| | |].
    + destruct Hroom; [left; auto|right; lia].
    + rewrite (quiet_clean _ _ _ _ _ Hq HPa). by apply (co_blocks _ _ _ _ HC' j).
    + intros c' d' Hq' _ Hs'. exists c'. rewrite (take_snoc _ j _ Hx), replay_snoc. split_and!; [done| |lia].
      revert Hq'. apply quiet_ext. intros k. rewrite (take_snoc bs j b Hb), elem_of_app, list_elem_of_singleton. tauto.
  - intros c' (Hq & Hs). assert (length (homewrites bs f) = length bs) as Hlen by apply length_fmap.
    rewrite (take_ge (homewrites bs f)), (take_ge bs) in Hq by lia. by apply HQ.
Qed.
