(* ===== verification/LogRecover.v ===== *)
(** * Booting: the cache's first state, and recovery from the log (log.c) *)

From S2P Require Import Prelude Bytes Bio BioList BioSpec BioOps Log LogSpec LogLoops LogCrash LogCommit.

Implicit Types (c : list buf) (d : gmap Z (list (list Z))) (l : log) (w : list Z).

(** ** The layout of a file system disk *)

(** The homes of a transaction: outside of the log and not the superblock. *)
Record homes (S size : Z) (bs : list Z) : Prop := {
  ho_len : lenZ bs ≤ LOGSIZE ∧ lenZ bs < size;
  ho_nodup : NoDup bs;
  ho_out b : b ∈ bs → 0 ≤ b < FSSIZE ∧ ¬ (S ≤ b < S + size) ∧ b ≠ 1
}.

(** A disk whose superblock puts the log at [S], with the transaction [bs]. *)
Record disk_log d (S size : Z) (bs : list Z) : Prop := {
  dl_disk : disk_ok d;
  dl_sb : ∃ x, block_at d 1 1 = Some x ∧ i32 (logstart (sb_of x)) = S ∧ i32 (nlog (sb_of x)) = size;
  dl_area : 1 < S ∧ S + size ≤ FSSIZE;
  dl_head : ∃ h, block_at d 1 S = Some h ∧ header h bs;
  dl_homes : homes S size bs
}.

Lemma homes_geometry S size bs : homes S size bs → 1 < S → S + size ≤ FSSIZE → geometry S bs.
Proof.
  intros [[_ Hl] Hnd Ho] HS HF. constructor; [lia|done|]. intros i b Hb.
  destruct (Ho b) as (Hr & Hout & _); [apply list_elem_of_lookup; by exists i|]. split; [done|]. lia.
Qed.

Lemma homes_nil S size : 0 < size → homes S size [].
Proof. intros. constructor; [unfold lenZ, LOGSIZE; cbn; lia|constructor|]. by intros b ?%elem_of_nil. Qed.

Lemma disk_log_replay d S size bs W bs' :
  disk_log d S size bs → Forall write_ok W → 1 ∉ target <$> W →
  (∃ h, block_at (replay d W) 1 S = Some h ∧ header h bs') → homes S size bs' → disk_log (replay d W) S size bs'.
Proof.
  intros [H1 (x & Hx & Hsb) H3 H4 H5] HW Ht Hh Ho. constructor; [by apply disk_ok_replay| |done|done|done].
  exists x. by rewrite replay_other.
Qed.

(** ** Recovery *)

Definition logged d S b : list Z := default [] (recovered d S b).

Lemma disk_log_committed d S size bs :
  disk_log d S size bs → committed S bs (logged d S) d ∧ ∀ i b, bs !! i = Some b → length (logged d S b) = BSIZE.
Proof.
  intros [H1 H2 H3 (h & Hh & Hn & Hb) H5]. pose proof (ho_len _ _ _ H5) as Hl. unfold lenZ in Hl.
  assert (∀ i b, bs !! i = Some b → ∃ x, block_at d 1 (S + Z.of_nat i + 1) = Some x ∧ length x = BSIZE ∧ logged d S b = x) as Hall.
  { intros i b Hi. pose proof (lookup_lt_Some _ _ _ Hi). destruct (block_in d (S + Z.of_nat i + 1)) as (x & Hx & Hlx); [done|lia|].
    exists x. split_and!; [done|done|]. unfold logged, recovered. rewrite Hh. cbn. rewrite Hb.
    destruct (list_find (eq b) bs) as [[j bj]|] eqn:Hf.
    - apply list_find_Some in Hf as (Hj & <- & _). rewrite (NoDup_lookup _ _ _ _ (ho_nodup _ _ _ H5) Hj Hi). by rewrite Hx.
    - apply list_find_None in Hf. rewrite Forall_lookup in Hf. by destruct (Hf i b Hi). }
  split; [constructor; [done|by exists h|]|]; intros i b Hi; destruct (Hall i b Hi) as (x & Hx & Hlx & Hlg); congruence.
Qed.

(** What recovery does: at each of its crash points the disk is still as good
    as before, and in the end the homes are up to date. *)
Record recovers d S size W d' : Prop := {
  rc_disk : d' = replay d W;
  rc_done : disk_log d' S size [];
  rc_home k : ¬ (S ≤ k < S + size) → block_at d' 1 k = recovered d S k;
  rc_crash n : (∃ bs, disk_log (replay d (take n W)) S size bs) ∧
    ∀ k, ¬ (S ≤ k < S + size) → recovered (replay d (take n W)) S k = recovered d S k
}.

Lemma recovers_ok d S size bs h0 :
  disk_log d S size bs → header h0 [] → length h0 = BSIZE →
  let W := homewrites bs (logged d S) ++ [(1, S, h0)] in recovers d S size W (replay d W).
Proof.
  intros HD H0 Hl0. pose proof HD as [HD1 HD2 [Ha1 Ha2] HD4 HD5]. pose proof (homes_geometry _ _ _ HD5 Ha1 Ha2) as HG.
  destruct (disk_log_committed _ _ _ _ HD) as [HC Hf]. pose proof (ho_len _ _ _ HD5) as [Hle Hlt].
  assert (0 < size) as Hsz by (unfold lenZ in *; lia).
  set (W := homewrites bs (logged d S) ++ [(1, S, h0)]).
  assert (Forall write_ok W) as HW.
  { apply Forall_app. split; [by apply (homewrites_ok S)|]. repeat constructor; [lia|unfold lenZ in *; lia|done]. }
  assert (1 ∉ target <$> W) as Ht.
  { unfold W. rewrite fmap_app, homewrites_targets. change (target <$> [(1, S, h0)]) with [S]. rewrite elem_of_app, list_elem_of_singleton. intros [Hin|?]; [|lia].
    by destruct (ho_out _ _ _ HD5 1 Hin) as (_ & _ & ?). }
  assert (∀ k, ¬ (S ≤ k < S + size) → ∀ n, recovered (replay d (take n W)) S k = recovered d S k) as Hrec.
  { intros k Hk n. rewrite (recovered_committed S bs (logged d S) d) by done. apply crash_install; try done. lia. }
  assert (∀ n, ∃ bs, disk_log (replay d (take n W)) S size bs) as Hlog.
  { intros n. destruct (head_install S bs (logged d S) HG Hf d h0 n HC H0 Hl0) as (h & Hh & Hb).
    assert (∀ bs', header h bs' → homes S size bs' → disk_log (replay d (take n W)) S size bs') as Hd.
    { intros bs' Hb' Ho. apply (disk_log_replay _ _ _ bs); [done|by apply Forall_take| |by exists h|done].
      rewrite fmap_take. intros Hin%subseteq_take. done. }
    destruct Hb; [exists bs|exists []]; apply Hd; try done. apply homes_nil. unfold lenZ in *. lia. }
  intros W'. subst W'. fold W. assert (disk_log (replay d W) S size []) as Hdone.
  { apply (disk_log_replay _ _ _ bs); [done..| |apply homes_nil; unfold lenZ in *; lia]. exists h0. split; [|done].
    unfold W. rewrite replay_app. cbn. rewrite block_at_write, decide_True; [done|done|lia|].
    apply disk_ok_replay; [done|by apply (homewrites_ok S)]. }
  constructor; [done|done| |by auto]. intros k Hk. rewrite <- (Hrec k Hk (length W)), take_ge by done.
  destruct Hdone as [_ _ _ (h & Hh & _ & Hb) _]. unfold recovered. rewrite Hh. cbn. by rewrite Hb.
Qed.

Lemma wp_readsb c d t m P l w x Q :
  quiet c d m P → ¬ P 1 → (1 ≤ spares c)%nat → vol c d 1 = Some x →
  (∀ c', quiet c' d m P → (∀ k, vol c' d k = vol c d k) → (spares c ≤ spares c')%nat → Q (sb_of x) (Lsys (rest c' d t m) l w)) →
  wp (bio_ (readsb 1)) Q (Lsys (rest c d t m) l w).
Proof.
  intros [HI Hidle Hdirty] HP Hsp Hx HQ. apply wp_bio, wp_bind. change (u32 1) with 1.
  apply wp_bread; [done|unfold FSSIZE; lia|done|left; lia|]. intros i y f c1 [O1 O2 O3 [O4 Hlx] O5 O6 O7 O8 O9 O10].
  assert (y = x) as -> by congruence.
  assert (f = 2 ∧ block_at d 1 1 = Some x) as [-> Hblk] by (destruct O3 as [[_ Hd]|(? & _ & ?)]; [by rewrite Hdirty in Hd|done]).
  apply wp_bind. eapply wp_get_held; [done|]. intros b -> _ _. apply wp_bind, (wp_brelse c1 d t m i 1 x 2); [done|done|by right|].
  intros c2 [E1 E2 E3 E4 E5 E6]. apply wp_ret, HQ; [constructor|..]; try done.
  - intros k. rewrite E5, O8. naive_solver.
  - intros k. by rewrite E4, O7, Hdirty.
  - intros k. by rewrite E2, O5.
  - rewrite E6, decide_True by done. lia.
Qed.
