(* ===== verification/LogThms.v ===== *)
(** * Transactions are atomic across crashes (log.c)

    The main results on the log: a commit that crashes anywhere, followed by
    any number of recoveries that crash anywhere, ends with all of the
    transaction on the disk or none of it. *)

From S2P Require Import Prelude Bytes Bio BioList BioSpec BioOps Log LogSpec LogLoops LogCrash LogCommit LogRecover.

Implicit Types (c : list buf) (d : gmap Z (list (list Z))) (l : log) (w : list Z).

Abbreviation nopins := (λ _ : Z, False).

Lemma lists_nil l : log_dev l = 1 → length (lh_block l) = 30%nat → lists (set_lh_n 0 l) [].
Proof. intros. constructor; cbn; [done..|lia|]. intros i b Hb. by rewrite lookup_nil in Hb. Qed.

Lemma quiet_disk c d m k : quiet c d m nopins → vol c d k = block_at d 1 k.
Proof. intros Hq. apply (quiet_clean c d m nopins); [done|]. by intros []. Qed.

(** ** Recovery from a freshly booted cache *)

Lemma wp_initlog c d t m l w S size bs Q :
  quiet c d m nopins → disk_log d S size bs → (2 ≤ spares c)%nat → length (lh_block l) = 30%nat →
  (∀ c' d' l' W, recovers d S size W d' → quiet c' d' m nopins → (spares c ≤ spares c')%nat →
     lists l' [] → start l' = S → log_size l' = size → outstanding l' = outstanding l → committing l' = committing l →
     Q tt (Lsys (rest c' d' (t ++ W) m) l' w)) →
  wp (initlog 1) Q (Lsys (rest c d t m) l w).
Proof.
  intros Hq HD Hsp Hlen HQ. pose proof HD as [HD1 (x & Hx & HS & Hsz) [Ha1 Ha2] (h & Hh & Hhd) HD5].
  pose proof (homes_geometry _ _ _ HD5 Ha1 Ha2) as HG. pose proof (ho_len _ _ _ HD5) as Hl. unfold lenZ, LOGSIZE in Hl.
  apply wp_bind, wp_panic_unless; [done|]. apply wp_bind, wp_bio, wp_modify. bsimpl.
  replace (∅ ∖ {[LOGLOCK]} : gset Z) with (∅ : gset Z) by set_solver.
  apply wp_bind, (wp_readsb c d t m nopins l w x); [done|tauto|lia|by rewrite (quiet_disk c d m)|].
  intros c1 Hq1 Hv1 Hs1. apply wp_bind, wp_modify. unfold set_lg. cbn [io lg woken]. rewrite HS, Hsz.
  apply wp_bind, (wp_read_head c1 d t m nopins _ w h bs); cbn; try done; try lia; [by rewrite (quiet_disk c1 d m)| |].
  { apply Forall_forall. intros b Hb. by apply (ho_out _ _ _ HD5). }
  intros c2 l2 Hq2 Hv2 Hs2 HL HS2 Hsz2 Ho2 Hc2. rewrite <- HS2 in HG. destruct (disk_log_committed _ _ _ _ HD) as [HC Hf].
  assert (committed (start l2) bs (logged d S) d) as HC' by (by rewrite HS2). apply wp_bind.
  apply (wp_install_trans c2 d t m nopins l2 w bs (logged d S)); try done; [| |lia|right; lia|].
  { intros b [i Hi]%list_elem_of_lookup. by eapply Hf. }
  { tauto. }
  intros c3 d3 Hq3 Hs3. apply wp_bind, wp_modify. unfold set_lg. cbn [io lg woken].
  apply (wp_write_head c3 d3 _ m nopins (set_lh_n 0 l2) w []); cbn; try lia.
  - revert Hq3. apply quiet_ext. tauto.
  - apply lists_nil; apply HL.
  - intros c4 h0 H0 Hl0 Hq4 Hv4 Hs4. rewrite <- app_assoc. rewrite HS2 in *.
    pose proof (recovers_ok d S size bs h0 HD H0 Hl0) as HR. cbn zeta in HR. rewrite replay_snoc in HR.
    apply (HQ c4 _ _ _ HR); cbn; try done; [lia|]. apply lists_nil; apply HL.
Qed.

(** The cache after the kernel's start, on a disk [d]; the log's record is
    still zero. *)
Definition boot d (m : Z) : lsys :=
  Lsys (final binit (Bio ∅ (replicate 31 (Buf 0 0 0 (Sleeplock false 0) 0 0 0 (replicate BSIZE 0))) [] true d [] m))
       (Log 0 0 0 false 0 0 (replicate 30 0)) [].

(** Each buffer was put in front of the list, the last one is first now. *)
Definition booted (z : list Z) : list buf :=
  (λ i, Buf 0 0 0 unlocked 0 (if decide (i = 30) then 0 else S i) (if decide (i = 0) then 30 else pred i) z)%nat <$> seq 0 31.

Lemma boot_io d m : io (boot d m) = rest (booted (replicate BSIZE 0)) d [] m.
Proof.
  unfold boot. generalize (replicate BSIZE 0). intros z. cbn [io]. unfold final, binit.
  unfold mbind at 1, M_bind at 1, modify. replace (set_spin _ _) with (Bio ∅ (replicate 31 (Buf 0 0 0 (Sleeplock false 0) 0 0 0 z)) [] true d [] m).
  { reflexivity. }
  unfold set_spin. cbn [spin]. by replace (∅ ∖ {[BCACHELOCK]} : gset Z) with (∅ : gset Z) by set_solver.
Qed.

Lemma boot_eq d m : boot d m = Lsys (rest (booted (replicate BSIZE 0)) d [] m) (Log 0 0 0 false 0 0 (replicate 30 0)) [].
Proof. transitivity (Lsys (io (boot d m)) (lg (boot d m)) (woken (boot d m))); [by destruct (boot d m)|by rewrite boot_io]. Qed.

Lemma booted_lookup z i b : booted z !! i = Some b → (i < 31)%nat ∧ flags b = 0 ∧ dev b = 0 ∧ refcnt b = 0 ∧ lk b = unlocked.
Proof. intros (j & -> & [-> Hi]%lookup_seq)%list_lookup_fmap_Some. done. Qed.

Lemma booted_link z i : (i < 30)%nat → link (booted z) (S i) i.
Proof.
  intros Hi. unfold link, booted. rewrite !list_lookup_fmap, !lookup_seq_lt by lia. cbn [fmap option_fmap option_map plus].
  split; (eexists; split; [reflexivity|]); cbn [prev next]; [by rewrite decide_False|by rewrite decide_False by lia].
Qed.
Lemma booted_wrap z : link (booted z) 0 HEAD.
Proof. split; eexists; split; reflexivity. Qed.

Lemma booted_ring z : ring (booted z) (reverse (seq 0 30)).
Proof.
  split; [|apply (bool_decide_unpack _); by vm_compute].
  change (HEAD :: reverse (seq 0 30) ++ [HEAD]) with (reverse (seq 0 31) ++ [HEAD]).
  assert (∀ n, (n ≤ 30)%nat → chain (booted z) (reverse (seq 0 (S n)) ++ [HEAD])) as Hall; [|by apply Hall].
  induction n as [|n IH]; intros Hn; [split; [apply booted_wrap|done]|].
  rewrite seq_S, reverse_snoc. specialize (IH ltac:(lia)). rewrite seq_S, reverse_snoc in IH |- *.
  split; [by apply booted_link|done].
Qed.

Lemma booted_quiet z d m : disk_ok d → quiet (booted z) d m nopins ∧ spares (booted z) = 30%nat.
Proof.
  intros Hd. split; [constructor; [constructor| |]|done].
  - done.
  - exists (reverse (seq 0 30)). split_and!; [|done|].
    + apply booted_ring.
    + intros i. rewrite elem_of_reverse, elem_of_seq. unfold NBUF. lia.
  - done.
  - intros i b _ (_ & Hf & Hdv & Hr & Hl)%booted_lookup. constructor; [by left|by left|lia|lia|lia].
  - intros i j b b' _ _ (_ & _ & ? & _)%booted_lookup. lia.
  - intros k (i & b & _ & (_ & _ & ? & _)%booted_lookup & ? & _). lia.
  - intros k. split; [|done]. intros (i & b & _ & (_ & _ & ? & _)%booted_lookup & ? & _). lia.
Qed.

(** ** Committing *)

(** The log when no thread is inside the file system: the blocks of the
    transaction [bs] are pinned in the cache and nothing is on the disk yet. *)
Record ready c d (m : Z) l (bs : list Z) : Prop := {
  rd_quiet : quiet c d m (.∈ bs);
  rd_lists : lists l bs;
  rd_disk : disk_log d (start l) (log_size l) [];
  rd_homes : homes (start l) (log_size l) bs;
  rd_spares : (1 ≤ spares c)%nat
}.

Lemma ready_new c d m l bs k :
  ready c d m l bs → now bs (λ b, default [] (vol c d b)) d k = vol c d k.
Proof.
  intros [Hq _ _ Ho _]. unfold now. case_decide as Hin; [|by rewrite (quiet_clean c d m (.∈ bs))].
  destruct (ho_out _ _ _ Ho k Hin) as [Hk _]. unfold vol in *. destruct (list_find _ _) as [[i b]|]; [done|].
  destruct (block_in d k) as (x & -> & _); [apply Hq|done|done].
Qed.

Lemma vol_length c d m k : binv c d m → 0 ≤ k < FSSIZE → length (default [] (vol c d k)) = BSIZE.
Proof.
  intros HI Hk. unfold vol. destruct (list_find _ _) as [[j b]|] eqn:Hf.
  - apply list_find_Some in Hf as (Hj & (Hd & Hkb & Hnz) & _). assert (j < NBUF)%nat as Hjn.
    { apply lookup_lt_Some in Hj. rewrite length_take in Hj. lia. }
    rewrite lookup_take_lt in Hj by done. by apply (bi_buf _ _ _ HI j b Hjn Hj).
  - destruct (block_in d k) as (x & -> & Hx); [apply HI|done|done].
Qed.

(** What a commit does, at its end and at its crash points. *)
Record commits c d (m : Z) l c' d' (W : list (Z * Z * list Z)) : Prop := {
  cm_disk : d' = replay d W;
  cm_ready : ready c' d' m (set_lh_n 0 l) [];
  cm_vol k : ¬ (start l ≤ k < start l + log_size l) → vol c' d' k = vol c d k;
  cm_crash n : (∃ bs, disk_log (replay d (take n W)) (start l) (log_size l) bs) ∧
    ((∀ k, ¬ (start l ≤ k < start l + log_size l) → recovered (replay d (take n W)) (start l) k = block_at d 1 k) ∨
     (∀ k, ¬ (start l ≤ k < start l + log_size l) → recovered (replay d (take n W)) (start l) k = vol c d k))
}.

Section commit.
Context (c : list buf) (d : gmap Z (list (list Z))) (m : Z) (l : log) (bs h h0 : list Z).
Hypotheses (HR : ready c d m l bs) (Hh : header h bs) (Hlh : length h = BSIZE) (H0 : header h0 []) (Hl0 : length h0 = BSIZE).
Abbreviation f := (λ b, default [] (vol c d b)).
Abbreviation W1 := (logwrites (start l) bs f ++ [(1, start l, h)]).
Abbreviation W2 := (homewrites bs f ++ [(1, start l, h0)]).

Lemma commit_geometry : geometry (start l) bs ∧ ∀ i b, bs !! i = Some b → length (f b) = BSIZE.
Proof using HR.
  destruct HR as [Hq HL HD HH Hs]. destruct (dl_area _ _ _ _ HD) as [Ha1 Ha2]. split; [by eapply homes_geometry|].
  intros i b Hb. apply (vol_length c d m); [apply Hq|]. by apply (ls_blocks _ _ HL i).
Qed.

Lemma commit_targets : Forall write_ok (W1 ++ W2) ∧ 1 ∉ target <$> (W1 ++ W2).
Proof using HR Hlh Hl0.
  destruct commit_geometry as [HG Hf]. destruct HR as [Hq HL HD HH Hs]. destruct (dl_area _ _ _ _ HD) as [Ha1 Ha2].
  pose proof (ho_len _ _ _ HH) as Hle. unfold lenZ in Hle. split.
  - rewrite !Forall_app. repeat split; [by apply logwrites_ok|repeat constructor; try done; lia|by apply (homewrites_ok (start l))|repeat constructor; try done; lia].
  - rewrite !fmap_app, homewrites_targets. change (target <$> [(1, start l, ?x)]) with [start l].
    rewrite !elem_of_app, !list_elem_of_singleton. intros [[Hin|?]|[Hin|?]]; try lia.
    + apply logwrites_targets in Hin. lia.
    + by destruct (ho_out _ _ _ HH 1 Hin) as (_ & _ & ?).
Qed.

(** The crash points of a commit. *)
Lemma commit_crash n :
  (∃ bs, disk_log (replay d (take n (W1 ++ W2))) (start l) (log_size l) bs) ∧
  ((∀ k, ¬ (start l ≤ k < start l + log_size l) → recovered (replay d (take n (W1 ++ W2))) (start l) k = block_at d 1 k) ∨
   (∀ k, ¬ (start l ≤ k < start l + log_size l) → recovered (replay d (take n (W1 ++ W2))) (start l) k = vol c d k)).
Proof using HR Hh Hlh H0 Hl0.
  destruct commit_geometry as [HG Hf]. destruct commit_targets as [HW Ht]. pose proof HR as [Hq HL HD HH Hs].
  pose proof (ho_len _ _ _ HH) as [_ Hle]. assert (disk_ok d) as Hd by apply HD.
  assert (0 < log_size l) as Hsz by (unfold lenZ in *; lia).
  assert (∀ bs', (∃ y, block_at (replay d (take n (W1 ++ W2))) 1 (start l) = Some y ∧ header y bs') → homes (start l) (log_size l) bs' →
    disk_log (replay d (take n (W1 ++ W2))) (start l) (log_size l) bs') as Hlog.
  { intros bs' Hy Ho. apply (disk_log_replay _ _ _ []); [done|by apply Forall_take| |done|done].
    rewrite fmap_take. intros Hin%subseteq_take. done. }
  destruct (decide (n ≤ length (logwrites (start l) bs f))%nat) as [Hn|Hn].
  - rewrite <- app_assoc, take_app_le in * by done. split.
    + exists []. apply Hlog; [|by apply homes_nil]. rewrite head_logwrites by done. apply HD.
    + left. intros k Hk. apply crash_logwrites; try done; [apply HD|lia].
  - assert (take n (W1 ++ W2) = W1 ++ take (n - length W1) W2) as He.
    { rewrite take_app, take_ge by (rewrite length_app; cbn; lia). done. }
    rewrite He, replay_app in *. destruct (commit_point (start l) bs f HG Hf d h Hd Hh Hlh) as [HC Hnow]. cbn zeta in HC, Hnow. split.
    + destruct (head_install (start l) bs f HG Hf _ h0 (n - length W1) HC H0 Hl0) as (y & Hy & [Hb|Hb]).
      * exists bs. apply Hlog; [by exists y|done].
      * exists []. apply Hlog; [by exists y|by apply homes_nil].
    + right. intros k Hk. rewrite crash_install; try done; [|lia]. rewrite Hnow by lia. by apply (ready_new c d m l bs).
Qed.

(** The state after it. *)
Lemma commit_done c' :
  quiet c' (replay d (W1 ++ W2)) m nopins → (1 ≤ spares c')%nat → commits c d m l c' (replay d (W1 ++ W2)) (W1 ++ W2).
Proof using HR Hh Hlh H0 Hl0.
  intros Hq' Hs'. destruct commit_geometry as [HG Hf]. destruct commit_targets as [HW Ht]. pose proof HR as [Hq HL HD HH Hs].
  destruct (dl_area _ _ _ _ HD) as [Ha1 Ha2]. pose proof (ho_len _ _ _ HH) as [_ Hle].
  assert (0 < log_size l) as Hsz by (unfold lenZ in *; lia).
  assert (∃ y, block_at (replay d (W1 ++ W2)) 1 (start l) = Some y ∧ header y []) as Hhead.
  { exists h0. split; [|done]. rewrite app_assoc, replay_snoc, block_at_write, decide_True; [done|done|lia|].
    apply disk_ok_replay; [apply HD|]. rewrite app_assoc in HW. by apply Forall_app in HW as [? _]. }
  assert (∀ k, ¬ (start l ≤ k < start l + log_size l) → block_at (replay d (W1 ++ W2)) 1 k = vol c d k) as Hv.
  { intros k Hk. destruct (commit_point (start l) bs f HG Hf d h (dl_disk _ _ _ _ HD) Hh Hlh) as [HC Hnow]. cbn zeta in HC, Hnow.
    pose proof (crash_install (start l) bs f HG Hf _ h0 (length W2) k HC H0 Hl0 ltac:(lia)) as Hr.
    rewrite take_ge, <- replay_app, Hnow, (ready_new c d m l bs) in Hr by (done || lia). rewrite <- Hr.
    destruct Hhead as (y & Hy & _ & Hb). unfold recovered. rewrite Hy. cbn. by rewrite Hb. }
  constructor; [done| | |apply commit_crash].
  - constructor; [revert Hq'; apply quiet_ext; intros k; rewrite elem_of_nil; done|apply lists_nil; apply HL| |by apply homes_nil|done].
    by apply (disk_log_replay _ _ _ []); [..|apply homes_nil].
  - intros k Hk. rewrite (quiet_disk c' _ m) by done. by apply Hv.
Qed.
End commit.

(** A transaction without a block changes nothing. *)
Lemma commits_nil c d m l : ready c d m l [] → commits c d m l c d [].
Proof.
  intros HR. pose proof HR as [Hq HL HD HH Hs]. constructor; [done| |done|].
  - constructor; [done|apply lists_nil; apply HL|done..].
  - intros n. rewrite take_nil. cbn. split; [by exists []|left]. intros k Hk.
    destruct HD as [_ _ _ (y & Hy & _ & Hb) _]. unfold recovered. rewrite Hy. cbn. by rewrite Hb.
Qed.

Lemma wp_commit c d t m l bs w Q :
  ready c d m l bs →
  (∀ c' d' W, commits c d m l c' d' W → Q tt (Lsys (rest c' d' (t ++ W) m) (set_lh_n 0 l) w)) →
  wp commit Q (Lsys (rest c d t m) l w).
Proof.
  intros HR HQ. pose proof HR as [Hq HL HD HH Hs]. apply wp_bind, wp_gets. cbn [lg]. rewrite (ls_n _ _ HL).
  destruct (dl_area _ _ _ _ HD) as [Ha1 Ha2]. pose proof (ho_len _ _ _ HH) as [_ Hle].
  destruct bs as [|b0 bs']; [|remember (b0 :: bs') as bs].
  { cbn. apply wp_ret. pose proof (commits_nil c d m l HR) as HC. replace l with (set_lh_n 0 l) at 1.
    - specialize (HQ c d [] HC). by rewrite app_nil_r in HQ.
    - pose proof (ls_n _ _ HL) as Hn. destruct l. cbn in *. by subst. }
  replace (lenZ bs >? 0) with true by (subst bs; unfold lenZ; cbn [length]; symmetry; apply Z.gtb_lt; lia).
  pose proof (commit_geometry c d m l bs HR) as [HG Hf]. unfold lenZ in Hle.
  assert (∀ b, b ∈ bs → vol c d b = Some (default [] (vol c d b))) as Hv.
  { intros b Hb. rewrite <- (ready_new c d m l bs b HR) at 1. unfold now. by rewrite decide_True. }
  assert (start l ∉ bs) as Hout by (intros Hin; destruct (ho_out _ _ _ HH _ Hin) as (_ & ? & _); lia).
  apply wp_bind, (wp_write_log c d t m l w bs (λ b, default [] (vol c d b))); try done. intros c1 d1 Hq1 Hs1.
  apply wp_bind, (wp_write_head c1 d1 _ m (.∈ bs) l w bs); try done; [lia|lia|].
  intros c2 h d2 Hh Hlh Hq2 Hv2 Hs2. unfold d2, d1 in *. rewrite <- replay_snoc in *.
  destruct (commit_point (start l) bs _ HG Hf d h (dl_disk _ _ _ _ HD) Hh Hlh) as [HC _].
  apply wp_bind, (wp_install_trans c2 _ _ m (.∈ bs) l w bs (λ b, default [] (vol c d b))); try done; [| |lia|by left|].
  { intros b [i Hi]%list_elem_of_lookup. by eapply Hf. }
  { intros k Hk Hin. unfold lenZ in Hk. destruct (ho_out _ _ _ HH _ Hin) as (_ & ? & _). lia. }
  intros c3 d3 Hq3 Hs3. unfold d3 in *. apply wp_bind, wp_modify. unfold set_lg. cbn [io lg woken].
  apply (wp_write_head c3 _ _ m nopins (set_lh_n 0 l) w []); cbn [start set_lh_n]; try lia; [|apply lists_nil; apply HL|].
  { revert Hq3. apply quiet_ext. tauto. }
  intros c4 h0 H0 Hl0 Hq4 Hv4 Hs4. rewrite <- replay_snoc, <- replay_app, <- !app_assoc in *.
  apply HQ. rewrite app_assoc in *. apply (commit_done c d m l bs h h0); [done..|lia].
Qed.

(** ** The end of a transaction *)

Lemma wp_log_lock a Q c d t m l w : Q tt (Lsys (Bio {[a]} c [] true d t m) l w) → wp (bio_ (acquire a)) Q (Lsys (rest c d t m) l w).
Proof. intros HQ. by apply wp_bio, wp_bio_acquire. Qed.
Lemma wp_log_unlock a Q c d t m l w : Q tt (Lsys (rest c d t m) l w) → wp (bio_ (release a)) Q (Lsys (Bio {[a]} c [] true d t m) l w).
Proof. intros HQ. by apply wp_bio, wp_bio_release. Qed.

Lemma ready_log c d m l l' bs :
  start l' = start l → log_size l' = log_size l → log_dev l' = log_dev l → lh_n l' = lh_n l → lh_block l' = lh_block l →
  ready c d m l bs → ready c d m l' bs.
Proof.
  intros E1 E2 E3 E4 E5 [Hq [L1 L2 L3 L4 L5] HD HH Hs].
  constructor; [done|constructor; rewrite ?E3, ?E4, ?E5; done|by rewrite E1, E2|by rewrite E1, E2|done].
Qed.

Lemma wp_end_op c d t m l bs w Q :
  ready c d m l bs → outstanding l = 1 → committing l = false →
  (∀ c' d' W, commits c d m l c' d' W →
     Q tt (Lsys (rest c' d' (t ++ W) m) (set_outstanding 0 (set_lh_n 0 l)) (w ++ [LOGCHAN]))) →
  wp end_op Q (Lsys (rest c d t m) l w).
Proof.
  intros HR Hout Hco HQ. apply wp_bind, wp_log_lock. apply wp_bind, wp_modify. unfold set_lg. cbn [io lg woken]. rewrite Hout.
  apply wp_bind, wp_gets. cbn [lg committing set_outstanding outstanding]. rewrite Hco.
  apply wp_bind, wp_panic_unless; [done|]. change (1 - 1 =? 0) with true. cbv zeta iota. change (1 - 1) with 0.
  apply wp_bind, wp_modify. unfold set_lg. cbn [io lg woken]. apply wp_bind, wp_log_unlock.
  apply wp_bind, (wp_commit c d t m _ bs); [by apply (ready_log c d m l)|]. intros c' d' W [C1 C2 C3 C4].
  apply wp_bind, wp_log_lock, wp_bind, wp_modify, wp_bind, wp_modify, wp_log_unlock. unfold set_lg. cbn [io lg woken].
  replace (set_committing false _) with (set_outstanding 0 (set_lh_n 0 l)) by (destruct l; cbn in *; by subst).
  apply HQ. constructor; [done| |done|done]. by apply (ready_log c' d' m (set_lh_n 0 (set_committing true (set_outstanding 0 l)))).
Qed.

(** The disk writes of a run. *)
Definition writes {A} (p : M lsys A) (s : lsys) : list (Z * Z * list Z) := drop (length (trace (io s))) (trace (io (final p s))).

(** The disks after any number of boots whose recoveries crashed. *)
Inductive crashes d : gmap Z (list (list Z)) → Prop :=
  | crash_none : crashes d d
  | crash_again d' n m : crashes d d' → crashes d (replay d' (take n (writes (initlog 1) (boot d' m)))).

Lemma wp_boot d m S size bs Q :
  disk_log d S size bs →
  (∀ s' W, recovers d S size W (disks (io s')) → trace (io s') = W → Q tt s') → wp (initlog 1) Q (boot d m).
Proof.
  intros HD HQ. destruct (booted_quiet (replicate BSIZE 0) d m (dl_disk _ _ _ _ HD)) as [Hq Hs].
  rewrite boot_eq.
  apply (wp_initlog _ _ _ _ _ _ S size bs); [done|done|rewrite Hs; lia|done|].
  intros c' d' l' W HR _ _ _ _ _ _ _. by apply (HQ _ W).
Qed.

Lemma crashes_recovered d S size bs d' :
  disk_log d S size bs → crashes d d' →
  (∃ bs', disk_log d' S size bs') ∧ ∀ k, ¬ (S ≤ k < S + size) → recovered d' S k = recovered d S k.
Proof.
  intros HD. induction 1 as [|d' n m Hc [[bs' HD'] IH]]; [split; [by exists bs|done]|].
  destruct (wp_elim (initlog 1) (λ _ s', ∃ W, recovers d' S size W (disks (io s')) ∧ trace (io s') = W) (boot d' m)) as (a & s' & Hrun & W & HR & HW).
  { apply (wp_boot d' m S size bs'); [done|]. intros s' W ??. by exists W. }
  unfold writes, final. rewrite Hrun, boot_io, HW. cbn [trace length drop]. destruct (rc_crash _ _ _ _ _ HR n) as [Hd Hr].
  split; [done|]. intros k Hk. by rewrite Hr, IH.
Qed.

(** A commit that the machine may stop after any of its disk writes, and again
    in the middle of any number of recoveries at boot: the next boot that
    completes leaves, outside the log, either exactly the disk from before the
    transaction or exactly the contents the file system had in its cache. *)
Lemma commits_crash c d m l c1 d1 W n d' m' :
  commits c d m l c1 d1 W → crashes (replay d (take n W)) d' →
  wp (initlog 1) (λ _ s',
    (∀ k, ¬ (start l ≤ k < start l + log_size l) → block_at (disks (io s')) 1 k = block_at d 1 k) ∨
    (∀ k, ¬ (start l ≤ k < start l + log_size l) → block_at (disks (io s')) 1 k = vol c d k)) (boot d' m').
Proof.
  intros HC Hcr. destruct (cm_crash _ _ _ _ _ _ _ HC n) as [[bs1 HD] Hcase]. destruct (crashes_recovered _ _ _ _ _ HD Hcr) as [[bs2 HD2] Hsame].
  apply (wp_boot d' m' (start l) (log_size l) bs2); [done|]. intros s2 W2 HR2 _.
  destruct Hcase as [Ho|Hn]; [left|right]; intros k Hk; rewrite (rc_home _ _ _ _ _ HR2 k Hk), Hsame by done; auto.
Qed.

(** So it is for the thread that ends the last open operation. *)
Lemma end_op_crash c d t m l bs w n d' m' :
  ready c d m l bs → outstanding l = 1 → committing l = false →
  crashes (replay d (take n (writes end_op (Lsys (rest c d t m) l w)))) d' →
  wp (initlog 1) (λ _ s',
    (∀ k, ¬ (start l ≤ k < start l + log_size l) → block_at (disks (io s')) 1 k = block_at d 1 k) ∨
    (∀ k, ¬ (start l ≤ k < start l + log_size l) → block_at (disks (io s')) 1 k = vol c d k)) (boot d' m').
Proof.
  intros HR Hout Hco Hcr.
  destruct (wp_elim end_op (λ _ s', ∃ c' d' W, commits c d m l c' d' W ∧ trace (io s') = t ++ W) (Lsys (rest c d t m) l w))
    as (a & s' & Hrun & c1 & d1 & W & HC & HW).
  { apply (wp_end_op c d t m l bs w); [done..|]. intros c1 d1 W HC. by exists c1, d1, W. }
  unfold writes, final in Hcr. rewrite Hrun, HW in Hcr. cbn [io trace] in Hcr. rewrite drop_app_length in Hcr.
  by apply (commits_crash c d m l c1 d1 W n).
Qed.

(** A commit without a crash: the last end_op puts the cached contents of
    every block on the disk, unpins the blocks, leaves the log empty on the
    disk and in memory, and wakes the threads waiting for the log. *)
Theorem end_op_commits c d t m l bs w :
  ready c d m l bs → outstanding l = 1 → committing l = false →
  wp end_op (λ _ s', ∃ c' d' t', s' = Lsys (rest c' d' t' m) (set_outstanding 0 (set_lh_n 0 l)) (w ++ [LOGCHAN]) ∧
    ready c' d' m (set_lh_n 0 l) [] ∧
    ∀ k, ¬ (start l ≤ k < start l + log_size l) → block_at d' 1 k = vol c d k ∧ vol c' d' k = vol c d k)
    (Lsys (rest c d t m) l w).
Proof.
  intros HR Hout Hco. apply (wp_end_op c d t m l bs); [done..|]. intros c' d' W [C1 C2 C3 C4]. exists c', d', (t ++ W).
  split; [done|]. split; [done|]. intros k Hk. split; [|by apply C3]. rewrite <- (C3 k Hk). symmetry.
  apply (quiet_clean c' d' m (.∈ [])); [apply C2|apply not_elem_of_nil].
Qed.
