(* ===== verification/LogTx.v ===== *)
(** * Whole transactions (log.c)

    A file system call updates some blocks between begin_op and end_op, each
    in the way the comment of log_write describes. *)

From S2P Require Import Prelude Bytes Bio BioList BioSpec BioOps Log LogSpec LogLoops LogCrash LogCommit LogRecover LogThms.

Implicit Types (c : list buf) (d : gmap Z (list (list Z))) (l : log) (w : list Z).

(** ** log_write *)

Definition log_add (n : Z) (bs : list Z) : list Z := if decide (n ∈ bs) then bs else bs ++ [n].

(** The place of a block in the header: its own, or the first free one. *)
Lemma log_slot_spec (blocks bs : list Z) n :
  (∀ i b, bs !! i = Some b → blocks !! i = Some b ∧ 0 ≤ b < FSSIZE) → (length bs ≤ length blocks)%nat →
  log_slot (length bs) blocks n = match list_find (eq n) bs with Some (i, _) => i | None => length bs end.
Proof.
  revert blocks. induction bs as [|b bs IH]; intros [|x blocks] Hb Hl; try done.
  { cbn in Hl. lia. }
  cbn [length log_slot list_find]. destruct (Hb 0%nat b eq_refl) as [[= ->] Hr].
  rewrite u32_small by (unfold FSSIZE in Hr; lia). destruct (decide (n = b)) as [->|Hne]; [by rewrite Z.eqb_refl|].
  rewrite (proj2 (Z.eqb_neq b n)) by done. rewrite IH.
  - destruct (list_find (eq n) bs) as [[i y]|]; done.
  - intros i y Hi. exact (Hb (S i) y Hi).
  - cbn in Hl. lia.
Qed.

Lemma lists_add l bs n :
  lists l bs → 0 ≤ n < FSSIZE → lenZ bs < LOGSIZE →
  let k := log_slot (Z.to_nat (lh_n l)) (lh_block l) n in
  let l1 := set_lh_block (<[k := i32 n]> (lh_block l)) l in
  is_Some (lh_block l !! k) ∧
  lists (if Z.of_nat k =? lh_n l then set_lh_n (lh_n l + 1) l1 else l1) (log_add n bs).
Proof.
  intros [L1 L2 L3 L4 L5] Hn Hlt. unfold lenZ, LOGSIZE in *. cbv zeta. rewrite L2, Nat2Z.id.
  rewrite (log_slot_spec _ bs) by (done || lia). rewrite i32_small by (unfold FSSIZE in *; lia).
  unfold log_add. destruct (list_find (eq n) bs) as [[i y]|] eqn:Hf.
  - apply list_find_Some in Hf as (Hi & <- & _). pose proof (lookup_lt_Some _ _ _ Hi). destruct (L5 i n Hi) as [Hbi _].
    rewrite decide_True by (apply list_elem_of_lookup; by exists i). rewrite (proj2 (Z.eqb_neq _ _)) by lia.
    split; [by eexists|]. rewrite list_insert_id by done. by constructor.
  - apply list_find_None in Hf. rewrite decide_False.
    2: { intros Hin. rewrite Forall_forall in Hf. by apply (Hf n). }
    rewrite Z.eqb_refl. split; [apply lookup_lt_is_Some_2; lia|].
    constructor; cbn; [done|unfold lenZ; rewrite length_app; cbn; lia|by rewrite length_insert|rewrite length_app; cbn; lia|].
    intros i b [Hi|[Hi Hib]]%lookup_app_Some.
    + destruct (L5 i b Hi). pose proof (lookup_lt_Some _ _ _ Hi). rewrite list_lookup_insert_ne by lia. done.
    + apply list_lookup_singleton_Some in Hib as [He <-]. replace i with (length bs) by lia.
      rewrite list_lookup_insert_eq by lia. done.
Qed.

Lemma wp_log_write c d t m l w bs i n x f Q :
  binv c d m → held c i n x f → lists l bs → lenZ bs < LOGSIZE → lenZ bs < log_size l - 1 → 1 ≤ outstanding l →
  (∀ c' l', changed c d m i n x 6 c' → lists l' (log_add n bs) →
     start l' = start l → log_size l' = log_size l → outstanding l' = outstanding l → committing l' = committing l →
     Q tt (Lsys (rest c' d t m) l' w)) →
  wp (log_write i) Q (Lsys (rest c d t m) l w).
Proof.
  intros HI Hh HL Hlt Hsz Ho HQ. destruct (held_vol _ _ _ _ _ _ _ HI Hh) as (_ & _ & Hn & _).
  destruct (lists_add l bs n HL Hn Hlt) as [Hk HL']. apply wp_bind, wp_gets. cbn [lg].
  apply wp_bind, wp_panic_unless.
  { rewrite (ls_n _ _ HL), (proj2 (Z.leb_gt _ _)), (proj2 (Z.leb_gt _ _)) by lia. done. }
  apply wp_bind, wp_panic_unless; [by rewrite (proj2 (Z.ltb_ge _ _)) by lia|]. apply wp_bind, wp_log_lock.
  apply wp_bind, wp_bio. pose proof Hh as [Hi (b & Hb & Hd & Hkb & _)]. apply wp_getb with b; [done|]. rewrite Hkb.
  destruct Hk as [y Hy]. apply wp_bind, wp_of_option with y; [done|]. apply wp_bind, wp_modify. unfold set_lg. cbn [io lg woken].
  set (l1 := set_lh_block _ l) in *. apply wp_bind.
  assert (wp (if Z.of_nat (log_slot (Z.to_nat (lh_n l)) (lh_block l) n) =? lh_n l then upd_log (set_lh_n (lh_n l + 1)) else mret tt)
    (λ _ s, s = Lsys (Bio {[LOGLOCK]} c [] true d t m)
      (if Z.of_nat (log_slot (Z.to_nat (lh_n l)) (lh_block l) n) =? lh_n l then set_lh_n (lh_n l + 1) l1 else l1) w)
    (Lsys (Bio {[LOGLOCK]} c [] true d t m) l1 w)) as Hif by (by destruct (_ =? _)).
  eapply wp_mono; [exact Hif|]. intros [] s ->. apply wp_bind, wp_bio, wp_updb with b; [done|]. apply wp_log_unlock.
  pose proof (wp_pin c d t m i n x f (λ _ s, s = rest (<[i := set_flags (Z.lor (flags b) B_DIRTY) b]> c) d t m →
    changed c d m i n x 6 (cache s)) HI Hh) as Hpin.
  unfold wp, upd_buf, get_buf, mbind, M_bind, getS, of_option in Hpin. cbn [cache] in Hpin. rewrite Hb in Hpin. cbn in Hpin.
  apply HQ; [apply Hpin; [by intros c' Hc' [= ->]|done]|exact HL'|..]; by destruct (_ =? _).
Qed.

(** ** Updates of blocks inside a transaction *)

(** "bp = bread(...); modify bp->data[]; log_write(bp); brelse(bp)", the use
    of the log that its documentation gives. *)
Definition update (n : Z) (g : list Z → list Z) : M lsys unit :=
  i ← bio_ (bread 1 n);
  bio_ (b ← get_buf i; upd_buf i (set_data (g (data b))));;
  log_write i;;
  bio_ (brelse i).

Fixpoint updates (us : list (Z * (list Z → list Z))) : M lsys unit :=
  match us with [] => mret tt | (n, g) :: us' => update n g;; updates us' end.

(** What they mean for the contents of the disk. *)
Fixpoint updated (us : list (Z * (list Z → list Z))) (v : Z → option (list Z)) : Z → option (list Z) :=
  match us with [] => v | (n, g) :: us' => updated us' (λ k, if decide (k = n) then g <$> v k else v k) end.

Definition update_ok l : Z * (list Z → list Z) → Prop := λ '(n, g),
  0 ≤ n < FSSIZE ∧ ¬ (start l ≤ n < start l + log_size l) ∧ n ≠ 1 ∧ ∀ x, length x = BSIZE → length (g x) = BSIZE.

Lemma length_log_add n bs : (length (log_add n bs) ≤ S (length bs))%nat.
Proof. unfold log_add. case_decide; [lia|]. rewrite length_app. cbn. lia. Qed.

Lemma elem_of_log_add n bs k : k ∈ log_add n bs ↔ k ∈ bs ∨ k = n.
Proof. unfold log_add. case_decide; [naive_solver|]. by rewrite elem_of_app, list_elem_of_singleton. Qed.

Lemma homes_add S size bs n :
  homes S size bs → lenZ bs < LOGSIZE → lenZ bs < size - 1 → 0 ≤ n < FSSIZE → ¬ (S ≤ n < S + size) → n ≠ 1 → homes S size (log_add n bs).
Proof.
  intros [[H1 H2] H3 H4] Hl Hs Hn Ha H1n. pose proof (length_log_add n bs). unfold lenZ in *. constructor; [unfold lenZ; lia| |].
  - unfold log_add. case_decide; [done|]. apply NoDup_app. split; [done|]. split; [|apply NoDup_singleton].
    by intros k Hk ->%list_elem_of_singleton.
  - intros b [Hb| ->]%elem_of_log_add; auto.
Qed.

Lemma wp_update c d t m l w bs n g Q :
  ready c d m l bs → 1 ≤ outstanding l → lenZ bs < LOGSIZE → lenZ bs < log_size l - 1 → (2 ≤ spares c)%nat → update_ok l (n, g) →
  (∀ c' l', ready c' d m l' (log_add n bs) →
     start l' = start l → log_size l' = log_size l → outstanding l' = outstanding l → committing l' = committing l →
     (∀ k, vol c' d k = if decide (k = n) then g <$> vol c d k else vol c d k) → (length bs + spares c ≤ length (log_add n bs) + spares c')%nat →
     Q tt (Lsys (rest c' d t m) l' w)) →
  wp (update n g) Q (Lsys (rest c d t m) l w).
Proof.
  intros [[HI Hidle Hdirty] HL HD HH _] Ho Hlt Hsz Hsp (Hn & Hna & Hn1 & Hg) HQ.
  apply wp_bind, wp_bio, wp_bread; [done|done|done|left; lia|]. intros i x f c1 [O1 O2 O3 [O4 Hlx] O5 O6 O7 O8 O9 O10].
  apply wp_bind, wp_bio, (wp_store c1 d t m i n x f g); [done|done|by apply Hg|]. intros c2 [C1 C2 C3 C4 C5 C6 C7 C8].
  apply wp_bind, (wp_log_write c2 d t m l w bs i n (g x) f); [done..|]. intros c3 l3 [D1 D2 D3 D4 D5 D6 D7 D8] HL3 E1 E2 E3 E4.
  apply wp_bio, (wp_brelse c3 d t m i n (g x) 6); [done|done|by left|]. intros c4 [F1 F2 F3 F4 F5 F6].
  rewrite decide_False in F6 by done.
  apply HQ; [constructor; [constructor| | | |]| | | | | |]; try done.
  - intros k. rewrite F5, D7, C7, O8. naive_solver.
  - intros k. rewrite F4, elem_of_log_add. destruct (decide (k = n)) as [->|Hne]; [naive_solver|].
    rewrite D5, C5, O7, Hdirty by done. naive_solver.
  - by rewrite E1, E2.
  - rewrite E1, E2. by apply homes_add.
  - rewrite F6, D8, C8. lia.
  - intros k. rewrite F2, D3, C3, O5. repeat case_decide; try done. subst. by rewrite O4.
  - rewrite F6, D8, C8. unfold log_add. case_decide as Hin; [|rewrite length_app; cbn; lia].
    rewrite O10; [lia|]. destruct O3 as [[? _]|(_ & Hnd & _)]; [done|]. by destruct Hnd; apply Hdirty.
Qed.

Lemma updated_ext us v v' : (∀ k, v k = v' k) → ∀ k, updated us v k = updated us v' k.
Proof. revert v v'. induction us as [|[n g] us IH]; intros v v' Hv; cbn; [done|]. apply IH. intros k. by rewrite !Hv. Qed.

Lemma wp_updates us : ∀ c d t m l w bs Q,
  ready c d m l bs → 1 ≤ outstanding l → lenZ bs + lenZ us ≤ LOGSIZE → lenZ bs + lenZ us < log_size l → (length us < spares c)%nat →
  Forall (update_ok l) us →
  (∀ c' l' bs', ready c' d m l' bs' →
     start l' = start l → log_size l' = log_size l → outstanding l' = outstanding l → committing l' = committing l →
     (∀ k, vol c' d k = updated us (vol c d) k) → Q tt (Lsys (rest c' d t m) l' w)) →
  wp (updates us) Q (Lsys (rest c d t m) l w).
Proof.
  induction us as [|[n g] us IH]; intros c d t m l w bs Q HR Ho Hlt Hsz Hsp Hus HQ; cbn [updates].
  { apply wp_ret. by apply (HQ c l bs). }
  apply Forall_cons in Hus as [Hu Hus]. unfold lenZ in *. cbn [length] in *. pose proof (length_log_add n bs).
  apply wp_bind, (wp_update c d t m l w bs n g); [done|done|unfold lenZ; lia|unfold lenZ; lia|lia|done|].
  intros c1 l1 HR1 E1 E2 E3 E4 Hv Hs. apply (IH c1 d t m l1 w (log_add n bs)); [done|lia|lia|lia|lia| |].
  - eapply Forall_impl; [exact Hus|]. intros [n' g']. unfold update_ok. by rewrite E1, E2.
  - intros c2 l2 bs2 HR2 G1 G2 G3 G4 Hv2. apply (HQ c2 l2 bs2); [done|congruence..|]. intros k. rewrite Hv2. cbn [updated].
    by apply updated_ext.
Qed.

Lemma wp_begin_op c d t m l w bs Q :
  ready c d m l bs → committing l = false → lenZ bs + (outstanding l + 1) * MAXOPBLOCKS ≤ LOGSIZE →
  Q tt (Lsys (rest c d t m) (set_outstanding (outstanding l + 1) l) w) → wp begin_op Q (Lsys (rest c d t m) l w).
Proof.
  intros HR Hco Hroom HQ. apply wp_bind, wp_log_lock, wp_bind, wp_gets. cbn [lg]. rewrite Hco, (ls_n _ _ (rd_lists _ _ _ _ _ HR)).
  destruct (Z.gtb_spec (lenZ bs + (outstanding l + 1) * MAXOPBLOCKS) LOGSIZE); [lia|]. by apply wp_bind, wp_modify, wp_log_unlock.
Qed.

(** ** Atomicity *)

Definition transaction us : M lsys unit := begin_op;; updates us;; end_op.

Lemma wp_until_end c d t m l w us Q :
  ready c d m l [] → outstanding l = 0 → committing l = false →
  lenZ us ≤ LOGSIZE → lenZ us < log_size l → (length us < spares c)%nat → Forall (update_ok l) us →
  (∀ c1 l1 bs1, ready c1 d m l1 bs1 → outstanding l1 = 1 → committing l1 = false →
     start l1 = start l → log_size l1 = log_size l → (∀ k, vol c1 d k = updated us (block_at d 1) k) →
     Q tt (Lsys (rest c1 d t m) l1 w)) →
  wp (begin_op;; updates us) Q (Lsys (rest c d t m) l w).
Proof.
  intros HR Hout Hco Hlen Hsz Hsp Hus HQ.
  apply wp_bind, (wp_begin_op c d t m l w []); [done|done|rewrite Hout; done|]. rewrite Hout.
  apply (wp_updates us c d t m _ w []); [by apply (ready_log c d m l)|done|done|done|done|done|].
  intros c1 l1 bs1 HR1 E1 E2 E3 E4 Hv. apply (HQ c1 l1 bs1); [done|done|by rewrite E4|done|done|]. intros k. rewrite Hv. apply updated_ext.
  intros k'. apply (quiet_clean c d m (.∈ [])); [apply HR|apply not_elem_of_nil].
Qed.

(** C2. Transactions are atomic.  A file system call updates blocks between
    begin_op and end_op.  If the machine stops after any of the disk writes of
    the whole call, and again in the middle of any number of recoveries at
    boot, the next boot that completes leaves all of the updates on the disk,
    or the disk as it was before the call. *)
Theorem transaction_atomic c d t m l w us n d' m' :
  ready c d m l [] → outstanding l = 0 → committing l = false →
  lenZ us ≤ LOGSIZE → lenZ us < log_size l → (length us < spares c)%nat → Forall (update_ok l) us →
  crashes (replay d (take n (writes (transaction us) (Lsys (rest c d t m) l w)))) d' →
  wp (initlog 1) (λ _ s',
    (∀ k, ¬ (start l ≤ k < start l + log_size l) → block_at (disks (io s')) 1 k = block_at d 1 k) ∨
    (∀ k, ¬ (start l ≤ k < start l + log_size l) → block_at (disks (io s')) 1 k = updated us (block_at d 1) k)) (boot d' m').
Proof.
  intros HR Hout Hco Hlen Hsz Hsp Hus Hcr.
  destruct (wp_elim (begin_op;; updates us) (λ _ s', ∃ c1 l1 bs1, s' = Lsys (rest c1 d t m) l1 w ∧ ready c1 d m l1 bs1 ∧
    outstanding l1 = 1 ∧ committing l1 = false ∧ start l1 = start l ∧ log_size l1 = log_size l ∧
    ∀ k, vol c1 d k = updated us (block_at d 1) k) (Lsys (rest c d t m) l w)) as ([] & s' & Hrun & c1 & l1 & bs1 & -> & HR1 & Ho1 & Hc1 & E1 & E2 & Hv).
  { apply wp_until_end; [done..|]. intros c1 l1 bs1 ??????. by exists c1, l1, bs1. }
  assert (writes (transaction us) (Lsys (rest c d t m) l w) = writes end_op (Lsys (rest c1 d t m) l1 w)) as Hw.
  { unfold writes. f_equal. unfold final, transaction. revert Hrun. unfold mbind, M_bind. destruct (begin_op _) as [u s|e s]; [|done].
    intros Hrun. by rewrite Hrun. }
  rewrite Hw in Hcr. rewrite <- E1, <- E2. eapply wp_mono; [by apply (end_op_crash c1 d t m l1 bs1 w n d' m')|].
  intros _ s [Ho|Hn]; [by left|right]. intros k Hk. by rewrite Hn.
Qed.

(** ** A disk as mkfs leaves it, with nothing in the log *)

Definition disk0 : gmap Z (list (list Z)) :=
  {[ 1 := replicate BSIZE 0 :: ((concat (le_enc 4 <$> [1000; 941; 200; 30; 2; 32; 58])) ++ replicate 484 0) :: replicate 998 (replicate BSIZE 0) ]}.

Lemma block_at_disk0 k :
  block_at disk0 1 k = getZ (replicate BSIZE 0 :: ((concat (le_enc 4 <$> [1000; 941; 200; 30; 2; 32; 58])) ++ replicate 484 0) :: replicate 998 (replicate BSIZE 0)) k.
Proof. unfold block_at, disk0. by rewrite lookup_singleton_eq. Qed.

Lemma disk0_log : disk_log disk0 2 30 [].
Proof.
  constructor.
  - unfold disk_ok, disk0. eexists. split; [by apply lookup_singleton_eq|]. split; [reflexivity|].
    constructor; [done|]. constructor; [reflexivity|]. apply Forall_replicate. by rewrite length_replicate.
  - eexists. rewrite block_at_disk0. split; [reflexivity|]. by vm_compute.
  - unfold FSSIZE. lia.
  - eexists. rewrite block_at_disk0. split; [reflexivity|]. by vm_compute.
  - by apply homes_nil.
Qed.

(** The kernel booted on that disk. *)
Definition s0 : lsys := final (initlog 1) (boot disk0 1).

Lemma boot_ready d m S size bs :
  disk_log d S size bs →
  wp (initlog 1) (λ _ s', ∃ c d' t l, s' = Lsys (rest c d' t m) l [] ∧ ready c d' m l [] ∧ (30 ≤ spares c)%nat ∧
    start l = S ∧ log_size l = size ∧ outstanding l = 0 ∧ committing l = false) (boot d m).
Proof.
  intros HD. destruct (booted_quiet (replicate BSIZE 0) d m (dl_disk _ _ _ _ HD)) as [Hq Hs]. rewrite boot_eq.
  apply (wp_initlog _ _ _ _ _ _ S size bs); [done|done|rewrite Hs; lia|done|].
  intros c' d' l' W HR Hq' Hs' HL E1 E2 E3 E4. rewrite Hs in Hs'. exists c', d', W, l'. split; [done|].
  pose proof (rc_done _ _ _ _ _ HR) as HD'. split; [|done]. constructor; [|done|by rewrite E1, E2| |lia].
  - revert Hq'. apply quiet_ext. intros k. by rewrite elem_of_nil.
  - rewrite E1, E2. apply HD'.
Qed.

Lemma s0_ready :
  ∃ c d t l, s0 = Lsys (rest c d t 1) l [] ∧ ready c d 1 l [] ∧ (30 ≤ spares c)%nat ∧
    start l = 2 ∧ log_size l = 30 ∧ outstanding l = 0 ∧ committing l = false.
Proof. destruct (wp_final _ _ _ (boot_ready disk0 1 2 30 [] disk0_log)) as [_ H]. exact H. Qed.

Definition us0 : list (Z * (list Z → list Z)) := [(40, λ x, <[0%nat := 7]> x); (50, λ x, <[1%nat := 9]> x)].

Lemma us0_ok l : start l = 2 → log_size l = 30 → Forall (update_ok l) us0.
Proof.
  intros E1 E2. repeat constructor; unfold FSSIZE; rewrite ?E1, ?E2; try lia; intros x Hx; by rewrite length_insert.
Qed.

(** The machine stops after three of the writes of [us0], and then in the
    first recovery. *)
Lemma transaction_atomic_witness :
  ∃ c d t l, s0 = Lsys (rest c d t 1) l [] ∧
    let d3 := replay d (take 3 (writes (transaction us0) s0)) in
    let d' := replay d3 (take 1 (writes (initlog 1) (boot d3 1))) in
    wp (initlog 1) (λ _ s',
      (∀ k, ¬ (2 ≤ k < 32) → block_at (disks (io s')) 1 k = block_at d 1 k) ∨
      (∀ k, ¬ (2 ≤ k < 32) → block_at (disks (io s')) 1 k = updated us0 (block_at d 1) k)) (boot d' 1).
Proof.
  destruct s0_ready as (c & d & t & l & Hs & HR & Hsp & E1 & E2 & Ho & Hc). exists c, d, t, l. split; [exact Hs|]. rewrite Hs. intros d3 d'.
  pose proof (transaction_atomic c d t 1 l [] us0 3 d' 1 HR Ho Hc) as H. rewrite E1, E2 in H.
  apply H; [done|done|cbn; lia|by apply us0_ok|]. apply crash_again, crash_none.
Defined.

Lemma end_op_commits_witness :
  ∃ c d l bs, ready c d 1 l bs ∧ outstanding l = 1 ∧
    wp end_op (λ _ s', ∃ c' d' t', s' = Lsys (rest c' d' t' 1) (set_outstanding 0 (set_lh_n 0 l)) [LOGCHAN] ∧
      ready c' d' 1 (set_lh_n 0 l) [] ∧
      ∀ k, ¬ (start l ≤ k < start l + log_size l) → block_at d' 1 k = vol c d k ∧ vol c' d' k = vol c d k)
      (Lsys (rest c d [] 1) l []).
Proof.
  destruct s0_ready as (c & d & t & l & _ & HR & Hsp & E1 & E2 & Ho & Hc).
  destruct (wp_elim (begin_op;; updates us0) (λ _ s', ∃ c1 l1 bs1, s' = Lsys (rest c1 d [] 1) l1 [] ∧ ready c1 d 1 l1 bs1 ∧
    outstanding l1 = 1 ∧ committing l1 = false) (Lsys (rest c d [] 1) l [])) as (_ & _ & _ & c1 & l1 & bs1 & _ & HR1 & Ho1 & Hc1).
  { apply wp_until_end; [exact HR|exact Ho|exact Hc|done|by rewrite E2|cbn; lia|by apply us0_ok|].
    intros c1 l1 bs1 H1 H2 H3 _ _ _. exists c1, l1, bs1. split_and!; [reflexivity|exact H1|exact H2|exact H3]. }
  exists c1, d, l1, bs1. split; [exact HR1|]. split; [exact Ho1|]. exact (end_op_commits c1 d [] 1 l1 bs1 [] HR1 Ho1 Hc1).
Defined.
