(* ===== verification/LogSpace.v ===== *)
(** * Log space for concurrent operations (log.c)

    Many threads may be between begin_op and end_op at once.  begin_op lets an
    operation in only when the log has room for MAXOPBLOCKS more blocks for
    each open operation.  A state is followed through any interleaving of the
    calls; [ops] has the set of the blocks that each open operation has logged.
    A block that is logged again is absorbed, and takes no more room.  The last
    end_op and its commit are one step: while [committing] is set there is no
    open operation, and begin_op sleeps. *)

From S2P Require Import Prelude Bytes Bio Log.

(** ** What the calls do to the log's record *)

(** A computation that leaves the log's record alone when it returns. *)
Definition keeps_log {A} (p : M lsys A) : Prop := ∀ s a s', p s = Ret a s' → lg s' = lg s.

Lemma keeps_bio {A} (p : M bio A) : keeps_log (bio_ p).
Proof. intros s a s'. unfold bio_, zoom. destruct (p (io s)); [|done]. by intros [= <- <-]. Qed.
Lemma log_keeps_gets {A} (f : lsys → A) : keeps_log (gets f).
Proof. by intros s a s' [= <- <-]. Qed.
Lemma log_keeps_ret {A} (a : A) : keeps_log (mret a).
Proof. by intros s b s' [= <- <-]. Qed.
Lemma keeps_option {A} (o : option A) : keeps_log (of_option o).
Proof. destruct o; [apply log_keeps_ret|]. done. Qed.
Lemma keeps_int z : keeps_log (int_ z).
Proof. unfold int_. destruct (_ && _); [apply log_keeps_ret|done]. Qed.
Lemma keeps_wakeup c : keeps_log (wakeup c).
Proof. by intros s a s' [= <- <-]. Qed.
Lemma log_keeps_bind {A B} (p : M lsys A) (f : A → M lsys B) : keeps_log p → (∀ a, keeps_log (f a)) → keeps_log (p ≫= f).
Proof.
  intros Hp Hf s a s'. unfold mbind, M_bind. destruct (p s) as [b s1|] eqn:E; [|done]. intros E'.
  by rewrite (Hf b _ _ _ E'), (Hp _ _ _ E).
Qed.
Lemma keeps_for {R} n i (body : nat → M lsys (option R)) : (∀ j, keeps_log (body j)) → keeps_log (for_ n i body).
Proof.
  intros Hb. revert i. induction n as [|n IH]; intros i; cbn [for_]; [apply log_keeps_ret|].
  apply log_keeps_bind; [done|]. intros [r|]; [apply log_keeps_ret|done].
Qed.

Create HintDb keeps discriminated.
#[local] Hint Resolve keeps_bio log_keeps_gets log_keeps_ret keeps_option keeps_int keeps_wakeup log_keeps_bind keeps_for : keeps.

Lemma keeps_write_log : keeps_log write_log.
Proof. unfold write_log, write_log_block. eauto 30 with keeps. Qed.
Lemma keeps_install_trans : keeps_log install_trans.
Proof. unfold install_trans, install_block. eauto 30 with keeps. Qed.
Lemma keeps_write_head : keeps_log write_head.
Proof. unfold write_head. eauto 30 with keeps. Qed.
#[local] Hint Resolve keeps_write_log keeps_install_trans keeps_write_head : keeps.

(** What holds of the log's record when a run returns. *)
Definition after {A} (p : M lsys A) (Q : log → Prop) (s : lsys) : Prop := ∀ a s', p s = Ret a s' → Q (lg s').

Lemma after_keeps {A} (p : M lsys A) (Q : log → Prop) s : keeps_log p → Q (lg s) → after p Q s.
Proof. intros Hk HQ a s' E. by rewrite (Hk _ _ _ E). Qed.
Lemma after_bind {A B} (p : M lsys A) (f : A → M lsys B) Q s :
  keeps_log p → (∀ a s', lg s' = lg s → after (f a) Q s') → after (p ≫= f) Q s.
Proof.
  intros Hk Hf b s'. unfold mbind, M_bind. destruct (p s) as [a s1|] eqn:E; [|done]. apply Hf. by apply (Hk _ _ _ E).
Qed.
Lemma after_gets {A B} (g : lsys → A) (f : A → M lsys B) Q s : after (f (g s)) Q s → after (gets g ≫= f) Q s.
Proof. done. Qed.
Lemma after_upd {B} g (f : unit → M lsys B) Q s : after (f tt) Q (set_lg (g (lg s)) s) → after (upd_log g ≫= f) Q s.
Proof. done. Qed.
Lemma after_panic {B} b msg (f : unit → M lsys B) Q s : (b = true → after (f tt) Q s) → after (panic_unless b msg ≫= f) Q s.
Proof. destruct b; [intros Hf; by apply Hf|]. intros _ a s' E. done. Qed.

Lemma begin_op_log s :
  after begin_op (λ l', committing (lg s) = false ∧ lh_n (lg s) + (outstanding (lg s) + 1) * MAXOPBLOCKS ≤ LOGSIZE ∧
    l' = set_outstanding (outstanding (lg s) + 1) (lg s)) s.
Proof.
  apply after_bind; [apply keeps_bio|]. intros _ s1 K. apply after_gets. rewrite K.
  destruct (committing (lg s)); [apply after_bind; [apply keeps_bio|by intros _ ? _ ?]|].
  destruct (Z.gtb_spec (lh_n (lg s) + (outstanding (lg s) + 1) * MAXOPBLOCKS) LOGSIZE); [apply after_bind; [apply keeps_bio|by intros _ ? _ ?]|].
  apply after_upd, after_keeps; [apply keeps_bio|]. cbn. rewrite K. split_and!; [done|lia|done].
Qed.

(** The number of different blocks, as an int. *)
Definition card (T : gset Z) : Z := Z.of_nat (size T).

(** The blocks that the header lists. *)
Definition listed (l : log) : list Z := u32 <$> take (Z.to_nat (lh_n l)) (lh_block l).

(** What [log_write] does to the record for block [bn], at place [k]. *)
Definition logged (bn : Z) (l : log) : log :=
  let k := log_slot (Z.to_nat (lh_n l)) (lh_block l) bn in
  let l' := set_lh_block (<[k := i32 bn]> (lh_block l)) l in
  if Z.of_nat k =? lh_n l then set_lh_n (lh_n l + 1) l' else l'.

Lemma after_locked_buf {B} i b (f : buf → M lsys B) Q s :
  cache (io s) !! i = Some b → (∀ s', lg s' = lg s → after (f b) Q s') →
  after (bio_ (acquire LOGLOCK);; x ← bio_ (get_buf i); f x) Q s.
Proof.
  destruct s as [[sp c q h d t m] l w]. cbn [io cache lg]. intros Hi Hf r s'. unfold bio_, zoom, acquire, mbind, M_bind.
  cbn [io spin]. destruct (decide (LOGLOCK ∈ sp)); [done|]. unfold get_buf, mbind, M_bind, getS, of_option. cbn.
  rewrite Hi. by apply Hf.
Qed.

Lemma log_write_log i b s : cache (io s) !! i = Some b →
  after (log_write i) (λ l', l' = logged (blockno b) (lg s) ∧ lh_n (lg s) < LOGSIZE) s.
Proof.
  intros Hi. apply after_gets, after_panic. intros Hn. apply after_panic. intros _.
  assert (lh_n (lg s) < LOGSIZE) by (apply negb_true_iff, orb_false_iff in Hn as [?%Z.leb_gt _]; lia).
  apply (after_locked_buf _ b); [done|]. intros s2 K2. apply after_bind; [apply keeps_option|]. intros _ s3 K3. apply after_upd.
  unfold logged. cbv zeta. rewrite K3, K2. destruct (_ =? lh_n (lg s)).
  - apply after_upd, after_bind; [apply keeps_bio|]. intros _ s4 K4. apply after_keeps; [apply keeps_bio|]. by rewrite K4.
  - apply after_bind; [apply log_keeps_ret|]. intros _ s4 K4. apply after_bind; [apply keeps_bio|]. intros _ s5 K5.
    apply after_keeps; [apply keeps_bio|]. by rewrite K5, K4.
Qed.

Lemma after_mono {A} (p : M lsys A) (Q Q' : log → Prop) s : after p Q s → (∀ l, Q l → Q' l) → after p Q' s.
Proof. intros Hp HQ a s' E. apply HQ. by apply (Hp a s'). Qed.
Lemma after_seq {A B} (p : M lsys A) (f : A → M lsys B) Q R s :
  after p R s → (∀ a s', R (lg s') → after (f a) Q s') → after (p ≫= f) Q s.
Proof. intros Hp Hf b s'. unfold mbind, M_bind. destruct (p s) as [a s1|] eqn:E; [|done]. apply Hf. by apply (Hp a). Qed.

Lemma commit_log s : after commit (λ l', l' = set_lh_n (Z.min 0 (lh_n (lg s))) (lg s)) s.
Proof.
  apply after_gets. destruct (Z.gtb_spec (lh_n (lg s)) 0).
  - apply after_bind; [apply keeps_write_log|]. intros _ s1 K1. apply after_bind; [apply keeps_write_head|]. intros _ s2 K2.
    apply after_bind; [apply keeps_install_trans|]. intros _ s3 K3. apply after_upd, after_keeps; [apply keeps_write_head|].
    cbn. rewrite K3, K2, K1. by rewrite Z.min_l by lia.
  - apply after_keeps; [apply log_keeps_ret|]. rewrite Z.min_r by lia. by destruct (lg s).
Qed.

Lemma end_op_log s :
  after end_op (λ l', committing (lg s) = false ∧ committing l' = false ∧ log_size l' = log_size (lg s) ∧
    outstanding l' = outstanding (lg s) - 1 ∧ lh_block l' = lh_block (lg s) ∧
    (lh_n l' = lh_n (lg s) ∨ outstanding l' = 0 ∧ lh_n l' = Z.min 0 (lh_n (lg s)))) s.
Proof.
  apply after_bind; [apply keeps_bio|]. intros _ s1 K1. apply after_upd, after_gets, after_panic. cbn [lg set_lg committing set_outstanding outstanding].
  rewrite K1. intros Hc%negb_true_iff. cbv zeta. destruct (Z.eqb_spec (outstanding (lg s) - 1) 0).
  - apply after_upd, after_bind; [apply keeps_bio|]. intros _ s2 K2. eapply after_seq; [apply commit_log|]. intros _ s3 K3. rewrite K2 in K3.
    apply after_bind; [apply keeps_bio|]. intros _ s4 K4. apply after_upd, after_bind; [apply keeps_wakeup|]. intros _ s5 K5.
    apply after_keeps; [apply keeps_bio|]. rewrite K5. cbn. rewrite K4, K3. cbn. split_and!; [done..|]. right. split; [lia|done].
  - apply after_bind; [apply keeps_wakeup|]. intros _ s2 K2. apply after_bind; [apply keeps_bio|]. intros _ s3 K3.
    apply after_keeps; [apply log_keeps_ret|]. rewrite K3, K2. cbn. rewrite ?K1. split_and!; [done..|by left].
Qed.

(** ** Interleavings *)

(** States of the log reached from an empty one by the calls of any number of
    operations, in any order, each logging at most MAXOPBLOCKS different blocks
    as often as it likes; what else happens to the cache and the disk is
    arbitrary. *)
Inductive log_reach (size : Z) : lsys → list (gset Z) → Prop :=
  | lr_init s : lh_n (lg s) = 0 → outstanding (lg s) = 0 → committing (lg s) = false → log_size (lg s) = size → lenZ (lh_block (lg s)) = LOGSIZE →
      log_reach size s []
  | lr_other s s' ops : log_reach size s ops → lg s' = lg s → log_reach size s' ops
  | lr_begin s s' ops : log_reach size s ops → begin_op s = Ret tt s' → log_reach size s' (∅ :: ops)
  | lr_write s s' i b l1 T l2 : log_reach size s (l1 ++ T :: l2) → cache (io s) !! i = Some b → u32 (blockno b) = blockno b →
      card ({[blockno b]} ∪ T) ≤ MAXOPBLOCKS → log_write i s = Ret tt s' → log_reach size s' (l1 ++ ({[blockno b]} ∪ T) :: l2)
  | lr_end s s' l1 T l2 : log_reach size s (l1 ++ T :: l2) → end_op s = Ret tt s' → log_reach size s' (l1 ++ l2).

(** The blocks that the open operations may still add. *)
Fixpoint reserve (ops : list (gset Z)) : Z := match ops with [] => 0 | T :: ops' => (MAXOPBLOCKS - card T) + reserve ops' end.

Lemma reserve_app l1 l2 : reserve (l1 ++ l2) = reserve l1 + reserve l2.
Proof. induction l1; cbn; lia. Qed.

(** An operation is within its bound, and its blocks are in the header. *)
Definition op_ok (l : log) (T : gset Z) : Prop := card T ≤ MAXOPBLOCKS ∧ ∀ bn, bn ∈ T → bn ∈ listed l.

Record log_room (size : Z) (s : lsys) (ops : list (gset Z)) : Prop := {
  lm_room : lh_n (lg s) + reserve ops ≤ LOGSIZE;
  lm_nonneg : 0 ≤ lh_n (lg s);
  lm_ops : outstanding (lg s) = lenZ ops;
  lm_blocks : Forall (op_ok (lg s)) ops;
  lm_size : log_size (lg s) = size;
  lm_block : lenZ (lh_block (lg s)) = LOGSIZE
}.

Lemma reserve_le l ops : Forall (op_ok l) ops → 0 ≤ reserve ops ≤ lenZ ops * MAXOPBLOCKS.
Proof. unfold lenZ. induction 1 as [|T ops [HS _]]; cbn [reserve length]; unfold card in *; lia. Qed.

Lemma log_slot_le n blocks b : (log_slot n blocks b ≤ n)%nat.
Proof. revert blocks. induction n as [|n IH]; intros [|x blocks]; cbn; try lia. destruct (u32 x =? b); [lia|]. specialize (IH blocks). lia. Qed.

Lemma log_slot_found n blocks bn : bn ∈ u32 <$> take n blocks →
  ∃ x, blocks !! log_slot n blocks bn = Some x ∧ u32 x = bn ∧ (log_slot n blocks bn < n)%nat.
Proof.
  revert blocks. induction n as [|n IH]; intros [|x blocks]; cbn; try by intros ?%elem_of_nil.
  intros H. destruct (Z.eqb_spec (u32 x) bn); [exists x; split_and!; [done..|lia]|].
  apply elem_of_cons in H as [?|H]; [done|]. destruct (IH _ H) as (y & ? & ? & ?). exists y. split_and!; [done..|lia].
Qed.
Lemma log_slot_fresh n blocks bn : (n ≤ length blocks)%nat → bn ∉ u32 <$> take n blocks → log_slot n blocks bn = n.
Proof.
  revert blocks. induction n as [|n IH]; intros [|x blocks]; cbn; try lia. intros Hl H.
  rewrite elem_of_cons in H. destruct (Z.eqb_spec (u32 x) bn); [destruct H; by left|]. f_equal. apply IH; [lia|tauto].
Qed.

(** A listed block is absorbed; another one takes one more place. *)
Lemma listed_logged bn l :
  0 ≤ lh_n l < LOGSIZE → lenZ (lh_block l) = LOGSIZE → u32 bn = bn →
  (bn ∈ listed l → lh_n (logged bn l) = lh_n l) ∧ 0 ≤ lh_n (logged bn l) ≤ lh_n l + 1 ∧
  ∀ x, x ∈ listed (logged bn l) ↔ x ∈ listed l ∨ x = bn.
Proof.
  intros Hn Hb Hu. unfold lenZ in Hb. assert (Hi : u32 (i32 bn) = bn) by (rewrite u32_i32; done).
  unfold logged, listed. cbv zeta. destruct (decide (bn ∈ u32 <$> take (Z.to_nat (lh_n l)) (lh_block l))) as [Hin|Hin].
  - destruct (log_slot_found _ _ _ Hin) as (y & Hy & Hyb & Hlt). rewrite (proj2 (Z.eqb_neq _ _)) by lia. cbn [lh_n lh_block set_lh_block].
    split_and!; [done|lia|lia|]. intros x. rewrite take_insert_lt by done. rewrite list_fmap_insert, Hi, list_insert_id; [naive_solver|].
    by rewrite list_lookup_fmap, lookup_take_lt, Hy, <- Hyb.
  - rewrite log_slot_fresh by (done || lia). rewrite Z2Nat.id, Z.eqb_refl by lia. cbn [lh_n lh_block set_lh_block set_lh_n].
    split_and!; [done|lia|lia|]. intros x. rewrite Z2Nat.inj_add by lia. rewrite Nat.add_comm. cbn [Nat.add].
    rewrite (take_S_r _ _ (i32 bn)) by (rewrite list_lookup_insert_eq; [done|lia]).
    rewrite take_insert_ge by lia. rewrite fmap_app, elem_of_app. cbn. by rewrite Hi, list_elem_of_singleton.
Qed.

Lemma op_ok_mono l l' T : (∀ x, x ∈ listed l → x ∈ listed l') → op_ok l T → op_ok l' T.
Proof. intros Hl [H1 H2]. split; [done|]. auto. Qed.

Lemma log_write_room size s s' i b l1 T l2 :
  log_room size s (l1 ++ T :: l2) → cache (io s) !! i = Some b → u32 (blockno b) = blockno b →
  card ({[blockno b]} ∪ T) ≤ MAXOPBLOCKS → log_write i s = Ret tt s' → log_room size s' (l1 ++ ({[blockno b]} ∪ T) :: l2).
Proof.
  intros [R1 R2 R3 R4 R5 R6] Hi Hu Hm He. destruct (log_write_log i b s Hi tt s' He) as [Hl Hlt].
  destruct (listed_logged (blockno b) (lg s)) as (Ha & Hn & Hin); [done..|]. rewrite <- Hl in Ha, Hn, Hin.
  rewrite reserve_app in R1. cbn [reserve] in R1. apply Forall_app in R4 as [R4 [[HS HSl] R4']%Forall_cons].
  assert (∀ x, x ∈ listed (lg s) → x ∈ listed (lg s')) as Hsub by (intros x Hx; apply Hin; by left).
  constructor.
  - rewrite reserve_app. cbn [reserve]. destruct (decide (blockno b ∈ T)) as [HbS|HbS].
    + rewrite (Ha (HSl _ HbS)). replace ({[blockno b]} ∪ T) with T by set_solver. lia.
    + unfold card in *. rewrite size_union, size_singleton by set_solver. lia.
  - lia.
  - rewrite Hl. unfold logged, lenZ in *. cbv zeta. rewrite length_app in *. by destruct (_ =? _).
  - apply Forall_app. split; [|constructor]; [by eapply Forall_impl; [|intros; by eapply op_ok_mono]| |by eapply Forall_impl; [|intros; by eapply op_ok_mono]].
    split; [done|]. intros x [->%elem_of_singleton|Hx]%elem_of_union; apply Hin; auto.
  - rewrite Hl. unfold logged. cbv zeta. by destruct (_ =? _).
  - rewrite Hl. unfold logged, lenZ in *. cbv zeta. destruct (_ =? _); cbn; by rewrite length_insert.
Qed.

Lemma log_reach_room size s ops : log_reach size s ops → log_room size s ops.
Proof.
  induction 1 as [s Hn Ho Hc Hz Hb|s s' ops _ [R1 R2 R3 R4 R5 R6] He|s s' ops _ [R1 R2 R3 R4 R5 R6] He|s s' i b l1 T l2 _ IH Hi Hu Hm He|s s' l1 T l2 _ [R1 R2 R3 R4 R5 R6] He].
  - constructor; cbn; [rewrite Hn; done|lia|done|constructor|done|done].
  - constructor; rewrite ?He; done.
  - destruct (begin_op_log s tt s' He) as (_ & Hroom & Hl). pose proof (reserve_le _ _ R4).
    constructor; rewrite ?Hl; cbn [reserve lh_n outstanding log_size lh_block set_outstanding]; unfold card, lenZ in *; cbn [length]; [rewrite size_empty; lia|done|lia| |done|done].
    constructor; [split; [done|set_solver]|done].
  - by eapply log_write_room.
  - destruct (end_op_log s tt s' He) as (_ & _ & Hz & Ho & Hb & Hn). rewrite reserve_app in R1. cbn [reserve] in R1.
    apply Forall_app in R4 as [R4 [[HS _] R4']%Forall_cons]. pose proof (reserve_le _ _ R4). pose proof (reserve_le _ _ R4').
    unfold lenZ in *. rewrite length_app in R3. cbn [length] in R3.
    assert (lh_n (lg s') = lh_n (lg s) ∨ l1 ++ l2 = [] ∧ lh_n (lg s') = 0) as Hn'.
    { destruct Hn as [?|[Hz0 Hn]]; [by left|right]. split; [apply length_zero_iff_nil; rewrite length_app|]; lia. }
    constructor; [rewrite reserve_app; unfold card in *|lia|unfold lenZ; rewrite length_app; lia| |congruence|unfold lenZ; congruence].
    { destruct Hn' as [?|[[-> ->]%app_eq_nil ->]]; [lia|done]. }
    destruct Hn' as [Hn'|[-> _]]; [|constructor]. apply Forall_app.
    split; (eapply Forall_impl; [done|]; intros T0; apply op_ok_mono; unfold listed; by rewrite Hn', Hb).
Qed.

Lemma log_write_returns i s :
  lh_n (lg s) < LOGSIZE → lh_n (lg s) < log_size (lg s) - 1 → 1 ≤ outstanding (lg s) → lenZ (lh_block (lg s)) = LOGSIZE →
  LOGLOCK ∉ spin (io s) → is_Some (cache (io s) !! i) → ∃ s', log_write i s = Ret tt s'.
Proof.
  intros Hn Hz Ho Hb Hlk [b Hi]. assert (wp (log_write i) (λ _ _, True) s) as ([] & s' & Hr & _)%wp_elim; [|by exists s'].
  destruct s as [[sp c q h d t m] l w]. cbn [lg io spin cache] in *. apply wp_bind, wp_gets. cbn [lg].
  apply wp_bind, wp_panic_unless; [by rewrite (proj2 (Z.leb_gt _ _)), (proj2 (Z.leb_gt _ _)) by lia|].
  apply wp_bind, wp_panic_unless; [by rewrite (proj2 (Z.ltb_ge _ _)) by lia|].
  apply wp_bind, wp_zoom. unfold wp at 1, acquire. cbn [io spin]. rewrite decide_False by done. unfold set_io, set_spin. cbn [cache ideq havedisk1 disks trace me spin lg woken].
  apply wp_bind, wp_zoom, wp_bind. unfold wp at 1, getS. cbn [io cache]. apply wp_of_option with b; [done|]. unfold set_io. cbn [lg woken].
  set (k := log_slot _ _ _). assert (k < length (lh_block l))%nat as Hk.
  { pose proof (log_slot_le (Z.to_nat (lh_n l)) (lh_block l) (blockno b)). unfold lenZ, LOGSIZE in *. unfold k. lia. }
  destruct (lookup_lt_is_Some_2 _ _ Hk) as [y Hy]. apply wp_bind, wp_of_option with y; [done|]. apply wp_bind, wp_modify.
  unfold set_lg. cbn [io lg woken]. apply wp_bind.
  assert (∀ l1, wp (bio_ (upd_buf i (λ b, set_flags (Z.lor (flags b) B_DIRTY) b));; bio_ (release LOGLOCK)) (λ _ _, True)
    (Lsys (Bio ({[LOGLOCK]} ∪ sp) c q h d t m) l1 w)) as Hrest.
  { intros l1. apply wp_bind, wp_zoom, wp_bind, wp_bind. unfold wp at 1, getS. cbn [io cache]. apply wp_of_option with b; [done|].
    apply wp_modify, wp_zoom. unfold wp, release. cbn. by rewrite decide_True by set_solver. }
  destruct (Z.of_nat k =? lh_n l); [apply wp_modify|apply wp_ret]; apply Hrest.
Qed.

(** C19. No operation overruns the log.  Operations of any number of threads
    interleave, each logging at most MAXOPBLOCKS different blocks, any block as
    often as it likes.  If the log on the disk has a block for the header and
    LOGSIZE more, then the blocks listed never exceed LOGSIZE, every block that
    an open operation has logged is listed, and every log_write of an operation
    with fewer than MAXOPBLOCKS different blocks so far returns: it does not
    panic with "too big a transaction". *)
Theorem log_never_overruns size s l1 T l2 i :
  log_reach size s (l1 ++ T :: l2) → LOGSIZE + 1 ≤ size →
  0 ≤ lh_n (lg s) ≤ LOGSIZE ∧ (∀ bn, bn ∈ T → bn ∈ listed (lg s)) ∧
  (card T < MAXOPBLOCKS → LOGLOCK ∉ spin (io s) → is_Some (cache (io s) !! i) → ∃ s', log_write i s = Ret tt s').
Proof.
  intros [R1 R2 R3 R4 R5 R6]%log_reach_room Hz. rewrite reserve_app in R1. cbn [reserve] in R1.
  apply Forall_app in R4 as [R4 [[HS HSl] R4']%Forall_cons]. pose proof (reserve_le _ _ R4). pose proof (reserve_le _ _ R4').
  split; [lia|]. split; [done|]. intros Hk Hlk Hi. apply log_write_returns; try done; [lia..|]. rewrite R3. unfold lenZ. rewrite length_app. cbn. lia.
Qed.

(** ** Running a sequence of calls *)

Inductive call := Begin | Write (op : nat) (i : nat) | End (op : nat).

Definition do_call (c : call) (s : lsys) (ops : list (gset Z)) : option (lsys * list (gset Z)) :=
  match c with
  | Begin => match begin_op s with Ret _ s' => Some (s', ∅ :: ops) | _ => None end
  | Write o i =>
      T ← ops !! o; b ← cache (io s) !! i;
      let T' := {[blockno b]} ∪ T in
      if (u32 (blockno b) =? blockno b) && (card T' <=? MAXOPBLOCKS) then
        match log_write i s with Ret _ s' => Some (s', <[o := T']> ops) | _ => None end
      else None
  | End o => _ ← ops !! o; match end_op s with Ret _ s' => Some (s', delete o ops) | _ => None end
  end.
Fixpoint do_calls (cs : list call) (s : lsys) (ops : list (gset Z)) : option (lsys * list (gset Z)) :=
  match cs with [] => Some (s, ops) | c :: cs' => '(s', ops') ← do_call c s ops; do_calls cs' s' ops' end.

Lemma do_call_reach size c s ops s' ops' : do_call c s ops = Some (s', ops') → log_reach size s ops → log_reach size s' ops'.
Proof.
  intros Hc HR. destruct c as [|o i|o]; cbn in Hc.
  - destruct (begin_op s) as [[] s1|] eqn:E; [|done]. injection Hc as <- <-. by eapply lr_begin.
  - destruct (ops !! o) as [T|] eqn:Ho; [|done]. cbn in Hc. destruct (cache (io s) !! i) as [b|] eqn:Hi; [|done]. cbn in Hc.
    destruct (Z.eqb_spec (u32 (blockno b)) (blockno b)); [|done]. destruct (Z.leb_spec (card ({[blockno b]} ∪ T)) MAXOPBLOCKS); [|done]. cbn in Hc.
    destruct (log_write i s) as [[] s1|] eqn:E; [|done]. injection Hc as <- <-.
    rewrite insert_take_drop by (by eapply lookup_lt_Some). eapply lr_write; [|done..]. by rewrite take_drop_middle.
  - destruct (ops !! o) as [k|] eqn:Ho; [|done]. cbn in Hc. destruct (end_op s) as [[] s1|] eqn:E; [|done]. injection Hc as <- <-.
    rewrite delete_take_drop. eapply lr_end; [|done]. by rewrite take_drop_middle.
Qed.
Lemma do_calls_reach size cs : ∀ s ops s' ops', do_calls cs s ops = Some (s', ops') → log_reach size s ops → log_reach size s' ops'.
Proof.
  induction cs as [|c cs IH]; intros s ops s' ops' Hc HR; cbn in Hc; [by injection Hc as <- <-|].
  destruct (do_call c s ops) as [[s1 ops1]|] eqn:E; [|done]. cbn in Hc. eapply IH; [exact Hc|]. by eapply do_call_reach.
Qed.

(** Thirty buffers with different blocks, and an empty log of [size] blocks. *)
Definition busy_log (size : Z) : lsys :=
  Lsys (Bio ∅ ((λ i, Buf 2 1 (100 + Z.of_nat i) (Sleeplock true 1) 1 0 0 []) <$> seq 0 30) [] true ∅ [] 1)
       (Log 2 size 0 false 1 0 (replicate 30 0)) [].
Definition full_ops : list call :=
  [Begin; Begin; Begin] ++ (Write 0 <$> [0; 0; 0; 1; 1]%nat ++ seq 0 10) ++ (Write 1 <$> seq 10 10) ++ (Write 2 <$> seq 20 9).

(** How the thirtieth log_write ends after these calls. *)
Definition thirtieth (size : Z) (ok : lsys → outcome lsys unit → bool) : bool :=
  match do_calls full_ops (busy_log size) [] with
  | Some (s, ops) => bool_decide (card <$> ops = [10; 10; 9]) && ok s (log_write 29 s)
  | None => false
  end.

Lemma thirtieth_reach size ok :
  thirtieth size ok = true → ∃ s ops, log_reach size s ops ∧ card <$> ops = [10; 10; 9] ∧ ok s (log_write 29 s) = true.
Proof.
  unfold thirtieth. destruct (do_calls full_ops (busy_log size) []) as [[s ops]|] eqn:E; [|done].
  intros [Hops%bool_decide_eq_true_1 Hok]%andb_prop. exists s, ops. split; [|done]. eapply do_calls_reach; [exact E|by apply lr_init].
Qed.

(** C37. The log of an image that mkfs makes is one block short.  mkfs gives the
    log LOGSIZE blocks, one of them the header, but begin_op admits
    operations for LOGSIZE data blocks: three open operations that stay within
    MAXOPBLOCKS blocks each reach a state where the thirtieth log_write
    panics. *)
Theorem mkfs_log_too_short :
  ∃ s ops s', log_reach LOGSIZE s ops ∧ card <$> ops = [10; 10; 9] ∧ log_write 29 s = Fail (Panic "too big a transaction") s'.
Proof.
  destruct (thirtieth_reach LOGSIZE (λ _ r, match r with Fail e _ => bool_decide (e = Panic "too big a transaction") | _ => false end))
    as (s & ops & HR & Hops & Hok); [by vm_compute|].
  destruct (log_write 29 s) as [|e s'] eqn:E; [done|]. apply bool_decide_eq_true_1 in Hok as ->. by exists s, ops, s'.
Qed.

Lemma log_never_overruns_witness : ∃ s ops s', log_reach 31 s ops ∧ card <$> ops = [10; 10; 9] ∧ log_write 29 s = Ret tt s'.
Proof.
  destruct (thirtieth_reach 31 (λ s _, bool_decide (LOGLOCK ∉ spin (io s)) && bool_decide (is_Some (cache (io s) !! 29%nat))))
    as (s & ops & HR & Hops & [H1%bool_decide_eq_true_1 H2%bool_decide_eq_true_1]%andb_prop); [by vm_compute|].
  destruct ops as [|A [|B [|C []]]]; try done. injection Hops as HA HB HC.
  destruct (log_never_overruns 31 s [A; B] C [] 29 HR) as (_ & _ & Hw); [done|].
  destruct Hw as [s' Hs']; [by rewrite HC|done..|]. exists s, [A; B; C], s'. split; [done|]. cbn. by rewrite HA, HB, HC.
Defined.

(** log_write looks at the room before it looks for the block.  In a log with
    room for LOGSIZE blocks, once three operations have logged their ten blocks
    each, logging one of them again panics, although it would take no place. *)
Lemma absorbed_write_panics :
  ∃ s ops s', log_reach (LOGSIZE + 1) s ops ∧ card <$> ops = [10; 10; 10] ∧ 100 ∈ listed (lg s) ∧
    blockno <$> cache (io s) !! 0%nat = Some 100 ∧ log_write 0 s = Fail (Panic "too big a transaction") s'.
Proof.
  assert (match do_calls (full_ops ++ [Write 2 29]) (busy_log (LOGSIZE + 1)) [] with
          | Some (s, ops) => bool_decide (card <$> ops = [10; 10; 10]) && bool_decide (100 ∈ listed (lg s)) &&
              bool_decide (blockno <$> cache (io s) !! 0%nat = Some 100) &&
              match log_write 0 s with Fail e _ => bool_decide (e = Panic "too big a transaction") | _ => false end
          | None => false end = true) as H by by vm_compute.
  destruct (do_calls _ _ _) as [[s ops]|] eqn:E; [|done]. apply andb_prop in H as [H He].
  apply andb_prop in H as [[H1%bool_decide_eq_true_1 H2%bool_decide_eq_true_1]%andb_prop H3%bool_decide_eq_true_1].
  destruct (log_write 0 s) as [|e s'] eqn:Ew; [done|]. apply bool_decide_eq_true_1 in He as ->.
  exists s, ops, s'. split_and!; [|done..]. eapply do_calls_reach; [exact E|by apply lr_init].
Qed.
