(* ===== verification/Fs.v ===== *)
(** * The file system (xv6: fs.c)

    The layers below are an interface, [Buffers]: reading a block through the
    cache, and the use of the log that its documentation gives (bread, change
    the data, log_write, brelse).  An inode pointer is an index into the cache
    of inodes. *)

From S2P Require Import Prelude Bytes Xstring Bio Log.

Definition BLOCK : nat := 512.
Definition BPB : Z := 4096.
Definition IPB : Z := 8.
Definition DINODE : nat := 64.
Definition NDIRECT : nat := 12.
Definition NINDIRECT : nat := 128.
Definition MAXFILE : Z := 140.
Definition NINODE : nat := 50.
Definition NDEV : Z := 10.
Definition DIRSIZ : nat := 14.
Definition DIRENT : Z := 16.
Definition T_DIR : Z := 1.
Definition T_DEV : Z := 3.
Definition ROOTDEV : Z := 1.
Definition ROOTINO : Z := 1.
Definition SLASH : Z := 47.

(** What the buffer cache and the log do for the file system. *)
Class Buffers (B : Type) := {
  bl_read : Z → M B (list Z);
  bl_update : Z → (list Z → list Z) → M B unit
}.

(** Opening and closing an operation on the file system. *)
Class Operations (B : Type) := { bl_begin : M B unit; bl_end : M B unit }.

(** [struct inode], src/hw3/xv6/file.h:13-26
    [i_lock] says whether the sleep lock is held. *)
Record inode := Inode {
  i_dev : Z; i_inum : Z; i_ref : Z; i_lock : bool; i_valid : bool;
  i_type : Z; i_major : Z; i_minor : Z; i_nlink : Z; i_size : Z; i_addrs : list Z
}.
Definition set_iref (x : Z) (i : inode) := Inode (i_dev i) (i_inum i) x (i_lock i) (i_valid i) (i_type i) (i_major i) (i_minor i) (i_nlink i) (i_size i) (i_addrs i).
Definition set_ilock (x : bool) (i : inode) := Inode (i_dev i) (i_inum i) (i_ref i) x (i_valid i) (i_type i) (i_major i) (i_minor i) (i_nlink i) (i_size i) (i_addrs i).
Definition set_ivalid (x : bool) (i : inode) := Inode (i_dev i) (i_inum i) (i_ref i) (i_lock i) x (i_type i) (i_major i) (i_minor i) (i_nlink i) (i_size i) (i_addrs i).
Definition set_itype (x : Z) (i : inode) := Inode (i_dev i) (i_inum i) (i_ref i) (i_lock i) (i_valid i) x (i_major i) (i_minor i) (i_nlink i) (i_size i) (i_addrs i).
Definition set_inlink (x : Z) (i : inode) := Inode (i_dev i) (i_inum i) (i_ref i) (i_lock i) (i_valid i) (i_type i) (i_major i) (i_minor i) x (i_size i) (i_addrs i).
Definition set_isize (x : Z) (i : inode) := Inode (i_dev i) (i_inum i) (i_ref i) (i_lock i) (i_valid i) (i_type i) (i_major i) (i_minor i) (i_nlink i) x (i_addrs i).
Definition set_iaddrs (x : list Z) (i : inode) := Inode (i_dev i) (i_inum i) (i_ref i) (i_lock i) (i_valid i) (i_type i) (i_major i) (i_minor i) (i_nlink i) (i_size i) x.

(** [struct dinode], src/hw3/xv6/fs.h:28-36
    Its fields in the 64 bytes at [o] of a block. *)
Definition dinode_type (o : nat) (x : list Z) : Z := get_i16 o x.
Definition of_dinode (o : nat) (x : list Z) (i : inode) : inode :=
  Inode (i_dev i) (i_inum i) (i_ref i) (i_lock i) (i_valid i)
    (get_i16 o x) (get_i16 (o + 2) x) (get_i16 (o + 4) x) (get_i16 (o + 6) x) (get_u32 (o + 8) x)
    (map (λ j, get_u32 (o + 12 + 4 * j) x) (seq 0 (NDIRECT + 1))).
Definition put_dinode (o : nat) (i : inode) (x : list Z) : list Z :=
  foldl (λ x j, put_u32 (o + 12 + 4 * j) (nth j (i_addrs i) 0) x)
    (put_u32 (o + 8) (i_size i) (put_u16 (o + 6) (i_nlink i) (put_u16 (o + 4) (i_minor i) (put_u16 (o + 2) (i_major i) (put_u16 o (i_type i) x)))))
    (seq 0 (NDIRECT + 1)).

Definition IBLOCK (i : Z) (sb : superblock) : Z := i / IPB + inodestart sb.
Definition IOFF (i : Z) : nat := (Z.to_nat (i mod IPB) * DINODE)%nat.
Definition BBLOCK (b : Z) (sb : superblock) : Z := b / BPB + bmapstart sb.

(** [icache, sb], src/hw3/xv6/fs.c:167-170 *)
Record fsys (B : Type) := Fsys { fbuf : B; fsb : superblock; icache : list inode }.
Arguments Fsys {B} fbuf fsb icache.
Arguments fbuf {B} f.
Arguments fsb {B} f.
Arguments icache {B} f.

Section fs.
Context {B : Type} `{Buffers B}.
Abbreviation F := (M (fsys B)).

Definition set_fbuf (x : B) (s : fsys B) := Fsys x (fsb s) (icache s).
Definition set_fsb (x : superblock) (s : fsys B) := Fsys (fbuf s) x (icache s).
Definition set_icache (x : list inode) (s : fsys B) := Fsys (fbuf s) (fsb s) x.
Definition below {A} (m : M B A) : F A := zoom fbuf set_fbuf m.
Definition block_read (b : Z) : F (list Z) := below (bl_read b).
Definition block_update (b : Z) (f : list Z → list Z) : F unit := below (bl_update b f).
Definition get_i (ip : nat) : F inode := s ← getS; of_option (icache s !! ip).
Definition upd_i (ip : nat) (f : inode → inode) : F unit :=
  i ← get_i ip; modify (λ s, set_icache (<[ip := f i]> (icache s)) s).

(** ** Blocks *)

(** [bzero], src/hw3/xv6/fs.c:41-51 *)
Definition bzero (bno : Z) : F unit := block_update bno (λ _, replicate BLOCK 0).

(** Bit [bi] of a bitmap block, and its change. *)
Definition bit_set (x : list Z) (bi : Z) : bool :=
  negb (Z.land (nth (Z.to_nat (bi / 8)) x 0) (Z.shiftl 1 (bi mod 8)) =? 0).
Definition set_bit (bi : Z) (x : list Z) : list Z :=
  <[Z.to_nat (bi / 8) := Z.lor (nth (Z.to_nat (bi / 8)) x 0) (Z.shiftl 1 (bi mod 8))]> x.
Definition clear_bit (bi : Z) (x : list Z) : list Z :=
  <[Z.to_nat (bi / 8) := Z.ldiff (nth (Z.to_nat (bi / 8)) x 0) (Z.shiftl 1 (bi mod 8))]> x.

(** [balloc: the inner loop], src/hw3/xv6/fs.c:65-74 *)
Fixpoint balloc_scan (x : list Z) (b size : Z) (n : nat) (bi : Z) : option Z :=
  match n with
  | O => None
  | S n' => if b + bi <? size then if bit_set x bi then balloc_scan x b size n' (bi + 1) else Some bi else None
  end.

(** [balloc: the outer loop], src/hw3/xv6/fs.c:63-77 *)
Fixpoint balloc_loop (fuel : nat) (b : Z) : F Z :=
  sb ← gets fsb;
  if b <? sb_size sb then
    match fuel with
    | O => fail OutOfFuel
    | S fuel' =>
        x ← block_read (BBLOCK b sb);
        match balloc_scan x b (sb_size sb) (Z.to_nat BPB) 0 with
        | Some bi =>
            block_update (BBLOCK b sb) (set_bit bi);;
            bzero (b + bi);;
            mret (b + bi)
        | None => balloc_loop fuel' (b + BPB)
        end
    end
  else fail (Panic "balloc: out of blocks").

(** [balloc], src/hw3/xv6/fs.c:55-78 *)
Definition balloc : F Z := sb ← gets fsb; balloc_loop (Z.to_nat (sb_size sb / BPB + 1)) 0.

(** [readsb(dev, &sb)], src/hw3/xv6/fs.c:30-39 *)
Definition fs_readsb : F unit := x ← block_read 1; modify (set_fsb (sb_of x)).

(** [bfree], src/hw3/xv6/fs.c:80-96 *)
Definition bfree (b : Z) : F unit :=
  fs_readsb;;
  sb ← gets fsb;
  x ← block_read (BBLOCK b sb);
  panic_unless (bit_set x (b mod BPB)) "freeing free block";;
  block_update (BBLOCK b sb) (clear_bit (b mod BPB)).

(** ** Inodes *)

(** [iget], src/hw3/xv6/fs.c:239-273
    The slot of the inode if it is cached, else the first empty slot. *)
Definition iget (dev inum : Z) : F nat :=
  ic ← gets icache;
  match list_find (λ i, 0 < i_ref i ∧ i_dev i = dev ∧ i_inum i = inum) ic with
  | Some (ip, i) => upd_i ip (set_iref (i_ref i + 1));; mret ip
  | None =>
      match list_find (λ i, i_ref i = 0) ic with
      | None => fail (Panic "iget: no inodes")
      | Some (ip, i) =>
          upd_i ip (λ i, Inode dev inum 1 (i_lock i) false (i_type i) (i_major i) (i_minor i) (i_nlink i) (i_size i) (i_addrs i));;
          mret ip
      end
  end.

(** [ialloc: the loop], src/hw3/xv6/fs.c:202-214 *)
Fixpoint ialloc_loop (n : nat) (dev type inum : Z) : F nat :=
  match n with
  | O => fail (Panic "ialloc: no inodes")
  | S n' =>
      sb ← gets fsb;
      x ← block_read (IBLOCK inum sb);
      if dinode_type (IOFF inum) x =? 0 then
        block_update (IBLOCK inum sb) (λ x, put_u16 (IOFF inum) type (put (IOFF inum) (replicate DINODE 0) x));;
        iget dev inum
      else ialloc_loop n' dev type (inum + 1)
  end.
(** [ialloc], src/hw3/xv6/fs.c:191-215 *)
Definition ialloc (dev type : Z) : F nat := sb ← gets fsb; ialloc_loop (Z.to_nat (ninodes sb - 1)) dev type 1.

(** [iupdate], src/hw3/xv6/fs.c:217-237 *)
Definition iupdate (ip : nat) : F unit :=
  i ← get_i ip;
  sb ← gets fsb;
  block_update (IBLOCK (i_inum i) sb) (put_dinode (IOFF (i_inum i)) i).

(** [idup], src/hw3/xv6/fs.c:275-284 *)
Definition idup (ip : nat) : F nat := upd_i ip (λ i, set_iref (i_ref i + 1) i);; mret ip.

(** acquiresleep and releasesleep of an inode's lock; a held lock puts the
    caller to sleep. *)
Definition lock_inode (ip : nat) : F unit :=
  i ← get_i ip; if i_lock i then fail (Sleep (Z.of_nat ip)) else upd_i ip (set_ilock true).
Definition unlock_inode (ip : nat) : F unit := upd_i ip (set_ilock false).

(** [ilock], src/hw3/xv6/fs.c:286-313 *)
Definition ilock (ip : nat) : F unit :=
  i ← get_i ip;
  panic_unless (1 <=? i_ref i) "ilock";;
  lock_inode ip;;
  i ← get_i ip;
  if i_valid i then mret tt
  else
    sb ← gets fsb;
    x ← block_read (IBLOCK (i_inum i) sb);
    upd_i ip (λ i, set_ivalid true (of_dinode (IOFF (i_inum i)) x i));;
    i ← get_i ip;
    panic_unless (negb (i_type i =? 0)) "ilock: no type".

(** [iunlock], src/hw3/xv6/fs.c:315-323 *)
Definition iunlock (ip : nat) : F unit :=
  i ← get_i ip;
  panic_unless (i_lock i && (1 <=? i_ref i)) "iunlock";;
  unlock_inode ip.

(** ** Contents *)

(** [bmap], src/hw3/xv6/fs.c:371-401
    The code holds the buffer of the indirect block while balloc runs; here it
    is released and read again for the update.  balloc writes a block
    that was free, which in a consistent file system is another one, so the
    bytes are the same; one buffer fewer is held meanwhile. *)
Definition bmap (ip : nat) (bn : Z) : F Z :=
  i ← get_i ip;
  if bn <? Z.of_nat NDIRECT then
    addr ← of_option (getZ (i_addrs i) bn);
    if addr =? 0 then
      addr ← balloc;
      upd_i ip (λ i, set_iaddrs (setZ (i_addrs i) bn addr) i);;
      mret addr
    else mret addr
  else
    let bn := bn - Z.of_nat NDIRECT in
    if bn <? Z.of_nat NINDIRECT then
      ind ← of_option (i_addrs i !! NDIRECT);
      ind ← (if ind =? 0 then
               addr ← balloc;
               upd_i ip (λ i, set_iaddrs (<[NDIRECT := addr]> (i_addrs i)) i);;
               mret addr
             else mret ind);
      x ← block_read ind;
      let addr := get_u32 (4 * Z.to_nat bn) x in
      if addr =? 0 then
        addr ← balloc;
        block_update ind (put_u32 (4 * Z.to_nat bn) addr);;
        mret addr
      else mret addr
    else fail (Panic "bmap: out of range").

(** [itrunc: the direct blocks], src/hw3/xv6/fs.c:415-420 *)
Definition itrunc_direct (ip : nat) (i : nat) : F (option unit) :=
  n ← get_i ip;
  addr ← of_option (i_addrs n !! i);
  (if addr =? 0 then mret tt
   else bfree addr;; upd_i ip (λ n, set_iaddrs (<[i := 0]> (i_addrs n)) n));;
  mret None.
(** [itrunc: the indirect blocks], src/hw3/xv6/fs.c:425-428 *)
Definition itrunc_indirect (x : list Z) (j : nat) : F (option unit) :=
  let addr := get_u32 (4 * j) x in
  (if addr =? 0 then mret tt else bfree addr);;
  mret None.

(** [itrunc], src/hw3/xv6/fs.c:403-436 *)
Definition itrunc (ip : nat) : F unit :=
  for_ NDIRECT 0 (itrunc_direct ip);;
  n ← get_i ip;
  ind ← of_option (i_addrs n !! NDIRECT);
  (if ind =? 0 then mret tt
   else
     x ← block_read ind;
     for_ NINDIRECT 0 (itrunc_indirect x);;
     bfree ind;;
     upd_i ip (λ n, set_iaddrs (<[NDIRECT := 0]> (i_addrs n)) n));;
  upd_i ip (set_isize 0);;
  iupdate ip.

(** [iput], src/hw3/xv6/fs.c:325-353 *)
Definition iput (ip : nat) : F unit :=
  lock_inode ip;;
  i ← get_i ip;
  (if i_valid i && (i_nlink i =? 0) && (i_ref i =? 1) then
     itrunc ip;;
     upd_i ip (set_itype 0);;
     iupdate ip;;
     upd_i ip (set_ivalid false)
   else mret tt);;
  unlock_inode ip;;
  upd_i ip (λ i, set_iref (i_ref i - 1) i).

(** [iunlockput], src/hw3/xv6/fs.c:355-361 *)
Definition iunlockput (ip : nat) : F unit := iunlock ip;; iput ip.

(** [struct stat], src/hw3/xv6/stat.h:5-11 *)
Record stat := Stat { st_type : Z; st_dev : Z; st_ino : Z; st_nlink : Z; st_size : Z }.

(** [stati], src/hw3/xv6/fs.c:438-448 *)
Definition stati (ip : nat) : F stat :=
  i ← get_i ip; mret (Stat (i_type i) (i_dev i) (i_inum i) (i_nlink i) (i_size i)).

(** The functions of devsw, by major number; absent where they are null. *)
Context (devread : Z → option (Z → M B (Z * list Z))) (devwrite : Z → option (list Z → M B Z)).

(** [readi: the loop], src/hw3/xv6/fs.c:470-475
    [n] bytes are left to read; the result is the bytes. *)
Fixpoint readi_loop (fuel : nat) (ip : nat) (off n : Z) : F (list Z) :=
  if 0 <? n then
    match fuel with
    | O => fail OutOfFuel
    | S fuel' =>
        b ← bmap ip (off / 512);
        x ← block_read b;
        let m := Z.min n (512 - off mod 512) in
        rest ← readi_loop fuel' ip (u32 (off + m)) (n - m);
        mret (get (Z.to_nat (off mod 512)) (Z.to_nat m) x ++ rest)
    end
  else mret [].

(** [readi], src/hw3/xv6/fs.c:450-477
    The result and the bytes at [dst]. *)
Definition readi (ip : nat) (off n : Z) : F (Z * list Z) :=
  i ← get_i ip;
  if i_type i =? T_DEV then
    if (i_major i <? 0) || (NDEV <=? i_major i) then mret (-1, [])
    else match devread (i_major i) with None => mret (-1, []) | Some f => below (f n) end
  else if (i_size i <? off) || (u32 (off + n) <? off) then mret (-1, [])
  else
    let n := if i_size i <? u32 (off + n) then u32 (i_size i - off) else n in
    bs ← readi_loop (Z.to_nat (n / 512 + 2)) ip off n;
    mret (i32 n, bs).

(** [writei: the loop], src/hw3/xv6/fs.c:499-505
    The result is the offset after the bytes. *)
Fixpoint writei_loop (fuel : nat) (ip : nat) (src : list Z) (off : Z) : F Z :=
  match src with
  | [] => mret off
  | _ =>
      match fuel with
      | O => fail OutOfFuel
      | S fuel' =>
          b ← bmap ip (off / 512);
          let m := Z.min (lenZ src) (512 - off mod 512) in
          block_update b (put (Z.to_nat (off mod 512)) (take (Z.to_nat m) src));;
          writei_loop fuel' ip (drop (Z.to_nat m) src) (u32 (off + m))
      end
  end.

(** [writei], src/hw3/xv6/fs.c:479-512
    [src] is the [n] bytes to write. *)
Definition writei (ip : nat) (src : list Z) (off : Z) : F Z :=
  let n := lenZ src in
  i ← get_i ip;
  if i_type i =? T_DEV then
    if (i_major i <? 0) || (NDEV <=? i_major i) then mret (-1)
    else match devwrite (i_major i) with None => mret (-1) | Some f => below (f src) end
  else if (i_size i <? off) || (u32 (off + n) <? off) then mret (-1)
  else if MAXFILE * 512 <? u32 (off + n) then mret (-1)
  else
    off ← writei_loop (Z.to_nat (n / 512 + 2)) ip src off;
    i ← get_i ip;
    (if (0 <? n) && (i_size i <? off) then upd_i ip (set_isize off);; iupdate ip else mret tt);;
    mret (i32 n).

(** ** Directories *)

(** [namecmp], src/hw3/xv6/fs.c:517-521 *)
Definition namecmp (s t : list Z) : option Z := strncmp s t DIRSIZ.

(** [struct dirent], src/hw3/xv6/fs.h:53-56 *)
Definition de_inum (de : list Z) : Z := get_u16 0 de.
Definition de_name (de : list Z) : list Z := drop 2 de.

(** [dirlookup: the loop], src/hw3/xv6/fs.c:534-546
    The entry found: its offset and inode number. *)
Fixpoint dirlookup_loop (fuel : nat) (dp : nat) (name : list Z) (off : Z) : F (option (Z * Z)) :=
  i ← get_i dp;
  if off <? i_size i then
    match fuel with
    | O => fail OutOfFuel
    | S fuel' =>
        '(r, de) ← readi dp off DIRENT;
        panic_unless (r =? DIRENT) "dirlookup read";;
        if de_inum de =? 0 then dirlookup_loop fuel' dp name (u32 (off + DIRENT))
        else
          c ← of_option (namecmp name (de_name de));
          if c =? 0 then mret (Some (off, de_inum de)) else dirlookup_loop fuel' dp name (u32 (off + DIRENT))
    end
  else mret None.

(** [dirlookup], src/hw3/xv6/fs.c:523-549
    The inode and its offset in the directory. *)
Definition dirlookup (dp : nat) (name : list Z) : F (option (nat * Z)) :=
  i ← get_i dp;
  panic_unless (i_type i =? T_DIR) "dirlookup not DIR";;
  r ← dirlookup_loop (Z.to_nat (i_size i / DIRENT + 1)) dp name 0;
  match r with
  | Some (off, inum) => ip ← iget (i_dev i) inum; mret (Some (ip, off))
  | None => mret None
  end.

(** [dirlink: the loop], src/hw3/xv6/fs.c:566-571
    The offset of the entry to use. *)
Fixpoint dirlink_loop (fuel : nat) (dp : nat) (off : Z) : F Z :=
  i ← get_i dp;
  if off <? i_size i then
    match fuel with
    | O => fail OutOfFuel
    | S fuel' =>
        '(r, de) ← readi dp off DIRENT;
        panic_unless (r =? DIRENT) "dirlink read";;
        if de_inum de =? 0 then mret off else dirlink_loop fuel' dp (off + DIRENT)
    end
  else mret off.

(** [dirlink], src/hw3/xv6/fs.c:551-579 *)
Definition dirlink (dp : nat) (name : list Z) (inum : Z) : F Z :=
  r ← dirlookup dp name;
  match r with
  | Some (ip, _) => iput ip;; mret (-1)
  | None =>
      i ← get_i dp;
      off ← dirlink_loop (Z.to_nat (i_size i / DIRENT + 1)) dp 0;
      nm ← of_option (strncpy (replicate DIRSIZ 0) name (Z.of_nat DIRSIZ));
      r ← writei dp (le_enc 2 inum ++ nm) off;
      panic_unless (r =? DIRENT) "dirlink";;
      mret 0
  end.

(** ** Paths *)

(** How many characters at the front satisfy [f]. *)
Fixpoint prefix_len (f : Z → bool) (l : list Z) : nat :=
  match l with [] => O | c :: l' => if f c then S (prefix_len f l') else O end.

(** [skipelem], src/hw3/xv6/fs.c:584-619
    A path is the characters before its 0; the name is an array of DIRSIZ. *)
Definition skipelem (path name : list Z) : option (list Z * list Z) :=
  let path := drop (prefix_len (λ c, c =? SLASH) path) path in
  match path with
  | [] => None
  | _ =>
      let len := prefix_len (λ c, negb (c =? SLASH)) path in
      let s := take len path in
      let path := drop len path in
      let name := if (DIRSIZ <=? len)%nat then put 0 (take DIRSIZ s) name else put 0 (s ++ [0]) name in
      Some (drop (prefix_len (λ c, c =? SLASH) path) path, name)
  end.

(** [namex: the loop], src/hw3/xv6/fs.c:635-652
    The inode reached, with the name of the last element. *)
Fixpoint namex_loop (fuel : nat) (ip : nat) (path : list Z) (nameiparent : bool) (name : list Z) : F (option nat * list Z) :=
  match skipelem path name with
  | None => if nameiparent then iput ip;; mret (None, name) else mret (Some ip, name)
  | Some (path, name) =>
      match fuel with
      | O => fail OutOfFuel
      | S fuel' =>
          ilock ip;;
          i ← get_i ip;
          if negb (i_type i =? T_DIR) then iunlockput ip;; mret (None, name)
          else if nameiparent && bool_decide (path = []) then iunlock ip;; mret (Some ip, name)
          else
            r ← dirlookup ip name;
            match r with
            | None => iunlockput ip;; mret (None, name)
            | Some (next, _) => iunlockput ip;; namex_loop fuel' next path nameiparent name
            end
      end
  end.

(** [namex], src/hw3/xv6/fs.c:621-658
    [cwd] is the inode of the current directory. *)
Definition namex (cwd : nat) (path : list Z) (nameiparent : bool) : F (option nat * list Z) :=
  ip ← (match path with c :: _ => if c =? SLASH then iget ROOTDEV ROOTINO else idup cwd | [] => idup cwd end);
  namex_loop (S (length path)) ip path nameiparent (replicate DIRSIZ 0).

(** [namei], src/hw3/xv6/fs.c:660-665 *)
Definition namei (cwd : nat) (path : list Z) : F (option nat) := r ← namex cwd path false; mret (fst r).
(** [nameiparent], src/hw3/xv6/fs.c:667-671 *)
Definition nameiparent (cwd : nat) (path : list Z) : F (option nat * list Z) := namex cwd path true.

(** [iinit], src/hw3/xv6/fs.c:172-187 *)
Definition iinit : F unit :=
  modify (λ s, set_icache (map (set_ilock false) (icache s)) s);;
  fs_readsb.
End fs.
