(* ===== verification/FsInv.v ===== *)
(** * What the file system relies on, and its block allocator (xv6: fs.c) *)

From stdpp Require Import functions.
From S2P Require Import Prelude Bytes Xstring Bio Log Fs.

Implicit Types (sb : superblock) (ic : list inode).

(** The contents of the disk as the cache shows them. *)
Abbreviation contents := (Z → option (list Z)).
Definition upd (n : Z) (f : list Z → list Z) (v : contents) : contents := λ k, if decide (k = n) then f <$> v k else v k.

Lemma upd_eq n f v x : v n = Some x → upd n f v n = Some (f x).
Proof. intros Hx. unfold upd. by rewrite decide_True, Hx. Qed.
Lemma upd_ne n f v k : k ≠ n → upd n f v k = v k.
Proof. intros Hk. unfold upd. by rewrite decide_False. Qed.

(** What the layers below promise to a call inside a transaction: [g] are the
    blocks outside of the log, [v] their contents and that of the superblock,
    [L] the blocks that the operation has logged so far, at most
    MAXOPBLOCKS. *)
Definition home (g : Z → Prop) (n : Z) : Prop := g n ∨ n = 1.
Class BufferLaws (B : Type) `{Buffers B} := {
  tx : (Z → Prop) → contents → gset Z → B → Prop;
  tx_block g v L s n : tx g v L s → home g n → ∃ x, v n = Some x ∧ length x = BLOCK;
  tx_read g v L s n : tx g v L s → home g n → wp (bl_read n) (λ x s', v n = Some x ∧ tx g v L s') s;
  tx_update g v L s n f :
    tx g v L s → g n → Z.of_nat (size ({[n]} ∪ L)) ≤ MAXOPBLOCKS → (∀ x, length x = BLOCK → length (f x) = BLOCK) →
    wp (bl_update n f) (λ _ s', tx g (upd n f v) ({[n]} ∪ L) s') s
}.

(** What they promise outside of a transaction; at its end all of its changes
    are made. *)
Class OperationLaws (B : Type) `{BufferLaws B} `{!Operations B} := {
  idle : (Z → Prop) → contents → B → Prop;
  idle_block g v s n : idle g v s → home g n → ∃ x, v n = Some x ∧ length x = BLOCK;
  idle_read g v s n : idle g v s → home g n → wp (bl_read n) (λ x s', v n = Some x ∧ idle g v s') s;
  op_begin g v s : idle g v s → wp bl_begin (λ _ s', tx g v ∅ s') s;
  op_end g v L s : tx g v L s → wp bl_end (λ _ s', idle g v s') s
}.

(** ** Bits *)

Lemma bit_set_testbit x bi : 0 ≤ bi → bit_set x bi = Z.testbit (nth (Z.to_nat (bi / 8)) x 0) (bi mod 8).
Proof.
  intros Hbi. unfold bit_set. pose proof (Z.mod_pos_bound bi 8). set (y := nth _ _ _). set (k := bi mod 8) in *. clearbody y k.
  destruct (Z.testbit y k) eqn:E.
  - apply negb_true_iff, Z.eqb_neq. intros H0. assert (Z.testbit (Z.land y (Z.shiftl 1 k)) k = false) as Hf by (by rewrite H0, Z.bits_0).
    rewrite Z.land_spec, E, Z.shiftl_spec, Z.sub_diag in Hf by lia. done.
  - apply negb_false_iff, Z.eqb_eq. apply Z.bits_inj'. intros j Hj. rewrite Z.land_spec, Z.bits_0, Z.shiftl_spec by lia.
    destruct (decide (j = k)) as [->|Hne]; [by rewrite E|]. apply andb_false_iff. right. destruct (decide (j < k)); [by rewrite Z.testbit_neg_r by lia|].
    destruct (j - k) eqn:Ejk; [lia|done|lia].
Qed.

Lemma shiftl_1_spec k j : 0 ≤ k → 0 ≤ j → Z.testbit (Z.shiftl 1 k) j = bool_decide (j = k).
Proof.
  intros Hk Hj. rewrite Z.shiftl_spec by done. destruct (decide (j = k)) as [->|Hne]; [by rewrite Z.sub_diag, bool_decide_eq_true_2|].
  rewrite bool_decide_eq_false_2 by done. destruct (decide (j < k)); [by rewrite Z.testbit_neg_r by lia|]. destruct (j - k) eqn:E; [lia|done|lia].
Qed.

(** Two positions in the bitmap. *)
Lemma bit_index bi bj : 0 ≤ bi → 0 ≤ bj → bi = bj ↔ Z.to_nat (bi / 8) = Z.to_nat (bj / 8) ∧ bi mod 8 = bj mod 8.
Proof.
  intros Hi Hj. split; [by intros ->|]. intros [H1 H2]. apply Z2Nat.inj in H1; [|dlia..]. rewrite (Z.div_mod bi 8), (Z.div_mod bj 8) by lia. congruence.
Qed.

Lemma bit_change (op : Z → Z → Z) (r : bool) x bi bj :
  (∀ a b j, 0 ≤ j → Z.testbit (op a b) j = if Z.testbit b j then r else Z.testbit a j) →
  0 ≤ bi < 8 * lenZ x → 0 ≤ bj →
  bit_set (<[Z.to_nat (bi / 8) := op (nth (Z.to_nat (bi / 8)) x 0) (Z.shiftl 1 (bi mod 8))]> x) bj = if decide (bj = bi) then r else bit_set x bj.
Proof.
  intros Hop Hbi Hbj. assert (Z.to_nat (bi / 8) < length x)%nat as Hlt by (unfold lenZ in Hbi; clear Hop; dlia).
  pose proof (Z.mod_pos_bound bi 8 ltac:(lia)). pose proof (Z.mod_pos_bound bj 8 ltac:(lia)).
  rewrite !bit_set_testbit by done. rewrite nth_lookup. destruct (decide (Z.to_nat (bj / 8) = Z.to_nat (bi / 8))) as [E|Hne].
  - rewrite E, list_lookup_insert_eq by done. cbn [default from_option id]. rewrite Hop, shiftl_1_spec by lia. rewrite (decide_ext _ (bj mod 8 = bi mod 8)) by (rewrite bit_index by lia; tauto).
    case_decide as Hd; [by rewrite bool_decide_eq_true_2|by rewrite bool_decide_eq_false_2].
  - rewrite list_lookup_insert_ne by done. rewrite decide_False by (intros ->; done). by rewrite nth_lookup.
Qed.
Lemma set_bit_spec x bi bj : 0 ≤ bi < 8 * lenZ x → 0 ≤ bj → bit_set (set_bit bi x) bj = if decide (bj = bi) then true else bit_set x bj.
Proof. apply (bit_change Z.lor true). intros a b j Hj. rewrite Z.lor_spec. destruct (Z.testbit b j); [apply orb_true_r|apply orb_false_r]. Qed.
Lemma clear_bit_spec x bi bj : 0 ≤ bi < 8 * lenZ x → 0 ≤ bj → bit_set (clear_bit bi x) bj = if decide (bj = bi) then false else bit_set x bj.
Proof. apply (bit_change Z.ldiff false). intros a b j Hj. rewrite Z.ldiff_spec. destruct (Z.testbit b j); [apply andb_false_r|apply andb_true_r]. Qed.

Lemma balloc_scan_spec x b size n : ∀ bi,
  match balloc_scan x b size n bi with
  | Some r => bi ≤ r < bi + Z.of_nat n ∧ b + r < size ∧ bit_set x r = false
  | None => ∀ j, bi ≤ j < bi + Z.of_nat n → b + j < size → bit_set x j = true
  end.
Proof.
  induction n as [|n IH]; intros bi; cbn [balloc_scan]; [lia|]. destruct (Z.ltb_spec (b + bi) size) as [Hlt|Hge]; [|intros j Hj Hs; lia].
  destruct (bit_set x bi) eqn:Hb; [|split; [lia|done]]. specialize (IH (bi + 1)). destruct (balloc_scan x b size n (bi + 1)) as [r|].
  - destruct IH as (H1 & H2 & H3). split; [lia|done].
  - intros j Hj Hs. destruct (decide (j = bi)) as [->|]; [done|]. apply IH; lia.
Qed.

(** ** The blocks of the disk and their uses *)

Inductive use := Unused | Meta | Data (inum : Z) (i : nat) | Indir (inum : Z).
#[export] Instance use_eq_dec : EqDecision use.
Proof. solve_decision. Defined.

Implicit Types (v : contents) (own : Z → use) (L : gset Z) (g : Z → Prop).

Abbreviation BM sb := (bmapstart sb).

(** The bitmap says which blocks are used; [own] says for what. *)
Record finv g sb v own : Prop := {
  fi_size : 1 < sb_size sb ≤ FSSIZE;
  fi_bm : 0 < BM sb < sb_size sb ∧ own (BM sb) = Meta ∧ g (BM sb) ∧ BM sb ≠ 1;
  fi_inode inum : 0 < inum < ninodes sb →
    0 < IBLOCK inum sb < sb_size sb ∧ own (IBLOCK inum sb) = Meta ∧ g (IBLOCK inum sb) ∧ IBLOCK inum sb ≠ BM sb ∧ IBLOCK inum sb ≠ 1;
  fi_sb : own 0 = Meta ∧ own 1 = Meta ∧ ∃ x, v 1 = Some x ∧ sb_of x = sb;
  fi_bit n x : 0 ≤ n < sb_size sb → v (BM sb) = Some x → bit_set x n = bool_decide (own n ≠ Unused);
  fi_home n : 0 ≤ n < sb_size sb → own n ≠ Meta → g n;
  fi_out n : ¬ (0 ≤ n < sb_size sb) → own n = Meta
}.

Lemma BBLOCK_eq g sb v own n : finv g sb v own → 0 ≤ n < sb_size sb → BBLOCK n sb = BM sb ∧ n mod BPB = n.
Proof. intros HI Hn. pose proof (fi_size _ _ _ _ HI). unfold BBLOCK, BPB, FSSIZE in *. rewrite Z.div_small, Z.mod_small by lia. lia. Qed.

(** Blocks other than the bitmap and the superblock may change. *)
Lemma finv_upd g sb v own n f : finv g sb v own → n ≠ BM sb → n ≠ 1 → finv g sb (upd n f v) own.
Proof.
  intros [H1 H2 H3 (H4 & H5 & H6) H7 H8 H9] Hb H1n. constructor; [done|done|done| |intros k x; rewrite upd_ne by done; apply H7|done|done].
  split; [done|]. split; [done|]. by rewrite upd_ne by done.
Qed.
Lemma finv_bit g sb v own n u (f : list Z → list Z) :
  finv g sb v own → 0 ≤ n < sb_size sb → own n ≠ Meta → u ≠ Meta →
  (∀ x k, v (BM sb) = Some x → 0 ≤ k < sb_size sb → bit_set (f x) k = if decide (k = n) then bool_decide (u ≠ Unused) else bit_set x k) →
  finv g sb (upd (BM sb) f v) (<[n := u]> own).
Proof.
  intros [H1 (H2 & H2m & H2g & H21) H3 (H4 & H5 & H6) H7 H8 H9] Hn Hu Hu' Hf.
  assert (∀ k, own k = Meta → <[n := u]> own k = Meta) as Hm by (intros k Hk; rewrite fn_lookup_insert_ne by congruence; done).
  constructor; [done|by auto| | | | |].
  - intros inum Hi. destruct (H3 inum Hi) as (A1 & A2 & A3). split; [done|]. split; [by apply Hm|done].
  - split; [by apply Hm|]. split; [by apply Hm|]. by rewrite upd_ne.
  - intros k x Hk Hx. unfold upd in Hx. rewrite decide_True in Hx by done. destruct (v (BM sb)) as [y|] eqn:Hy; [|done]. injection Hx as <-.
    rewrite (Hf y k eq_refl Hk). destruct (decide (k = n)) as [->|Hd]; [by rewrite fn_lookup_insert|]. rewrite fn_lookup_insert_ne by done. by apply H7.
  - intros k Hk Hkm. apply H8; [done|]. intros E. by rewrite Hm in Hkm.
  - intros k Hk. apply Hm. by apply H9.
Qed.

Section balloc.
Context {B : Type} `{BufferLaws B}.
Implicit Types (b : B).

Lemma wp_block_read g v L b sb ic n Q :
  tx g v L b → home g n → (∀ b' x, v n = Some x → length x = BLOCK → tx g v L b' → Q x (Fsys b' sb ic)) → wp (block_read n) Q (Fsys b sb ic).
Proof.
  intros Ht Hn HQ. destruct (tx_block _ _ _ _ _ Ht Hn) as (x & Hx & Hl). apply wp_zoom. eapply wp_mono; [by apply (tx_read g v L b n)|].
  intros y b' [Hy Ht']. rewrite Hx in Hy. injection Hy as <-. by apply HQ.
Qed.
Lemma wp_block_update g v L b sb ic n f Q :
  tx g v L b → g n → Z.of_nat (size ({[n]} ∪ L)) ≤ MAXOPBLOCKS → (∀ x, length x = BLOCK → length (f x) = BLOCK) →
  (∀ b', tx g (upd n f v) ({[n]} ∪ L) b' → Q tt (Fsys b' sb ic)) → wp (block_update n f) Q (Fsys b sb ic).
Proof.
  intros Ht Hn Hs Hf HQ. apply wp_zoom. eapply wp_mono; [by apply (tx_update g v L b n f)|]. intros [] b' Ht'. by apply HQ.
Qed.

Lemma length_set_bit bi x : length (set_bit bi x) = length x.
Proof using Type. apply length_insert. Qed.

(** The contents after balloc gave [n]. *)
Definition alloc_view sb n v : contents := upd n (λ _, replicate BLOCK 0) (upd (BM sb) (set_bit n) v).

Lemma finv_alloc g sb v own n u :
  finv g sb v own → (∃ x, v (BM sb) = Some x ∧ length x = BLOCK) → 0 ≤ n < sb_size sb → own n = Unused → u ≠ Unused → u ≠ Meta → finv g sb (alloc_view sb n v) (<[n := u]> own).
Proof using Type.
  intros HI (x & Hx & Hl) Hn Hu H1 H2. pose proof HI as [Hsz (Hb & Hbm & _) _ (_ & H1m & _) _ _ _]. apply finv_upd; [|congruence|congruence].
  apply finv_bit; [done|done|congruence|done|]. intros y k Hy Hk. rewrite Hx in Hy. injection Hy as <-. unfold FSSIZE, BLOCK in *.
  rewrite set_bit_spec by (unfold lenZ; lia). by rewrite bool_decide_eq_true_2.
Qed.

(** The kernel stops for want of a block, with the operation still open. *)
Definition on_full g sb (R : failure → fsys B → Prop) : Prop :=
  ∀ b v L ic, tx g v L b → R (Panic "balloc: out of blocks") (Fsys b sb ic).

Lemma wpx_balloc g v L b sb ic own Q R :
  tx g v L b → finv g sb v own → (∀ n, Z.of_nat (size ({[n; BM sb]} ∪ L)) ≤ MAXOPBLOCKS) →
  (∀ n b', 0 ≤ n < sb_size sb → own n = Unused → tx g (alloc_view sb n v) ({[n; BM sb]} ∪ L) b' → Q n (Fsys b' sb ic)) →
  ((∀ n, own n ≠ Unused) → on_full g sb R) →
  wpx balloc Q R (Fsys b sb ic).
Proof.
  intros Ht HI Hs HQ HR. pose proof HI as [Hsz (Hbm & Hbmm & Hbmg & _) _ _ Hbit Hhome Hout]. unfold balloc. apply wpx_bind_wp, wp_gets. cbn [fsb].
  replace (Z.to_nat (sb_size sb / BPB + 1)) with 1%nat by (unfold BPB, FSSIZE in *; rewrite Z.div_small by lia; done).
  cbn [balloc_loop]. apply wpx_bind_wp, wp_gets. cbn [fsb]. rewrite (proj2 (Z.ltb_lt _ _)) by lia. apply wpx_bind_wp.
  destruct (BBLOCK_eq g sb v own 0 HI ltac:(lia)) as [-> _]. apply (wp_block_read g v L); [done|left; apply (fi_bm _ _ _ _ HI)|]. intros b1 x Hx Hl Ht1.
  pose proof (balloc_scan_spec x 0 (sb_size sb) (Z.to_nat BPB) 0) as Hscan. destruct (balloc_scan _ _ _ _ _) as [n|].
  - destruct Hscan as (Hn1 & Hn2 & Hn3). rewrite (Hbit n x) in Hn3 by (done || lia). apply bool_decide_eq_false in Hn3. assert (own n = Unused) as Hu by (by apply dec_stable).
    assert (g n) as Hgn by (apply Hhome; [lia|congruence]). assert (BM sb ≠ n) as Hne by congruence.
    specialize (HQ n). specialize (Hs n). replace ({[n; BM sb]} ∪ L) with ({[n]} ∪ ({[BM sb]} ∪ L)) in * by set_solver.
    apply wpx_bind_wp, (wp_block_update g v L); [done|done| |intros y Hy; by rewrite length_set_bit|].
    { etrans; [|exact Hs]. apply inj_le, subseteq_size. set_solver. }
    intros b2 Ht2. rewrite Z.add_0_l. apply wpx_bind_wp, (wp_block_update g (upd (BM sb) (set_bit n) v) ({[BM sb]} ∪ L)); [done|done|done|by intros; apply length_replicate|].
    intros b3 Ht3. apply wpx_ret. apply HQ; [lia|done|done].
  - cbn [balloc_loop]. apply wpx_bind_wp, wp_gets. cbn [fsb]. rewrite (proj2 (Z.ltb_ge _ _)) by (unfold BPB, FSSIZE in *; lia).
    apply wpx_fail. eapply HR; [|exact Ht1]. intros n Hu. destruct (decide (0 ≤ n < sb_size sb)) as [Hn|Hn]; [|by rewrite Hout in Hu].
    specialize (Hscan n ltac:(unfold BPB, FSSIZE in *; lia) ltac:(lia)). rewrite (Hbit n x) in Hscan by done. by apply bool_decide_eq_true in Hscan.
Qed.

Definition free_view sb n v : contents := upd (BM sb) (clear_bit n) v.

Lemma finv_free g sb v own n :
  finv g sb v own → (∃ x, v (BM sb) = Some x ∧ length x = BLOCK) → 0 ≤ n < sb_size sb → own n ≠ Meta → finv g sb (free_view sb n v) (<[n := Unused]> own).
Proof using Type.
  intros HI (x & Hx & Hl) Hn Hu. pose proof (fi_size _ _ _ _ HI). apply finv_bit; [done|done|done|done|]. intros y k Hy Hk. rewrite Hx in Hy. injection Hy as <-. unfold FSSIZE, BLOCK in *.
  rewrite clear_bit_spec by (unfold lenZ; lia). by rewrite bool_decide_eq_false_2 by tauto.
Qed.

Lemma wp_bfree g v L b sb ic own n Q :
  tx g v L b → finv g sb v own → 0 ≤ n < sb_size sb → own n ≠ Unused → Z.of_nat (size ({[BM sb]} ∪ L)) ≤ MAXOPBLOCKS →
  (∀ b', tx g (free_view sb n v) ({[BM sb]} ∪ L) b' → Q tt (Fsys b' sb ic)) → wp (bfree n) Q (Fsys b sb ic).
Proof.
  intros Ht HI Hn Hu Hs HQ. pose proof HI as [Hsz (Hbm & Hbmm & Hbmg & _) _ (_ & _ & y & Hy & Hsb) Hbit _ _]. unfold bfree, fs_readsb. apply wp_bind, wp_bind.
  apply (wp_block_read g v L); [done|by right|]. intros b1 y' Hy' _ Ht1. rewrite Hy in Hy'. injection Hy' as <-. apply wp_modify, wp_bind, wp_gets. unfold set_fsb. cbn [fbuf fsb icache]. rewrite Hsb.
  destruct (BBLOCK_eq g sb v own n HI Hn) as [-> ->]. apply wp_bind, (wp_block_read g v L); [done|left; apply (fi_bm _ _ _ _ HI)|]. intros b2 x Hx Hl Ht2.
  apply wp_bind, wp_panic_unless; [rewrite (Hbit n x) by done; by apply bool_decide_eq_true|].
  apply (wp_block_update g v L); [done|done|done|intros z Hz; unfold clear_bit; by rewrite length_insert|]. done.
Qed.
End balloc.
