(* ===== verification/FsMap.v ===== *)
(** * The blocks of a file (bmap of fs.c) *)

From stdpp Require Import functions.
From S2P Require Import Prelude Bytes Xstring Bio Log Fs FsInv.

Implicit Types (sb : superblock) (ic : list inode) (v : contents) (own : Z → use) (L : gset Z) (g : Z → Prop) (addrs : list Z).

(** The address of block [i] of a file; 0 where there is none. *)
Definition ind_of addrs : Z := nth NDIRECT addrs 0.
Definition entry_of v (ind : Z) (j : nat) : Z := match v ind with Some x => get_u32 (4 * j) x | None => 0 end.
Definition baddr v addrs (i : nat) : Z :=
  if (i <? NDIRECT)%nat then nth i addrs 0 else if ind_of addrs =? 0 then 0 else entry_of v (ind_of addrs) (i - NDIRECT).

(** The file [inum] has the blocks 0 .. nb-1, and no others. *)
Record ifile v own (inum : Z) addrs (nb : nat) : Prop := {
  if_len : length addrs = S NDIRECT;
  if_max : (nb ≤ NDIRECT + NINDIRECT)%nat;
  if_data i : (i < nb)%nat → own (baddr v addrs i) = Data inum i;
  if_zero i : (nb ≤ i < NDIRECT + NINDIRECT)%nat → baddr v addrs i = 0;
  if_ind : (ind_of addrs = 0 ∧ (nb ≤ NDIRECT)%nat) ∨ own (ind_of addrs) = Indir inum;
  if_owned n i : own n = Data inum i → (i < nb)%nat ∧ baddr v addrs i = n;
  if_owned_ind n : own n = Indir inum → n = ind_of addrs
}.

(** New blocks for [inum], nothing else. *)
Definition belongs (inum : Z) (u : use) : Prop := match u with Data k _ | Indir k => k = inum | _ => False end.
Record gives (inum : Z) own own' : Prop := {
  gv_old n : own n ≠ Unused → own' n = own n;
  gv_new n : own n = Unused → own' n = Unused ∨ belongs inum (own' n)
}.
(** Of the blocks in use only the bitmap and those in [P] changed. *)
Record frame sb (P : Z → Prop) (inum : Z) v own v' own' : Prop := {
  fr_own : gives inum own own';
  fr_view n : own n ≠ Unused → n ≠ BM sb → ¬ P n → v' n = v n
}.

Lemma gives_refl inum own : gives inum own own.
Proof. constructor; [done|]. by left. Qed.
Lemma gives_trans inum own own1 own2 : gives inum own own1 → gives inum own1 own2 → gives inum own own2.
Proof.
  intros [A1 A2] [B1 B2]. constructor.
  - intros n Hn. rewrite B1; [by apply A1|]. by rewrite A1.
  - intros n Hn. destruct (A2 n Hn) as [E|E]; [by apply B2|right]. rewrite B1; [done|]. intros E'. by rewrite E' in E.
Qed.
Lemma gives_insert inum own n u : own n = Unused → belongs inum u → gives inum own (<[n := u]> own).
Proof.
  intros Hn Hu. constructor; intros k Hk.
  - rewrite fn_lookup_insert_ne; [done|]. congruence.
  - destruct (decide (k = n)) as [->|Hne]; [right; by rewrite fn_lookup_insert|left]. by rewrite fn_lookup_insert_ne.
Qed.
Lemma frame_trans sb (P P1 : Z → Prop) inum v own v1 own1 v2 own2 :
  frame sb P inum v own v1 own1 → frame sb P1 inum v1 own1 v2 own2 → (∀ n, own n ≠ Unused → P1 n → P n) → frame sb P inum v own v2 own2.
Proof.
  intros [A1 A2] [B1 B2] HP. constructor; [by eapply gives_trans|]. intros n Hn Hb Hp. rewrite B2; [by apply A2| |done|auto]. by rewrite (gv_old _ _ _ A1).
Qed.
Lemma frame_refl sb P inum v own : frame sb P inum v own v own.
Proof. constructor; [apply gives_refl|done]. Qed.
Lemma frame_mono sb (P P' : Z → Prop) inum v own v' own' : (∀ n, P n → P' n) → frame sb P inum v own v' own' → frame sb P' inum v own v' own'.
Proof. intros HP [A1 A2]. constructor; [done|]. intros n Hn Hb Hp. apply A2; auto. Qed.

(** Another file keeps its blocks. *)
Lemma ifile_frame sb P inum v own v' own' inum' addrs nb :
  ifile v own inum' addrs nb → frame sb P inum v own v' own' → inum' ≠ inum → own (BM sb) = Meta → (∀ n, own n = Indir inum' → ¬ P n) →
  ifile v' own' inum' addrs nb ∧ ∀ i, baddr v' addrs i = baddr v addrs i.
Proof.
  intros [I1 I2 I3 I4 I5 I6 I7] [[G1 G2] Fv] Hne Hbm HP.
  assert (∀ i, baddr v' addrs i = baddr v addrs i) as Hb.
  { intros i. unfold baddr. destruct (i <? NDIRECT)%nat; [done|]. destruct (Z.eqb_spec (ind_of addrs) 0) as [E|Hz]; [done|]. destruct I5 as [[? _]|Hi]; [done|].
    unfold entry_of. rewrite Fv; [done|by rewrite Hi|congruence|by apply HP]. }
  assert (∀ n u, own' n = u → belongs inum' u → own n = u) as Hback.
  { intros n u Hu Hbu. destruct (decide (own n = Unused)) as [E|E]; [|by rewrite <- (G1 n E)]. destruct (G2 n E) as [E'|E']; [rewrite E' in Hu; by subst u|]. rewrite Hu in E'. by destruct u; cbn in *; subst. }
  split; [|done]. constructor; [done|done| | | | |].
  - intros i Hi. rewrite Hb. specialize (I3 i Hi). by rewrite G1 by (by rewrite I3).
  - intros i Hi. rewrite Hb. by apply I4.
  - destruct I5 as [?|Hi]; [by left|right]. by rewrite G1 by (by rewrite Hi).
  - intros n i Hn. rewrite Hb. apply I6. by apply (Hback n (Data inum' i)).
  - intros n Hn. apply I7. by apply (Hback n (Indir inum')).
Qed.

Lemma get_u32_zeros k : get_u32 k (replicate BLOCK 0) = 0.
Proof.
  unfold get_u32, get. rewrite drop_replicate, take_replicate. generalize (4 `min` (BLOCK - k))%nat. intros n. induction n as [|n IH]; [done|]. cbn [replicate le_dec]. by rewrite IH.
Qed.

(** One more block [n] at the end of the file. *)
Lemma ifile_step v own inum addrs nb v' addrs' n :
  ifile v own inum addrs nb → own n = Unused → (nb < NDIRECT + NINDIRECT)%nat → length addrs' = S NDIRECT → ind_of addrs' = ind_of addrs →
  ((nb < NDIRECT)%nat ∨ ind_of addrs ≠ 0) → (∀ i, i ≠ nb → baddr v' addrs' i = baddr v addrs i) → baddr v' addrs' nb = n →
  ifile v' (<[n := Data inum nb]> own) inum addrs' (S nb).
Proof.
  intros [I1 I2 I3 I4 I5 I6 I7] Hn Hnb Hl Hind Hroom Hb Hbn.
  assert (∀ k u, own k = u → u ≠ Unused → <[n := Data inum nb]> own k = u) as Hk by (intros k u Hu Hne; rewrite fn_lookup_insert_ne by congruence; done).
  constructor; [done|lia| | | | |].
  - intros i Hi. destruct (decide (i = nb)) as [->|Hne]; [by rewrite Hbn, fn_lookup_insert|]. rewrite Hb by done. apply Hk; [apply I3; lia|done].
  - intros i Hi. rewrite Hb by lia. apply I4. lia.
  - rewrite Hind. destruct I5 as [[E Hle]|E]; [left|right; by apply Hk]. split; [done|]. destruct Hroom; [lia|done].
  - intros k i Hki. destruct (decide (k = n)) as [->|Hne].
    + rewrite fn_lookup_insert in Hki. injection Hki as <-. split; [lia|done].
    + rewrite fn_lookup_insert_ne in Hki by done. destruct (I6 k i Hki) as [? ?]. split; [lia|]. rewrite Hb; [done|lia].
  - intros k Hki. rewrite Hind. apply I7. destruct (decide (k = n)) as [->|Hne]; [by rewrite fn_lookup_insert in Hki|by rewrite fn_lookup_insert_ne in Hki].
Qed.

Section steps.
Context (g : Z → Prop) (sb : superblock) (v : contents) (own : Z → use) (inum : Z) (addrs : list Z) (nb : nat) (n : Z).
Hypotheses (HI : finv g sb v own) (HF : ifile v own inum addrs nb) (Hn : own n = Unused).

Lemma unused_bm : n ≠ BM sb ∧ n ≠ 0 ∧ 0 ≤ n < sb_size sb.
Proof using HI Hn.
  destruct (fi_bm _ _ _ _ HI) as (_ & Hb & _), (fi_sb _ _ _ _ HI) as (H0 & _ & _). split; [congruence|]. split; [congruence|].
  destruct (decide (0 ≤ n < sb_size sb)) as [?|Hout]; [done|]. rewrite (fi_out _ _ _ _ HI n Hout) in Hn. done.
Qed.
Lemma ind_kept : own (ind_of addrs) = Indir inum → alloc_view sb n v (ind_of addrs) = v (ind_of addrs).
Proof using HI Hn.
  intros Hi. destruct (fi_bm _ _ _ _ HI) as (_ & Hb & _). unfold alloc_view. rewrite !upd_ne; [done|congruence|congruence].
Qed.
Lemma ifile_direct :
  (nb < NDIRECT)%nat → ifile (alloc_view sb n v) (<[n := Data inum nb]> own) inum (<[nb := n]> addrs) (S nb) ∧
  baddr (alloc_view sb n v) (<[nb := n]> addrs) nb = n.
Proof using HI HF Hn.
  intros Hlt. pose proof (if_len _ _ _ _ _ HF) as Hl. assert (ind_of (<[nb := n]> addrs) = ind_of addrs) as Hind.
  { unfold ind_of. rewrite !nth_lookup, list_lookup_insert_ne by lia. done. }
  assert (baddr (alloc_view sb n v) (<[nb := n]> addrs) nb = n) as Hbn.
  { unfold baddr. rewrite (proj2 (Nat.ltb_lt _ _)) by done. rewrite nth_lookup, list_lookup_insert_eq by lia. done. }
  split; [|done]. apply (ifile_step v own inum addrs nb); [done|done|lia|by rewrite length_insert|done|by left| |done].
  intros i Hi. unfold baddr. rewrite Hind. destruct (i <? NDIRECT)%nat; [by rewrite !nth_lookup, list_lookup_insert_ne by done|].
  destruct (Z.eqb_spec (ind_of addrs) 0); [done|]. destruct (if_ind _ _ _ _ _ HF) as [[? _]|Hio]; [done|]. unfold entry_of. by rewrite ind_kept.
Qed.
Lemma ifile_new_ind :
  ind_of addrs = 0 → ifile (alloc_view sb n v) (<[n := Indir inum]> own) inum (<[NDIRECT := n]> addrs) nb ∧ ind_of (<[NDIRECT := n]> addrs) = n.
Proof using HI HF Hn.
  intros H0. destruct unused_bm as (Hb & Hz & Hr). destruct HF as [I1 I2 I3 I4 I5 I6 I7]. destruct I5 as [[_ Hle]|Hbad].
  2: { rewrite H0 in Hbad. destruct (fi_sb _ _ _ _ HI) as (E & _). congruence. }
  assert (ind_of (<[NDIRECT := n]> addrs) = n) as Hind by (unfold ind_of; rewrite nth_lookup, list_lookup_insert_eq by lia; done).
  assert (∀ i, baddr (alloc_view sb n v) (<[NDIRECT := n]> addrs) i = baddr v addrs i) as Hba.
  { intros i. unfold baddr. rewrite Hind, H0. destruct (Nat.ltb_spec i NDIRECT); [by rewrite !nth_lookup, list_lookup_insert_ne by lia|].
    rewrite (proj2 (Z.eqb_neq n 0)) by done. change (0 =? 0) with true. cbv iota. unfold entry_of, alloc_view. unfold upd at 1. rewrite decide_True by done. rewrite upd_ne by done.
    destruct (v n); [|done]. cbn [fmap option_fmap option_map]. apply get_u32_zeros. }
  assert (∀ k u, own k = u → u ≠ Unused → <[n := Indir inum]> own k = u) as Hk by (intros k u Hu Hne; rewrite fn_lookup_insert_ne by congruence; done).
  split; [|done]. constructor; [by rewrite length_insert|done| | | | |].
  - intros i Hi. rewrite Hba. apply Hk; [by apply I3|done].
  - intros i Hi. rewrite Hba. by apply I4.
  - right. rewrite Hind. by rewrite fn_lookup_insert.
  - intros k i Hki. rewrite Hba. apply I6. destruct (decide (k = n)) as [->|Hne]; [by rewrite fn_lookup_insert in Hki|by rewrite fn_lookup_insert_ne in Hki].
  - intros k Hki. rewrite Hind. destruct (decide (k = n)) as [->|Hne]; [done|]. rewrite fn_lookup_insert_ne in Hki by done. specialize (I7 k Hki). rewrite H0 in I7. subst k.
    destruct (fi_sb _ _ _ _ HI) as (E & _). congruence.
Qed.
Lemma ifile_entry x :
  own (ind_of addrs) = Indir inum → v (ind_of addrs) = Some x → length x = BLOCK → (NDIRECT ≤ nb < NDIRECT + NINDIRECT)%nat →
  let v' := upd (ind_of addrs) (put_u32 (4 * (nb - NDIRECT)) n) (alloc_view sb n v) in
  ifile v' (<[n := Data inum nb]> own) inum addrs (S nb) ∧ baddr v' addrs nb = n.
Proof using HI HF Hn.
  intros Hi Hx Hl Hnb v'. destruct unused_bm as (Hb & Hz & Hr). pose proof (fi_size _ _ _ _ HI) as Hsz.
  assert (ind_of addrs ≠ 0) as Hi0 by (intros E; rewrite E in Hi; destruct (fi_sb _ _ _ _ HI) as (E' & _); congruence).
  assert (v' (ind_of addrs) = Some (put_u32 (4 * (nb - NDIRECT)) n x)) as Hv' by (apply upd_eq; by rewrite ind_kept).
  unfold NDIRECT, NINDIRECT, BLOCK in *.
  assert (baddr v' addrs nb = n) as Hbn.
  { unfold baddr, NDIRECT. rewrite (proj2 (Nat.ltb_ge _ _)) by lia. rewrite (proj2 (Z.eqb_neq _ 0)) by done. unfold entry_of. rewrite Hv', get_put_u32 by lia. apply u32_small. unfold FSSIZE in *. lia. }
  split; [|done]. apply (ifile_step v own inum addrs nb); [done|done|unfold NDIRECT, NINDIRECT; lia|apply HF|done|by right| |done].
  intros i Hii. unfold baddr, NDIRECT. destruct (Nat.ltb_spec i 12); [done|]. rewrite (proj2 (Z.eqb_neq _ 0)) by done. unfold entry_of. rewrite Hv', Hx. unfold put_u32.
  destruct (decide (i < 140)%nat) as [Hlt|Hge]; [apply get_u32_put_ne; rewrite ?length_le_enc; lia|].
  unfold get_u32. f_equal. apply list_eq. intros k. rewrite !lookup_get. case_decide; [|done]. rewrite lookup_put by (rewrite length_le_enc; lia). rewrite length_le_enc. rewrite decide_False by lia. done.
Qed.
End steps.

(** ** bmap *)

Section bmap.
Context {B : Type} `{BufferLaws B}.
Implicit Types (b : B) (i : inode).

Lemma wp_get_i b sb ic ip i Q : ic !! ip = Some i → Q i (Fsys b sb ic) → wp (get_i ip) Q (Fsys b sb ic).
Proof using Type. intros Hi HQ. unfold get_i. apply wp_bind. change (wp getS ?K ?s) with (K s s). cbv beta. cbn [icache]. rewrite Hi. by apply wp_ret. Qed.
Lemma wp_upd_i b sb ic ip i f Q : ic !! ip = Some i → Q tt (Fsys b sb (<[ip := f i]> ic)) → wp (upd_i ip f) Q (Fsys b sb ic).
Proof using Type. intros Hi HQ. apply wp_bind, (wp_get_i _ _ _ _ i); [done|]. by apply wp_modify. Qed.

Lemma owned_range g sb v own n u : finv g sb v own → own n = u → u ≠ Meta → 0 ≤ n < sb_size sb ∧ home g n ∧ n ≠ 0.
Proof using Type.
  intros HI Hu Hm. destruct (fi_sb _ _ _ _ HI) as (E0 & _). pose proof (fi_size _ _ _ _ HI). destruct (decide (0 ≤ n < sb_size sb)) as [?|Hout]; [|rewrite (fi_out _ _ _ _ HI n Hout) in Hu; congruence].
  split; [done|]. split; [left; apply (fi_home _ _ _ _ HI); [done|congruence]|]. intros ->. congruence.
Qed.

Lemma nth_getZ (l : list Z) (k : nat) : (k < length l)%nat → getZ l (Z.of_nat k) = Some (nth k l 0).
Proof using Type. intros Hk. rewrite getZ_nat, nth_lookup. destruct (lookup_lt_is_Some_2 l k Hk) as [x ->]. done. Qed.
Lemma nth_lookup_Some (l : list Z) (k : nat) : (k < length l)%nat → l !! k = Some (nth k l 0).
Proof using Type. intros Hk. rewrite nth_lookup. by destruct (lookup_lt_is_Some_2 l k Hk) as [x ->]. Qed.

Lemma wp_bmap_old g v L b sb ic own ip i nb bn (Q : Z → fsys B → Prop) :
  tx g v L b → finv g sb v own → ic !! ip = Some i → ifile v own (i_inum i) (i_addrs i) nb → (bn < nb)%nat →
  (∀ b', tx g v L b' → Q (baddr v (i_addrs i) bn) (Fsys b' sb ic)) → wp (bmap ip (Z.of_nat bn)) Q (Fsys b sb ic).
Proof.
  intros Ht HI Hi HF Hbn HQ. pose proof (if_data _ _ _ _ _ HF bn Hbn) as Hd. destruct (owned_range _ _ _ _ _ _ HI Hd ltac:(done)) as (_ & _ & Hz). pose proof (if_len _ _ _ _ _ HF) as Hl.
  pose proof (if_max _ _ _ _ _ HF) as Hm. unfold bmap. apply wp_bind, (wp_get_i _ _ _ _ i); [done|]. unfold baddr in Hz, HQ. destruct (Nat.ltb_spec bn NDIRECT) as [Hlt|Hge].
  - rewrite (proj2 (Z.ltb_lt _ _)) by lia. apply wp_bind, wp_of_option with (nth bn (i_addrs i) 0); [apply nth_getZ; lia|]. rewrite (proj2 (Z.eqb_neq _ 0)) by done. by apply wp_ret, HQ.
  - rewrite (proj2 (Z.ltb_ge _ _)) by lia. rewrite (proj2 (Z.ltb_lt _ _)) by lia. destruct (Z.eqb_spec (ind_of (i_addrs i)) 0) as [E|Hne]; [done|].
    destruct (if_ind _ _ _ _ _ HF) as [[? _]|Hio]; [done|]. destruct (owned_range _ _ _ _ _ _ HI Hio ltac:(done)) as (_ & Hr & _).
    apply wp_bind, wp_of_option with (ind_of (i_addrs i)); [apply nth_lookup_Some; lia|]. rewrite (proj2 (Z.eqb_neq _ 0)) by done.
    apply wp_bind, wp_ret, wp_bind, (wp_block_read g v L); [done|done|]. intros b1 x Hx Hlx Ht1. unfold entry_of in Hz, HQ. rewrite Hx in Hz, HQ.
    replace (Z.to_nat (Z.of_nat bn - Z.of_nat NDIRECT)) with (bn - NDIRECT)%nat by lia. rewrite (proj2 (Z.eqb_neq _ 0)) by done. by apply wp_ret, HQ.
Qed.

Lemma union3 (a c d : Z) L : {[a; c; d]} ∪ L = {[a]} ∪ ({[c; d]} ∪ L).
Proof using Type. set_solver. Qed.
Lemma union3_sub (a c d : Z) L : {[c; d]} ∪ L ⊆ {[a; c; d]} ∪ L.
Proof using Type. set_solver. Qed.

(** The end of bmap with an indirect block. *)
Lemma wpx_bmap_entry g v L b sb ic own inum addrs nb ind Q R :
  ind_of addrs = ind → tx g v L b → finv g sb v own → ifile v own inum addrs nb → own (ind_of addrs) = Indir inum → (NDIRECT ≤ nb < NDIRECT + NINDIRECT)%nat →
  (∀ n, Z.of_nat (size ({[ind_of addrs; n; BM sb]} ∪ L)) ≤ MAXOPBLOCKS) →
  (∀ n b' v', own n = Unused → tx g v' ({[ind_of addrs; n; BM sb]} ∪ L) b' → finv g sb v' (<[n := Data inum nb]> own) →
     ifile v' (<[n := Data inum nb]> own) inum addrs (S nb) → baddr v' addrs nb = n → v' n = Some (replicate BLOCK 0) →
     frame sb (λ k, own k = Indir inum) inum v own v' (<[n := Data inum nb]> own) → Q n (Fsys b' sb ic)) →
  ((∀ n, own n ≠ Unused) → on_full g sb R) →
  wpx (x ← block_read ind;
       let addr := get_u32 (4 * (nb - NDIRECT)) x in
       if addr =? 0 then addr ← balloc; block_update ind (put_u32 (4 * (nb - NDIRECT)) addr);; mret addr else mret addr) Q R (Fsys b sb ic).
Proof.
  intros <- Ht HI HF Hio Hnb Hroom HQ HR. destruct (owned_range _ _ _ _ _ _ HI Hio ltac:(done)) as (Hrs & Hr & Hi0).
  apply wpx_bind_wp, (wp_block_read g v L); [done|done|]. intros b1 x Hx Hlx Ht1. cbv zeta.
  assert (get_u32 (4 * (nb - NDIRECT)) x = 0) as ->.
  { pose proof (if_zero _ _ _ _ _ HF nb ltac:(lia)) as Hz. unfold baddr in Hz. rewrite (proj2 (Nat.ltb_ge _ _)) in Hz by lia. rewrite (proj2 (Z.eqb_neq _ 0)) in Hz by done. unfold entry_of in Hz. by rewrite Hx in Hz. }
  change (0 =? 0) with true. cbv iota.
  apply wpx_bind, (wpx_balloc g v L b1 sb ic own); [done|done| | |done].
  { intros n. etrans; [|exact (Hroom n)]. apply inj_le, subseteq_size, union3_sub. }
  intros n b2 Hn Hu Ht2. destruct (unused_bm g sb v own n HI Hu) as (Hnb2 & Hn0 & _).
  assert (g (ind_of addrs)) as Hgi by (apply (fi_home _ _ _ _ HI); [done|congruence]). destruct (fi_bm _ _ _ _ HI) as (Hbr & Hbm & _).
  pose proof (fi_size _ _ _ _ HI) as Hsz. destruct (tx_block _ _ _ _ (BM sb) Ht ltac:(left; apply (fi_bm _ _ _ _ HI))) as (y & Hy & Hly).
  apply wpx_bind_wp, (wp_block_update g (alloc_view sb n v) ({[n; BM sb]} ∪ L)); [done|done| | |].
  { specialize (Hroom n). by rewrite union3 in Hroom. }
  { intros z Hz. unfold BLOCK, NDIRECT, NINDIRECT in *. rewrite length_put_u32 by lia. done. }
  intros b3 Ht3. destruct (ifile_entry g sb v own inum addrs nb n HI HF Hu x Hio Hx Hlx Hnb) as [HF' Hba]. apply wpx_ret. eapply HQ; [done| | |exact HF'|exact Hba| |].
  - by rewrite union3.
  - apply finv_upd; [|congruence|destruct (fi_sb _ _ _ _ HI) as (_ & E1 & _); congruence]. apply finv_alloc; [done|by exists y|lia|done|done|done].
  - rewrite upd_ne by congruence. unfold alloc_view. unfold upd at 1. rewrite decide_True by done. rewrite upd_ne by done. destruct (tx_block _ _ _ _ n Ht ltac:(left; apply (fi_home _ _ _ _ HI); [lia|congruence])) as (z & -> & _). done.
  - constructor; [by apply gives_insert|]. intros k Hk Hkb Hkp. rewrite upd_ne by congruence. unfold alloc_view. rewrite !upd_ne; [done|done|congruence].
Qed.

(** The blocks that bmap logs: the bitmap, the new block, and the indirect block
    if it has to be changed. *)
Definition new_logged sb L addrs addrs' n L' : Prop :=
  L ⊆ L' ∧
  ((ind_of addrs' = ind_of addrs ∧ L' ⊆ {[n; BM sb]} ∪ L) ∨
   (ind_of addrs ≠ 0 → ind_of addrs' = ind_of addrs) ∧ ind_of addrs' ≠ 0 ∧ ind_of addrs' ∈ L' ∧ L' ⊆ {[ind_of addrs'; n; BM sb]} ∪ L).

(** bmap past the last block: it allocates one, and the indirect block before
    the first that needs it. *)
Lemma wpx_bmap_new g v L b sb ic own ip i nb Q R :
  tx g v L b → finv g sb v own → ic !! ip = Some i → ifile v own (i_inum i) (i_addrs i) nb → (nb < NDIRECT + NINDIRECT)%nat →
  (∀ n m, ind_of (i_addrs i) = 0 ∨ m = ind_of (i_addrs i) → Z.of_nat (size ({[m; n; BM sb]} ∪ L)) ≤ MAXOPBLOCKS) →
  (∀ n b' v' own' addrs' L',
     tx g v' L' b' → new_logged sb L (i_addrs i) addrs' n L' → n ∈ L' → finv g sb v' own' →
     ifile v' own' (i_inum i) addrs' (S nb) → baddr v' addrs' nb = n → v' n = Some (replicate BLOCK 0) →
     frame sb (λ k, own k = Indir (i_inum i)) (i_inum i) v own v' own' → (∀ j, (j < nb)%nat → baddr v' addrs' j = baddr v (i_addrs i) j) →
     Q n (Fsys b' sb (<[ip := set_iaddrs addrs' i]> ic))) →
  ((∃ own', gives (i_inum i) own own' ∧ ∀ n, own' n ≠ Unused) → on_full g sb R) →
  wpx (bmap ip (Z.of_nat nb)) Q R (Fsys b sb ic).
Proof.
  intros Ht HI Hi HF Hnb Hroom HQ HR. pose proof (if_len _ _ _ _ _ HF) as Hl. assert (set_iaddrs (i_addrs i) i = i) as Hsame by (by destruct i).
  pose proof (fi_size _ _ _ _ HI) as Hsz. destruct (fi_bm _ _ _ _ HI) as (Hbr & Hbm & _). destruct (tx_block _ _ _ _ (BM sb) Ht ltac:(left; apply (fi_bm _ _ _ _ HI))) as (y & Hy & Hly).
  unfold bmap. apply wpx_bind_wp, (wp_get_i _ _ _ _ i); [done|]. destruct (decide (nb < NDIRECT)%nat) as [Hlt|Hge].
  - rewrite (proj2 (Z.ltb_lt _ _)) by lia. apply wpx_bind_wp, wp_of_option with (nth nb (i_addrs i) 0); [apply nth_getZ; lia|].
    assert (nth nb (i_addrs i) 0 = 0) as ->.
    { pose proof (if_zero _ _ _ _ _ HF nb ltac:(lia)) as Hz. unfold baddr in Hz. by rewrite (proj2 (Nat.ltb_lt _ _)) in Hz by lia. }
    change (0 =? 0) with true. cbv iota. apply wpx_bind, (wpx_balloc g v L b sb ic own); [done|done| | |].
    { intros n. etrans; [|exact (Hroom n (ind_of (i_addrs i)) ltac:(by right))]. apply inj_le, subseteq_size, union3_sub. }
    2: { intros Hno. apply HR. exists own. split; [apply gives_refl|done]. }
    intros n b1 Hn Hu Ht1. destruct (unused_bm g sb v own n HI Hu) as (Hnb2 & Hn0 & _). apply wpx_bind_wp, (wp_upd_i _ _ _ _ i); [done|]. apply wpx_ret.
    replace (setZ (i_addrs i) (Z.of_nat nb) n) with (<[nb := n]> (i_addrs i)) by (unfold setZ; rewrite (proj2 (Z.leb_le _ _)) by lia; by rewrite Nat2Z.id).
    destruct (ifile_direct g sb v own (i_inum i) (i_addrs i) nb n HI HF Hu Hlt) as [HF' Hba].
    assert (v n ≠ None) as Hvn by (destruct (tx_block _ _ _ _ n Ht ltac:(left; apply (fi_home _ _ _ _ HI); [lia|congruence])) as (z & -> & _); done).
    eapply HQ; [exact Ht1|split; [clear; set_solver|left; split; [|done]]|clear; set_solver| |exact HF'|exact Hba| | |].
    + unfold ind_of. rewrite !nth_lookup, list_lookup_insert_ne by lia. done.
    + apply finv_alloc; [done|by exists y|lia|done|done|done].
    + unfold alloc_view. unfold upd at 1. rewrite decide_True by done. rewrite upd_ne by done. by destruct (v n).
    + constructor; [by apply gives_insert|]. intros k Hk Hkb Hkp. unfold alloc_view. rewrite !upd_ne; [done|done|congruence].
    + intros j Hj. unfold baddr. rewrite (proj2 (Nat.ltb_lt _ _)) by lia. by rewrite !nth_lookup, list_lookup_insert_ne by lia.
  - rewrite (proj2 (Z.ltb_ge _ _)), (proj2 (Z.ltb_lt _ _)) by lia. apply wpx_bind_wp, wp_of_option with (ind_of (i_addrs i)); [apply nth_lookup_Some; lia|].
    replace (Z.to_nat (Z.of_nat nb - Z.of_nat NDIRECT)) with (nb - NDIRECT)%nat by lia. destruct (if_ind _ _ _ _ _ HF) as [[Hi0 Hle]|Hio].
    + rewrite Hi0. change (0 =? 0) with true. cbv iota. apply wpx_bind, wpx_bind, (wpx_balloc g v L b sb ic own); [done|done| | |].
      { intros n. etrans; [|exact (Hroom n (ind_of (i_addrs i)) ltac:(by right))]. apply inj_le, subseteq_size, union3_sub. }
      2: { intros Hno. apply HR. exists own. split; [apply gives_refl|done]. }
      intros m b1 Hm Hu Ht1. apply wpx_bind_wp, (wp_upd_i _ _ _ _ i); [done|]. apply wpx_ret.
      destruct (ifile_new_ind g sb v own (i_inum i) (i_addrs i) nb m HI HF Hu Hi0) as [HF1 Hind]. set (addrs1 := <[NDIRECT := m]> (i_addrs i)) in *.
      destruct (unused_bm g sb v own m HI Hu) as (Hmb & Hm0 & _).
      pose proof (finv_alloc g sb v own m (Indir (i_inum i)) HI ltac:(by exists y) ltac:(lia) Hu ltac:(done) ltac:(done)) as HI1.
      apply (wpx_bmap_entry g (alloc_view sb m v) ({[m; BM sb]} ∪ L) b1 sb _ (<[m := Indir (i_inum i)]> own) (i_inum i) addrs1 nb m); [done|done|done|done|by rewrite Hind, fn_lookup_insert|lia| | |].
      * intros n. rewrite Hind. etrans; [|exact (Hroom n m ltac:(by left))]. apply inj_le, subseteq_size. clear. set_solver.
      * intros n b' v' Hn Ht' HI' HF' Hba Hz Hfr. rewrite Hind in Ht'. eapply HQ; [exact Ht'| | |exact HI'|exact HF'|exact Hba|exact Hz| |].
        -- split; [clear; set_solver|right]. rewrite Hind. split; [done|]. split; [done|]. clear. split; set_solver.
        -- clear. set_solver.
        -- eapply frame_trans; [|exact Hfr|].
           ++ constructor; [by apply gives_insert|]. intros k Hk Hkb _. unfold alloc_view. rewrite !upd_ne; [done|done|congruence].
           ++ intros k Hk Hp. cbv beta in *. rewrite fn_lookup_insert_ne in Hp by congruence. done.
        -- intros j Hj. unfold baddr. rewrite (proj2 (Nat.ltb_lt _ _)) by lia. unfold addrs1. by rewrite !nth_lookup, list_lookup_insert_ne by lia.
      * intros Hno. apply HR. exists (<[m := Indir (i_inum i)]> own). split; [by apply gives_insert|done].
    + destruct (owned_range _ _ _ _ _ _ HI Hio ltac:(done)) as (_ & _ & Hi0). rewrite (proj2 (Z.eqb_neq _ 0)) by done. apply wpx_bind, wpx_ret.
      apply (wpx_bmap_entry g v L b sb ic own (i_inum i) (i_addrs i) nb _); [done|done|done|done|done|lia|intros n; apply Hroom; by right| |].
      * intros n b' v' Hn Ht' HI' HF' Hba Hz Hfr.
        assert (ic = <[ip := set_iaddrs (i_addrs i) i]> ic) as Eic by (rewrite Hsame; by rewrite list_insert_id). rewrite Eic.
        eapply HQ; [exact Ht'| | |exact HI'|exact HF'|exact Hba|exact Hz|exact Hfr|].
        -- split; [clear; set_solver|right]. split; [done|]. split; [done|]. clear. split; set_solver.
        -- clear. set_solver.
        -- intros j Hj. pose proof (if_data _ _ _ _ _ HF j Hj) as Hdj. destruct (fr_own _ _ _ _ _ _ _ Hfr) as [Hold _].
           pose proof (if_data _ _ _ _ _ HF' j ltac:(lia)) as Hdj'. destruct (if_owned _ _ _ _ _ HF' (baddr v (i_addrs i) j) j) as [_ E]; [|exact E]. rewrite Hold; [done|]. by rewrite Hdj.
      * intros Hno. apply HR. exists own. split; [apply gives_refl|done].
Qed.
End bmap.
