(* ===== verification/FsFile.v ===== *)
(** * Reading and writing files (readi and writei of fs.c) *)

From stdpp Require Import functions.
From S2P Require Import Prelude Bytes Xstring Bio Log Fs FsInv FsMap.

Implicit Types (sb : superblock) (ic : list inode) (v : contents) (own : Z → use) (L : gset Z) (g : Z → Prop) (addrs c : list Z).

(** The bytes [c] are the contents of the file. *)
Definition file_bytes v addrs c : Prop :=
  ∀ k, (k < length c)%nat → ∃ x, v (baddr v addrs (k / BLOCK)) = Some x ∧ length x = BLOCK ∧ x !! (k mod BLOCK)%nat = c !! k.
Definition nblocks (n : nat) : nat := ((n + (BLOCK - 1)) / BLOCK)%nat.

Lemma nblocks_lt n k : (k < n)%nat → (k / BLOCK < nblocks n)%nat.
Proof. intros Hk. unfold nblocks, BLOCK. ndlia. Qed.
Lemma nblocks_le n m : (n ≤ m)%nat → (nblocks n ≤ nblocks m)%nat.
Proof. intros Hk. unfold nblocks, BLOCK. ndlia. Qed.

Lemma nblocks_ge n : (n ≤ nblocks n * BLOCK)%nat.
Proof. unfold nblocks, BLOCK. ndlia. Qed.

(** A piece of the file inside one block. *)
Lemma file_piece v addrs c off m x :
  file_bytes v addrs c → (off + m ≤ length c)%nat → (off mod BLOCK + m ≤ BLOCK)%nat → (0 < m)%nat →
  v (baddr v addrs (off / BLOCK)) = Some x → get (off mod BLOCK) m x = get off m c.
Proof.
  intros HF Hm Hb Hpos Hx. apply list_eq. intros j. rewrite !lookup_get. case_decide as Hj; [|done].
  destruct (HF (off + j)%nat ltac:(lia)) as (y & Hy & _ & Hc).
  assert ((off + j) / BLOCK = off / BLOCK)%nat as E1 by (unfold BLOCK in *; ndlia). assert ((off + j) mod BLOCK = off mod BLOCK + j)%nat as E2 by (unfold BLOCK in *; ndlia).
  rewrite E1, Hx in Hy. injection Hy as <-. by rewrite E2 in Hc.
Qed.

(** A change of one data block of the file. *)
Lemma baddr_upd v own inum addrs nb n f i j :
  ifile v own inum addrs nb → own n = Data inum j → baddr (upd n f v) addrs i = baddr v addrs i.
Proof.
  intros HF Hn. unfold baddr. destruct (i <? NDIRECT)%nat; [done|]. destruct (Z.eqb_spec (ind_of addrs) 0); [done|].
  destruct (if_ind _ _ _ _ _ HF) as [[? _]|Hi]; [done|]. unfold entry_of. by rewrite upd_ne by congruence.
Qed.
Lemma ifile_upd v own inum addrs nb n f j : ifile v own inum addrs nb → own n = Data inum j → ifile (upd n f v) own inum addrs nb.
Proof.
  intros HF Hn. assert (∀ i, baddr (upd n f v) addrs i = baddr v addrs i) as Hb by (intros i; by apply (baddr_upd v own inum addrs nb n f i j)).
  destruct HF as [I1 I2 I3 I4 I5 I6 I7]. constructor; try done.
  - intros i Hi. rewrite Hb. by apply I3.
  - intros i Hi. rewrite Hb. by apply I4.
  - intros k i Hk. rewrite Hb. by apply I6.
Qed.

Lemma file_write v own inum addrs nb c off bs x :
  ifile v own inum addrs nb → file_bytes v addrs c → (off ≤ length c)%nat → (nblocks (length c) ≤ nb)%nat → (off / BLOCK < nb)%nat → bs ≠ [] → (off mod BLOCK + length bs ≤ BLOCK)%nat →
  v (baddr v addrs (off / BLOCK)) = Some x → length x = BLOCK →
  file_bytes (upd (baddr v addrs (off / BLOCK)) (put (off mod BLOCK) bs) v) addrs (put off bs c).
Proof.
  intros HF HB Hoff Hnb Hbn Hne Hfit Hx Hlx k Hk. set (n := baddr v addrs (off / BLOCK)) in *. pose proof (if_data _ _ _ _ _ HF _ Hbn) as Hn. fold n in Hn.
  rewrite (baddr_upd v own inum addrs nb n _ _ _ HF Hn). assert (0 < length bs)%nat as Hpos by (destruct bs; cbn; [done|lia]).
  assert (length (put off bs c) = Nat.max (length c) (off + length bs)) as Hlen.
  { unfold put. rewrite !length_app, length_take, length_drop. lia. }
  assert (put off bs c !! k = if decide (off ≤ k < off + length bs)%nat then bs !! (k - off)%nat else c !! k) as ->.
  { unfold put. case_decide as Hd.
    - rewrite lookup_app_r by (rewrite length_take; lia). rewrite length_take_le by lia. by rewrite lookup_app_l by lia.
    - destruct (decide (k < off)%nat); [rewrite lookup_app_l by (rewrite length_take; lia); by rewrite lookup_take_lt|].
      rewrite lookup_app_r by (rewrite length_take; lia). rewrite length_take_le by lia. rewrite lookup_app_r by lia. rewrite lookup_drop. f_equal. lia. }
  rewrite Hlen in Hk. destruct (decide (k / BLOCK = off / BLOCK)%nat) as [E|Hneq].
  - rewrite E. fold n. exists (put (off mod BLOCK) bs x). split; [by apply upd_eq|]. split; [rewrite length_put by lia; done|]. rewrite lookup_put by lia.
    assert ((off mod BLOCK ≤ k mod BLOCK < off mod BLOCK + length bs) ↔ (off ≤ k < off + length bs))%nat as Hiff by (clear -E Hfit; unfold BLOCK in *; ndlia).
    destruct (decide (off ≤ k < off + length bs)%nat) as [Hd|Hd].
    + rewrite decide_True by tauto. f_equal. clear -E Hd. unfold BLOCK in *. ndlia.
    + rewrite decide_False by tauto. destruct (HB k) as (y & Hy & _ & Hc); [lia|]. rewrite E in Hy. fold n in Hy. rewrite Hx in Hy. injection Hy as <-. done.
  - rewrite decide_False by (clear -Hneq Hfit; unfold BLOCK in *; ndlia).
    assert (k < length c)%nat as Hkc by (clear -Hk Hneq Hfit Hoff; unfold BLOCK in *; ndlia). destruct (HB k Hkc) as (y & Hy & Hly & Hc). exists y. split; [|done].
    rewrite upd_ne; [done|]. intros En. pose proof (nblocks_lt _ _ Hkc). pose proof (if_data _ _ _ _ _ HF (k / BLOCK)%nat ltac:(lia)) as Hdk. rewrite En, Hn in Hdk. injection Hdk as Hdk. by destruct Hneq.
Qed.

Lemma put_put_next {A} (l bs bs2 : list A) off : (off ≤ length l)%nat → put (off + length bs) bs2 (put off bs l) = put off (bs ++ bs2) l.
Proof.
  intros Ho. unfold put. rewrite length_app. rewrite take_app_ge by (rewrite length_take; lia). rewrite length_take_le by lia.
  replace (off + length bs - off)%nat with (length bs) by lia. rewrite take_app_length. rewrite <- !app_assoc. do 3 f_equal.
  rewrite drop_app_ge by (rewrite length_take; lia). rewrite length_take_le by lia. rewrite drop_app_ge by lia. rewrite drop_drop. f_equal. lia.
Qed.

(** ** The blocks that an operation logs *)

(** The blocks logged so far with the bitmap, and one for the indirect block. *)
Definition logged sb L addrs : Z := Z.of_nat (size ({[BM sb]} ∪ L)) + if decide (ind_of addrs ∈ L) then 0 else 1.

Lemma size_add1 (n : Z) (X Y : gset Z) : X ⊆ {[n]} ∪ Y → Z.of_nat (size X) ≤ Z.of_nat (size Y) + 1.
Proof.
  intros Hsub. pose proof (subseteq_size _ _ Hsub) as H1. rewrite size_union_alt in H1. rewrite size_singleton in H1.
  pose proof (subseteq_size (Y ∖ {[n]}) Y ltac:(set_solver)). lia.
Qed.
Lemma logged_old sb L addrs n : logged sb ({[n]} ∪ L) addrs ≤ logged sb L addrs + 1.
Proof.
  unfold logged. pose proof (size_add1 n ({[BM sb]} ∪ ({[n]} ∪ L)) ({[BM sb]} ∪ L) ltac:(set_solver)) as H1.
  destruct (decide (ind_of addrs ∈ {[n]} ∪ L)), (decide (ind_of addrs ∈ L)); try lia. set_solver.
Qed.
Lemma logged_new sb L addrs addrs' n L' : 0 ∉ L → new_logged sb L addrs addrs' n L' → logged sb L' addrs' ≤ logged sb L addrs + 1.
Proof.
  intros H0 [Hg [[E Hsub]|(Hind & Hi0 & Hin & Hsub)]]; unfold logged.
  - rewrite E. pose proof (size_add1 n ({[BM sb]} ∪ L') ({[BM sb]} ∪ L) ltac:(set_solver)) as H1.
    destruct (decide (ind_of addrs ∈ L')) as [Hi|Hi], (decide (ind_of addrs ∈ L)) as [Hi2|Hi2]; try lia. destruct Hi. by apply Hg.
  - rewrite decide_True by done. destruct (decide (ind_of addrs' ∈ L)) as [Hi|Hi].
    + pose proof (size_add1 n ({[BM sb]} ∪ L') ({[BM sb]} ∪ L) ltac:(set_solver)) as H1. destruct (decide (ind_of addrs ∈ L)); lia.
    + rewrite decide_False by (intros Hi2; destruct (decide (ind_of addrs = 0)) as [E|E]; [by rewrite E in Hi2|by rewrite (Hind E) in Hi]).
      pose proof (size_add1 n ({[BM sb]} ∪ L') ({[BM sb; ind_of addrs']} ∪ L) ltac:(set_solver)) as H1.
      pose proof (size_add1 (ind_of addrs') ({[BM sb; ind_of addrs']} ∪ L) ({[BM sb]} ∪ L) ltac:(set_solver)) as H2. lia.
Qed.

Section rw.
Context {B : Type} `{BL : BufferLaws B}.
Implicit Types (b : B) (i : inode).

Lemma div_nat (off : nat) : Z.of_nat off / 512 = Z.of_nat (off / BLOCK) ∧ Z.of_nat off mod 512 = Z.of_nat (off mod BLOCK).
Proof using Type. unfold BLOCK. rewrite Nat2Z.inj_div, Nat2Z.inj_mod. done. Qed.

Lemma wp_readi_loop fuel g v L sb ic own ip i nb c : ∀ b off n Q,
  tx g v L b → finv g sb v own → ic !! ip = Some i → ifile v own (i_inum i) (i_addrs i) nb → (nblocks (length c) ≤ nb)%nat →
  file_bytes v (i_addrs i) c → (off + n ≤ length c)%nat → (n = 0 ∨ off mod BLOCK + n ≤ fuel * BLOCK)%nat →
  (∀ b', tx g v L b' → Q (get off n c) (Fsys b' sb ic)) → wp (readi_loop fuel ip (Z.of_nat off) (Z.of_nat n)) Q (Fsys b sb ic).
Proof.
  induction fuel as [|fuel IH]; intros b off n Q Ht HI Hi HF Hnb HB Hn Hfuel HQ; cbn [readi_loop];
    (destruct (decide (n = 0%nat)) as [->|Hn0]; [apply wp_ret; change (get off 0 c) with (@nil Z) in HQ; by apply HQ|]); rewrite (proj2 (Z.ltb_lt _ _)) by lia.
  { lia. }
  destruct Hfuel as [?|Hfuel]; [done|]. destruct (div_nat off) as [-> ->]. pose proof (nblocks_lt (length c) off ltac:(lia)) as Hlt. pose proof (if_max _ _ _ _ _ HF) as Hmax.
  apply wp_bind, (wp_bmap_old g v L b sb ic own ip i nb); [done|done|done|done|lia|]. intros b1 Ht1.
  destruct (owned_range _ _ _ _ _ _ HI (if_data _ _ _ _ _ HF (off / BLOCK)%nat ltac:(lia)) ltac:(done)) as (_ & Hr & _).
  apply wp_bind, (wp_block_read g v L); [done|done|]. intros b2 x Hx Hlx Ht2. cbv zeta.
  set (m := Nat.min n (BLOCK - off mod BLOCK)). assert (0 < m ≤ n ∧ off mod BLOCK + m ≤ BLOCK)%nat as [Hm Hm2] by (unfold m, BLOCK in *; ndlia).
  assert (Z.min (Z.of_nat n) (512 - Z.of_nat (off mod BLOCK)) = Z.of_nat m) as -> by (unfold m, BLOCK in *; clear; ndlia).
  assert (nb ≤ 140)%nat as Hnb140 by (unfold NDIRECT, NINDIRECT in Hmax; lia).
  pose proof (nblocks_ge (length c)) as Hge. rewrite u32_small by (unfold BLOCK in *; lia). rewrite <- Nat2Z.inj_add, <- Nat2Z.inj_sub by lia. apply wp_bind.
  apply (IH b2 (off + m)%nat (n - m)%nat); [done|done|done|done|done|done|lia| |].
  - unfold m, BLOCK in *. clear -Hfuel Hn0. destruct (decide (n ≤ 512 - off mod 512)%nat); [left; lia|right]. ndlia.
  - intros b3 Ht3. apply wp_ret. rewrite !Nat2Z.id, (file_piece v (i_addrs i) c off m x) by (done || lia). rewrite get_app_get. replace (m + (n - m))%nat with n by lia. by apply HQ.
Qed.

(** Room for one more block is enough for bmap. *)
Lemma logged_room sb L addrs n m :
  0 ∉ L → logged sb L addrs + 1 ≤ MAXOPBLOCKS → ind_of addrs = 0 ∨ m = ind_of addrs → Z.of_nat (size ({[m; n; BM sb]} ∪ L)) ≤ MAXOPBLOCKS.
Proof using Type.
  intros H0 Hl Hm. unfold logged in Hl. pose proof (size_add1 n ({[n; BM sb]} ∪ L) ({[BM sb]} ∪ L) ltac:(set_solver)) as H1.
  pose proof (size_add1 m ({[m; n; BM sb]} ∪ L) ({[n; BM sb]} ∪ L) ltac:(set_solver)) as H2.
  destruct (decide (ind_of addrs ∈ L)) as [Hi|Hi]; [|lia]. destruct Hm as [E|E]; [by rewrite E in Hi|].
  pose proof (size_add1 n ({[m; n; BM sb]} ∪ L) ({[BM sb]} ∪ L) ltac:(set_solver)). lia.
Qed.
Lemma size_logged sb L addrs : Z.of_nat (size L) ≤ logged sb L addrs.
Proof using Type. unfold logged. pose proof (subseteq_size L ({[BM sb]} ∪ L) ltac:(set_solver)). destruct (decide _); lia. Qed.

(** After bmap: the block of the file at [off] is there. *)
Lemma wpx_bmap_at g v L b sb ic own ip i c off (Q : Z → fsys B → Prop) R :
  tx g v L b → finv g sb v own → ic !! ip = Some i → ifile v own (i_inum i) (i_addrs i) (nblocks (length c)) → file_bytes v (i_addrs i) c →
  (off ≤ length c)%nat → (off < (NDIRECT + NINDIRECT) * BLOCK)%nat → 0 ∉ L → logged sb L (i_addrs i) + 1 ≤ MAXOPBLOCKS →
  (∀ b' v' own' addrs' L' nb',
     tx g v' L' b' → finv g sb v' own' → ifile v' own' (i_inum i) addrs' nb' → file_bytes v' addrs' c → (off / BLOCK < nb')%nat →
     (∀ m, (off mod BLOCK + m ≤ BLOCK)%nat → (0 < m)%nat → nblocks (Nat.max (length c) (off + m)) = nb') → (nb' = nblocks (length c) → addrs' = i_addrs i) →
     frame sb (λ k, own k = Indir (i_inum i)) (i_inum i) v own v' own' → 0 ∉ L' →
     logged sb ({[baddr v' addrs' (off / BLOCK)]} ∪ L') addrs' ≤ logged sb L (i_addrs i) + 1 →
     Q (baddr v' addrs' (off / BLOCK)) (Fsys b' sb (<[ip := set_iaddrs addrs' i]> ic))) →
  ((∃ own', gives (i_inum i) own own' ∧ ∀ n, own' n ≠ Unused) → on_full g sb R) →
  wpx (bmap ip (Z.of_nat (off / BLOCK))) Q R (Fsys b sb ic).
Proof.
  intros Ht HI Hi HF HB Hoff Hmax H0 Hl HQ HR. destruct (decide (off / BLOCK < nblocks (length c))%nat) as [Hlt|Hge].
  - apply wpx_wp, (wp_bmap_old g v L b sb ic own ip i (nblocks (length c))); [done..|]. intros b1 Ht1.
    assert (ic = <[ip := set_iaddrs (i_addrs i) i]> ic) as Eic by (rewrite list_insert_id; [done|]; rewrite Hi; by destruct i). rewrite Eic.
    apply (HQ b1 v own (i_addrs i) L (nblocks (length c))); [done|done|done|done|done| |done|apply frame_refl|done|apply logged_old].
    intros m Hm Hm0. unfold nblocks, BLOCK in *. clear -Hlt Hm Hm0 Hoff. ndlia.
  - assert (off = length c ∧ off / BLOCK = nblocks (length c) ∧ off mod BLOCK = 0)%nat as (E1 & E2 & E3) by (unfold nblocks, BLOCK in *; clear -Hge Hoff; ndlia).
    rewrite E2. apply (wpx_bmap_new g v L b sb ic own ip i (nblocks (length c))); [done|done|done|done| | | |done].
    + rewrite <- E2. unfold BLOCK, NDIRECT, NINDIRECT in *. clear -Hmax. ndlia.
    + intros n m. by apply logged_room.
    + intros n b1 v1 own1 addrs1 L1 Ht1 Hlog Hin HI1 HF1 Hba Hz Hfr Hold. rewrite <- E2 in *. rewrite <- Hba.
      destruct (owned_range _ _ _ _ _ _ HI1 (if_data _ _ _ _ _ HF1 (off / BLOCK)%nat ltac:(lia)) ltac:(done)) as (_ & _ & Hn0). rewrite Hba in Hn0.
      apply (HQ b1 v1 own1 addrs1 L1 (S (off / BLOCK))); [done|done|done| |lia| |lia|done| |].
      * intros k Hk. destruct (HB k Hk) as (x & Hx & Hrest). exists x. pose proof (nblocks_lt _ _ Hk) as Hkn. rewrite <- E2 in Hkn. rewrite Hold by done. split; [|done].
        pose proof (if_data _ _ _ _ _ HF (k / BLOCK)%nat ltac:(lia)) as Hd. rewrite (fr_view _ _ _ _ _ _ _ Hfr); [done|by rewrite Hd| |by rewrite Hd].
        intros Eb. destruct (fi_bm _ _ _ _ HI) as (_ & Hbm & _). congruence.
      * intros m Hm Hm0. rewrite <- E1. unfold nblocks, BLOCK in *. clear -Hm Hm0 E3. ndlia.
      * intros Hbad. destruct (fi_bm _ _ _ _ HI) as (Hb0 & _). assert (∀ x, x ≠ 0 → 0 ∈ ({[x; n; BM sb]} ∪ L : gset Z) → False) as Hz0.
        { intros x Hx0. rewrite !elem_of_union, !elem_of_singleton. clear -Hx0 Hn0 Hb0 H0. intuition lia. }
        destruct Hlog as [_ [[_ Hs]|(_ & Hi0 & _ & Hs)]]; apply Hs in Hbad; [apply (Hz0 n Hn0); clear -Hbad; set_solver|by apply (Hz0 (ind_of addrs1))].
      * rewrite Hba. replace ({[n]} ∪ L1) with L1 by (clear -Hin; set_solver). by apply (logged_new sb L (i_addrs i) addrs1 n L1).
Qed.
End rw.
