(* ===== verification/FsNode.v ===== *)
(** * The inodes on the disk (xv6: fs.c, iupdate and ilock) *)

From stdpp Require Import functions.
From S2P Require Import Prelude Bytes Xstring Bio Log Fs FsInv FsMap FsFile.

Implicit Types (sb : superblock) (ic : list inode) (v : contents) (own : Z → use) (L : gset Z) (g : Z → Prop) (addrs c x : list Z) (i k : inode).

(** The 64 bytes of an inode. *)
Definition dinode_bytes i : list Z :=
  le_enc 2 (i_type i) ++ le_enc 2 (i_major i) ++ le_enc 2 (i_minor i) ++ le_enc 2 (i_nlink i) ++ le_enc 4 (i_size i) ++
  concat (map (λ j, le_enc 4 (nth j (i_addrs i) 0)) (seq 0 (NDIRECT + 1))).

Lemma length_dinode_bytes i : length (dinode_bytes i) = DINODE.
Proof. done. Qed.

Lemma put_next {A} (off k : nat) (bs bs2 l : list A) :
  k = (off + length bs)%nat → (off ≤ length l)%nat → put k bs2 (put off bs l) = put off (bs ++ bs2) l.
Proof. intros -> Ho. by apply put_put_next. Qed.

Lemma put_dinode_eq o i x : (o ≤ length x)%nat → put_dinode o i x = put o (dinode_bytes i) x.
Proof.
  intros Ho. unfold put_dinode, put_u32, put_u16. cbn [seq foldl NDIRECT Nat.add]. repeat (rewrite (put_next o) by (rewrite ?length_app, ?length_le_enc; lia)).
  unfold dinode_bytes. cbn [seq map concat NDIRECT Nat.add]. by rewrite <- !app_assoc, app_nil_r.
Qed.

Lemma get_put_inside {A} o d n (bs l : list A) : (o + length bs ≤ length l)%nat → (d + n ≤ length bs)%nat → get (o + d) n (put o bs l) = get d n bs.
Proof.
  intros Hl Hd. apply list_eq. intros j. rewrite !lookup_get. case_decide; [|done]. rewrite lookup_put by done. rewrite decide_True by lia. f_equal. lia.
Qed.

Definition short (z : Z) : Prop := - 2 ^ 15 ≤ z < 2 ^ 15.
Lemma i16_range z : short (i16 z).
Proof. unfold short, i16. pose proof (Z.mod_pos_bound (z + 2 ^ 15) (2 ^ 16)). lia. Qed.
Lemma i16_enc z : short z → i16 (le_dec (le_enc 2 z)) = z.
Proof. intros Hz. rewrite le_dec_enc. unfold i16, short in *. change (256 ^ Z.of_nat 2) with (2 ^ 16). rewrite Zplus_mod_idemp_l, Z.mod_small; lia. Qed.
Lemma u32_enc z : 0 ≤ z < 2 ^ 32 → le_dec (le_enc 4 z) = z.
Proof. intros Hz. rewrite le_dec_enc. by apply Z.mod_small. Qed.

(** The fields of an inode are in range. *)
Record inode_ok i : Prop := {
  io_type : short (i_type i); io_major : short (i_major i); io_minor : short (i_minor i); io_nlink : short (i_nlink i);
  io_size : 0 ≤ i_size i < 2 ^ 32;
  io_len : length (i_addrs i) = S NDIRECT;
  io_addrs : Forall (λ a, 0 ≤ a < 2 ^ 32) (i_addrs i)
}.

(** What an inode of the cache has of its copy on the disk. *)
Definition with_fields k i : inode :=
  Inode (i_dev k) (i_inum k) (i_ref k) (i_lock k) (i_valid k) (i_type i) (i_major i) (i_minor i) (i_nlink i) (i_size i) (i_addrs i).
Lemma with_fields_id i : with_fields i i = i.
Proof. by destruct i. Qed.

(** Writing an inode and reading it gives its fields back. *)
Lemma of_put_dinode o i x k : (o + DINODE ≤ length x)%nat → inode_ok i → of_dinode o (put_dinode o i x) k = with_fields k i.
Proof.
  intros Hl Hok. rewrite put_dinode_eq by lia. unfold of_dinode, with_fields, get_i16, get_u32. rewrite <- (Nat.add_0_r o) at 1.
  rewrite !get_put_inside by (rewrite length_dinode_bytes; unfold DINODE in *; lia).
  change (get 0 2 (dinode_bytes i)) with (le_enc 2 (i_type i)). change (get 2 2 (dinode_bytes i)) with (le_enc 2 (i_major i)).
  change (get 4 2 (dinode_bytes i)) with (le_enc 2 (i_minor i)). change (get 6 2 (dinode_bytes i)) with (le_enc 2 (i_nlink i)).
  change (get 8 4 (dinode_bytes i)) with (le_enc 4 (i_size i)). rewrite !i16_enc by apply Hok. rewrite u32_enc by apply Hok. f_equal.
  destruct Hok as [_ _ _ _ _ Hn Ha]. destruct i as [? ? ? ? ? ? ? ? ? ? a]. cbn [i_addrs] in *.
  do 14 (destruct a as [|? a]; try done). cbn [seq map NDIRECT Nat.add]. rewrite <- !Nat.add_assoc, !get_put_inside by (rewrite length_dinode_bytes; unfold DINODE in *; lia).
  repeat (apply Forall_cons in Ha as [? Ha]). repeat (f_equal; [by apply u32_enc|]). f_equal. by apply u32_enc.
Qed.
Lemma of_put_other o o' i x k : (o + DINODE ≤ length x)%nat → (o' + DINODE ≤ o ∨ o + DINODE ≤ o')%nat → of_dinode o' (put_dinode o i x) k = of_dinode o' x k.
Proof.
  intros Hl Hd. rewrite put_dinode_eq by lia. unfold of_dinode, get_i16, get_u32. unfold DINODE in *.
  rewrite !get_put_ne by (rewrite length_dinode_bytes; unfold DINODE; lia). f_equal. apply map_ext_in. intros j Hj%in_seq. unfold NDIRECT in *.
  rewrite get_put_ne; [done| |]; rewrite length_dinode_bytes; unfold DINODE; lia.
Qed.
Lemma length_put_dinode o i x : (o + DINODE ≤ length x)%nat → length (put_dinode o i x) = length x.
Proof. intros Hl. rewrite put_dinode_eq by lia. by apply length_put. Qed.
Lemma IOFF_fits inum : (IOFF inum + DINODE ≤ BLOCK)%nat.
Proof. unfold IOFF, DINODE, BLOCK, IPB. pose proof (Z.mod_pos_bound inum 8). lia. Qed.
Lemma inode_apart sb n m : n ≠ m → IBLOCK n sb = IBLOCK m sb → (IOFF n + DINODE ≤ IOFF m ∨ IOFF m + DINODE ≤ IOFF n)%nat.
Proof. unfold IBLOCK, IOFF, IPB, DINODE. intros. dlia. Qed.

(** The file [inum] as the disk has it: its inode [i] and its bytes [c]. *)
Record on_disk sb v own (inum : Z) i c : Prop := {
  od_inum : 0 < inum < ninodes sb;
  od_node : ∃ x, v (IBLOCK inum sb) = Some x ∧ length x = BLOCK ∧ of_dinode (IOFF inum) x i = i;
  od_file : ifile v own inum (i_addrs i) (nblocks (length c));
  od_size : i_size i = Z.of_nat (length c);
  od_bytes : file_bytes v (i_addrs i) c
}.

(** ** What keeps a file *)

Lemma file_view v own v' own' inum addrs c :
  ifile v own inum addrs (nblocks (length c)) → (∀ n, belongs inum (own n) → v' n = v n) → (∀ n, belongs inum (own n) ∨ belongs inum (own' n) → own' n = own n) →
  file_bytes v addrs c → ifile v' own' inum addrs (nblocks (length c)) ∧ file_bytes v' addrs c.
Proof.
  intros [I1 I2 I3 I4 I5 I6 I7] Hv Ho HB.
  assert (∀ j, baddr v' addrs j = baddr v addrs j) as Hb.
  { intros j. unfold baddr. destruct (j <? NDIRECT)%nat; [done|]. destruct (Z.eqb_spec (ind_of addrs) 0) as [E|Hz]; [done|]. destruct I5 as [[? _]|Hi]; [done|].
    unfold entry_of. by rewrite Hv by (by rewrite Hi). }
  split; [constructor; [done|done| | | | |]|].
  - intros j Hj. rewrite Hb. specialize (I3 j Hj). by rewrite Ho by (left; by rewrite I3).
  - intros j Hj. rewrite Hb. by apply I4.
  - destruct I5 as [?|Hi]; [by left|right]. by rewrite Ho by (left; by rewrite Hi).
  - intros n j Hn. rewrite Hb. apply I6. by rewrite <- Ho by (right; by rewrite Hn).
  - intros n Hn. apply I7. by rewrite <- Ho by (right; by rewrite Hn).
  - intros j Hj. rewrite Hb. rewrite Hv by (rewrite (I3 _ (nblocks_lt _ _ Hj)); done). by apply HB.
Qed.

Lemma gives_others inum own own' inum' n : gives inum own own' → inum' ≠ inum → belongs inum' (own n) ∨ belongs inum' (own' n) → own' n = own n.
Proof.
  intros [G1 G2] Hne Hb. destruct (decide (own n = Unused)) as [E|E]; [|by apply G1]. destruct (G2 n E) as [E'|E']; [by rewrite E, E'|].
  destruct Hb as [Hb|Hb]; [by rewrite E in Hb|]. destruct (own' n); cbn in *; first [done|congruence].
Qed.

(** Another file is kept by a change of the blocks of [inum]. *)
Lemma on_disk_frame g sb v own v' own' inum inum' i c :
  finv g sb v own → frame sb (λ n, belongs inum (own n)) inum v own v' own' → inum' ≠ inum → on_disk sb v own inum' i c → on_disk sb v' own' inum' i c.
Proof.
  intros HI [Hg Hv] Hne [Hn Hx HF Hs HB]. destruct (fi_bm _ _ _ _ HI) as (_ & Hbm & _). destruct (fi_inode _ _ _ _ HI inum' Hn) as (_ & Hm & _ & Hb & _).
  destruct (file_view v own v' own' inum' (i_addrs i) c) as [HF' HB']; [done| | |done|].
  - intros n Hbn. apply Hv; [by intros E; rewrite E in Hbn|by intros ->; rewrite Hbm in Hbn|]. destruct (own n); cbn in *; first [done|congruence].
  - intros n. by apply (gives_others inum).
  - constructor; [done| |done|done|done]. rewrite Hv; [done|by rewrite Hm|done|rewrite Hm; by intros []].
Qed.

(** So it is by a change of the inode [inum]. *)
Lemma on_disk_iupdate_other g sb v own inum k inum' i c :
  finv g sb v own → 0 < inum < ninodes sb → inum' ≠ inum → on_disk sb v own inum' i c → on_disk sb (upd (IBLOCK inum sb) (put_dinode (IOFF inum) k) v) own inum' i c.
Proof.
  intros HI Hin Hne [Hn (x & Hx & Hl & Hd) HF Hs HB]. destruct (fi_inode _ _ _ _ HI inum Hin) as (_ & Hm & _).
  destruct (file_view v own (upd (IBLOCK inum sb) (put_dinode (IOFF inum) k) v) own inum' (i_addrs i) c) as [HF' HB']; [done| |done|done|].
  - intros n Hbn. rewrite upd_ne; [done|]. intros ->. by rewrite Hm in Hbn.
  - constructor; [done| |done|done|done]. destruct (decide (IBLOCK inum' sb = IBLOCK inum sb)) as [E|E]; [|rewrite upd_ne by done; by exists x].
    exists (put_dinode (IOFF inum) k x). rewrite <- E, (upd_eq _ _ _ x) by done. pose proof (IOFF_fits inum). pose proof (inode_apart sb _ _ Hne E).
    rewrite length_put_dinode, of_put_other by (rewrite ?Hl; lia). done.
Qed.

(** The file after its inode is written. *)
Lemma on_disk_iupdate g sb v own inum i c x :
  finv g sb v own → 0 < inum < ninodes sb → inode_ok i → v (IBLOCK inum sb) = Some x → length x = BLOCK →
  ifile v own inum (i_addrs i) (nblocks (length c)) → file_bytes v (i_addrs i) c → i_size i = Z.of_nat (length c) →
  on_disk sb (upd (IBLOCK inum sb) (put_dinode (IOFF inum) i) v) own inum i c.
Proof.
  intros HI Hin Hok Hx Hl HF HB Hs. destruct (fi_inode _ _ _ _ HI inum Hin) as (_ & Hm & _).
  destruct (file_view v own (upd (IBLOCK inum sb) (put_dinode (IOFF inum) i) v) own inum (i_addrs i) c) as [HF' HB']; [done| |done|done|].
  - intros n Hbn. rewrite upd_ne; [done|]. intros ->. by rewrite Hm in Hbn.
  - constructor; [done| |done|done|done]. exists (put_dinode (IOFF inum) i x). pose proof (IOFF_fits inum). rewrite (upd_eq _ _ _ x) by done.
    rewrite length_put_dinode, of_put_dinode, with_fields_id by (rewrite ?Hl; done). done.
Qed.

(** The fields that the disk gave are in range, and so are the addresses. *)
Lemma on_disk_ok g sb v own v' own' inum i c addrs nb :
  finv g sb v' own' → on_disk sb v own inum i c → ifile v' own' inum addrs nb → inode_ok (set_iaddrs addrs i).
Proof.
  intros HI [Hn (x & Hx & Hl & Hd) HF Hs HB] HF'.
  assert (∀ n u, own' n = u → u ≠ Meta → 0 ≤ n < 2 ^ 32) as Hr.
  { intros n u E Hu. destruct (owned_range _ _ _ _ _ _ HI E Hu) as (Hf & _ & _). pose proof (fi_size _ _ _ _ HI). unfold FSSIZE in *. lia. }
  pose proof (if_max _ _ _ _ _ HF) as Hmax. pose proof (nblocks_ge (length c)) as Hge. unfold BLOCK, NDIRECT, NINDIRECT in *.
  rewrite <- Hd. constructor; cbn [set_iaddrs of_dinode i_type i_major i_minor i_nlink i_size i_addrs]; try apply i16_range.
  - replace (get_u32 (IOFF inum + 8) x) with (i_size i) by (by rewrite <- Hd at 1). lia.
  - apply HF'.
  - apply Forall_lookup. intros j a Ha. pose proof (lookup_lt_Some _ _ _ Ha) as Hj. rewrite (if_len _ _ _ _ _ HF') in Hj. apply (list.nth_lookup_Some _ _ 0) in Ha.
    destruct (decide (j = NDIRECT)) as [->|Hj12]; [destruct (if_ind _ _ _ _ _ HF') as [[E _]|E]; unfold ind_of in E; rewrite Ha in E; [lia|by apply (Hr a (Indir inum))]|].
    assert (baddr v' addrs j = a) as E by (unfold baddr; by rewrite (proj2 (Nat.ltb_lt _ _)) by (unfold NDIRECT in *; lia)).
    destruct (decide (j < nb)%nat) as [Hlt|Hge']; [pose proof (if_data _ _ _ _ _ HF' j Hlt) as Hdj; rewrite E in Hdj; by apply (Hr a (Data inum j))|].
    pose proof (if_zero _ _ _ _ _ HF' j ltac:(unfold NDIRECT, NINDIRECT in *; lia)). lia.
Qed.
