(* ===== verification/FsWrite.v ===== *)
(** * writei, and the copy of the inode on the disk (fs.c) *)

From stdpp Require Import functions.
From S2P Require Import Prelude Bytes Xstring Bio Log Fs FsInv FsMap FsFile FsNode.

Implicit Types (sb : superblock) (ic : list inode) (v : contents) (own : Z → use) (L : gset Z) (g : Z → Prop) (addrs c : list Z).

Lemma length_put_max {A} off (bs l : list A) : (off ≤ length l)%nat → length (put off bs l) = Nat.max (length l) (off + length bs).
Proof. intros Ho. unfold put. rewrite !length_app, length_take, length_drop. lia. Qed.

Section write.
Context {B : Type} `{BL : BufferLaws B}.
Implicit Types (b : B) (i : inode).

Lemma wpx_writei_loop fuel g sb ip : ∀ b v L own ic i c src off (k : nat) (Q : Z → fsys B → Prop) R,
  tx g v L b → finv g sb v own → ic !! ip = Some i → ifile v own (i_inum i) (i_addrs i) (nblocks (length c)) → file_bytes v (i_addrs i) c →
  (off ≤ length c)%nat → (off + length src ≤ (NDIRECT + NINDIRECT) * BLOCK)%nat →
  (src = [] ∨ off mod BLOCK + length src ≤ fuel * BLOCK)%nat → (src = [] ∨ off mod BLOCK + length src ≤ k * BLOCK)%nat →
  0 ∉ L → logged sb L (i_addrs i) + Z.of_nat k ≤ MAXOPBLOCKS →
  (∀ b' v' own' addrs' L',
     tx g v' L' b' → finv g sb v' own' → ifile v' own' (i_inum i) addrs' (nblocks (length (put off src c))) → file_bytes v' addrs' (put off src c) → (nblocks (length (put off src c)) = nblocks (length c) → addrs' = i_addrs i) →
     frame sb (λ n, belongs (i_inum i) (own n)) (i_inum i) v own v' own' → 0 ∉ L' → logged sb L' addrs' ≤ logged sb L (i_addrs i) + Z.of_nat k →
     Q (Z.of_nat (off + length src)) (Fsys b' sb (<[ip := set_iaddrs addrs' i]> ic))) →
  ((∃ own', gives (i_inum i) own own' ∧ ∀ n, own' n ≠ Unused) → on_full g sb R) →
  wpx (writei_loop fuel ip src (Z.of_nat off)) Q R (Fsys b sb ic).
Proof.
  induction fuel as [|fuel IH]; intros b v L own ic i c src off k Q R Ht HI Hi HF HB Hoff Hmax Hfuel Hk H0 Hl HQ HR;
    (destruct (decide (src = [])) as [->|Hne]; [apply wpx_ret; replace (put off [] c) with c in HQ by (unfold put; cbn; by rewrite Nat.add_0_r, take_drop);
      assert (ic = <[ip := set_iaddrs (i_addrs i) i]> ic) as -> by (rewrite list_insert_id; [done|]; rewrite Hi; by destruct i);
      replace off with (off + @length Z [])%nat by (cbn; lia); apply (HQ b v own (i_addrs i) L); [done|done|done|done|done|apply frame_refl|done|lia]|]);
    (destruct Hfuel as [?|Hfuel]; [done|]); (destruct Hk as [?|Hk]; [done|]); assert (0 < length src)%nat as Hpos by (destruct src; cbn; [done|lia]);
    (destruct src as [|s0 src0] eqn:Es; [done|]); cbn [writei_loop]; rewrite <- Es in *; clear Es s0 src0.
  { lia. }
  destruct k as [|k]; [lia|]. destruct (div_nat off) as [-> ->]. set (n := length src) in *.
  apply wpx_bind, (wpx_bmap_at g v L b sb ic own ip i c off); [done|done|done|done|done|done|unfold BLOCK in *; lia|done|lia| |done].
  intros b1 v1 own1 addrs1 L1 nb1 Ht1 HI1 HF1 HB1 Hbn Hnb Hsame1 Hfr H01 Hl1. cbv zeta.
  set (m := Nat.min n (BLOCK - off mod BLOCK)). assert (0 < m ≤ n ∧ off mod BLOCK + m ≤ BLOCK)%nat as [Hm Hm2] by (unfold m, BLOCK in *; ndlia).
  assert (Z.min (lenZ src) (512 - Z.of_nat (off mod BLOCK)) = Z.of_nat m) as -> by (unfold m, n, BLOCK, lenZ in *; clear; ndlia). rewrite !Nat2Z.id.
  set (a := baddr v1 addrs1 (off / BLOCK)) in *. pose proof (if_data _ _ _ _ _ HF1 _ Hbn) as Ha. fold a in Ha. destruct (owned_range _ _ _ _ _ _ HI1 Ha ltac:(done)) as (Has & Har & Ha0).
  destruct (tx_block _ _ _ _ a Ht1 Har) as (x & Hx & Hlx). assert (length (take m src) = m) as Hlm by (rewrite length_take_le; lia).
  apply wpx_bind_wp, (wp_block_update g v1 L1); [done|apply (fi_home _ _ _ _ HI1); [done|congruence]| | |].
  { etrans; [apply (size_logged sb _ addrs1)|]. lia. }
  { intros y Hy. rewrite length_put by (rewrite Hlm; lia). done. }
  intros b2 Ht2. rewrite u32_small by (unfold NDIRECT, NINDIRECT, BLOCK in *; lia). rewrite <- Nat2Z.inj_add.
  assert (length (put off (take m src) c) = Nat.max (length c) (off + m)) as Hlc by (rewrite length_put_max by done; by rewrite Hlm).
  destruct (fi_bm _ _ _ _ HI1) as (_ & Hbm1 & _). destruct (fi_sb _ _ _ _ HI1) as (_ & H1m & _). pose proof (lookup_lt_Some _ _ _ Hi) as Hlt.
  assert (frame sb (λ n, belongs (i_inum i) (own n)) (i_inum i) v own (upd a (put (off mod BLOCK) (take m src)) v1) own1) as Hfr1.
  { constructor; [apply Hfr|]. intros j Hj Hjb Hjp. rewrite upd_ne; [apply (fr_view _ _ _ _ _ _ _ Hfr); [done|done|]; intros E; rewrite E in Hjp; done|].
    intros ->. destruct (fr_own _ _ _ _ _ _ _ Hfr) as [Hold _]. rewrite (Hold a Hj) in Ha. rewrite Ha in Hjp. done. }
  apply (IH b2 (upd a (put (off mod BLOCK) (take m src)) v1) ({[a]} ∪ L1) own1 _ (set_iaddrs addrs1 i) (put off (take m src) c) (drop m src) (off + m)%nat k).
  - done.
  - by apply finv_upd; [|congruence|congruence].
  - by rewrite list_lookup_insert_eq.
  - cbn [set_iaddrs i_inum i_addrs]. rewrite Hlc, (Hnb m) by lia. by apply (ifile_upd v1 own1 (i_inum i) addrs1 nb1 a _ (off / BLOCK)).
  - cbn [set_iaddrs i_inum i_addrs]. apply (file_write v1 own1 (i_inum i) addrs1 nb1 c off (take m src) x); [done|done|done| |done| |lia|done|done].
    + rewrite <- (Hnb m) by lia. apply nblocks_le. lia.
    + intros E. rewrite E in Hlm. cbn in Hlm. lia.
  - rewrite Hlc. lia.
  - rewrite length_drop. fold n. lia.
  - rewrite <- length_zero_iff_nil, length_drop. fold n. unfold m, BLOCK in *. clear -Hfuel. destruct (decide (n ≤ 512 - off mod 512)%nat); [left; lia|right]. ndlia.
  - rewrite <- length_zero_iff_nil, length_drop. fold n. unfold m, BLOCK in *. clear -Hk. destruct (decide (n ≤ 512 - off mod 512)%nat); [left; lia|right]. ndlia.
  - rewrite elem_of_union, elem_of_singleton. intros [E|E]; [congruence|done].
  - cbn [set_iaddrs i_inum i_addrs]. lia.
  - cbn [set_iaddrs i_inum i_addrs]. intros b3 v3 own3 addrs3 L3 Ht3 HI3 HF3 HB3 Hsame3 Hfr3 H03 Hl3. 
    assert (put (off + m) (drop m src) (put off (take m src) c) = put off src c) as E by (rewrite <- (take_drop m src) at 3; rewrite <- put_put_next by done; by rewrite Hlm).
    rewrite E in HF3, HB3, Hsame3.
    rewrite list_insert_insert_eq. rewrite length_drop. fold n. replace (off + m + (n - m))%nat with (off + n)%nat by lia.
    change (set_iaddrs addrs3 (set_iaddrs addrs1 i)) with (set_iaddrs addrs3 i). apply (HQ b3 v3 own3 addrs3 L3); [done|done|done|done| | |done|lia].
    { intros En. pose proof (nblocks_le (length c) (length (put off (take m src) c)) ltac:(lia)). pose proof (nblocks_le (length (put off (take m src) c)) (length (put off src c)) ltac:(rewrite Hlc, length_put_max by done; lia)).
      rewrite Hsame3 by lia. apply Hsame1. rewrite <- (Hnb m) by lia. rewrite <- Hlc. lia. }
    eapply frame_trans; [exact Hfr1|exact Hfr3|]. intros j Hj Hp. cbv beta in *. destruct (fr_own _ _ _ _ _ _ _ Hfr1) as [Hold _]. by rewrite (Hold j Hj) in Hp.
  - cbn [set_iaddrs i_inum]. intros (own3 & Hg3 & Hno). apply HR. exists own3. split; [|done]. eapply gives_trans; [apply Hfr|done].
Qed.

(** The result of readi at [off] of a file that has the bytes [c]. *)
Definition read_at c (off n : nat) : Z * list Z :=
  if (length c <? off)%nat then (-1, []) else let n := Nat.min n (length c - off) in (Z.of_nat n, get off n c).

Lemma file_max v own inum addrs c : ifile v own inum addrs (nblocks (length c)) → (length c ≤ (NDIRECT + NINDIRECT) * BLOCK)%nat.
Proof. intros HF. pose proof (if_max _ _ _ _ _ HF). pose proof (nblocks_ge (length c)). unfold BLOCK, NDIRECT, NINDIRECT in *. lia. Qed.

Lemma wp_readi dr g v L b sb ic own ip i c (off n : nat) Q :
  tx g v L b → finv g sb v own → ic !! ip = Some i → on_disk sb v own (i_inum i) i c → i_type i ≠ T_DEV → Z.of_nat off + Z.of_nat n < 2 ^ 32 →
  (∀ b', tx g v L b' → Q (read_at c off n) (Fsys b' sb ic)) → wp (readi dr ip (Z.of_nat off) (Z.of_nat n)) Q (Fsys b sb ic).
Proof.
  intros Ht HI Hi HD Hty Hr HQ. destruct HD as [_ _ HF Hs HB]. pose proof (file_max _ _ _ _ _ HF) as Hmax. unfold NDIRECT, NINDIRECT, BLOCK in Hmax. unfold readi.
  apply wp_bind, (wp_get_i b sb ic ip i); [done|]. rewrite (proj2 (Z.eqb_neq _ _)) by done. rewrite Hs, !u32_small by lia.
  unfold read_at in HQ. destruct (Nat.ltb_spec (length c) off) as [Hlt|Hge].
  - rewrite (proj2 (Z.ltb_lt _ _)) by lia. cbn [orb]. apply wp_ret. by apply HQ.
  - rewrite (proj2 (Z.ltb_ge (Z.of_nat (length c)) _)), (proj2 (Z.ltb_ge (Z.of_nat off + _) _)) by lia. cbn [orb]. cbv zeta in HQ |- *.
    rewrite (u32_small (Z.of_nat (length c) - _)) by lia. set (m := Nat.min n (length c - off)) in *.
    assert ((if Z.of_nat (length c) <? Z.of_nat off + Z.of_nat n then Z.of_nat (length c) - Z.of_nat off else Z.of_nat n) = Z.of_nat m) as -> by (destruct (Z.ltb_spec (Z.of_nat (length c)) (Z.of_nat off + Z.of_nat n)); lia).
    apply wp_bind, (wp_readi_loop _ g v L sb ic own ip i (nblocks (length c)) c); [done|done|done|done|done|done|lia| |].
    + right. unfold BLOCK. ndlia.
    + intros b' Ht'. apply wp_ret. rewrite i32_small by lia. by apply HQ.
Qed.

Lemma wp_iupdate g v L b sb ic own ip i Q :
  tx g v L b → finv g sb v own → ic !! ip = Some i → 0 < i_inum i < ninodes sb → Z.of_nat (size ({[IBLOCK (i_inum i) sb]} ∪ L)) ≤ MAXOPBLOCKS →
  (∀ b', tx g (upd (IBLOCK (i_inum i) sb) (put_dinode (IOFF (i_inum i)) i) v) ({[IBLOCK (i_inum i) sb]} ∪ L) b' → Q tt (Fsys b' sb ic)) →
  wp (iupdate ip) Q (Fsys b sb ic).
Proof.
  intros Ht HI Hi Hn Hs HQ. apply wp_bind, (wp_get_i b sb ic ip i); [done|]. apply wp_bind, wp_gets. cbn [fsb].
  apply (wp_block_update g v L); [done|by apply (fi_inode _ _ _ _ HI)|done| |done]. intros x Hx. pose proof (IOFF_fits (i_inum i)). rewrite length_put_dinode by lia. done.
Qed.

(** The inode after a write. *)
Definition written addrs c i : inode := set_isize (Z.of_nat (length c)) (set_iaddrs addrs i).

Lemma wpx_writei dw g v L b sb ic own ip i c src (off k : nat) (Q : Z → fsys B → Prop) R :
  tx g v L b → finv g sb v own → ic !! ip = Some i → on_disk sb v own (i_inum i) i c → i_type i ≠ T_DEV →
  (off ≤ length c)%nat → (off + length src ≤ (NDIRECT + NINDIRECT) * BLOCK)%nat →
  (src = [] ∨ off mod BLOCK + length src ≤ k * BLOCK)%nat → 0 ∉ L → logged sb L (i_addrs i) + Z.of_nat k + 1 ≤ MAXOPBLOCKS →
  (∀ b' v' own' addrs' L', let c' := put off src c in
     tx g v' L' b' → finv g sb v' own' → on_disk sb v' own' (i_inum i) (written addrs' c' i) c' →
     (∀ inum j e, inum ≠ i_inum i → on_disk sb v own inum j e → on_disk sb v' own' inum j e) → gives (i_inum i) own own' →
     0 ∉ L' → logged sb L' addrs' ≤ logged sb L (i_addrs i) + Z.of_nat k + 1 →
     Q (Z.of_nat (length src)) (Fsys b' sb (<[ip := written addrs' c' i]> ic))) →
  ((∃ own', gives (i_inum i) own own' ∧ ∀ n, own' n ≠ Unused) → on_full g sb R) →
  wpx (writei dw ip src (Z.of_nat off)) Q R (Fsys b sb ic).
Proof.
  intros Ht HI Hi HD Hty Hoff Hmax Hk H0 Hl HQ HR. pose proof (file_max _ _ _ _ _ (od_file _ _ _ _ _ _ HD)) as Hmc. pose proof (od_size _ _ _ _ _ _ HD) as Hs.
  pose proof (od_inum _ _ _ _ _ _ HD) as Hin. unfold NDIRECT, NINDIRECT, BLOCK in Hmc, Hmax. unfold writei. cbv zeta. unfold lenZ.
  apply wpx_bind_wp, (wp_get_i b sb ic ip i); [done|]. rewrite (proj2 (Z.eqb_neq _ _)) by done. rewrite Hs, u32_small by lia.
  rewrite (proj2 (Z.ltb_ge (Z.of_nat (length c)) _)), (proj2 (Z.ltb_ge (Z.of_nat off + _) _)) by lia. cbn [orb]. rewrite (proj2 (Z.ltb_ge (MAXFILE * 512) _)) by (unfold MAXFILE; lia).
  pose proof (length_put_max off src c Hoff) as Hlp. set (c' := put off src c) in *.
  apply wpx_bind, (wpx_writei_loop _ g sb ip b v L own ic i c src off k); [done|done|done|apply HD|apply HD|done|unfold NDIRECT, NINDIRECT, BLOCK; lia| |done|done|lia| |done].
  { right. unfold BLOCK. ndlia. }
  fold c'. intros b1 v1 own1 addrs1 L1 Ht1 HI1 HF1 HB1 Hsame Hfr H01 Hl1.
  assert (∀ inum j e, inum ≠ i_inum i → on_disk sb v own inum j e → on_disk sb v1 own1 inum j e) as Hoth by (intros inum j e Hne; by apply (on_disk_frame g sb v own v1 own1 (i_inum i) inum j e)).
  pose proof (lookup_lt_Some _ _ _ Hi) as Hlt.
  apply wpx_wp, wp_bind, (wp_get_i _ _ _ _ (set_iaddrs addrs1 i)); [by rewrite list_lookup_insert_eq|]. cbn [i_size set_iaddrs]. rewrite Hs.
  destruct (fi_inode _ _ _ _ HI (i_inum i) Hin) as (Hb0 & Hbm & _ & Hbb & _).
  assert (v1 (IBLOCK (i_inum i) sb) = v (IBLOCK (i_inum i) sb)) as Hib by (apply (fr_view _ _ _ _ _ _ _ Hfr); [by rewrite Hbm|done|rewrite Hbm; by intros []]).
  assert ((0 <? Z.of_nat (length src)) && (Z.of_nat (length c) <? Z.of_nat (off + length src)) = (length c <? length c')%nat) as ->.
  { rewrite Hlp. destruct (Z.ltb_spec 0 (Z.of_nat (length src))), (Z.ltb_spec (Z.of_nat (length c)) (Z.of_nat (off + length src))), (Nat.ltb_spec (length c) (length c `max` (off + length src))); cbn; lia. }
  apply wp_bind. destruct (Nat.ltb_spec (length c) (length c')) as [Hgrow|Hstay].
  - apply wp_bind, (wp_upd_i _ _ _ _ (set_iaddrs addrs1 i)); [by rewrite list_lookup_insert_eq|]. rewrite list_insert_insert_eq.
    replace (Z.of_nat (off + length src)) with (Z.of_nat (length c')) by lia. change (set_isize _ (set_iaddrs addrs1 i)) with (written addrs1 c' i).
    apply (wp_iupdate g v1 L1 _ _ _ own1 _ (written addrs1 c' i)); [done|done|by rewrite list_lookup_insert_eq|done| |].
    { cbn. pose proof (size_logged sb ({[IBLOCK (i_inum i) sb]} ∪ L1) addrs1). pose proof (logged_old sb L1 addrs1 (IBLOCK (i_inum i) sb)). lia. }
    cbn [written set_isize set_iaddrs i_inum]. intros b2 Ht2. apply wp_ret. rewrite i32_small by lia. destruct (od_node _ _ _ _ _ _ HD) as (x & Hx & Hlx & _).
    apply (HQ b2 (upd (IBLOCK (i_inum i) sb) (put_dinode (IOFF (i_inum i)) (written addrs1 c' i)) v1) own1 addrs1 ({[IBLOCK (i_inum i) sb]} ∪ L1)).
    + done.
    + apply finv_upd; [done|done|]. destruct (fi_inode _ _ _ _ HI (i_inum i) Hin) as (_ & _ & _ & _ & ?). done.
    + apply (on_disk_iupdate g sb v1 own1 (i_inum i) (written addrs1 c' i) c' x); [done|done| |by rewrite Hib|done|done|done|done].
      pose proof (on_disk_ok g sb v own v1 own1 _ i c addrs1 _ HI1 HD HF1) as [? ? ? ? _ ? ?]. constructor; [done..| |done|done]. cbn. lia.
    + intros inum j e Hne HDj. apply (on_disk_iupdate_other g); [done|done|done|]. by apply Hoth.
    + apply Hfr.
    + rewrite elem_of_union, elem_of_singleton. intros [E|?]; [|done]. lia.
    + pose proof (logged_old sb L1 addrs1 (IBLOCK (i_inum i) sb)). lia.
  - assert (length c' = length c) as Elen by lia. rewrite Elen in HF1, Hsame. rewrite (Hsame eq_refl) in *. apply wp_ret, wp_ret. rewrite i32_small by lia.
    assert (written (i_addrs i) c' i = i) as Ew by (unfold written; rewrite Elen, <- Hs; by destruct i).
    assert (set_iaddrs (i_addrs i) i = i) as -> by (by destruct i). rewrite <- Ew at 1. apply (HQ b1 v1 own1 (i_addrs i) L1); [done|done| |done|apply Hfr|done|lia].
    rewrite Ew. constructor; [done|rewrite Hib; apply HD|by rewrite Elen|by rewrite Elen|done].
Qed.
End write.
