(* ===== verification/FsLog.v ===== *)
(** * The buffer cache and the log as the layers below the file system

    An operation reads and changes blocks through the cache and the log; the
    promises of [BufferLaws] hold of them while an operation is open. *)

From S2P Require Import Prelude Bytes Bio BioList BioSpec BioOps Log LogSpec LogLoops LogCrash LogCommit LogRecover LogThms LogTx Fs FsInv.

Implicit Types (c : list buf) (d : gmap Z (list (list Z))) (l : log) (w : list Z) (g : Z → Prop) (v : contents) (L : gset Z).

(** A block's data through its buffer. *)
Definition fetch (n : Z) : M lsys (list Z) :=
  i ← bio_ (bread 1 n);
  x ← bio_ (b ← get_buf i; mret (data b));
  bio_ (brelse i);;
  mret x.

#[export] Instance log_buffers : Buffers lsys := { bl_read := fetch; bl_update := update }.

Lemma wp_fetch c d t m l w bs n Q :
  ready c d m l bs → 0 ≤ n < FSSIZE →
  (∀ c' x, ready c' d m l bs → (∀ k, vol c' d k = vol c d k) → vol c d n = Some x → (spares c ≤ spares c')%nat → Q x (Lsys (rest c' d t m) l w)) →
  wp (fetch n) Q (Lsys (rest c d t m) l w).
Proof.
  intros [[HI Hidle Hdirty] HL HD HH Hsp] Hn HQ. apply wp_bind, wp_bio, wp_bread; [done|done|done|by left; lia|]. intros i x f c1 [O1 O2 O3 [O4 Hlx] O5 O6 O7 O8 O9 O10].
  apply wp_bind, wp_bio, wp_bind, (wp_get_held c1 d t m i n x f); [done|]. intros b Hb _ _. apply wp_ret. rewrite Hb.
  apply wp_bind, wp_bio, (wp_brelse c1 d t m i n x f); [done|done|naive_solver|]. intros c2 [F1 F2 F3 F4 F5 F6]. apply wp_ret.
  assert (spares c ≤ spares c2)%nat as Hs by (rewrite F6; destruct (decide (f = 2)); [lia|]; rewrite O10; [lia|naive_solver]).
  apply HQ; [constructor; [constructor| | | |]|..]; try done.
  - intros k. rewrite F5, O8. naive_solver.
  - intros k. by rewrite F4, O7.
  - lia.
  - intros k. by rewrite F2, O5.
Qed.

(** An operation is open, the only one: [L] is what it has logged.  [P] is what
    is known besides of the disk, its writes so far, and the threads woken. *)
Record op_open (P : gmap Z (list (list Z)) → list (Z * Z * list Z) → Z → list Z → Z → Z → Prop) g v L (s : lsys) c d t (m : Z) l w (bs : list Z) : Prop := {
  oo_state : s = Lsys (rest c d t m) l w;
  oo_ready : ready c d m l bs;
  oo_logged : list_to_set bs = L;
  oo_view k : home g k → v k = vol c d k;
  oo_home k : g k → 0 ≤ k < FSSIZE ∧ ¬ (start l ≤ k < start l + log_size l) ∧ k ≠ 1;
  oo_one : outstanding l = 1 ∧ committing l = false;
  oo_room : (length bs ≤ 10)%nat ∧ (12 ≤ length bs + spares c)%nat ∧ MAXOPBLOCKS + 1 < log_size l;
  oo_more : P d t m w (start l) (log_size l)
}.
Definition log_tx P g v L (s : lsys) : Prop := ∃ c d t m l w bs, op_open P g v L s c d t m l w bs.

Lemma size_log_add n bs : NoDup bs → size (list_to_set (log_add n bs) : gset Z) = length (log_add n bs).
Proof.
  intros Hd. apply size_list_to_set. unfold log_add. case_decide; [done|]. apply NoDup_app. split; [done|]. split; [|apply NoDup_singleton].
  by intros k Hk ->%list_elem_of_singleton.
Qed.
Lemma set_log_add n bs : list_to_set (log_add n bs) = ({[n]} ∪ list_to_set bs : gset Z).
Proof. apply set_eq. intros k. rewrite elem_of_list_to_set, elem_of_log_add, elem_of_union, elem_of_singleton, elem_of_list_to_set. tauto. Qed.

Lemma vol_block c d m l bs n : ready c d m l bs → 0 ≤ n < FSSIZE → ∃ x, vol c d n = Some x ∧ length x = BLOCK.
Proof.
  intros HR Hn. pose proof (vol_length c d m n (q_inv _ _ _ _ (rd_quiet _ _ _ _ _ HR)) Hn) as Hl. destruct (vol c d n) as [x|]; [by exists x|done].
Qed.
Lemma home_range P g v L s c d t m l w bs n : op_open P g v L s c d t m l w bs → home g n → 0 ≤ n < FSSIZE.
Proof. intros HO [Hn| ->]; [by apply (oo_home _ _ _ _ _ _ _ _ _ _ _ _ HO)|unfold FSSIZE; lia]. Qed.

Section laws.
Context (P : gmap Z (list (list Z)) → list (Z * Z * list Z) → Z → list Z → Z → Z → Prop).

Lemma log_tx_block g v L s n : log_tx P g v L s → home g n → ∃ x, v n = Some x ∧ length x = BLOCK.
Proof.
  intros (c & d & t & m & l & w & bs & HO) Hn. rewrite (oo_view _ _ _ _ _ _ _ _ _ _ _ _ HO n Hn).
  apply (vol_block c d m l bs); [apply HO|by eapply home_range].
Qed.
Lemma log_tx_read g v L s n : log_tx P g v L s → home g n → wp (fetch n) (λ x s', v n = Some x ∧ log_tx P g v L s') s.
Proof.
  intros (c & d & t & m & l & w & bs & HO) Hn. pose proof (home_range _ _ _ _ _ _ _ _ _ _ _ _ _ HO Hn) as Hr. destruct HO as [-> HR HL Hv Hg Ho (H1 & H2 & H3) HP].
  apply (wp_fetch c d t m l w bs); [done|done|]. intros c' x HR' Hvol Hx Hs. split; [by rewrite Hv|].
  exists c', d, t, m, l, w, bs. constructor; [done|done|done| |done|done|split; [done|split; [lia|done]]|done]. intros k Hk. by rewrite Hvol, Hv.
Qed.
Lemma log_tx_update g v L s n f :
  log_tx P g v L s → g n → Z.of_nat (size ({[n]} ∪ L)) ≤ MAXOPBLOCKS → (∀ x, length x = BLOCK → length (f x) = BLOCK) →
  wp (update n f) (λ _ s', log_tx P g (upd n f v) ({[n]} ∪ L) s') s.
Proof.
  intros (c & d & t & m & l & w & bs & [-> HR <- Hv Hg [Ho Hc] (H1 & H2 & H3) HP]) Hn Hs Hf. destruct (Hg n Hn) as (Hr & Hout & Hn1).
  pose proof (ho_nodup _ _ _ (rd_homes _ _ _ _ _ HR)) as Hnd. rewrite <- set_log_add in Hs |- *. rewrite size_log_add in Hs by done. unfold MAXOPBLOCKS in *.
  assert (length bs ≤ length (log_add n bs))%nat by (unfold log_add; case_decide; [done|rewrite length_app; lia]).
  apply (wp_update c d t m l w bs n f); [done|lia|unfold lenZ, LOGSIZE; lia|unfold lenZ; lia|lia|done|].
  intros c' l' HR' E1 E2 E3 E4 Hvol Hsp. exists c', d, t, m, l', w, (log_add n bs). constructor; [done|done|done| | |by rewrite E3, E4| |by rewrite E1, E2].
  - intros k Hk. rewrite Hvol. unfold upd. by rewrite Hv.
  - intros k Hk. rewrite E1, E2. by apply Hg.
  - unfold MAXOPBLOCKS. rewrite E2. lia.
Qed.
End laws.
Definition log_laws P : BufferLaws lsys := {| tx := log_tx P; tx_block := log_tx_block P; tx_read := log_tx_read P; tx_update := log_tx_update P |}.

Lemma filter_all {A} (P : A → Prop) `{∀ x, Decision (P x)} (l : list A) : Forall P l → filter P l = l.
Proof. induction 1 as [|x l Hx Hl IH]; [done|]. by rewrite filter_cons_True, IH. Qed.

(** When no block is pinned, every buffer may be used. *)
Lemma quiet_spares c d m : quiet c d m nopins → spares c = NBUF.
Proof.
  intros [HI Hb Hd]. unfold spares. rewrite filter_all; [rewrite length_take, (bi_len _ _ _ HI); unfold NBUF; lia|].
  apply Forall_lookup. intros i b [Hi Hlt]%lookup_take_Some. pose proof (bi_buf _ _ _ HI i b Hlt Hi) as [Hf Hr _ _ Hdev].
  destruct Hr as [[Hr _]|(Hr & _ & _ & Hdv)]; [|destruct (Hb (blockno b)); by exists i, b]. split; [done|].
  destruct Hf as [->|[->|H6]]; [done|done|]. destruct (Hd (blockno b)) as [Hx _]. destruct Hx. exists i, b. auto.
Qed.

#[export] Instance log_operations : Operations lsys := { bl_begin := begin_op; bl_end := end_op }.

(** No operation is open, and the log is empty. *)
Record op_none g v (s : lsys) c d t (m : Z) l w : Prop := {
  on_state : s = Lsys (rest c d t m) l w;
  on_ready : ready c d m l [];
  on_view k : home g k → v k = vol c d k;
  on_home k : g k → 0 ≤ k < FSSIZE ∧ ¬ (start l ≤ k < start l + log_size l) ∧ k ≠ 1;
  on_none : outstanding l = 0 ∧ committing l = false;
  on_size : MAXOPBLOCKS + 1 < log_size l
}.
Definition log_idle g v (s : lsys) : Prop := ∃ c d t m l w, op_none g v s c d t m l w.

Lemma log_begin P g v s c d t m l w :
  op_none g v s c d t m l w → P d t m w (start l) (log_size l) → wp begin_op (λ _ s', log_tx P g v ∅ s') s.
Proof.
  intros [-> HR Hv Hg [Ho Hc] Hs] HP. apply (wp_begin_op c d t m l w []); [done|done|by rewrite Ho|]. rewrite Ho.
  exists c, d, t, m, (set_outstanding (0 + 1) l), w, []. constructor; try done; [by apply (ready_log c d m l)|].
  split; [cbn; lia|]. split; [|done]. rewrite (quiet_spares c d m); [cbn; unfold NBUF; lia|].
  eapply quiet_ext; [|apply HR]. intros k. cbn. by rewrite elem_of_nil.
Qed.

Lemma home_outside P g v L s c d t m l w bs k : op_open P g v L s c d t m l w bs → home g k → ¬ (start l ≤ k < start l + log_size l).
Proof.
  intros HO [Hk| ->]; [by apply (oo_home _ _ _ _ _ _ _ _ _ _ _ _ HO)|]. destruct (dl_area _ _ _ _ (rd_disk _ _ _ _ _ (oo_ready _ _ _ _ _ _ _ _ _ _ _ _ HO))). lia.
Qed.

Lemma log_end P g v L s : log_tx P g v L s → wp end_op (λ _ s', log_idle g v s') s.
Proof.
  intros (c & d & t & m & l & w & bs & HO). pose proof (λ k, home_outside _ _ _ _ _ _ _ _ _ _ _ _ k HO) as Hout. destruct HO as [-> HR HL Hv Hg [Ho Hc] (H1 & H2 & H3) HP].
  apply (wp_end_op c d t m l bs w); [done|done|done|]. intros c' d' W HC. exists c', d', (t ++ W), m, (set_outstanding 0 (set_lh_n 0 l)), (w ++ [LOGCHAN]).
  constructor; [done| | |done|done|done].
  - apply (ready_log c' d' m (set_lh_n 0 l)); [done..|]. apply HC.
  - intros k Hk. rewrite (cm_vol _ _ _ _ _ _ _ HC k) by auto. by apply Hv.
Qed.

Lemma none_range g v s c d t m l w n : op_none g v s c d t m l w → home g n → 0 ≤ n < FSSIZE.
Proof. intros HO [Hn| ->]; [by apply (on_home _ _ _ _ _ _ _ _ _ HO)|unfold FSSIZE; lia]. Qed.
Lemma log_idle_block g v s n : log_idle g v s → home g n → ∃ x, v n = Some x ∧ length x = BLOCK.
Proof.
  intros (c & d & t & m & l & w & HO) Hn. rewrite (on_view _ _ _ _ _ _ _ _ _ HO n Hn). apply (vol_block c d m l []); [apply HO|by eapply none_range].
Qed.
Lemma log_idle_read g v s n : log_idle g v s → home g n → wp (fetch n) (λ x s', v n = Some x ∧ log_idle g v s') s.
Proof.
  intros (c & d & t & m & l & w & HO) Hn. pose proof (none_range _ _ _ _ _ _ _ _ _ _ HO Hn) as Hr. destruct HO as [-> HR Hv Hg Ho Hs].
  apply (wp_fetch c d t m l w []); [done|done|]. intros c' x HR' Hvol Hx _. split; [by rewrite Hv|].
  exists c', d, t, m, l, w. constructor; [done|done| |done|done|done]. intros k Hk. by rewrite Hvol, Hv.
Qed.

Definition everywhere : gmap Z (list (list Z)) → list (Z * Z * list Z) → Z → list Z → Z → Z → Prop := λ _ _ _ _ _ _, True.
#[export] Instance log_buffer_laws : BufferLaws lsys := log_laws everywhere.
#[export] Instance log_operation_laws : OperationLaws lsys := {
  idle := log_idle;
  idle_block := log_idle_block;
  idle_read := log_idle_read;
  op_begin g v s H := let '(ex_intro _ c (ex_intro _ d (ex_intro _ t (ex_intro _ m (ex_intro _ l (ex_intro _ w Hn)))))) := H in log_begin everywhere g v s c d t m l w Hn I;
  op_end g v L s H := log_end everywhere g v L s H
}.
