(* ===== verification/File.v ===== *)
(** * Open files (xv6: file.c)

    A file pointer is an index into the table.  The pipes and the operations of
    the log are interfaces of the layers below. *)

From S2P Require Import Prelude Bytes Bio Log Fs.

Definition NFILE : nat := 100.

(** The pipes, by their pointers; [p_new] is kalloc and the fields of a new one. *)
Class Pipes (P : Type) := {
  p_new : M P (option nat);
  p_read : nat → Z → M P (Z * list Z);
  p_write : nat → list Z → M P Z;
  p_close : nat → bool → M P unit
}.

(** [struct file: type], src/hw3/xv6/file.h:2-2 *)
Inductive ftype := FD_NONE | FD_PIPE | FD_INODE.
#[export] Instance ftype_eq_dec : EqDecision ftype.
Proof. solve_decision. Defined.

(** [struct file], src/hw3/xv6/file.h:1-9 *)
Record file := File { f_type : ftype; f_ref : Z; f_readable : bool; f_writable : bool; f_pipe : nat; f_ip : nat; f_off : Z }.
Definition set_ftype (x : ftype) (f : file) := File x (f_ref f) (f_readable f) (f_writable f) (f_pipe f) (f_ip f) (f_off f).
Definition set_fref (x : Z) (f : file) := File (f_type f) x (f_readable f) (f_writable f) (f_pipe f) (f_ip f) (f_off f).
Definition set_foff (x : Z) (f : file) := File (f_type f) (f_ref f) (f_readable f) (f_writable f) (f_pipe f) (f_ip f) x.

(** [ftable], src/hw3/xv6/file.c:14-17 *)
Record files (B P : Type) := Files { ffs : fsys B; ftable : list file; pipes : P }.
Arguments Files {B P} ffs ftable pipes.
Arguments ffs {B P} f.
Arguments ftable {B P} f.
Arguments pipes {B P} f.

Section file.
Context {B P : Type} `{!Buffers B} `{!Operations B} `{!Pipes P}.
Abbreviation T := (M (files B P)).

Definition set_ffs (x : fsys B) (s : files B P) := Files x (ftable s) (pipes s).
Definition set_ftable (x : list file) (s : files B P) := Files (ffs s) x (pipes s).
Definition set_pipes (x : P) (s : files B P) := Files (ffs s) (ftable s) x.
Definition fs_ {A} (m : M (fsys B) A) : T A := zoom ffs set_ffs m.
Definition pipe_ {A} (m : M P A) : T A := zoom pipes set_pipes m.
Definition begin_ : T unit := fs_ (below bl_begin).
Definition end_ : T unit := fs_ (below bl_end).
Definition get_f (f : nat) : T file := s ← getS; of_option (ftable s !! f).
Definition upd_f (f : nat) (g : file → file) : T unit :=
  x ← get_f f; modify (λ s, set_ftable (<[f := g x]> (ftable s)) s).

(** [filealloc], src/hw3/xv6/file.c:25-41 *)
Definition filealloc : T (option nat) :=
  ft ← gets ftable;
  match list_find (λ f, f_ref f = 0) ft with
  | Some (f, _) => upd_f f (set_fref 1);; mret (Some f)
  | None => mret None
  end.

(** [filedup], src/hw3/xv6/file.c:43-53 *)
Definition filedup (f : nat) : T nat :=
  x ← get_f f;
  panic_unless (1 <=? f_ref x) "filedup";;
  upd_f f (set_fref (f_ref x + 1));;
  mret f.

(** [fileclose], src/hw3/xv6/file.c:55-80 *)
Definition fileclose (f : nat) : T unit :=
  x ← get_f f;
  panic_unless (1 <=? f_ref x) "fileclose";;
  upd_f f (set_fref (f_ref x - 1));;
  if 0 <? f_ref x - 1 then mret tt
  else
    ff ← get_f f;
    upd_f f (λ x, set_ftype FD_NONE (set_fref 0 x));;
    match f_type ff with
    | FD_PIPE => pipe_ (p_close (f_pipe ff) (f_writable ff))
    | FD_INODE => begin_;; fs_ (iput (f_ip ff));; end_
    | FD_NONE => mret tt
    end.

(** [filestat], src/hw3/xv6/file.c:82-93
    The result and what is stored at [st]. *)
Definition filestat (f : nat) : T (Z * option stat) :=
  x ← get_f f;
  match f_type x with
  | FD_INODE =>
      fs_ (ilock (f_ip x));;
      st ← fs_ (stati (f_ip x));
      fs_ (iunlock (f_ip x));;
      mret (0, Some st)
  | _ => mret (-1, None)
  end.

(** Closing the files that pipealloc got before it failed. *)
Definition close_opt (f : option nat) : T unit := match f with Some f => fileclose f | None => mret tt end.

(** [pipealloc], src/hw3/xv6/pipe.c:22-57
    The read end and the write end. *)
Definition pipealloc : T (option (nat * nat)) :=
  f0 ← filealloc;
  f1 ← (match f0 with Some _ => filealloc | None => mret None end);
  match f0, f1 with
  | Some a, Some b =>
      p ← pipe_ p_new;
      match p with
      | Some p =>
          upd_f a (λ x, File FD_PIPE (f_ref x) true false p (f_ip x) (f_off x));;
          upd_f b (λ x, File FD_PIPE (f_ref x) false true p (f_ip x) (f_off x));;
          mret (Some (a, b))
      | None => close_opt f0;; close_opt f1;; mret None
      end
  | _, _ => close_opt f0;; close_opt f1;; mret None
  end.

Context (devread : Z → option (Z → M B (Z * list Z))) (devwrite : Z → option (list Z → M B Z)).

(** [fileread], src/hw3/xv6/file.c:95-113
    The result and the bytes at [addr]. *)
Definition fileread (f : nat) (n : Z) : T (Z * list Z) :=
  x ← get_f f;
  if negb (f_readable x) then mret (-1, [])
  else match f_type x with
  | FD_PIPE => pipe_ (p_read (f_pipe x) n)
  | FD_INODE =>
      fs_ (ilock (f_ip x));;
      r ← fs_ (readi devread (f_ip x) (f_off x) n);
      (if 0 <? fst r then upd_f f (set_foff (u32 (f_off x + fst r))) else mret tt);;
      fs_ (iunlock (f_ip x));;
      mret r
  | FD_NONE => fail (Panic "fileread")
  end.

Definition MAXWRITE : Z := (MAXOPBLOCKS - 1 - 1 - 2) / 2 * 512.

(** [filewrite: one transaction], src/hw3/xv6/file.c:140-145
    Of the bytes [src]; the result is that of writei. *)
Definition filewrite_op (f : nat) (src : list Z) : T Z :=
  x ← get_f f;
  begin_;;
  fs_ (ilock (f_ip x));;
  r ← fs_ (writei devwrite (f_ip x) src (f_off x));
  (if 0 <? r then upd_f f (set_foff (u32 (f_off x + r))) else mret tt);;
  fs_ (iunlock (f_ip x));;
  end_;;
  mret r.

(** [filewrite: the loop], src/hw3/xv6/file.c:135-152
    The result is the final [i]. *)
Fixpoint filewrite_loop (fuel : nat) (f : nat) (src : list Z) (i : Z) : T Z :=
  let n := lenZ src in
  if i <? n then
    match fuel with
    | O => fail OutOfFuel
    | S fuel' =>
        let n1 := n - i in
        let n1 := if MAXWRITE <? n1 then MAXWRITE else n1 in
        r ← filewrite_op f (get (Z.to_nat i) (Z.to_nat n1) src);
        if r <? 0 then mret i
        else
          panic_unless (r =? n1) "short filewrite";;
          filewrite_loop fuel' f src (i + r)
    end
  else mret i.

(** [filewrite], src/hw3/xv6/file.c:115-156
    [src] is the [n] bytes at [addr]. *)
Definition filewrite (f : nat) (src : list Z) : T Z :=
  x ← get_f f;
  if negb (f_writable x) then mret (-1)
  else match f_type x with
  | FD_PIPE => pipe_ (p_write (f_pipe x) src)
  | FD_INODE =>
      i ← filewrite_loop (S (length src)) f src 0;
      mret (if i =? lenZ src then lenZ src else -1)
  | FD_NONE => fail (Panic "filewrite")
  end.
End file.
