(* ===== verification/FileSpec.v ===== *)
(** * Reading and writing open files (xv6: fs.c and file.c)

    filewrite splits its bytes into operations that each fit into the log. *)

From S2P Require Import Prelude Bytes Xstring Bio Log Fs FsInv FsMap FsFile FsNode FsWrite File.

Implicit Types (sb : superblock) (ic : list inode) (v : contents) (own : Z → use) (L : gset Z) (g : Z → Prop) (addrs c : list Z) (i k : inode).

Lemma wpx_zoom {S T A} (get : S → T) (set : T → S → S) (m : M T A) Q R (s : S) :
  wpx m (λ a t, Q a (set t s)) (λ e t, R e (set t s)) (get s) → wpx (zoom get set m) Q R s.
Proof. unfold wpx, zoom. by destruct (m (get s)). Qed.

(** The inode of the cache after ilock, [k] being the one on the disk. *)
Definition locked i k : inode := with_fields (set_ilock true (set_ivalid true i)) k.

(** An inode in use, not locked, that stands for a file (not a device) with the
    bytes [c]; if it is valid, it is the inode of the disk. *)
Record cached sb v own i k c : Prop := {
  ca_ref : 1 ≤ i_ref i;
  ca_free : i_lock i = false;
  ca_disk : on_disk sb v own (i_inum i) k c;
  ca_type : i_type k ≠ 0 ∧ i_type k ≠ T_DEV;
  ca_valid : i_valid i = true → i = with_fields i k
}.

Lemma on_disk_fields sb v own inum i k c : on_disk sb v own inum k c → on_disk sb v own inum (with_fields i k) c.
Proof.
  intros [H1 (x & Hx & Hl & Hd) H3 H4 H5]. constructor; [done| |done|done|done]. exists x. split; [done|]. split; [done|].
  rewrite <- Hd. by destruct i.
Qed.
Lemma on_disk_lock sb v own inum b i c : on_disk sb v own inum i c → on_disk sb v own inum (set_ilock b i) c.
Proof. intros HD. replace (set_ilock b i) with (with_fields (set_ilock b i) i) by (by destruct i). by apply on_disk_fields. Qed.

Section inodes.
Context {B : Type} `{BL : BufferLaws B}.
Implicit Types (b : B).

Lemma wp_ilock g v L b sb own ic ip i k c Q :
  tx g v L b → finv g sb v own → ic !! ip = Some i → cached sb v own i k c →
  (∀ b', tx g v L b' → Q tt (Fsys b' sb (<[ip := locked i k]> ic))) → wp (ilock ip) Q (Fsys b sb ic).
Proof.
  intros Ht HI Hi [Hr Hf HD [Hty _] Hva] HQ. pose proof (lookup_lt_Some _ _ _ Hi) as Hlt. unfold ilock, lock_inode.
  apply wp_bind, (wp_get_i _ _ _ _ i); [done|]. apply wp_bind, wp_panic_unless; [by apply Z.leb_le|].
  apply wp_bind, wp_bind, (wp_get_i _ _ _ _ i); [done|]. rewrite Hf. apply (wp_upd_i _ _ _ _ i); [done|].
  apply wp_bind, (wp_get_i _ _ _ _ (set_ilock true i)); [by rewrite list_lookup_insert_eq|]. cbn [i_valid set_ilock]. destruct (i_valid i) eqn:Ev.
  - apply wp_ret. replace (set_ilock true i) with (locked i k); [by apply HQ|]. rewrite Hva by done. destruct i. cbn in *. by rewrite Ev.
  - destruct HD as [Hin (x & Hx & Hlx & Hd) _ _ _]. apply wp_bind, wp_gets. cbn [fsb i_inum set_ilock].
    apply wp_bind, (wp_block_read g v L); [done|left; by apply (fi_inode _ _ _ _ HI)|]. intros b1 y Hy _ Ht1. rewrite Hx in Hy. injection Hy as <-.
    apply wp_bind, (wp_upd_i _ _ _ _ (set_ilock true i)); [by rewrite list_lookup_insert_eq|]. rewrite list_insert_insert_eq.
    assert (set_ivalid true (of_dinode (IOFF (i_inum (set_ilock true i))) x (set_ilock true i)) = locked i k) as -> by (rewrite <- Hd; by destruct i).
    apply wp_bind, (wp_get_i _ _ _ _ (locked i k)); [by rewrite list_lookup_insert_eq|]. apply wp_panic_unless; [by apply negb_true_iff, Z.eqb_neq|by apply HQ].
Qed.

Lemma wp_iunlock b sb ic ip i Q :
  ic !! ip = Some i → i_lock i = true → 1 ≤ i_ref i → Q tt (Fsys b sb (<[ip := set_ilock false i]> ic)) → wp (iunlock ip) Q (Fsys b sb ic).
Proof using Type.
  intros Hi Hl Hr HQ. apply wp_bind, (wp_get_i _ _ _ _ i); [done|]. apply wp_bind, wp_panic_unless; [by rewrite Hl, (proj2 (Z.leb_le _ _)) by done|].
  by apply (wp_upd_i _ _ _ _ i).
Qed.
End inodes.

(** ** One operation of filewrite *)

Section ops.
Context {B P : Type} `{BL : BufferLaws B} `{!Operations B} `{!Pipes P}.
Implicit Types (b : B) (ps : P) (ft : list file) (f : nat) (x : file).

Lemma wp_get_f S ft ps f x (Q : file → files B P → Prop) : ft !! f = Some x → Q x (Files S ft ps) → wp (get_f f) Q (Files S ft ps).
Proof using Type. intros Hx HQ. unfold get_f. apply wp_bind. unfold getS. by apply wp_of_option with x. Qed.
Lemma wp_upd_f S ft ps f x h (Q : unit → files B P → Prop) : ft !! f = Some x → Q tt (Files S (<[f := h x]> ft) ps) → wp (upd_f f h) Q (Files S ft ps).
Proof using Type. intros Hx HQ. apply wp_bind, (wp_get_f _ _ _ _ x); [done|]. by apply wp_modify. Qed.

(** The budget of a write of at most MAXWRITE bytes: the bitmap, the indirect
    block, at most four blocks of the file, and the inode. *)
Lemma write_budget sb addrs off (src : list Z) :
  lenZ src ≤ MAXWRITE → (src = [] ∨ off mod BLOCK + length src ≤ 4 * BLOCK)%nat ∧ logged sb ∅ addrs + Z.of_nat 4 + 1 ≤ MAXOPBLOCKS.
Proof using Type.
  intros Hs. unfold MAXWRITE, MAXOPBLOCKS, lenZ, BLOCK in *. change ((10 - 1 - 1 - 2) / 2 * 512) with 1536 in Hs. split; [right; ndlia|].
  unfold logged. rewrite union_empty_r_L, size_singleton. destruct (decide _); lia.
Qed.

(** The inode that the operation leaves. *)
Definition after_write addrs c i k : inode := set_ilock false (written addrs c (locked i k)).

Lemma wpx_filewrite_op dw g v b sb own ic ft ps f x i k c src (off : nat) (Q : Z → files B P → Prop) R :
  wp bl_begin (λ _ b', tx g v ∅ b') b → finv g sb v own → ft !! f = Some x → ic !! f_ip x = Some i → cached sb v own i k c → f_off x = Z.of_nat off →
  (off ≤ length c)%nat → (off + length src ≤ (NDIRECT + NINDIRECT) * BLOCK)%nat → 0 < lenZ src ≤ MAXWRITE →
  (∀ b' v' own' addrs' L', let c' := put off src c in let i' := after_write addrs' c' i k in
     tx g v' L' b' → finv g sb v' own' → cached sb v' own' i' i' c' →
     (∀ inum j e, inum ≠ i_inum i → on_disk sb v own inum j e → on_disk sb v' own' inum j e) → gives (i_inum i) own own' →
     wp bl_end (λ _ b'', Q (lenZ src) (Files (Fsys b'' sb (<[f_ip x := i']> ic)) (<[f := set_foff (Z.of_nat (off + length src)) x]> ft) ps)) b') →
  ((∃ own', gives (i_inum i) own own' ∧ ∀ n, own' n ≠ Unused) →
     ∀ b' v' L' ic', tx g v' L' b' → R (Panic "balloc: out of blocks") (Files (Fsys b' sb ic') ft ps)) →
  wpx (filewrite_op dw f src) Q R (Files (Fsys b sb ic) ft ps).
Proof.
  intros Hbeg HI Hx Hi HC Hoff Ho Hmax Hn HQ HR. pose proof HC as [Hr Hf HD [Hty0 Hty] Hva]. pose proof (lookup_lt_Some _ _ _ Hi) as Hlt.
  apply wpx_bind_wp, (wp_get_f _ _ _ _ x); [done|]. apply wpx_bind_wp, wp_zoom, wp_zoom. eapply wp_mono; [exact Hbeg|]. intros [] b1 Ht1. cbn [set_fbuf set_ffs ffs fsb icache ftable pipes].
  apply wpx_bind_wp, wp_zoom, (wp_ilock g v ∅ b1 sb own ic (f_ip x) i k c); [done|done|done|done|]. intros b2 Ht2. cbn [set_ffs ffs ftable pipes].
  apply wpx_bind, wpx_zoom. rewrite Hoff. destruct (write_budget sb (i_addrs k) off src ltac:(lia)) as [Hk Hl].
  apply (wpx_writei dw g v ∅ b2 sb _ own (f_ip x) (locked i k) c src off 4); [exact Ht2|exact HI|by rewrite list_lookup_insert_eq|by apply on_disk_fields|exact Hty|exact Ho|exact Hmax|exact Hk|apply not_elem_of_empty|exact Hl| |].
  2: { intros Hfull b' v' L' ic' Ht'. by apply (HR Hfull b' v' L'). }
  intros b3 v3 own3 addrs3 L3. cbn zeta. change (i_inum (locked i k)) with (i_inum i). intros Ht3 HI3 HD3 Hoth Hg _ _. cbn [set_ffs ffs ftable pipes]. rewrite list_insert_insert_eq.
  set (c' := put off src c) in *. change (Z.of_nat (length src)) with (lenZ src). rewrite (proj2 (Z.ltb_lt 0 _)) by lia.
  apply wpx_bind_wp, (wp_upd_f _ _ _ _ x); [done|]. rewrite u32_small by (unfold lenZ, NDIRECT, NINDIRECT, BLOCK in *; lia). replace (Z.of_nat off + lenZ src) with (Z.of_nat (off + length src)) by (unfold lenZ; lia).
  apply wpx_bind_wp, wp_zoom, (wp_iunlock _ _ _ _ (written addrs3 c' (locked i k))); [by rewrite list_lookup_insert_eq|done|done|]. cbn [set_ffs ffs ftable pipes]. rewrite list_insert_insert_eq.
  change (set_ilock false (written addrs3 c' (locked i k))) with (after_write addrs3 c' i k).
  apply wpx_bind_wp, wp_zoom, wp_zoom. cbn [ffs fbuf]. eapply wp_mono; [apply (HQ b3 v3 own3 addrs3 L3); [done|done| |done|done]|].
  - constructor; [done|done| |done|intros _; by rewrite with_fields_id]. by apply (on_disk_lock sb v3 own3 (i_inum i) false).
  - intros [] b4 HQ4. by apply wpx_ret.
Qed.
End ops.

(** ** filewrite and fileread *)

Section rw.
Context {B P : Type} `{OL : OperationLaws B} `{!Pipes P}.
Implicit Types (b : B) (ps : P) (ft : list file) (f : nat) (x : file).

Lemma put_nil {A} off (c : list A) : put off [] c = c.
Proof using Type. unfold put. cbn. by rewrite Nat.add_0_r, take_drop. Qed.

Lemma get_put_end {A} off (bs l : list A) : (off ≤ length l)%nat → get off (length bs) (put off bs l) = bs.
Proof using Type.
  intros Ho. unfold get, put. rewrite drop_app_ge by (rewrite length_take; lia). rewrite length_take_le, Nat.sub_diag, drop_0 by done. apply take_app_length.
Qed.

Lemma chunk j (src : list Z) :
  (j < length src)%nat →
  let n1 := if MAXWRITE <? lenZ src - Z.of_nat j then MAXWRITE else lenZ src - Z.of_nat j in
  let s1 := get (Z.to_nat (Z.of_nat j)) (Z.to_nat n1) src in
  n1 = lenZ s1 ∧ 0 < lenZ s1 ≤ MAXWRITE ∧ (j + length s1 ≤ length src)%nat ∧ drop j src = s1 ++ drop (j + length s1) src.
Proof using Type.
  intros Hj n1 s1. unfold lenZ in *. unfold MAXWRITE, MAXOPBLOCKS in *. change ((10 - 1 - 1 - 2) / 2 * 512) with 1536 in *.
  assert (0 < n1 ≤ 1536 ∧ n1 ≤ Z.of_nat (length src) - Z.of_nat j) as [Hn Hn2] by (subst n1; destruct (Z.ltb_spec 1536 (Z.of_nat (length src) - Z.of_nat j)); lia).
  assert (length s1 = Z.to_nat n1) as Hl by (subst s1; rewrite Nat2Z.id; apply length_get; lia). rewrite Hl. split; [lia|]. split; [lia|]. split; [lia|].
  subst s1. rewrite Nat2Z.id. unfold get. rewrite <- drop_drop. by rewrite take_drop.
Qed.

Lemma wpx_filewrite_loop fuel dw g sb ps f src : ∀ b v own ic ft x i k c (off j : nat) (Q : Z → files B P → Prop) R,
  idle g v b → finv g sb v own → ft !! f = Some x → ic !! f_ip x = Some i → cached sb v own i k c → f_off x = Z.of_nat off →
  (off ≤ length c)%nat → (off + (length src - j) ≤ (NDIRECT + NINDIRECT) * BLOCK)%nat → (j ≤ length src)%nat → (length src - j < fuel)%nat →
  (∀ b' v' own' i' k', let c' := put off (drop j src) c in
     idle g v' b' → finv g sb v' own' → cached sb v' own' i' k' c' → i_inum i' = i_inum i →
     (∀ inum m e, inum ≠ i_inum i → on_disk sb v own inum m e → on_disk sb v' own' inum m e) → gives (i_inum i) own own' →
     Q (lenZ src) (Files (Fsys b' sb (<[f_ip x := i']> ic)) (<[f := set_foff (Z.of_nat (off + (length src - j))) x]> ft) ps)) →
  ((∃ own', gives (i_inum i) own own' ∧ ∀ n, own' n ≠ Unused) → ∀ s, R (Panic "balloc: out of blocks") s) →
  wpx (filewrite_loop dw fuel f src (Z.of_nat j)) Q R (Files (Fsys b sb ic) ft ps).
Proof.
  induction fuel as [|fuel IH]; intros b v own ic ft x i k c off j Q R Hid HI Hx Hi HC Hoff Ho Hmax Hj Hfuel HQ HR; [lia|]. cbn [filewrite_loop].
  destruct (decide (j = length src)) as [->|Hne].
  { rewrite (proj2 (Z.ltb_ge _ _)) by (unfold lenZ; lia). apply wpx_ret. rewrite drop_all, put_nil, Nat.sub_diag, Nat.add_0_r, <- Hoff in HQ.
    replace (set_foff (f_off x) x) with x in HQ by (by destruct x). rewrite list_insert_id in HQ by done.
    replace ic with (<[f_ip x := i]> ic) by (by apply list_insert_id). apply (HQ b v own i k); [done|done|done|done|done|apply gives_refl]. }
  rewrite (proj2 (Z.ltb_lt _ _)) by (unfold lenZ; lia). destruct (chunk j src ltac:(lia)) as (En & Hs1 & Hj1 & Hd).
  set (n1 := if MAXWRITE <? lenZ src - Z.of_nat j then MAXWRITE else lenZ src - Z.of_nat j) in *. set (s1 := get (Z.to_nat (Z.of_nat j)) (Z.to_nat n1) src) in *. clearbody n1 s1.
  assert (0 < length s1)%nat as Hpos by (unfold lenZ in Hs1; lia). pose proof (lookup_lt_Some _ _ _ Hx) as Hfl. pose proof (lookup_lt_Some _ _ _ Hi) as Hil.
  apply wpx_bind, (wpx_filewrite_op dw g v b sb own ic ft ps f x i k c s1 off); [by apply op_begin|exact HI|exact Hx|exact Hi|exact HC|exact Hoff|exact Ho|lia|exact Hs1| |].
  2: { intros Hfull b' v' L' ic' _. by apply HR. }
  intros b1 v1 own1 addrs1 L1 c1 i1 Ht1 HI1 HC1 Hoth1 Hg1. eapply wp_mono; [by apply (op_end g v1 L1)|]. intros [] b2 Hid2.
  rewrite (proj2 (Z.ltb_ge _ _)) by lia. apply wpx_bind_wp, wp_panic_unless; [rewrite En; apply Z.eqb_refl|]. unfold lenZ at 1. rewrite <- Nat2Z.inj_add.
  pose proof (length_put_max off s1 c Ho) as Hlc.
  apply (IH b2 v1 own1 _ _ (set_foff (Z.of_nat (off + length s1)) x) i1 i1 c1 (off + length s1)%nat (j + length s1)%nat); [exact Hid2|exact HI1|by rewrite list_lookup_insert_eq|by rewrite list_lookup_insert_eq|exact HC1|done|unfold c1; lia|lia|lia|lia| |].
  - intros b3 v3 own3 i3 k3 c3 Hid3 HI3 HC3 Ein3 Hoth3 Hg3. change (f_ip (set_foff (Z.of_nat (off + length s1)) x)) with (f_ip x). rewrite !list_insert_insert_eq.
    assert (c3 = put off (drop j src) c) as E by (unfold c3, c1; rewrite put_put_next by done; by rewrite <- Hd).
    replace (off + length s1 + (length src - (j + length s1)))%nat with (off + (length src - j))%nat by lia. subst c3. rewrite E in HC3.
    apply (HQ b3 v3 own3 i3 k3); [exact Hid3|exact HI3|exact HC3|by rewrite Ein3| |by eapply gives_trans]. intros inum m e Hne' HD. apply Hoth3; [done|]. by apply Hoth1.
  - intros (own3 & Hg3 & Hno). apply HR. exists own3. split; [|done]. by eapply gives_trans.
Qed.

(** Outside of an operation the blocks can be read: an operation that has no room
    left in the log promises no more. *)
Definition no_room : gset Z := list_to_set (seqZ 0 (MAXOPBLOCKS + 1)).
Lemma no_room_size (n : Z) : ¬ Z.of_nat (size ({[n]} ∪ no_room)) ≤ MAXOPBLOCKS.
Proof using Type.
  intros Hs. pose proof (subseteq_size no_room ({[n]} ∪ no_room) ltac:(set_solver)). assert (size no_room = 11%nat) as E by (by vm_compute). unfold MAXOPBLOCKS in *. lia.
Qed.
Program Definition reader : BufferLaws B := {| tx := λ g v L s, idle g v s ∧ L = no_room |}.
Next Obligation. intros g v L s n [Hi _]. by apply (idle_block g v s). Qed.
Next Obligation. intros g v L s n [Hi HL] Hn. eapply wp_mono; [by apply (idle_read g v s)|]. intros x s' [? ?]. done. Qed.
Next Obligation. intros g v L s n f [_ ->] _ Hs. by destruct (no_room_size n). Qed.

Lemma wp_fileread dr g v b sb own ic ft ps f x i k c (off n : nat) (Q : Z * list Z → files B P → Prop) :
  idle g v b → finv g sb v own → ft !! f = Some x → f_readable x = true → f_type x = FD_INODE → ic !! f_ip x = Some i → cached sb v own i k c →
  f_off x = Z.of_nat off → (off ≤ length c)%nat → Z.of_nat off + Z.of_nat n < 2 ^ 32 →
  (∀ b', idle g v b' → let r := Nat.min n (length c - off) in
     Q (Z.of_nat r, get off r c) (Files (Fsys b' sb (<[f_ip x := set_ilock false (locked i k)]> ic)) (<[f := set_foff (Z.of_nat (off + r)) x]> ft) ps)) →
  wp (fileread dr f (Z.of_nat n)) Q (Files (Fsys b sb ic) ft ps).
Proof.
  intros Hid HI Hx Hrd Hty Hi HC Hoff Ho Hn HQ. pose proof HC as [Hr Hf HD [_ Hdev] Hva]. pose proof (lookup_lt_Some _ _ _ Hi) as Hlt. unfold fileread.
  pose proof (file_max _ _ _ _ _ (od_file _ _ _ _ _ _ HD)) as Hmax. unfold NDIRECT, NINDIRECT, BLOCK in Hmax.
  apply wp_bind, (wp_get_f _ _ _ _ x); [done|]. rewrite Hrd, Hty. cbn [negb]. apply wp_bind, wp_zoom.
  apply (wp_ilock (BL := reader) g v no_room b sb own ic (f_ip x) i k c); [done|done|done|done|]. intros b1 [Hid1 _]. cbn [set_ffs ffs ftable pipes].
  apply wp_bind, wp_zoom. rewrite Hoff. apply (wp_readi (BL := reader) dr g v no_room b1 sb _ own (f_ip x) (locked i k) c off n);
    [done|done|by rewrite list_lookup_insert_eq|by apply on_disk_fields|done|done|]. intros b2 [Hid2 _]. cbn [set_ffs ffs ftable pipes]. unfold read_at.
  rewrite (proj2 (Nat.ltb_ge _ _)) by done. cbv zeta. set (r := Nat.min n (length c - off)) in *. cbn [fst]. apply wp_bind.
  assert (wp (if 0 <? Z.of_nat r then upd_f f (set_foff (u32 (Z.of_nat off + Z.of_nat r))) else mret tt)
    (λ _ s, s = Files (Fsys b2 sb (<[f_ip x := locked i k]> ic)) (<[f := set_foff (Z.of_nat (off + r)) x]> ft) ps)
    (Files (Fsys b2 sb (<[f_ip x := locked i k]> ic)) ft ps)) as Hup.
  { rewrite u32_small by lia. rewrite <- Nat2Z.inj_add. destruct (Z.ltb_spec 0 (Z.of_nat r)) as [Hp|Hz]; [by apply (wp_upd_f _ _ _ _ x)|]. apply wp_ret.
    replace (off + r)%nat with off by lia. replace (set_foff (Z.of_nat off) x) with x by (rewrite <- Hoff; by destruct x). by rewrite (list_insert_id ft f x). }
  eapply wp_mono; [exact Hup|]. intros [] s ->. apply wp_bind, wp_zoom, (wp_iunlock _ _ _ _ (locked i k)); [by rewrite list_lookup_insert_eq|done|done|].
  cbn [set_ffs ffs ftable pipes]. rewrite list_insert_insert_eq. apply wp_ret. by apply HQ.
Qed.
End rw.
