(* ===== verification/FsDir.v ===== *)
(** * Directories as finite maps (xv6: fs.c, dirlookup and dirlink) *)

From S2P Require Import Prelude Bytes Xstring Bio Log Fs FsInv FsMap FsFile FsNode FsWrite FileSpec.

Implicit Types (sb : superblock) (ic : list inode) (v : contents) (own : Z → use) (L : gset Z) (g : Z → Prop) (addrs c nm : list Z) (i k : inode).

(** ** Names *)

(** The name in an array of [n] characters: up to its 0, if it has one. *)
Fixpoint cname (n : nat) (l : list Z) : list Z :=
  match n, l with S n', x :: l' => if x =? 0 then [] else x :: cname n' l' | _, _ => [] end.

Lemma strncmp_cname n : ∀ p q, (n ≤ length p)%nat → (n ≤ length q)%nat → ∃ r, strncmp p q n = Some r ∧ (r = 0 ↔ cname n p = cname n q).
Proof.
  induction n as [|n IH]; intros [|x p] [|y q] Hp Hq; cbn in *; try lia; try (by exists 0).
  destruct (Z.eqb_spec x 0) as [->|Hx]; cbn.
  { exists (0 - y). split; [done|]. destruct (Z.eqb_spec y 0) as [->|]; [done|]. split; [lia|done]. }
  destruct (Z.eqb_spec x y) as [->|Hxy].
  - destruct (IH p q ltac:(lia) ltac:(lia)) as (r & Hr & Hz). exists r. split; [done|]. rewrite Hz. rewrite (proj2 (Z.eqb_neq y 0)) by done. split; [by intros ->|by intros [= ->]].
  - exists (x - y). split; [done|]. split; [lia|]. destruct (Z.eqb_spec y 0); [done|]. intros [= ? _]. done.
Qed.

Lemma strncpy_cname n : ∀ off s t, (n ≤ length t)%nat → (off + n ≤ length s)%nat → strncpy_loop off s t n = Some (put off (padded n (cname n t)) s).
Proof.
  induction n as [|n IH]; intros off s t Ht Hs; [change (padded 0 (cname 0 t)) with (@nil Z); rewrite put_nil; by destruct t|].
  destruct t as [|x t]; cbn in Ht; [lia|]. cbn [strncpy_loop cname]. rewrite store_put by lia. cbn [mbind option_bind]. destruct (Z.eqb_spec x 0) as [->|Hx].
  - rewrite zero_fill_spec by (rewrite length_put; cbn; lia). f_equal. unfold padded. cbn [app]. rewrite take_ge by (by rewrite length_replicate).
    apply put_cons. rewrite length_replicate. lia.
  - rewrite IH by (rewrite ?length_put; cbn; lia). f_equal. rewrite put_cons by (rewrite length_padded; lia). f_equal. unfold padded. cbn. f_equal.
    change (0 :: replicate n 0) with (replicate (S n) 0). rewrite !take_app. f_equal. rewrite !take_replicate. f_equal. lia.
Qed.

Lemma cname_padded n l : cname n (padded n (cname n l)) = cname n l.
Proof.
  revert l. induction n as [|n IH]; intros l; [done|]. destruct l as [|x l]; [done|]. cbn [cname]. destruct (Z.eqb_spec x 0) as [|Hx]; [done|].
  unfold padded. cbn. rewrite (proj2 (Z.eqb_neq x 0)) by done. f_equal. rewrite <- (IH l) at 2. unfold padded. f_equal.
  change (0 :: replicate n 0) with (replicate (S n) 0). rewrite !take_app. f_equal. rewrite !take_replicate. f_equal. lia.
Qed.

(** ** Entries *)

Definition entry c (j : nat) : list Z := get (16 * j) 16 c.
Definition names nm (e : list Z) : bool := negb (de_inum e =? 0) && bool_decide (cname DIRSIZ (de_name e) = nm).

(** The directory as a map: the first entry with the name, from entry [j] on. *)
Fixpoint dir_from c nm (n j : nat) : option (nat * Z) :=
  match n with
  | O => None
  | S n' => if names nm (entry c j) then Some (j, de_inum (entry c j)) else dir_from c nm n' (S j)
  end.
Definition dir_find c nm : option (nat * Z) := dir_from c nm (length c / 16) 0.
Definition dir_map c nm : option Z := snd <$> dir_find c nm.

(** The first unused entry, or the one behind the last. *)
Fixpoint free_from c (n j : nat) : nat :=
  match n with O => j | S n' => if de_inum (entry c j) =? 0 then j else free_from c n' (S j) end.
Definition free_entry c : nat := free_from c (length c / 16) 0.

Lemma free_from_spec c n : ∀ j, let r := free_from c n j in (j ≤ r ≤ j + n)%nat ∧ ((r < j + n)%nat → de_inum (entry c r) = 0).
Proof.
  induction n as [|n IH]; intros j; cbn [free_from]; [split; lia|]. destruct (Z.eqb_spec (de_inum (entry c j)) 0); [split; [lia|done]|].
  destruct (IH (S j)) as [H1 H2]. split; [lia|]. intros H. apply H2. lia.
Qed.

Lemma dir_from_None c nm n : ∀ j, dir_from c nm n j = None ↔ ∀ a, (j ≤ a < j + n)%nat → names nm (entry c a) = false.
Proof.
  induction n as [|n IH]; intros j; cbn [dir_from]; [split; [lia|done]|]. destruct (names nm (entry c j)) eqn:E.
  - split; [done|]. intros H. rewrite H in E by lia. done.
  - rewrite IH. split; intros H a Ha; [destruct (decide (a = j)) as [->|]; [done|]|]; apply H; lia.
Qed.
Lemma dir_from_first c nm n r : ∀ j, (∀ a, (j ≤ a < r)%nat → names nm (entry c a) = false) → names nm (entry c r) = true → (j ≤ r < j + n)%nat →
  dir_from c nm n j = Some (r, de_inum (entry c r)).
Proof.
  induction n as [|n IH]; intros j Hno Hr Hj; [lia|]. cbn [dir_from]. destruct (decide (r = j)) as [->|Hne]; [by rewrite Hr|].
  rewrite Hno by lia. apply IH; [intros a Ha; apply Hno; lia|done|lia].
Qed.
Lemma dir_from_ext c c' nm n : ∀ j, (∀ a, (j ≤ a < j + n)%nat → entry c' a = entry c a ∨ (names nm (entry c' a) = false ∧ names nm (entry c a) = false)) →
  dir_from c' nm n j = dir_from c nm n j.
Proof.
  induction n as [|n IH]; intros j He; [done|]. cbn [dir_from]. assert (dir_from c' nm n (S j) = dir_from c nm n (S j)) as -> by (apply IH; intros a Ha; apply He; lia).
  destruct (He j ltac:(lia)) as [->|[-> ->]]; done.
Qed.
Lemma dir_from_S c nm n : ∀ j, dir_from c nm (S n) j = match dir_from c nm n j with Some r => Some r | None => dir_from c nm 1 (j + n) end.
Proof.
  induction n as [|n IH]; intros j; [by rewrite Nat.add_0_r|]. cbn [dir_from]. destruct (names nm (entry c j)); [done|]. change (dir_from c nm (S n) (S j) = match dir_from c nm n (S j) with Some r => Some r | None => dir_from c nm 1 (j + S n) end).
  rewrite IH. by rewrite Nat.add_succ_r.
Qed.

(** A new entry. *)
Definition dirent (inum : Z) name : list Z := le_enc 2 inum ++ padded DIRSIZ (cname DIRSIZ name).

Lemma dirent_fields inum name : 0 ≤ inum < 2 ^ 16 → de_inum (dirent inum name) = inum ∧ cname DIRSIZ (de_name (dirent inum name)) = cname DIRSIZ name ∧ length (dirent inum name) = 16%nat.
Proof.
  intros Hi. unfold dirent. split_and!.
  - unfold de_inum, get_u16. change (get 0 2 (le_enc 2 inum ++ _)) with (le_enc 2 inum). rewrite le_dec_enc. by apply Z.mod_small.
  - unfold de_name. rewrite drop_app_ge by (rewrite length_le_enc; lia). rewrite length_le_enc. change (2 - 2)%nat with 0%nat. rewrite drop_0. apply cname_padded.
  - rewrite length_app, length_le_enc, length_padded. done.
Qed.

Section link.
Context (c name : list Z) (inum : Z).
Hypotheses (Hc : (length c mod 16 = 0)%nat) (Hi : 0 < inum < 2 ^ 16) (Hno : dir_find c (cname DIRSIZ name) = None).
Abbreviation N := (length c / 16)%nat.
Abbreviation j := (free_entry c).
Definition linked : list Z := put (16 * j) (dirent inum name) c.

Lemma free_range : (j ≤ N)%nat ∧ ((j < N)%nat → de_inum (entry c j) = 0).
Proof using Type. clear Hc Hi Hno. destruct (free_from_spec c N 0) as [H1 H2]. fold (free_entry c) in *. split; [lia|]. intros H. apply H2. lia. Qed.
Lemma linked_length : length linked = Nat.max (length c) (16 * j + 16) ∧ (length linked / 16 = Nat.max N (S j))%nat ∧ (length linked mod 16 = 0)%nat.
Proof using Hc Hi.
  destruct free_range as [Hj _]. unfold linked. assert (16 * j ≤ length c)%nat as Hle by ndlia. rewrite length_put_max by done. destruct (dirent_fields inum name ltac:(lia)) as (_ & _ & ->).
  split; [done|]. ndlia.
Qed.
Lemma linked_entry a : (a < Nat.max N (S j))%nat → entry linked a = if decide (a = j) then dirent inum name else entry c a.
Proof using Hc Hi.
  intros Ha. destruct free_range as [Hj _]. assert (16 * j ≤ length c)%nat as Hle by ndlia. destruct (dirent_fields inum name ltac:(lia)) as (_ & _ & Hl).
  unfold entry, linked. destruct (decide (a = j)) as [->|Hne]; [pose proof (get_put_end (16 * j) (dirent inum name) c Hle) as E; by rewrite Hl in E|]. assert (a < N)%nat as HaN by lia.
  apply list_eq. intros b. rewrite !lookup_get. destruct (decide (b < 16)%nat) as [Hb|]; [|done]. unfold put. rewrite Hl. destruct (decide (a < j)%nat).
  - rewrite lookup_app_l by (rewrite length_take; lia). rewrite lookup_take_lt by lia. done.
  - rewrite lookup_app_r by (rewrite length_take; lia). rewrite length_take_le by done. rewrite lookup_app_r by lia. rewrite Hl, lookup_drop. f_equal. lia.
Qed.
Lemma linked_map nm : dir_map linked nm = if decide (nm = cname DIRSIZ name) then Some inum else dir_map c nm.
Proof using Hc Hi Hno.
  destruct free_range as [Hj Hfree]. destruct linked_length as (_ & HN & _). destruct (dirent_fields inum name ltac:(lia)) as (Hde & Hdn & _).
  unfold dir_map, dir_find in *. rewrite HN. rewrite (dir_from_None _ _ _ 0) in Hno. destruct (decide (nm = cname DIRSIZ name)) as [->|Hne].
  - rewrite (dir_from_first linked (cname DIRSIZ name) _ j 0); [| | |lia].
    + rewrite linked_entry, decide_True by (done || lia). by rewrite Hde.
    + intros a Ha. rewrite linked_entry, decide_False by lia. apply Hno. lia.
    + rewrite linked_entry, decide_True by (done || lia). unfold names. rewrite Hde, Hdn, (proj2 (Z.eqb_neq _ _)) by lia. by rewrite bool_decide_eq_true_2.
  - f_equal. assert (names nm (dirent inum name) = false) as Hnew by (unfold names; rewrite Hdn, bool_decide_eq_false_2 by congruence; apply andb_false_r).
    destruct (decide (j < N)%nat) as [Hlt|Hge].
    + rewrite Nat.max_l by lia. apply dir_from_ext. intros a Ha. rewrite linked_entry by lia. destruct (decide (a = j)) as [->|]; [right|by left].
      split; [done|]. unfold names. by rewrite Hfree.
    + assert (j = N) as EN by lia. rewrite EN, Nat.max_r, dir_from_S by lia. cbn [dir_from Nat.add]. rewrite (linked_entry N), decide_True by lia. rewrite Hnew.
      rewrite (dir_from_ext c linked nm N 0); [by destruct (dir_from c nm N 0)|]. intros a Ha. left. rewrite linked_entry, decide_False by lia. done.
Qed.
End link.

(** ** The code *)

Section code.
Context {B : Type} `{BL : BufferLaws B} (dr : Z → option (Z → M B (Z * list Z))) (dw : Z → option (list Z → M B Z)).
Implicit Types (b : B).

(** A directory: its size is a number of entries. *)
Record directory sb v own ic (dp : nat) i c : Prop := {
  dr_slot : ic !! dp = Some i;
  dr_disk : on_disk sb v own (i_inum i) i c;
  dr_type : i_type i = T_DIR;
  dr_size : (length c mod 16 = 0)%nat
}.

Lemma wp_read_entry g v L b sb own ic dp i c (j : nat) Q :
  tx g v L b → finv g sb v own → directory sb v own ic dp i c → (j < length c / 16)%nat →
  (∀ b', tx g v L b' → Q (DIRENT, entry c j) (Fsys b' sb ic)) → wp (readi dr dp (Z.of_nat (16 * j)) DIRENT) Q (Fsys b sb ic).
Proof.
  intros Ht HI [Hi HD Hty Hsz] Hj HQ. pose proof (file_max _ _ _ _ _ (od_file _ _ _ _ _ _ HD)) as Hmax. unfold NDIRECT, NINDIRECT, BLOCK in Hmax.
  assert (16 * j + 16 ≤ length c)%nat as Hle by ndlia. change DIRENT with (Z.of_nat 16).
  apply (wp_readi dr g v L b sb ic own dp i c (16 * j) 16); [done|done|done|done|by rewrite Hty|lia|]. intros b' Ht'. unfold read_at.
  rewrite (proj2 (Nat.ltb_ge _ _)) by lia. cbv zeta. replace (Nat.min 16 (length c - 16 * j)) with 16%nat by lia. by apply HQ.
Qed.

Lemma wp_dirlookup_loop fuel g v L sb own ic dp i c name : ∀ b (j : nat) Q,
  tx g v L b → finv g sb v own → directory sb v own ic dp i c → (DIRSIZ ≤ length name)%nat → (j ≤ length c / 16)%nat → (length c / 16 - j < fuel)%nat →
  (∀ b', tx g v L b' → Q ((λ r, (Z.of_nat (16 * r.1), r.2)) <$> dir_from c (cname DIRSIZ name) (length c / 16 - j) j) (Fsys b' sb ic)) →
  wp (dirlookup_loop dr fuel dp name (Z.of_nat (16 * j))) Q (Fsys b sb ic).
Proof.
  induction fuel as [|fuel IH]; intros b j Q Ht HI Hdir Hname Hj Hfuel HQ; [lia|]. pose proof Hdir as [Hi HD Hty Hsz].
  pose proof (file_max _ _ _ _ _ (od_file _ _ _ _ _ _ HD)) as Hmax. unfold NDIRECT, NINDIRECT, BLOCK in Hmax. cbn [dirlookup_loop].
  apply wp_bind, (wp_get_i _ _ _ _ i); [done|]. rewrite (od_size _ _ _ _ _ _ HD). destruct (decide (j = length c / 16)%nat) as [E|Hne].
  { rewrite (proj2 (Z.ltb_ge _ _)) by ndlia. apply wp_ret. replace (length c / 16 - j)%nat with 0%nat in HQ by lia. by apply HQ. }
  rewrite (proj2 (Z.ltb_lt _ _)) by ndlia. apply wp_bind, (wp_read_entry g v L b sb own ic dp i c j); [done|done|done|lia|]. intros b1 Ht1.
  apply wp_bind, wp_panic_unless; [done|].
  assert (wp (dirlookup_loop dr fuel dp name (u32 (Z.of_nat (16 * j) + DIRENT)))
    (λ r s, ∃ b', tx g v L b' ∧ s = Fsys b' sb ic ∧ r = (λ r, (Z.of_nat (16 * r.1), r.2)) <$> dir_from c (cname DIRSIZ name) (length c / 16 - S j) (S j)) (Fsys b1 sb ic)) as Hnext.
  { replace (u32 (Z.of_nat (16 * j) + DIRENT)) with (Z.of_nat (16 * S j)) by (unfold DIRENT; rewrite u32_small; ndlia).
    apply IH; [done|done|done|done|lia|lia|]. intros b' Ht'. by exists b'. }
  replace (length c / 16 - j)%nat with (S (length c / 16 - S j)) in HQ by lia. cbn [dir_from] in HQ.
  assert (length (entry c j) = 16%nat) as Hle by (unfold entry; rewrite length_get; ndlia). unfold names in HQ.
  destruct (Z.eqb_spec (de_inum (entry c j)) 0) as [Hz|Hnz]; cbn [negb andb] in HQ.
  { eapply wp_mono; [exact Hnext|]. intros r s (b' & Ht' & -> & ->). by apply HQ. }
  destruct (strncmp_cname DIRSIZ name (de_name (entry c j)) Hname ltac:(unfold de_name, DIRSIZ; rewrite length_drop; lia)) as (r & Hr & Hr0).
  apply wp_bind, wp_of_option with r; [done|]. destruct (Z.eqb_spec r 0) as [->|Hrn].
  - rewrite bool_decide_eq_true_2 in HQ by (symmetry; by apply Hr0). apply wp_ret. by apply HQ.
  - rewrite bool_decide_eq_false_2 in HQ by (intros E; apply Hrn, Hr0; done). eapply wp_mono; [exact Hnext|]. intros r' s (b' & Ht' & -> & ->). by apply HQ.
Qed.

Lemma wp_dirlink_loop fuel g v L sb own ic dp i c : ∀ b (j : nat) Q,
  tx g v L b → finv g sb v own → directory sb v own ic dp i c → (j ≤ length c / 16)%nat → (length c / 16 - j < fuel)%nat →
  (∀ b', tx g v L b' → Q (Z.of_nat (16 * free_from c (length c / 16 - j) j)) (Fsys b' sb ic)) →
  wp (dirlink_loop dr fuel dp (Z.of_nat (16 * j))) Q (Fsys b sb ic).
Proof.
  induction fuel as [|fuel IH]; intros b j Q Ht HI Hdir Hj Hfuel HQ; [lia|]. pose proof Hdir as [Hi HD Hty Hsz]. cbn [dirlink_loop].
  apply wp_bind, (wp_get_i _ _ _ _ i); [done|]. rewrite (od_size _ _ _ _ _ _ HD). destruct (decide (j = length c / 16)%nat) as [E|Hne].
  { rewrite (proj2 (Z.ltb_ge _ _)) by ndlia. apply wp_ret. replace (length c / 16 - j)%nat with 0%nat in HQ by lia. by apply HQ. }
  rewrite (proj2 (Z.ltb_lt _ _)) by ndlia. apply wp_bind, (wp_read_entry g v L b sb own ic dp i c j); [done|done|done|lia|]. intros b1 Ht1.
  apply wp_bind, wp_panic_unless; [done|]. replace (length c / 16 - j)%nat with (S (length c / 16 - S j)) in HQ by lia. cbn [free_from] in HQ.
  destruct (de_inum (entry c j) =? 0); [apply wp_ret; by apply HQ|].
  replace (Z.of_nat (16 * j) + DIRENT) with (Z.of_nat (16 * S j)) by (unfold DIRENT; lia). apply IH; [done|done|done|lia|lia|done].
Qed.

Lemma wp_dirlookup_find g v L b sb own ic dp i c name (Q : option (Z * Z) → fsys B → Prop) :
  tx g v L b → finv g sb v own → directory sb v own ic dp i c → (DIRSIZ ≤ length name)%nat →
  (∀ b', tx g v L b' → Q ((λ r, (Z.of_nat (16 * r.1), r.2)) <$> dir_find c (cname DIRSIZ name)) (Fsys b' sb ic)) →
  wp (dirlookup_loop dr (Z.to_nat (i_size i / DIRENT + 1)) dp name 0) Q (Fsys b sb ic).
Proof.
  intros Ht HI Hdir Hname HQ. pose proof (od_size _ _ _ _ _ _ (dr_disk _ _ _ _ _ _ _ Hdir)) as Hs.
  apply (wp_dirlookup_loop _ g v L sb own ic dp i c name b 0); [done|done|done|done|lia|rewrite Hs; unfold DIRENT; ndlia|]. by rewrite Nat.sub_0_r.
Qed.

(** A reference to an inode: its own slot, or an empty one. *)
Lemma wpx_iget b sb ic dev inum (Q : nat → fsys B → Prop) (R : failure → fsys B → Prop) :
  (∀ ip i', ic !! ip = Some i' → (0 < i_ref i' ∧ i_dev i' = dev ∧ i_inum i' = inum) → Q ip (Fsys b sb (<[ip := set_iref (i_ref i' + 1) i']> ic))) →
  (∀ ip i', ic !! ip = Some i' → i_ref i' = 0 → (∀ n j, ic !! n = Some j → ¬ (0 < i_ref j ∧ i_dev j = dev ∧ i_inum j = inum)) →
     Q ip (Fsys b sb (<[ip := Inode dev inum 1 (i_lock i') false (i_type i') (i_major i') (i_minor i') (i_nlink i') (i_size i') (i_addrs i')]> ic))) →
  (Forall (λ i', i_ref i' ≠ 0) ic → R (Panic "iget: no inodes") (Fsys b sb ic)) →
  wpx (iget dev inum) Q R (Fsys b sb ic).
Proof using Type.
  intros Hold Hnew Hfull. unfold iget. apply wpx_bind_wp, wp_gets. cbn [icache]. destruct (list_find _ ic) as [[ip i']|] eqn:E.
  - apply list_find_Some in E as (Hi & Hp & _). apply wpx_bind_wp, (wp_upd_i _ _ _ _ i'); [done|]. apply wpx_ret. by apply Hold.
  - apply list_find_None in E. destruct (list_find (λ i, i_ref i = 0) ic) as [[ip i']|] eqn:E2.
    + apply list_find_Some in E2 as (Hi & Hp & _). apply wpx_bind_wp, (wp_upd_i _ _ _ _ i'); [done|]. apply wpx_ret. apply Hnew; [done|done|].
      intros n j Hj. rewrite Forall_lookup in E. by apply (E n).
    + apply list_find_None in E2. by apply wpx_fail, Hfull.
Qed.

Lemma wpx_dirlookup g v L b sb own ic dp i c name (Q : option (nat * Z) → fsys B → Prop) (R : failure → fsys B → Prop) :
  tx g v L b → finv g sb v own → directory sb v own ic dp i c → (DIRSIZ ≤ length name)%nat →
  (∀ b', tx g v L b' → match dir_find c (cname DIRSIZ name) with
     | None => Q None (Fsys b' sb ic)
     | Some (j, inum) => wpx (iget (i_dev i) inum) (λ ip s, Q (Some (ip, Z.of_nat (16 * j))) s) R (Fsys b' sb ic)
     end) → wpx (dirlookup dr dp name) Q R (Fsys b sb ic).
Proof.
  intros Ht HI Hdir Hname HQ. pose proof Hdir as [Hi HD Hty Hsz]. unfold dirlookup. apply wpx_bind_wp, (wp_get_i _ _ _ _ i); [done|].
  apply wpx_bind_wp, wp_panic_unless; [by rewrite Hty|]. apply wpx_bind_wp, (wp_dirlookup_find g v L b sb own ic dp i c name); [done|done|done|done|].
  intros b' Ht'. specialize (HQ b' Ht'). destruct (dir_find c (cname DIRSIZ name)) as [[j inum]|]; cbn; [|by apply wpx_ret].
  apply wpx_bind. eapply wpx_mono; [exact HQ| |done]. intros ip s HQ'. by apply wpx_ret.
Qed.

Lemma wpx_dirlink g v L b sb own ic dp i c name inum (Q : Z → fsys B → Prop) R :
  tx g v L b → finv g sb v own → directory sb v own ic dp i c → (DIRSIZ ≤ length name)%nat → 0 < inum < 2 ^ 16 → dir_find c (cname DIRSIZ name) = None →
  (length c + 16 ≤ (NDIRECT + NINDIRECT) * BLOCK)%nat → 0 ∉ L → logged sb L (i_addrs i) + 2 ≤ MAXOPBLOCKS →
  (∀ b' v' own' i' L', let c' := linked c name inum in
     tx g v' L' b' → finv g sb v' own' → directory sb v' own' (<[dp := i']> ic) dp i' c' → i_inum i' = i_inum i → i_dev i' = i_dev i →
     (∀ n j e, n ≠ i_inum i → on_disk sb v own n j e → on_disk sb v' own' n j e) → Q 0 (Fsys b' sb (<[dp := i']> ic))) →
  ((∃ own', gives (i_inum i) own own' ∧ ∀ n, own' n ≠ Unused) → on_full g sb R) →
  wpx (dirlink dr dw dp name inum) Q R (Fsys b sb ic).
Proof.
  intros Ht HI Hdir Hname Hin Hno Hmax H0 Hl HQ HR. pose proof Hdir as [Hi HD Hty Hsz]. pose proof (od_size _ _ _ _ _ _ HD) as Hs. unfold dirlink.
  destruct (free_range c) as [Hj _]. destruct (linked_length c name inum Hsz Hin) as (_ & _ & Hsz'). destruct (dirent_fields inum name ltac:(lia)) as (_ & _ & Hld).
  apply wpx_bind, (wpx_dirlookup g v L b sb own ic dp i c name); [done|done|done|done|]. intros b1 Ht1. rewrite Hno.
  apply wpx_bind_wp, (wp_get_i _ _ _ _ i); [done|].
  apply wpx_bind_wp, (wp_dirlink_loop _ g v L sb own ic dp i c b1 0); [done|done|done|lia|rewrite Hs; unfold DIRENT; ndlia|]. rewrite Nat.sub_0_r. fold (free_entry c). intros b2 Ht2.
  unfold strncpy. rewrite Nat2Z.id, strncpy_cname by (rewrite ?length_replicate; unfold DIRSIZ in *; lia).
  apply wpx_bind_wp, wp_of_option with (padded DIRSIZ (cname DIRSIZ name)).
  { f_equal. unfold put. rewrite length_padded, take_0, drop_ge by (rewrite length_replicate; lia). by rewrite app_nil_r. }
  fold (dirent inum name). assert (16 * free_entry c ≤ length c)%nat as Hle by ndlia.
  apply wpx_bind, (wpx_writei dw g v L b2 sb ic own dp i c (dirent inum name) (16 * free_entry c) 1); [done|done|done|done|by rewrite Hty|done|rewrite Hld; lia|right; rewrite Hld; unfold BLOCK; ndlia|done|lia| |done].
  intros b3 v3 own3 addrs3 L3 c' Ht3 HI3 HD3 Hoth _ _ _. rewrite Hld. apply wpx_bind_wp, wp_panic_unless; [done|]. apply wpx_ret.
  pose proof (lookup_lt_Some _ _ _ Hi) as Hlt. apply (HQ b3 v3 own3 (written addrs3 c' i) L3); [done|done| |done|done|done].
  constructor; [by rewrite list_lookup_insert_eq|done|done|done].
Qed.
End code.
