(* ===== verification/FileCrash.v ===== *)
(** * Crashes in the middle of a file write (xv6: file.c on fs.c, log.c, bio.c)

    An operation of filewrite, on the real log and buffer cache, whose disk
    writes the machine may stop after. *)

From S2P Require Import Prelude Bytes Xstring Bio BioList BioSpec BioOps Log LogSpec LogLoops LogCrash LogCommit LogRecover LogThms LogTx.
From S2P Require Import Fs FsInv FsMap FsFile FsNode FsWrite FsLog File FileSpec.

Implicit Types (sb : superblock) (ic : list inode) (v : contents) (own : Z → use) (g : Z → Prop) (c : list Z) (i k : inode).

(** ** What the file system sees of the disk *)

Lemma finv_home g sb v v' own : finv g sb v own → (∀ n, home g n → v' n = v n) → finv g sb v' own.
Proof.
  intros [H1 H2 H3 (H4 & H5 & x & Hx & Hsb) H6 H7 H8] Hv. constructor; [done|done|done| | |done|done].
  - split; [done|]. split; [done|]. exists x. rewrite Hv by (by right). done.
  - intros n y Hn. rewrite Hv by (left; apply H2). by apply H6.
Qed.
Lemma on_disk_home g sb v v' own inum k c :
  finv g sb v own → (∀ n, home g n → v' n = v n) → on_disk sb v own inum k c → on_disk sb v' own inum k c.
Proof.
  intros HI Hv [Hn Hx HF Hs HB]. destruct (file_view v own v' own inum (i_addrs k) c) as [HF' HB']; [done| |done|done|].
  - intros n Hb. apply Hv. left. destruct (decide (0 ≤ n < sb_size sb)) as [Hin|Hout]; [apply (fi_home _ _ _ _ HI n Hin)|rewrite (fi_out _ _ _ _ HI n Hout) in Hb; done].
    intros E. by rewrite E in Hb.
  - constructor; [done| |done|done|done]. rewrite Hv; [done|]. left. by apply (fi_inode _ _ _ _ HI).
Qed.

(** ** The disk writes of a run *)

Section crash.
Context {P : Type} `{!Pipes P}.
Implicit Types (ps : P) (ft : list file) (f : nat) (x : file).

Abbreviation trace_of s := (trace (io (fbuf (ffs s)))).
Definition fs_writes {A} (p : M (files lsys P) A) (s : files lsys P) : list (Z * Z * list Z) :=
  drop (length (trace_of s)) (trace_of (final p s)).

(** What the disk may be after the operation: the file is as before or as
    written, and every other file is as before. *)
Definition old_or_new g sb v own (inum : Z) c c' v' : Prop :=
  ∃ own' k', finv g sb v' own' ∧ (on_disk sb v' own' inum k' c ∨ on_disk sb v' own' inum k' c') ∧
    ∀ n j e, n ≠ inum → on_disk sb v own n j e → on_disk sb v' own' n j e.

Lemma old_or_new_old g sb v v' own inum k c c' :
  finv g sb v own → (∀ n, home g n → v' n = v n) → on_disk sb v own inum k c → old_or_new g sb v own inum c c' v'.
Proof.
  intros HI Hv HD. exists own, k. split; [by apply (finv_home g sb v)|]. split; [left; by apply (on_disk_home g sb v)|].
  intros n j e _. by apply (on_disk_home g sb v).
Qed.

Lemma old_or_new_home g sb v own inum c c' v1 v' :
  old_or_new g sb v own inum c c' v1 → (∀ n, home g n → v' n = v1 n) → old_or_new g sb v own inum c c' v'.
Proof.
  intros (own' & k' & HI & HD & Hoth) Hv. exists own', k'. split; [by apply (finv_home g sb v1)|].
  split; [destruct HD as [HD|HD]; [left|right]; by apply (on_disk_home g sb v1)|]. intros n j e Hne Hn. apply (on_disk_home g sb v1); [done|done|by apply Hoth].
Qed.

Lemma none_outside g v b cb d t m l w n : op_none g v b cb d t m l w → home g n → ¬ (start l ≤ n < start l + log_size l).
Proof.
  intros HN [Hn| ->]; [by apply (on_home _ _ _ _ _ _ _ _ _ HN)|]. destruct (dl_area _ _ _ _ (rd_disk _ _ _ _ _ (on_ready _ _ _ _ _ _ _ _ _ HN))). lia.
Qed.

Lemma filewrite_op_crash dw g sb own b cb d t m l w ic ft ps f x i k c src (off : nat) n d' m' :
  op_none g (block_at d 1) b cb d t m l w → finv g sb (block_at d 1) own →
  ft !! f = Some x → ic !! f_ip x = Some i → cached sb (block_at d 1) own i k c → f_off x = Z.of_nat off →
  (off ≤ length c)%nat → (off + length src ≤ (NDIRECT + NINDIRECT) * BLOCK)%nat → 0 < lenZ src ≤ MAXWRITE →
  crashes (replay d (take n (fs_writes (filewrite_op dw f src) (Files (Fsys b sb ic) ft ps)))) d' →
  wp (initlog 1) (λ _ s', old_or_new g sb (block_at d 1) own (i_inum i) c (put off src c) (block_at (disks (io s')) 1)) (boot d' m').
Proof.
  intros HN HI Hx Hi HC Hoff Ho Hmax Hs Hcr. pose proof (ca_disk _ _ _ _ _ _ HC) as HD.
  set (K := λ d' t' m' (w' : list Z) S sz, d' = d ∧ t' = t ∧ m' = m ∧ S = start l ∧ sz = log_size l).
  set (s := Files (Fsys b sb ic) ft ps) in *.
  set (X := λ (s' : files lsys P), ∃ cb1 l1 cb2 d2 W, commits cb1 d m l1 cb2 d2 W ∧ start l1 = start l ∧ log_size l1 = log_size l ∧ trace_of s' = t ++ W ∧
    old_or_new g sb (block_at d 1) own (i_inum i) c (put off src c) (vol cb1 d)).
  assert (wpx (filewrite_op dw f src) (λ _, X) (λ _, X) s) as Hrun.
  { apply (wpx_filewrite_op (BL := log_laws K) dw g (block_at d 1) b sb own ic ft ps f x i k c src off); [|exact HI|exact Hx|exact Hi|exact HC|exact Hoff|exact Ho|exact Hmax|exact Hs| |].
    - by apply (log_begin K g (block_at d 1) b cb d t m l w).
    - intros b1 v1 own1 addrs1 L1 c1 i1 (cb1 & d1 & t1 & m1 & l1 & w1 & bs & [-> HR HL Hv Hg [Hout Hco] Hroom (-> & -> & -> & E1 & E2)]) HI1 HC1 Hoth _.
      apply (wp_end_op cb1 d t m l1 bs w1); [done|done|done|]. intros cb2 d2 W HCm. exists cb1, l1, cb2, d2, W. split; [done|]. split; [done|]. split; [done|]. split; [done|].
      assert (∀ n, home g n → vol cb1 d n = v1 n) as Hv' by (intros j Hj; by rewrite Hv). pose proof (ca_disk _ _ _ _ _ _ HC1) as HD1.
      exists own1, i1. split; [by apply (finv_home g sb v1)|]. split; [right; by apply (on_disk_home g sb v1)|].
      intros j k' e Hne HDj. apply (on_disk_home g sb v1); [done|done|]. by apply Hoth.
    - intros _ b1 v1 L1 ic1 (cb1 & d1 & t1 & m1 & l1 & w1 & bs & [-> _ _ _ _ _ _ (-> & -> & -> & _)]).
      exists cb, l, cb, d, []. split; [apply commits_nil, HN|]. split; [done|]. split; [done|]. split; [cbn; by rewrite app_nil_r|].
      apply (old_or_new_old g sb (block_at d 1) _ own _ k); [done| |done]. intros j Hj. symmetry. by apply (on_view _ _ _ _ _ _ _ _ _ HN). }
  assert (X (final (filewrite_op dw f src) s)) as (cb1 & l1 & cb2 & d2 & W & HCm & E1 & E2 & Htr & Hon) by (revert Hrun; unfold wpx, final; by destruct (filewrite_op dw f src s)).
  assert (fs_writes (filewrite_op dw f src) s = W) as EW by (unfold fs_writes; rewrite Htr; subst s; cbn; rewrite (on_state _ _ _ _ _ _ _ _ _ HN); cbn; apply drop_app_length).
  rewrite EW in Hcr. eapply wp_mono; [by apply (commits_crash cb1 d m l1 cb2 d2 W n)|]. rewrite E1, E2. intros [] s' [Hold|Hnew].
  - apply (old_or_new_old g sb (block_at d 1) _ own _ k); [done| |done]. intros j Hj. apply Hold. by eapply none_outside.
  - apply (old_or_new_home g sb _ own _ _ _ (vol cb1 d)); [done|]. intros j Hj. apply Hnew. by eapply none_outside.
Qed.
End crash.
