(* ===== verification/FileDemo.v ===== *)
(** * A disk with one empty file, and the kernel booted on it *)

From S2P Require Import Prelude Bytes Xstring Bio BioList BioSpec BioOps Log LogSpec LogLoops LogCrash LogCommit LogRecover LogThms LogTx.
From S2P Require Import Fs FsInv FsMap FsFile FsNode FsWrite FsLog File FileSpec FileCrash.

Lemma boot_idle (g : Z → Prop) d m S size :
  disk_log d S size [] → MAXOPBLOCKS + 1 < size → (∀ k, g k → 0 ≤ k < FSSIZE ∧ ¬ (S ≤ k < S + size) ∧ k ≠ 1) →
  wp (initlog 1) (λ _ s', ∃ cb d' t l, op_none g (block_at d' 1) s' cb d' t m l [] ∧ ∀ k, home g k → block_at d' 1 k = block_at d 1 k) (boot d m).
Proof.
  intros HD Hsz Hg. destruct (booted_quiet (replicate BSIZE 0) d m (dl_disk _ _ _ _ HD)) as [Hq Hs]. rewrite boot_eq.
  apply (wp_initlog _ _ _ _ _ _ S size []); [done|done|rewrite Hs; lia|done|].
  intros c' d' l' W HR Hq' Hs' HL E1 E2 E3 E4. rewrite Hs in Hs'. exists c', d', W, l'.
  pose proof (rc_done _ _ _ _ _ HR) as HD'. destruct (dl_area _ _ _ _ HD) as [HS1 HS2]. split.
  - constructor; [done| | | |done|by rewrite E2].
    + constructor; [|done|by rewrite E1, E2| |lia].
      * revert Hq'. apply quiet_ext. intros k. by rewrite elem_of_nil.
      * rewrite E1, E2. apply HD'.
    + intros k _. symmetry. by apply (quiet_disk c' d' m).
    + intros k Hk. rewrite E1, E2. by apply Hg.
  - intros k Hk. assert (¬ (S ≤ k < S + size)) as Hout by (destruct Hk as [Hk| ->]; [by apply Hg|lia]). rewrite (rc_home _ _ _ _ _ HR k Hout).
    destruct (dl_head _ _ _ _ HD) as (h & Hh & _ & Hb). unfold recovered. rewrite Hh, some_bind, Hb. done.
Qed.

(** ** The disk *)

Definition zero_block : list Z := replicate BSIZE 0.
Definition super1 : list Z := concat (le_enc 4 <$> [1000; 941; 200; 30; 2; 32; 58]) ++ replicate 484 0.
(** The inode 1 is an empty file, or an empty directory. *)
Definition node1 (dir : bool) : inode := Inode 1 1 1 false false (if dir then 1 else 2) 0 0 1 0 (replicate 13 0).
Abbreviation file1 := (node1 false).
Definition inodes1 (dir : bool) : list Z := put_dinode (IOFF 1) (node1 dir) zero_block.
Definition bitmap1 : list Z := replicate 7 255 ++ [7] ++ replicate 504 0.
Definition blocks1 (dir : bool) : list (list Z) := [zero_block; super1] ++ replicate 30 zero_block ++ [inodes1 dir] ++ replicate 25 zero_block ++ [bitmap1] ++ replicate 941 zero_block.
Definition disk1 (dir : bool) : gmap Z (list (list Z)) := {[ 1 := blocks1 dir ]}.
Definition sb1 : superblock := sb_of super1.
Definition home1 (k : Z) : Prop := 0 ≤ k < FSSIZE ∧ ¬ (2 ≤ k < 32) ∧ k ≠ 1.
Definition own1 (k : Z) : use := if decide (59 ≤ k < 1000) then Unused else Meta.

Lemma block1 dir k : block_at (disk1 dir) 1 k = getZ (blocks1 dir) k.
Proof. unfold block_at, disk1. by rewrite lookup_singleton_eq. Qed.

Lemma disk1_log dir : disk_log (disk1 dir) 2 30 [].
Proof.
  constructor.
  - unfold disk_ok, disk1. eexists. split; [by apply lookup_singleton_eq|]. split; [by vm_compute|].
    unfold blocks1. repeat (apply Forall_app; split); try (apply Forall_replicate; by vm_compute); repeat constructor.
  - exists super1. rewrite block1. split; [by vm_compute|by vm_compute].
  - unfold FSSIZE. lia.
  - exists zero_block. rewrite block1. split; [by vm_compute|by vm_compute].
  - by apply homes_nil.
Qed.

Lemma bitmap1_bits : forallb (λ j, Bool.eqb (bit_set bitmap1 (Z.of_nat j)) (j <? 59)%nat) (seq 0 1000) = true.
Proof. by vm_compute. Qed.

Lemma sb1_eq : sb_size sb1 = 1000 ∧ ninodes sb1 = 200 ∧ inodestart sb1 = 32 ∧ bmapstart sb1 = 58.
Proof. by vm_compute. Qed.

Lemma disk1_finv dir : finv home1 sb1 (block_at (disk1 dir) 1) own1.
Proof.
  destruct sb1_eq as (E1 & E2 & E3 & E4). constructor; rewrite ?E1, ?E2, ?E4; unfold FSSIZE.
  - lia.
  - unfold home1, own1, FSSIZE. rewrite decide_False by lia. split_and!; try done; lia.
  - intros inum Hin. unfold IBLOCK, IPB. rewrite E3. unfold home1, own1, FSSIZE. rewrite decide_False by dlia. split_and!; try done; dlia.
  - split; [done|]. split; [done|]. exists super1. rewrite block1. split; [by vm_compute|done].
  - intros n x Hn. rewrite block1. change (getZ (blocks1 dir) 58) with (Some bitmap1). intros [= <-].
    pose proof bitmap1_bits as Hb. rewrite forallb_forall in Hb. specialize (Hb (Z.to_nat n) ltac:(apply in_seq; lia)). apply Bool.eqb_prop in Hb.
    rewrite Z2Nat.id in Hb by lia. rewrite Hb. unfold own1. destruct (Nat.ltb_spec (Z.to_nat n) 59).
    + rewrite decide_False by lia. by rewrite bool_decide_eq_true_2.
    + rewrite decide_True by lia. by rewrite bool_decide_eq_false_2 by (by intros []).
  - intros n Hn. unfold own1, home1, FSSIZE. intros Hm. destruct (decide (59 ≤ n < 1000)); [lia|done].
  - intros n Hn. unfold own1. rewrite decide_False by lia. done.
Qed.

Lemma disk1_file dir : on_disk sb1 (block_at (disk1 dir) 1) own1 1 (node1 dir) [].
Proof.
  destruct sb1_eq as (E1 & E2 & E3 & E4). assert (∀ j, own1 j = Unused ∨ own1 j = Meta) as Ho by (intros j; unfold own1; destruct (decide _); auto).
  constructor; [lia| | |done|].
  - exists (inodes1 dir). unfold IBLOCK. rewrite E3, block1. split; [by vm_compute|]. destruct dir; split; by vm_compute.
  - constructor; [done|unfold NDIRECT, NINDIRECT; cbn; lia| | | | |].
    + intros j Hj. cbn in Hj. lia.
    + intros j _. unfold baddr. destruct (j <? NDIRECT)%nat eqn:Ej; [|done]. apply Nat.ltb_lt in Ej. unfold node1, NDIRECT in *. cbn [i_addrs]. rewrite nth_lookup, lookup_replicate_2 by lia. done.
    + left. split; [done|]. cbn. lia.
    + intros n j Hn. destruct (Ho n); congruence.
    + intros n Hn. destruct (Ho n); congruence.
  - intros j Hj. cbn in Hj. lia.
Qed.

(** ** The kernel *)

Definition kernel1 (dir : bool) : lsys := final (initlog 1) (boot (disk1 dir) 1).

Lemma kernel1_idle dir :
  ∃ cb d t l, op_none home1 (block_at d 1) (kernel1 dir) cb d t 1 l [] ∧ finv home1 sb1 (block_at d 1) own1 ∧ cached sb1 (block_at d 1) own1 (node1 dir) (node1 dir) [].
Proof.
  destruct (wp_final _ _ _ (boot_idle home1 (disk1 dir) 1 2 30 (disk1_log dir) ltac:(unfold MAXOPBLOCKS; lia) ltac:(done))) as (_ & cb & d & t & l & HN & Hv).
  exists cb, d, t, l. split; [exact HN|]. split; [exact (finv_home _ _ _ _ _ (disk1_finv dir) Hv)|].
  constructor; [cbn; lia|reflexivity|exact (on_disk_home _ _ _ _ _ _ _ _ (disk1_finv dir) Hv (disk1_file dir))|split; destruct dir; discriminate|discriminate].
Qed.

(** No pipe is open. *)
#[export] Instance no_pipes : Pipes unit := { p_new := mret None; p_read _ _ := fail Fault; p_write _ _ := fail Fault; p_close _ _ := fail Fault }.
Definition open1 : file := File FD_INODE 1 true true 0 0 0.
Definition files1 (b : lsys) : files lsys unit := Files (Fsys b sb1 [file1]) [open1] tt.

(** The kernel inside an operation. *)
Definition kernel1_op (dir : bool) : lsys := final begin_op (kernel1 dir).

Lemma kernel1_tx dir :
  ∃ v, tx home1 v ∅ (kernel1_op dir) ∧ finv home1 sb1 v own1 ∧ on_disk sb1 v own1 1 (locked (node1 dir) (node1 dir)) [].
Proof.
  destruct (kernel1_idle dir) as (cb & d & t & l & HN & HI & HC). exists (block_at d 1).
  destruct (wp_final _ _ _ (log_begin everywhere _ _ _ _ _ _ _ _ _ HN I)) as [_ Ht]. split; [exact Ht|]. split; [exact HI|].
  exact (on_disk_fields _ _ _ _ _ _ _ (ca_disk _ _ _ _ _ _ HC)).
Qed.
