(* ===== verification/FileThms.v ===== *)
(** * Theorems about open files (xv6: file.c on fs.c, log.c and bio.c) *)

From S2P Require Import Prelude Bytes Xstring Bio BioList BioSpec BioOps Log LogSpec LogLoops LogCrash LogCommit LogRecover LogThms LogTx.
From S2P Require Import Fs FsInv FsMap FsFile FsNode FsWrite FsLog File FileSpec FsDir FileCrash FileDemo.

Implicit Types (sb : superblock) (ic : list inode) (v : contents) (own : Z → use) (g : Z → Prop) (c : list Z) (i k : inode) (ft : list file) (f : nat) (x : file).

(** C1. A write to a file survives crashes whole or not at all.  One operation of
    filewrite runs on the buffer cache and the log of the kernel: it allocates
    blocks in the bitmap, writes the data, the indirect block and the inode.
    The machine may stop after any of its disk writes, and again in the middle
    of any number of recoveries.  The next boot that completes leaves a
    consistent file system, in which the file has its old bytes or the new
    ones, and every other file is as it was. *)
Theorem filewrite_atomic {P} `{!Pipes P} dw g sb own b cb d t m l w ic ft (ps : P) f x i k c src (off : nat) n d' m' :
  op_none g (block_at d 1) b cb d t m l w → finv g sb (block_at d 1) own →
  ft !! f = Some x → ic !! f_ip x = Some i → cached sb (block_at d 1) own i k c → f_off x = Z.of_nat off →
  (off ≤ length c)%nat → (off + length src ≤ (NDIRECT + NINDIRECT) * BLOCK)%nat → 0 < lenZ src ≤ MAXWRITE →
  crashes (replay d (take n (fs_writes (filewrite_op dw f src) (Files (Fsys b sb ic) ft ps)))) d' →
  wp (initlog 1) (λ _ s', ∃ own' k', let v' := block_at (disks (io s')) 1 in
    finv g sb v' own' ∧ (on_disk sb v' own' (i_inum i) k' c ∨ on_disk sb v' own' (i_inum i) k' (put off src c)) ∧
    ∀ inum j e, inum ≠ i_inum i → on_disk sb (block_at d 1) own inum j e → on_disk sb v' own' inum j e) (boot d' m').
Proof. intros H1 H2 H3 H4 H5 H6 H7 H8 H9 H10. exact (filewrite_op_crash dw g sb own b cb d t m l w ic ft ps f x i k c src off n d' m' H1 H2 H3 H4 H5 H6 H7 H8 H9 H10). Qed.

(** Two bytes are written to the empty file; the machine stops after the fourth
    write, and then in the first recovery. *)
Lemma filewrite_atomic_witness :
  ∃ d, let d4 := replay d (take 4 (fs_writes (filewrite_op (λ _, None) 0 [104; 105]) (files1 (kernel1 false)))) in
    let d' := replay d4 (take 1 (writes (initlog 1) (boot d4 1))) in
    wp (initlog 1) (λ _ s', ∃ own' k', let v' := block_at (disks (io s')) 1 in
      finv home1 sb1 v' own' ∧ (on_disk sb1 v' own' 1 k' [] ∨ on_disk sb1 v' own' 1 k' [104; 105]) ∧
      ∀ inum j e, inum ≠ 1 → on_disk sb1 (block_at d 1) own1 inum j e → on_disk sb1 v' own' inum j e) (boot d' 1).
Proof.
  destruct (kernel1_idle false) as (cb & d & t & l & HN & HI & HC). exists d. intros d4 d'.
  refine (filewrite_atomic (λ _, None) home1 sb1 own1 (kernel1 false) cb d t 1 l [] [file1] [open1] tt 0 open1 file1 file1 [] [104; 105] 0 4 d' 1 HN HI eq_refl eq_refl HC eq_refl _ _ _ _).
  - apply le_n.
  - apply Nat.leb_le. vm_compute. reflexivity.
  - split; [reflexivity|discriminate].
  - apply crash_again, crash_none.
Defined.

(** C3. filewrite stores its bytes.  Whatever layers below keep their promises,
    a write of any length up to the largest file returns the number of bytes;
    afterwards the file has them at the old offset and is otherwise as before,
    the offset has moved behind them, the inode in memory and on the disk
    agree, every other file is as it was, and no operation has logged more
    blocks than the log allows.  The only other end is the panic of balloc, when
    the blocks that the file got have used up the disk. *)
Theorem filewrite_writes {B P} `{OL : OperationLaws B} `{!Pipes P} dw g v (b : B) sb own ic ft (ps : P) f x i k c src (off : nat) :
  idle g v b → finv g sb v own → ft !! f = Some x → f_writable x = true → f_type x = FD_INODE →
  ic !! f_ip x = Some i → cached sb v own i k c → f_off x = Z.of_nat off →
  (off ≤ length c)%nat → (off + length src ≤ (NDIRECT + NINDIRECT) * BLOCK)%nat →
  wpx (filewrite dw f src)
    (λ r s', r = lenZ src ∧ ∃ b' v' own' i' k',
       s' = Files (Fsys b' sb (<[f_ip x := i']> ic)) (<[f := set_foff (Z.of_nat (off + length src)) x]> ft) ps ∧
       idle g v' b' ∧ finv g sb v' own' ∧ cached sb v' own' i' k' (put off src c) ∧ i_inum i' = i_inum i ∧
       ∀ inum j e, inum ≠ i_inum i → on_disk sb v own inum j e → on_disk sb v' own' inum j e)
    (λ e _, e = Panic "balloc: out of blocks" ∧ ∃ own', gives (i_inum i) own own' ∧ ∀ n, own' n ≠ Unused)
    (Files (Fsys b sb ic) ft ps).
Proof.
  intros Hid HI Hx Hw Hty Hi HC Hoff Ho Hmax. unfold filewrite. apply wpx_bind_wp, (wp_get_f _ _ _ _ x); [done|]. rewrite Hw, Hty. cbn [negb]. apply wpx_bind.
  apply (wpx_filewrite_loop (S (length src)) dw g sb ps f src b v own ic ft x i k c off 0); [exact Hid|exact HI|exact Hx|exact Hi|exact HC|exact Hoff|exact Ho|lia|lia|lia| |].
  - rewrite drop_0, Nat.sub_0_r. intros b' v' own' i' k' c' Hid' HI' HC' Ei Hoth _. apply wpx_ret. rewrite Z.eqb_refl. split; [done|].
    exists b', v', own', i', k'. done.
  - intros Hfull s. done.
Qed.

(** The kernel writes 2,000 bytes, in two operations. *)
Lemma filewrite_writes_witness :
  ∃ v, wpx (filewrite (λ _, None) 0 (replicate 2000 7))
    (λ r s', r = 2000 ∧ ∃ b' v' own' i' k',
       s' = Files (Fsys b' sb1 [i']) [set_foff 2000 open1] tt ∧
       idle home1 v' b' ∧ finv home1 sb1 v' own' ∧ cached sb1 v' own' i' k' (put 0 (replicate 2000 7) []) ∧ i_inum i' = 1 ∧
       ∀ inum j e, inum ≠ 1 → on_disk sb1 v own1 inum j e → on_disk sb1 v' own' inum j e)
    (λ e _, e = Panic "balloc: out of blocks" ∧ ∃ own', gives 1 own1 own' ∧ ∀ n, own' n ≠ Unused)
    (files1 (kernel1 false)).
Proof.
  destruct (kernel1_idle false) as (cb & d & t & l & HN & HI & HC). exists (block_at d 1).
  refine (filewrite_writes (λ _, None) home1 (block_at d 1) (kernel1 false) sb1 own1 [file1] [open1] tt 0 open1 file1 file1 [] (replicate 2000 7) 0 _ HI eq_refl eq_refl eq_refl eq_refl HC eq_refl _ _).
  - exists cb, d, t, 1, l, []. exact HN.
  - apply le_n.
  - apply Nat.leb_le. vm_compute. reflexivity.
Defined.

(** C4. What filewrite stores, fileread returns: after a write through one open
    file, a read of as many bytes through another one of the same inode, whose
    offset is where the write began, gives exactly the bytes written. *)
Theorem filewrite_fileread {B P} `{OL : OperationLaws B} `{!Pipes P} dw dr g v (b : B) sb own ic ft (ps : P) f x f' y i k c src (off : nat) :
  idle g v b → finv g sb v own → ft !! f = Some x → f_writable x = true → f_type x = FD_INODE →
  ic !! f_ip x = Some i → cached sb v own i k c → f_off x = Z.of_nat off →
  f ≠ f' → ft !! f' = Some y → f_readable y = true → f_type y = FD_INODE → f_ip y = f_ip x → f_off y = Z.of_nat off →
  (off ≤ length c)%nat → (off + length src ≤ (NDIRECT + NINDIRECT) * BLOCK)%nat →
  wpx (filewrite dw f src;; fileread dr f' (lenZ src))
    (λ r _, r = (lenZ src, src))
    (λ e _, e = Panic "balloc: out of blocks" ∧ ∃ own', gives (i_inum i) own own' ∧ ∀ n, own' n ≠ Unused)
    (Files (Fsys b sb ic) ft ps).
Proof.
  intros Hid HI Hx Hw Hty Hi HC Hoff Hne Hy Hr Hty' Hip Hoff' Ho Hmax. apply wpx_bind. unfold filewrite. apply wpx_bind_wp, (wp_get_f _ _ _ _ x); [done|]. rewrite Hw, Hty. cbn [negb]. apply wpx_bind.
  apply (wpx_filewrite_loop (S (length src)) dw g sb ps f src b v own ic ft x i k c off 0); [exact Hid|exact HI|exact Hx|exact Hi|exact HC|exact Hoff|exact Ho|lia|lia|lia| |by intros Hfull s].
  rewrite drop_0, Nat.sub_0_r. intros b' v' own' i' k' c' Hid' HI' HC' _ _ _. apply wpx_ret, wpx_wp. pose proof (length_put_max off src c Ho) as Hl. fold c' in Hl.
  unfold NDIRECT, NINDIRECT, BLOCK in Hmax.
  apply (wp_fileread dr g v' b' sb own' _ _ ps f' y i' k' c' off (length src)); [exact Hid'|exact HI'|by rewrite list_lookup_insert_ne|exact Hr|exact Hty'| |exact HC'|exact Hoff'|lia|lia|].
  - rewrite Hip. apply list_lookup_insert_eq. by eapply lookup_lt_Some.
  - intros b'' _. cbv zeta. replace (Nat.min (length src) (length c' - off)) with (length src) by lia. unfold lenZ. f_equal.
    unfold c'. apply get_put_end. exact Ho.
Qed.

(** The kernel writes 600 bytes and reads them back. *)
Lemma filewrite_fileread_witness :
  wpx (filewrite (λ _, None) 0 (replicate 600 7);; fileread (λ _, None) 1 600)
    (λ r _, r = (600, replicate 600 7))
    (λ e _, e = Panic "balloc: out of blocks" ∧ ∃ own', gives 1 own1 own' ∧ ∀ n, own' n ≠ Unused)
    (Files (Fsys (kernel1 false) sb1 [file1]) [open1; open1] tt).
Proof.
  destruct (kernel1_idle false) as (cb & d & t & l & HN & HI & HC).
  refine (filewrite_fileread (λ _, None) (λ _, None) home1 (block_at d 1) (kernel1 false) sb1 own1 [file1] [open1; open1] tt 0 open1 1 open1 file1 file1 [] (replicate 600 7) 0
    _ HI eq_refl eq_refl eq_refl eq_refl HC eq_refl _ eq_refl eq_refl eq_refl eq_refl eq_refl _ _).
  - exists cb, d, t, 1, l, []. exact HN.
  - discriminate.
  - apply le_n.
  - apply Nat.leb_le. vm_compute. reflexivity.
Defined.

(** C11. Directories are finite maps from names to inodes.  When dirlink adds a
    name that the directory does not have, a dirlookup of any name afterwards
    gives the new inode for that name (compared up to DIRSIZ characters) and
    what the directory had before for every other one, whether the new entry
    reuses a deleted one or makes the directory longer. *)
Theorem dirlink_dirlookup {B} `{BL : BufferLaws B} dr dw g v L (b : B) sb own ic dp i c name inum name' :
  tx g v L b → finv g sb v own → directory sb v own ic dp i c → (DIRSIZ ≤ length name)%nat → (DIRSIZ ≤ length name')%nat →
  0 < inum < 2 ^ 16 → dir_map c (cname DIRSIZ name) = None →
  (length c + 16 ≤ (NDIRECT + NINDIRECT) * BLOCK)%nat → 0 ∉ L → logged sb L (i_addrs i) + 2 ≤ MAXOPBLOCKS →
  wpx (dirlink dr dw dp name inum;; dirlookup dr dp name')
    (λ r s', match (if decide (cname DIRSIZ name' = cname DIRSIZ name) then Some inum else dir_map c (cname DIRSIZ name')) with
       | None => r = None
       | Some n => ∃ ip off i', r = Some (ip, off) ∧ icache s' !! ip = Some i' ∧ i_dev i' = i_dev i ∧ i_inum i' = n ∧ 1 ≤ i_ref i'
       end)
    (λ e _, e = Panic "balloc: out of blocks" ∨ e = Panic "iget: no inodes")
    (Fsys b sb ic).
Proof.
  intros Ht HI Hdir Hn Hn' Hin Hno Hmax H0 Hl. assert (dir_find c (cname DIRSIZ name) = None) as Hnone by (unfold dir_map in Hno; by destruct (dir_find c (cname DIRSIZ name))).
  apply wpx_bind, (wpx_dirlink dr dw g v L b sb own ic dp i c name inum); [exact Ht|exact HI|exact Hdir|exact Hn|exact Hin|exact Hnone|exact Hmax|exact H0|exact Hl| |].
  2: { intros _ b' v' L' ic' _. by left. }
  intros b1 v1 own1 i1 L1 c' Ht1 HI1 Hdir1 Ei Edev _. rewrite <- (linked_map c name inum (dr_size _ _ _ _ _ _ _ Hdir) Hin Hnone). fold c'.
  apply (wpx_dirlookup dr dw g v1 L1 b1 sb own1 _ dp i1 c' name'); [exact Ht1|exact HI1|exact Hdir1|exact Hn'|]. intros b2 _. unfold dir_map.
  destruct (dir_find c' (cname DIRSIZ name')) as [[j n]|]; cbn [fmap option_fmap option_map snd]; [|done].
  apply wpx_iget; [| |by right].
  - intros ip i' Hi' (Hr & Hd & Hn2). eexists ip, _, _. split; [done|]. split; [by apply list_lookup_insert_eq; eapply lookup_lt_Some|]. cbn. rewrite Hd, <- Edev. split; [done|]. split; [done|]. lia.
  - intros ip i' Hi' _ _. eexists ip, _, _. split; [done|]. split; [by apply list_lookup_insert_eq; eapply lookup_lt_Some|]. cbn. done.
Qed.

(** In the empty directory: the name a is added and looked up. *)
Lemma dirlink_dirlookup_witness :
  wpx (dirlink (λ _, None) (λ _, None) 0 (97 :: replicate 13 0) 5;; dirlookup (λ _, None) 0 (97 :: replicate 13 0))
    (λ r s', ∃ ip off i', r = Some (ip, off) ∧ icache s' !! ip = Some i' ∧ i_dev i' = 1 ∧ i_inum i' = 5 ∧ 1 ≤ i_ref i')
    (λ e _, e = Panic "balloc: out of blocks" ∨ e = Panic "iget: no inodes")
    (Fsys (kernel1_op true) sb1 [locked (node1 true) (node1 true); node1 true]).
Proof.
  destruct (kernel1_tx true) as (v & Ht & HI & HD).
  refine (dirlink_dirlookup (λ _, None) (λ _, None) home1 v ∅ (kernel1_op true) sb1 own1 _ 0 (locked (node1 true) (node1 true)) [] (97 :: replicate 13 0) 5 (97 :: replicate 13 0) Ht HI _ _ _ _ _ _ _ _).
  - constructor; [reflexivity|exact HD|reflexivity|reflexivity].
  - apply le_n.
  - apply le_n.
  - split; reflexivity.
  - reflexivity.
  - apply Nat.leb_le. vm_compute. reflexivity.
  - apply not_elem_of_empty.
  - apply Z.leb_le. vm_compute. reflexivity.
Defined.
