(* ===== verification/Syscall.v ===== *)
(** * The arguments of a system call (xv6: syscall.c)

    [mem] is the user memory of the process, from address 0 up to its size. *)

From S2P Require Import Prelude Bytes.

Implicit Types (mem : list Z).

(** [fetchint], src/hw3/xv6/syscall.c:16-26 *)
Definition fetchint mem (addr : Z) : option Z :=
  if (lenZ mem <=? addr) || (lenZ mem <? u32 (addr + 4)) then None else Some (get_i32 (Z.to_nat addr) mem).

(** [fetchstr: the loop], src/hw3/xv6/syscall.c:41-44
    From [s] to the end of the memory; the result is the address of the 0. *)
Fixpoint fetchstr_loop (l : list Z) (s : Z) : option Z :=
  match l with [] => None | x :: l' => if x =? 0 then Some s else fetchstr_loop l' (s + 1) end.

(** [fetchstr], src/hw3/xv6/syscall.c:28-46
    The string that starts at [addr], without its 0. *)
Definition fetchstr mem (addr : Z) : option (list Z) :=
  if lenZ mem <=? addr then None
  else
    s ← fetchstr_loop (drop (Z.to_nat addr) mem) addr;
    Some (get (Z.to_nat addr) (Z.to_nat (s - addr)) mem).

(** [argint], src/hw3/xv6/syscall.c:48-53 *)
Definition argint mem (esp : Z) (n : Z) : option Z := fetchint mem (u32 (esp + 4 + 4 * n)).

(** [argptr], src/hw3/xv6/syscall.c:55-70 *)
Definition argptr mem (esp : Z) (n size : Z) : option Z :=
  i ← argint mem esp n;
  if (size <? 0) || (lenZ mem <=? u32 i) || (lenZ mem <? u32 (u32 i + size)) then None else Some (u32 i).

(** [argstr], src/hw3/xv6/syscall.c:72-83 *)
Definition argstr mem (esp : Z) (n : Z) : option (list Z) := addr ← argint mem esp n; fetchstr mem (u32 addr).

(** ** What the checks give *)

Lemma fetchint_inside mem addr z : lenZ mem < 2 ^ 31 → 0 ≤ addr < 2 ^ 32 → fetchint mem addr = Some z → addr + 4 ≤ lenZ mem.
Proof.
  intros Hm Ha. unfold fetchint. destruct (Z.leb_spec (lenZ mem) addr); [done|]. rewrite u32_small by lia.
  destruct (Z.ltb_spec (lenZ mem) (addr + 4)); [done|]. lia.
Qed.
Lemma fetchstr_loop_spec l s : ∀ r, fetchstr_loop l s = Some r ↔ ∃ k, r = s + Z.of_nat k ∧ l !! k = Some 0 ∧ Forall (λ x, x ≠ 0) (take k l).
Proof.
  revert s. induction l as [|x l IH]; intros s r; cbn [fetchstr_loop].
  { split; [done|]. by intros (k & _ & ? & _). }
  destruct (Z.eqb_spec x 0) as [->|Hx].
  - split; [intros [= <-]; exists 0%nat; split_and!; [lia|done|constructor]|]. intros ([|k] & -> & _ & Hf); [f_equal; lia|]. by apply Forall_cons in Hf as [? _].
  - rewrite IH. split.
    + intros (k & -> & Hk & Hf). exists (S k). split; [lia|]. split; [done|]. by constructor.
    + intros ([|k] & -> & Hk & Hf); [cbn in Hk; congruence|]. apply Forall_cons in Hf as [_ Hf]. exists k. split; [lia|done].
Qed.

(** The strings that the kernel takes from user memory. *)
Lemma fetchstr_spec mem addr p :
  0 ≤ addr → fetchstr mem addr = Some p →
  addr + lenZ p < lenZ mem ∧ get (Z.to_nat addr) (length p) mem = p ∧ mem !! (Z.to_nat addr + length p)%nat = Some 0 ∧ Forall (λ x, x ≠ 0) p.
Proof.
  intros Ha. unfold fetchstr. destruct (Z.leb_spec (lenZ mem) addr); [done|].
  destruct (fetchstr_loop _ addr) as [r|] eqn:E; [|done]. cbn. intros [= <-]. apply fetchstr_loop_spec in E as (k & -> & Hk & Hf).
  replace (Z.to_nat (addr + Z.of_nat k - addr)) with k by lia. rewrite lookup_drop in Hk. pose proof (lookup_lt_Some _ _ _ Hk) as Hlt.
  unfold lenZ in *. rewrite length_get by lia. split_and!; [lia|done|done|exact Hf].
Qed.

(** C34. The kernel reads and writes only the caller's memory.  A pointer and a size
    that argptr accepts name a range inside the memory of the process, whatever
    the stack pointer and the argument are, so that the address does not wrap
    around; a string that argstr accepts lies inside of it with its 0; and the
    stack is read only inside of it. *)
Theorem syscall_args_inside mem esp n :
  lenZ mem < 2 ^ 31 →
  (∀ z, argint mem esp n = Some z → u32 (esp + 4 + 4 * n) + 4 ≤ lenZ mem) ∧
  (∀ size p, - 2 ^ 31 ≤ size < 2 ^ 31 → argptr mem esp n size = Some p → 0 ≤ size ∧ 0 ≤ p ∧ p + size ≤ lenZ mem) ∧
  (∀ s, argstr mem esp n = Some s → ∃ a : nat, (a + length s < length mem)%nat ∧ get a (S (length s)) mem = s ++ [0] ∧ Forall (λ x, x ≠ 0) s).
Proof.
  intros Hm. split_and!.
  - intros z Hz. by apply (fetchint_inside mem _ z Hm (u32_range _)).
  - intros size p Hs. unfold argptr. destruct (argint mem esp n) as [i|]; [|done]. cbn [mbind option_bind]. pose proof (u32_range i).
    destruct (Z.ltb_spec size 0); [done|]. destruct (Z.leb_spec (lenZ mem) (u32 i)); [done|]. rewrite (u32_small (u32 i + size)) by lia.
    destruct (Z.ltb_spec (lenZ mem) (u32 i + size)); [done|]. cbn. intros [= <-]. lia.
  - intros s. unfold argstr. destruct (argint mem esp n) as [i|]; [|done]. cbn [mbind option_bind]. pose proof (u32_range i). intros Hf.
    destruct (fetchstr_spec mem (u32 i) s ltac:(lia) Hf) as (H1 & H2 & H3 & H4). exists (Z.to_nat (u32 i)). unfold lenZ in H1. split; [lia|]. split; [|done].
    replace (S (length s)) with (length s + 1)%nat by lia. rewrite <- get_app_get, H2. f_equal. rewrite (get_cons _ 0 0) by done. by rewrite get_0.
Qed.
(** A stack with a pointer to the end of the memory: no byte may be read there. *)
Lemma syscall_args_inside_witness :
  argptr (put 4 (le_enc 4 8) (replicate 16 0)) 0 0 8 = Some 8 ∧ argptr (put 4 (le_enc 4 8) (replicate 16 0)) 0 0 9 = None ∧
  ∀ p, argptr (put 4 (le_enc 4 8) (replicate 16 0)) 0 0 8 = Some p → 0 ≤ 8 ∧ 0 ≤ p ∧ p + 8 ≤ 16.
Proof.
  split; [reflexivity|]. split; [reflexivity|]. intros p.
  apply (proj1 (proj2 (syscall_args_inside (put 4 (le_enc 4 8) (replicate 16 0)) 0 0 ltac:(reflexivity)))). split; [discriminate|reflexivity].
Defined.
