(* ===== verification/Sysfile.v ===== *)
(** * System calls on files (xv6: sysfile.c)

    The state has the process that makes the call: its open files, its current
    directory, its memory and its stack pointer. *)

From S2P Require Import Prelude Bytes Bio Log Fs File Syscall.

Definition NOFILE : nat := 16.
Definition T_FILE : Z := 2.
Definition O_WRONLY : Z := 1.
Definition O_RDWR : Z := 2.
Definition O_CREATE : Z := 512.
Definition DOT : list Z := [46; 0].
Definition DOTDOT : list Z := [46; 46; 0].

Record sysst (B P : Type) := Sys { sfiles : files B P; ofile : list (option nat); cwd : nat; umem : list Z; uesp : Z }.
Arguments Sys {B P} sfiles ofile cwd umem uesp.
Arguments sfiles {B P} s.
Arguments ofile {B P} s.
Arguments cwd {B P} s.
Arguments umem {B P} s.
Arguments uesp {B P} s.

Section sysfile.
Context {B P : Type} `{!Buffers B} `{!Operations B} `{!Pipes P}.
Context (devread : Z → option (Z → M B (Z * list Z))) (devwrite : Z → option (list Z → M B Z)).
Abbreviation Y := (M (sysst B P)).

Definition set_sfiles (x : files B P) (s : sysst B P) := Sys x (ofile s) (cwd s) (umem s) (uesp s).
Definition set_ofile (x : list (option nat)) (s : sysst B P) := Sys (sfiles s) x (cwd s) (umem s) (uesp s).
Definition set_cwd (x : nat) (s : sysst B P) := Sys (sfiles s) (ofile s) x (umem s) (uesp s).
Definition set_umem (x : list Z) (s : sysst B P) := Sys (sfiles s) (ofile s) (cwd s) x (uesp s).
Definition file_ {A} (m : M (files B P) A) : Y A := zoom sfiles set_sfiles m.
Definition node_ {A} (m : M (fsys B) A) : Y A := file_ (fs_ m).
Definition begin_op_ : Y unit := file_ begin_.
Definition end_op_ : Y unit := file_ end_.

(** The arguments, and stores to the memory of the process. *)
Definition arg_int (n : Z) : Y (option Z) := gets (λ s, argint (umem s) (uesp s) n).
Definition arg_ptr (n size : Z) : Y (option Z) := gets (λ s, argptr (umem s) (uesp s) n size).
Definition arg_str (n : Z) : Y (option (list Z)) := gets (λ s, argstr (umem s) (uesp s) n).
Definition user_store (p : Z) (bs : list Z) : Y unit := modify (λ s, set_umem (put (Z.to_nat p) bs (umem s)) s).

(** [argfd], src/hw3/xv6/sysfile.c:19-36
    The descriptor and the file. *)
Definition argfd (n : Z) : Y (option (Z * nat)) :=
  fd ← arg_int n;
  s ← getS;
  mret (fd ← fd; if (fd <? 0) || (Z.of_nat NOFILE <=? fd) then None else f ← mjoin (getZ (ofile s) fd); Some (fd, f)).

(** [fdalloc], src/hw3/xv6/sysfile.c:38-53 *)
Definition fdalloc (f : nat) : Y Z :=
  o ← gets ofile;
  match list_find (λ x, x = None) (take NOFILE o) with
  | Some (fd, _) => modify (λ s, set_ofile (<[fd := Some f]> (ofile s)) s);; mret (Z.of_nat fd)
  | None => mret (-1)
  end.

(** [sys_dup], src/hw3/xv6/sysfile.c:55-67 *)
Definition sys_dup : Y Z :=
  a ← argfd 0;
  match a with
  | None => mret (-1)
  | Some (_, f) =>
      fd ← fdalloc f;
      if fd <? 0 then mret (-1) else file_ (filedup f);; mret fd
  end.

(** [sys_read], src/hw3/xv6/sysfile.c:69-79 *)
Definition sys_read : Y Z :=
  a ← argfd 0;
  n ← arg_int 2;
  match a, n with
  | Some (_, f), Some n =>
      p ← arg_ptr 1 n;
      match p with
      | None => mret (-1)
      | Some p => '(r, bs) ← file_ (fileread devread f n); user_store p bs;; mret r
      end
  | _, _ => mret (-1)
  end.

(** [sys_write], src/hw3/xv6/sysfile.c:81-91 *)
Definition sys_write : Y Z :=
  a ← argfd 0;
  n ← arg_int 2;
  match a, n with
  | Some (_, f), Some n =>
      p ← arg_ptr 1 n;
      match p with
      | None => mret (-1)
      | Some p => m ← gets umem; file_ (filewrite devwrite f (get (Z.to_nat p) (Z.to_nat n) m))
      end
  | _, _ => mret (-1)
  end.

(** [sys_close], src/hw3/xv6/sysfile.c:93-104 *)
Definition sys_close : Y Z :=
  a ← argfd 0;
  match a with
  | None => mret (-1)
  | Some (fd, f) => modify (λ s, set_ofile (setZ (ofile s) fd None) s);; file_ (fileclose f);; mret 0
  end.

(** The stores of stati, to a struct stat in the memory of the process. *)
Definition store_stat (p : Z) (st : stat) : Y unit :=
  user_store (p + 4) (le_enc 4 (st_dev st));;
  user_store (p + 8) (le_enc 4 (st_ino st));;
  user_store p (le_enc 2 (st_type st));;
  user_store (p + 12) (le_enc 2 (st_nlink st));;
  user_store (p + 16) (le_enc 4 (st_size st)).

(** [sys_fstat], src/hw3/xv6/sysfile.c:106-115 *)
Definition sys_fstat : Y Z :=
  a ← argfd 0;
  p ← arg_ptr 1 20;
  match a, p with
  | Some (_, f), Some p =>
      '(r, st) ← file_ (filestat f);
      (match st with Some st => store_stat p st | None => mret tt end);;
      mret r
  | _, _ => mret (-1)
  end.

(** [sys_link: bad], src/hw3/xv6/sysfile.c:158-164 *)
Definition link_bad (ip : nat) : Y Z :=
  node_ (ilock ip);;
  node_ (upd_i ip (λ i, set_inlink (i16 (i_nlink i - 1)) i));;
  node_ (iupdate ip);;
  node_ (iunlockput ip);;
  end_op_;;
  mret (-1).

(** [sys_link], src/hw3/xv6/sysfile.c:117-165 *)
Definition sys_link : Y Z :=
  old ← arg_str 0;
  new ← arg_str 1;
  match old, new with
  | Some old, Some new =>
      begin_op_;;
      w ← gets cwd;
      ip ← node_ (namei devread w old);
      match ip with
      | None => end_op_;; mret (-1)
      | Some ip =>
          node_ (ilock ip);;
          i ← node_ (get_i ip);
          if i_type i =? T_DIR then node_ (iunlockput ip);; end_op_;; mret (-1)
          else
            node_ (upd_i ip (λ i, set_inlink (i16 (i_nlink i + 1)) i));;
            node_ (iupdate ip);;
            node_ (iunlock ip);;
            '(dp, name) ← node_ (nameiparent devread w new);
            match dp with
            | None => link_bad ip
            | Some dp =>
                node_ (ilock dp);;
                d ← node_ (get_i dp);
                i ← node_ (get_i ip);
                r ← (if negb (i_dev d =? i_dev i) then mret (-1) else node_ (dirlink devread devwrite dp name (i_inum i)));
                if r <? 0 then node_ (iunlockput dp);; link_bad ip
                else node_ (iunlockput dp);; node_ (iput ip);; end_op_;; mret 0
            end
      end
  | _, _ => mret (-1)
  end.

(** [isdirempty: the loop], src/hw3/xv6/sysfile.c:174-179 *)
Fixpoint isdirempty_loop (fuel : nat) (dp : nat) (off : Z) : M (fsys B) bool :=
  i ← get_i dp;
  if off <? i_size i then
    match fuel with
    | O => fail OutOfFuel
    | S fuel' =>
        '(r, de) ← readi devread dp off DIRENT;
        panic_unless (r =? DIRENT) "isdirempty: readi";;
        if negb (de_inum de =? 0) then mret false else isdirempty_loop fuel' dp (off + DIRENT)
    end
  else mret true.
(** [isdirempty], src/hw3/xv6/sysfile.c:167-181 *)
Definition isdirempty (dp : nat) : M (fsys B) bool :=
  i ← get_i dp; isdirempty_loop (Z.to_nat (i_size i / DIRENT + 1)) dp (2 * DIRENT).

(** [sys_unlink: bad], src/hw3/xv6/sysfile.c:235-238 *)
Definition unlink_bad (dp : nat) : Y Z := node_ (iunlockput dp);; end_op_;; mret (-1).

(** [sys_unlink], src/hw3/xv6/sysfile.c:183-239 *)
Definition sys_unlink : Y Z :=
  path ← arg_str 0;
  match path with
  | None => mret (-1)
  | Some path =>
      begin_op_;;
      w ← gets cwd;
      '(dp, name) ← node_ (nameiparent devread w path);
      match dp with
      | None => end_op_;; mret (-1)
      | Some dp =>
          node_ (ilock dp);;
          c1 ← of_option (namecmp name DOT);
          c2 ← of_option (namecmp name DOTDOT);
          if (c1 =? 0) || (c2 =? 0) then unlink_bad dp
          else
            r ← node_ (dirlookup devread dp name);
            match r with
            | None => unlink_bad dp
            | Some (ip, off) =>
                node_ (ilock ip);;
                i ← node_ (get_i ip);
                panic_unless (1 <=? i_nlink i) "unlink: nlink < 1";;
                empty ← (if i_type i =? T_DIR then node_ (isdirempty ip) else mret true);
                if negb empty then node_ (iunlockput ip);; unlink_bad dp
                else
                  r ← node_ (writei devwrite dp (replicate 16 0) off);
                  panic_unless (r =? DIRENT) "unlink: writei";;
                  (if i_type i =? T_DIR then node_ (upd_i dp (λ d, set_inlink (i16 (i_nlink d - 1)) d));; node_ (iupdate dp) else mret tt);;
                  node_ (iunlockput dp);;
                  node_ (upd_i ip (λ i, set_inlink (i16 (i_nlink i - 1)) i));;
                  node_ (iupdate ip);;
                  node_ (iunlockput ip);;
                  end_op_;;
                  mret 0
            end
      end
  end.

(** [create: the entries of a new directory], src/hw3/xv6/sysfile.c:270-276 *)
Definition create_dots (ip dp : nat) : M (fsys B) unit :=
  upd_i dp (λ d, set_inlink (i16 (i_nlink d + 1)) d);;
  iupdate dp;;
  i ← get_i ip;
  r ← dirlink devread devwrite ip DOT (i_inum i);
  r ← (if r <? 0 then mret r else d ← get_i dp; dirlink devread devwrite ip DOTDOT (i_inum d));
  panic_unless (0 <=? r) "create dots".

(** [create], src/hw3/xv6/sysfile.c:241-284
    The inode, locked. *)
Definition create (path : list Z) (type major minor : Z) : Y (option nat) :=
  w ← gets cwd;
  '(dp, name) ← node_ (nameiparent devread w path);
  match dp with
  | None => mret None
  | Some dp =>
      node_ (ilock dp);;
      r ← node_ (dirlookup devread dp name);
      match r with
      | Some (ip, _) =>
          node_ (iunlockput dp);;
          node_ (ilock ip);;
          i ← node_ (get_i ip);
          if (type =? T_FILE) && (i_type i =? T_FILE) then mret (Some ip)
          else node_ (iunlockput ip);; mret None
      | None =>
          d ← node_ (get_i dp);
          ip ← node_ (ialloc (i_dev d) type);
          node_ (ilock ip);;
          node_ (upd_i ip (λ i, Inode (i_dev i) (i_inum i) (i_ref i) (i_lock i) (i_valid i) (i_type i) major minor 1 (i_size i) (i_addrs i)));;
          node_ (iupdate ip);;
          (if type =? T_DIR then node_ (create_dots ip dp) else mret tt);;
          i ← node_ (get_i ip);
          r ← node_ (dirlink devread devwrite dp name (i_inum i));
          panic_unless (0 <=? r) "create: dirlink";;
          node_ (iunlockput dp);;
          mret (Some ip)
      end
  end.

(** [sys_open: the inode], src/hw3/xv6/sysfile.c:299-316 *)
Definition open_inode (path : list Z) (omode : Z) : Y (option nat) :=
  if negb (Z.land omode O_CREATE =? 0) then create path T_FILE 0 0
  else
    w ← gets cwd;
    ip ← node_ (namei devread w path);
    match ip with
    | None => mret None
    | Some ip =>
        node_ (ilock ip);;
        i ← node_ (get_i ip);
        if (i_type i =? T_DIR) && negb (omode =? 0) then node_ (iunlockput ip);; mret None
        else mret (Some ip)
    end.

(** [sys_open: the file and its descriptor], src/hw3/xv6/sysfile.c:318-333 *)
Definition open_file (ip : nat) (omode : Z) : Y Z :=
  f ← file_ filealloc;
  fd ← (match f with Some f => fdalloc f | None => mret (-1) end);
  match f with
  | Some f =>
      if fd <? 0 then file_ (fileclose f);; node_ (iunlockput ip);; end_op_;; mret (-1)
      else
        node_ (iunlock ip);;
        end_op_;;
        file_ (upd_f f (λ x, File FD_INODE (f_ref x) (Z.land omode O_WRONLY =? 0) (negb (Z.land omode O_WRONLY =? 0) || negb (Z.land omode O_RDWR =? 0)) (f_pipe x) ip 0));;
        mret fd
  | None => node_ (iunlockput ip);; end_op_;; mret (-1)
  end.

(** [sys_open], src/hw3/xv6/sysfile.c:286-334 *)
Definition sys_open : Y Z :=
  path ← arg_str 0;
  omode ← arg_int 1;
  match path, omode with
  | Some path, Some omode =>
      begin_op_;;
      ip ← open_inode path omode;
      match ip with
      | None => end_op_;; mret (-1)
      | Some ip => open_file ip omode
      end
  | _, _ => mret (-1)
  end.

(** [sys_mkdir], src/hw3/xv6/sysfile.c:336-350 *)
Definition sys_mkdir : Y Z :=
  begin_op_;;
  path ← arg_str 0;
  ip ← (match path with None => mret None | Some path => create path T_DIR 0 0 end);
  match ip with
  | None => end_op_;; mret (-1)
  | Some ip => node_ (iunlockput ip);; end_op_;; mret 0
  end.

(** [sys_mknod], src/hw3/xv6/sysfile.c:352-370
    major and minor are passed as short. *)
Definition sys_mknod : Y Z :=
  begin_op_;;
  path ← arg_str 0;
  major ← arg_int 1;
  minor ← arg_int 2;
  ip ← (match path, major, minor with Some path, Some major, Some minor => create path T_DEV (i16 major) (i16 minor) | _, _, _ => mret None end);
  match ip with
  | None => end_op_;; mret (-1)
  | Some ip => node_ (iunlockput ip);; end_op_;; mret 0
  end.

(** [sys_chdir], src/hw3/xv6/sysfile.c:372-395 *)
Definition sys_chdir : Y Z :=
  begin_op_;;
  path ← arg_str 0;
  w ← gets cwd;
  ip ← (match path with None => mret None | Some path => node_ (namei devread w path) end);
  match ip with
  | None => end_op_;; mret (-1)
  | Some ip =>
      node_ (ilock ip);;
      i ← node_ (get_i ip);
      if negb (i_type i =? T_DIR) then node_ (iunlockput ip);; end_op_;; mret (-1)
      else
        node_ (iunlock ip);;
        node_ (iput w);;
        end_op_;;
        modify (set_cwd ip);;
        mret 0
  end.

(** [sys_pipe], src/hw3/xv6/sysfile.c:423-445 *)
Definition sys_pipe : Y Z :=
  p ← arg_ptr 0 8;
  match p with
  | None => mret (-1)
  | Some p =>
      r ← file_ pipealloc;
      match r with
      | None => mret (-1)
      | Some (rf, wf) =>
          fd0 ← fdalloc rf;
          fd1 ← (if fd0 <? 0 then mret (-1) else fdalloc wf);
          if (fd0 <? 0) || (fd1 <? 0) then
            (if 0 <=? fd0 then modify (λ s, set_ofile (setZ (ofile s) fd0 None) s) else mret tt);;
            file_ (fileclose rf);;
            file_ (fileclose wf);;
            mret (-1)
          else
            user_store p (le_enc 4 fd0);;
            user_store (p + 4) (le_enc 4 fd1);;
            mret 0
      end
  end.
End sysfile.
