(* ===== verification/SysRefs.v ===== *)
(** * Reference counts of open files (xv6: sysfile.c and file.c)

    The descriptors of the processes are the only references to open files.
    The system calls of sysfile.c are followed first, by one process beside
    others; then fork, exit and the rest of proc.c, run on top of file.c and
    fs.c, and all runs of the kernel. *)

From S2P Require Import Prelude Bytes Bio Log Fs File FileSpec Syscall Sysfile.

Implicit Types (ft : list file) (o : list (option nat)) (f : nat) (x : file).

(** How many descriptors of [o] are for [f]. *)
Definition count o f : Z := Z.of_nat (length (filter (λ y, y = Some f) o)).

(** Every file has as many references as descriptors, and a free one no type. *)
Record refs ft o : Prop := {
  rf_count f x : ft !! f = Some x → f_ref x = count o f;
  rf_in f : Some f ∈ o → (f < length ft)%nat;
  rf_free f x : ft !! f = Some x → f_ref x = 0 → f_type x = FD_NONE
}.

Lemma count_nonneg o f : 0 ≤ count o f.
Proof. unfold count. lia. Qed.
Lemma count_pos o f : Some f ∈ o → 0 < count o f.
Proof. intros Hin. unfold count. assert (Some f ∈ filter (λ y, y = Some f) o) as H by (by apply list_elem_of_filter). destruct (filter _ o); [by apply not_elem_of_nil in H|cbn; lia]. Qed.
Lemma count_cons y o f : count (y :: o) f = count o f + if decide (y = Some f) then 1 else 0.
Proof. unfold count. rewrite filter_cons. destruct (decide (y = Some f)); cbn [length]; lia. Qed.
Lemma count_app o o' f : count (o ++ o') f = count o f + count o' f.
Proof. unfold count. rewrite filter_app, length_app. lia. Qed.
Lemma count_insert o (fd : nat) y z f :
  o !! fd = Some y → count (<[fd := z]> o) f = count o f - (if decide (y = Some f) then 1 else 0) + (if decide (z = Some f) then 1 else 0).
Proof.
  revert fd. induction o as [|a o IH]; intros [|fd] Hy; cbn in Hy; try done.
  - injection Hy as ->. cbn [insert list_insert]. rewrite !count_cons. lia.
  - cbn [insert list_insert]. rewrite !count_cons. change (list_insert fd z o) with (<[fd := z]> o). rewrite IH by done. lia.
Qed.

(** A change of one entry of the table and of the references to it. *)
Lemma refs_change ft o o' f x x' :
  refs ft o → ft !! f = Some x → f_ref x' = count o' f → (∀ f', f' ≠ f → count o' f' = count o f') → (f_ref x' = 0 → f_type x' = FD_NONE) →
  refs (<[f := x']> ft) o'.
Proof.
  intros [H1 H2 H3] Hx Hr Ho Hz. pose proof (lookup_lt_Some _ _ _ Hx) as Hlt. constructor.
  - intros f1 x1. destruct (decide (f1 = f)) as [->|Hne]; [rewrite list_lookup_insert_eq by done; by intros [= <-]|].
    rewrite list_lookup_insert_ne by done. rewrite Ho by done. apply H1.
  - intros f1 Hin. rewrite length_insert. destruct (decide (f1 = f)) as [->|Hne]; [done|]. apply H2. apply count_pos in Hin. rewrite Ho in Hin by done.
    unfold count in Hin. destruct (filter (λ y, y = Some f1) o) as [|y l] eqn:E; [cbn in Hin; lia|].
    assert (y ∈ filter (λ y, y = Some f1) o) as Hy by (rewrite E; left). apply list_elem_of_filter in Hy as [-> Hy]. done.
  - intros f1 x1. destruct (decide (f1 = f)) as [->|Hne]; [rewrite list_lookup_insert_eq by done; by intros [= <-]|]. rewrite list_lookup_insert_ne by done. apply H3.
Qed.
Lemma refs_same ft o f x x' : refs ft o → ft !! f = Some x → f_ref x' = f_ref x → f_ref x ≠ 0 ∨ f_type x' = f_type x → refs (<[f := x']> ft) o.
Proof.
  intros HR Hx Hr Ht. apply (refs_change ft o o f x); [done|done|rewrite Hr; by apply (rf_count _ _ HR)|done|]. intros Hz. destruct Ht as [?| ->]; [congruence|].
  apply (rf_free _ _ HR f x); [done|congruence].
Qed.

(** ** The operations of file.c *)

Section table.
Context {B P : Type} `{!Buffers B} `{!Operations B} `{!Pipes P}.
Implicit Types (S : fsys B) (ps : P).
Abbreviation any := (λ _ _, True).

Lemma wpx_any_fs {A} (m : M (fsys B) A) S ft ps (Q : A → files B P → Prop) : (∀ a S', Q a (Files S' ft ps)) → wpx (fs_ m) Q any (Files S ft ps).
Proof using Type. intros HQ. apply wpx_zoom. unfold wpx. cbn. destruct (m S); [apply HQ|done]. Qed.
Lemma wpx_any_pipe {A} (m : M P A) S ft ps (Q : A → files B P → Prop) : (∀ a ps', Q a (Files S ft ps')) → wpx (pipe_ m) Q any (Files S ft ps).
Proof using Type. intros HQ. apply wpx_zoom. unfold wpx. cbn. destruct (m ps); [apply HQ|done]. Qed.

Lemma wp_filealloc S ft ps o (Q : option nat → files B P → Prop) :
  refs ft o → Q None (Files S ft ps) → (∀ f ft', refs ft' (Some f :: o) → Q (Some f) (Files S ft' ps)) → wp filealloc Q (Files S ft ps).
Proof using Type.
  intros HR HN HQ. unfold filealloc. apply wp_bind, wp_gets. cbn [ftable]. destruct (list_find _ ft) as [[f x]|] eqn:E; [|by apply wp_ret].
  apply list_find_Some in E as (Hx & Hz & _). apply wp_bind, (wp_upd_f _ _ _ _ x); [done|]. apply wp_ret. apply HQ. apply (refs_change ft o (Some f :: o) f x); [done|done| | |cbn; lia].
  - cbn. rewrite count_cons, decide_True, <- (rf_count _ _ HR f x Hx) by done. lia.
  - intros f' Hne. rewrite count_cons, decide_False by congruence. lia.
Qed.

(** filedup of a file that has a descriptor, or is about to get one. *)
Lemma wp_filedup S ft ps o f (Q : nat → files B P → Prop) :
  refs ft o → Some f ∈ o → (∀ ft', refs ft' (Some f :: o) → Q f (Files S ft' ps)) → wp (filedup f) Q (Files S ft ps).
Proof using Type.
  intros HR Hin HQ. destruct (lookup_lt_is_Some_2 ft f (rf_in _ _ HR f Hin)) as [x Hx]. pose proof (rf_count _ _ HR f x Hx) as Hc. pose proof (count_pos o f Hin).
  apply wp_bind, (wp_get_f _ _ _ _ x); [done|]. apply wp_bind, wp_panic_unless; [apply Z.leb_le; lia|]. apply wp_bind, (wp_upd_f _ _ _ _ x); [done|]. apply wp_ret, HQ.
  apply (refs_change ft o (Some f :: o) f x); [done|done| | |cbn; lia].
  - cbn. rewrite count_cons, decide_True by done. lia.
  - intros f' Hne. rewrite count_cons, decide_False by congruence. lia.
Qed.

Lemma wpx_fileclose S ft ps o f (Q : unit → files B P → Prop) :
  refs ft (Some f :: o) → (∀ S' ft' ps', refs ft' o → Q tt (Files S' ft' ps')) → wpx (fileclose f) Q any (Files S ft ps).
Proof using Type.
  intros HR HQ. destruct (lookup_lt_is_Some_2 ft f (rf_in _ _ HR f ltac:(by left))) as [x Hx]. pose proof (lookup_lt_Some _ _ _ Hx) as Hlt. pose proof (rf_count _ _ HR f x Hx) as Hc.
  rewrite count_cons, decide_True in Hc by done. pose proof (count_nonneg o f). unfold fileclose.
  assert (∀ f', f' ≠ f → count o f' = count (Some f :: o) f') as Ho by (intros f' Hne; rewrite count_cons, decide_False by congruence; lia).
  apply wpx_bind_wp, (wp_get_f _ _ _ _ x); [done|]. apply wpx_bind_wp, wp_panic_unless; [apply Z.leb_le; lia|]. apply wpx_bind_wp, (wp_upd_f _ _ _ _ x); [done|].
  destruct (Z.ltb_spec 0 (f_ref x - 1)) as [Hp|Hz].
  { apply wpx_ret, HQ. apply (refs_change ft (Some f :: o) o f x); [done|done|cbn; lia|done|cbn; lia]. }
  apply wpx_bind_wp, (wp_get_f _ _ _ _ (set_fref (f_ref x - 1) x)); [by rewrite list_lookup_insert_eq|].
  apply wpx_bind_wp, (wp_upd_f _ _ _ _ (set_fref (f_ref x - 1) x)); [by rewrite list_lookup_insert_eq|]. rewrite list_insert_insert_eq.
  set (ft' := <[f := _]> ft). assert (refs ft' o) as HR' by (apply (refs_change ft (Some f :: o) o f x); [done|done|cbn; lia|done|done]).
  cbn [f_type set_fref]. destruct (f_type x); [by apply wpx_ret, HQ|apply wpx_any_pipe; intros [] ps1; by apply HQ|].
  apply wpx_bind, wpx_any_fs. intros _ S1. apply wpx_bind, wpx_any_fs. intros _ S2. apply wpx_any_fs. intros [] S3. by apply HQ.
Qed.
End table.

(** ** The system calls *)

Section calls.
Context {B P : Type} `{!Buffers B} `{!Operations B} `{!Pipes P}.
Context (dr : Z → option (Z → M B (Z * list Z))) (dw : Z → option (list Z → M B Z)).
(** The descriptors of the other processes. *)
Context (rest : list (option nat)).
Implicit Types (s : sysst B P).
Abbreviation any := (λ _ _, True).

Definition refs_ok s : Prop := refs (ftable (sfiles s)) (ofile s ++ rest) ∧ length (ofile s) = NOFILE.
(** [p] keeps the references right, whatever it returns. *)
Definition keeps_refs {A} (p : M (sysst B P) A) : Prop := ∀ s, refs_ok s → wpx p (λ _, refs_ok) any s.

Lemma keeps_refs_ret {A} (a : A) : keeps_refs (mret a).
Proof using Type. intros s Hs. by apply wpx_ret. Qed.
Lemma keeps_refs_bind {A C} (p : M (sysst B P) A) (h : A → M (sysst B P) C) : keeps_refs p → (∀ a, keeps_refs (h a)) → keeps_refs (p ≫= h).
Proof using Type. intros Hp Hh s Hs. apply wpx_bind. eapply wpx_mono; [by apply Hp| |done]. intros a s' Hs'. by apply Hh. Qed.
Lemma keeps_refs_gets {A} (h : sysst B P → A) : keeps_refs (gets h).
Proof using Type. intros s Hs. by apply wpx_wp, wp_gets. Qed.
Lemma keeps_refs_fail {A} e : keeps_refs (fail (A := A) e).
Proof using Type. intros s Hs. by apply wpx_fail. Qed.
Lemma keeps_refs_modify (h : sysst B P → sysst B P) : (∀ s, sfiles (h s) = sfiles s ∧ ofile (h s) = ofile s) → keeps_refs (modify h).
Proof using Type. intros Hh s Hs. apply wpx_wp, wp_modify. unfold refs_ok. destruct (Hh s) as [-> ->]. done. Qed.
Lemma keeps_refs_file {A} (m : M (files B P) A) :
  (∀ S ft ps o, refs ft o → wpx m (λ _ F, refs (ftable F) o) any (Files S ft ps)) → keeps_refs (file_ m).
Proof using Type. intros Hm [[S ft ps] o w um sp] [Hs Hl]. apply wpx_zoom. cbn. eapply wpx_mono; [by apply Hm|done|done]. Qed.
Lemma keeps_refs_node {A} (m : M (fsys B) A) : keeps_refs (node_ m).
Proof using Type. apply keeps_refs_file. intros S ft ps o HR. by apply wpx_any_fs. Qed.
Lemma keeps_refs_panic b msg : keeps_refs (panic_unless b msg).
Proof using Type. unfold panic_unless. destruct b; [apply keeps_refs_ret|apply keeps_refs_fail]. Qed.
Lemma keeps_refs_option {A} (y : option A) : keeps_refs (of_option y).
Proof using Type. destruct y; [apply keeps_refs_ret|apply keeps_refs_fail]. Qed.
Lemma keeps_refs_getS : keeps_refs (getS (S := sysst B P)).
Proof using Type. intros s Hs. done. Qed.
Lemma keeps_refs_begin : keeps_refs begin_op_.
Proof using Type. apply keeps_refs_node. Qed.
Lemma keeps_refs_end : keeps_refs end_op_.
Proof using Type. apply keeps_refs_node. Qed.
Lemma keeps_refs_store p bs : keeps_refs (user_store (B := B) (P := P) p bs).
Proof using Type. by apply keeps_refs_modify. Qed.

Lemma wpx_any_get S ft ps f (Q : file → files B P → Prop) : (∀ x, ft !! f = Some x → Q x (Files S ft ps)) → wpx (get_f f) Q any (Files S ft ps).
Proof using Type. intros HQ. unfold get_f. apply wpx_bind. unfold getS, wpx, of_option. cbn. destruct (ft !! f) as [x|]; [by apply HQ|done]. Qed.

Lemma wpx_any_off S ft ps o f y (Q : unit → files B P → Prop) :
  refs ft o → (∀ ft', refs ft' o → Q tt (Files S ft' ps)) → wpx (upd_f f (set_foff y)) Q any (Files S ft ps).
Proof using Type.
  intros HR HQ. apply wpx_bind, wpx_any_get. intros x Hx. apply wpx_wp, wp_modify, HQ. by apply (refs_same ft o f x); [| | |right].
Qed.

Lemma keeps_refs_read f n : keeps_refs (file_ (fileread (B := B) (P := P) dr f n)).
Proof using Type.
  apply keeps_refs_file. intros S ft ps o HR. apply wpx_bind, wpx_any_get. intros x Hx.
  destruct (negb (f_readable x)); [done|]. destruct (f_type x); [done|by apply wpx_any_pipe|].
  apply wpx_bind, wpx_any_fs. intros _ S1. apply wpx_bind, wpx_any_fs. intros r S2. apply wpx_bind.
  destruct (0 <? r.1); [apply (wpx_any_off _ _ _ o); [done|]; intros ft' HR'|apply wpx_ret]; apply wpx_bind, wpx_any_fs; intros _ S3; by apply wpx_ret.
Qed.
Lemma keeps_filewrite_op S ft ps o f src (Q : Z → files B P → Prop) :
  refs ft o → (∀ r S' ft' ps', refs ft' o → Q r (Files S' ft' ps')) → wpx (filewrite_op dw f src) Q any (Files S ft ps).
Proof using Type.
  intros HR HQ. apply wpx_bind, wpx_any_get. intros x Hx.
  apply wpx_bind, wpx_any_fs. intros _ S1. apply wpx_bind, wpx_any_fs. intros _ S2. apply wpx_bind, wpx_any_fs. intros r S3. apply wpx_bind.
  destruct (0 <? r); [apply (wpx_any_off _ _ _ o); [done|]; intros ft' HR'|apply wpx_ret]; apply wpx_bind, wpx_any_fs; intros _ S4; apply wpx_bind, wpx_any_fs; intros _ S5; by apply wpx_ret, HQ.
Qed.
Lemma keeps_refs_write f src : keeps_refs (file_ (filewrite (B := B) (P := P) dw f src)).
Proof using Type.
  apply keeps_refs_file. intros S ft ps o HR. apply wpx_bind, wpx_any_get. intros x Hx.
  destruct (negb (f_writable x)); [done|]. destruct (f_type x); [done|by apply wpx_any_pipe|]. apply wpx_bind. generalize (Datatypes.S (length src)) as fuel, 0 as i. intros fuel.
  clear Hx. revert S ft ps HR. induction fuel as [|fuel IH]; intros S ft ps HR i; cbn [filewrite_loop]; (destruct (i <? lenZ src); [|by apply wpx_ret]); [done|].
  apply wpx_bind, (keeps_filewrite_op S ft ps o); [done|]. intros r S' ft' ps' HR'. destruct (r <? 0); [by apply wpx_ret|]. apply wpx_bind.
  unfold panic_unless. destruct (r =? _); [|done]. by apply wpx_ret, IH.
Qed.
Lemma keeps_refs_stat f : keeps_refs (file_ (filestat (B := B) (P := P) f)).
Proof using Type.
  apply keeps_refs_file. intros S ft ps o HR. apply wpx_bind, wpx_any_get. intros x Hx.
  destruct (f_type x); [done|done|]. apply wpx_bind, wpx_any_fs. intros _ S1. apply wpx_bind, wpx_any_fs. intros st S2. apply wpx_bind, wpx_any_fs. intros _ S3. by apply wpx_ret.
Qed.
End calls.

Create HintDb refs discriminated.
#[export] Hint Resolve keeps_refs_ret keeps_refs_bind keeps_refs_gets keeps_refs_fail keeps_refs_node keeps_refs_panic keeps_refs_option
  keeps_refs_getS keeps_refs_begin keeps_refs_end keeps_refs_store keeps_refs_read keeps_refs_write keeps_refs_stat : refs.

(** Split a call into its steps. *)
Ltac keep_refs :=
  repeat (intros;
    lazymatch goal with
    | |- keeps_refs _ (_ ≫= _) => apply keeps_refs_bind; [|intros]
    | |- keeps_refs _ (match ?x with _ => _ end) => destruct x
    | |- keeps_refs _ _ => solve [auto with refs]
    end).

Section invariant.
Context {B P : Type} `{!Buffers B} `{!Operations B} `{!Pipes P}.
Context (dr : Z → option (Z → M B (Z * list Z))) (dw : Z → option (list Z → M B Z)) (rest : list (option nat)).
Implicit Types (s : sysst B P) (S : fsys B) (ps : P).
Abbreviation any := (λ _ _, True).

Lemma keeps_refs_argfd n : keeps_refs (B := B) (P := P) rest (argfd n).
Proof using Type. unfold argfd, arg_int. keep_refs. Qed.
Hint Resolve keeps_refs_argfd : refs.
Lemma keeps_refs_sys_read : keeps_refs rest (sys_read (B := B) (P := P) dr).
Proof using Type. unfold sys_read, arg_int, arg_ptr. keep_refs. Qed.
Lemma keeps_refs_sys_write : keeps_refs rest (sys_write (B := B) (P := P) dw).
Proof using Type. unfold sys_write, arg_int, arg_ptr. keep_refs. Qed.
Lemma keeps_refs_sys_fstat : keeps_refs (B := B) (P := P) rest sys_fstat.
Proof using Type. unfold sys_fstat, arg_ptr, store_stat. keep_refs. Qed.
Lemma keeps_refs_sys_link : keeps_refs rest (sys_link (B := B) (P := P) dr dw).
Proof using Type. unfold sys_link, arg_str, link_bad. keep_refs. Qed.
Lemma keeps_refs_sys_unlink : keeps_refs rest (sys_unlink (B := B) (P := P) dr dw).
Proof using Type. unfold sys_unlink, arg_str, unlink_bad. keep_refs. Qed.
Lemma keeps_refs_create path t m n : keeps_refs rest (create (B := B) (P := P) dr dw path t m n).
Proof using Type. unfold create. keep_refs. Qed.
Hint Resolve keeps_refs_create : refs.
Lemma keeps_refs_sys_mkdir : keeps_refs rest (sys_mkdir (B := B) (P := P) dr dw).
Proof using Type. unfold sys_mkdir, arg_str. keep_refs. Qed.
Lemma keeps_refs_sys_mknod : keeps_refs rest (sys_mknod (B := B) (P := P) dr dw).
Proof using Type. unfold sys_mknod, arg_str, arg_int. keep_refs. Qed.
Lemma keeps_refs_sys_chdir : keeps_refs rest (sys_chdir (B := B) (P := P) dr).
Proof using Type.
  unfold sys_chdir, arg_str. assert (∀ w, keeps_refs (B := B) (P := P) rest (modify (set_cwd w))) as Hw by (intros w; by apply keeps_refs_modify).
  keep_refs; apply Hw.
Qed.
Lemma keeps_refs_open_inode path m : keeps_refs rest (open_inode (B := B) (P := P) dr dw path m).
Proof using Type. unfold open_inode. keep_refs. Qed.

(** ** Calls that make and remove descriptors *)

Lemma refs_counts ft o o' : refs ft o → (∀ f, count o' f = count o f) → refs ft o'.
Proof using Type.
  intros [H1 H2 H3] Hc. constructor; [intros f x Hx; rewrite Hc; by apply H1| |done]. intros f Hin. apply H2. apply count_pos in Hin. rewrite Hc in Hin.
  unfold count in Hin. destruct (filter (λ y, y = Some f) o) as [|y l] eqn:E; [cbn in Hin; lia|].
  assert (y ∈ filter (λ y, y = Some f) o) as Hy by (rewrite E; left). by apply list_elem_of_filter in Hy as [-> Hy].
Qed.

Lemma wp_argfd s n (Q : option (Z * nat) → sysst B P → Prop) :
  Q None s → (∀ fd f, 0 ≤ fd → ofile s !! Z.to_nat fd = Some (Some f) → Q (Some (fd, f)) s) → wp (argfd n) Q s.
Proof using Type.
  clear dr dw. intros HN HQ. unfold argfd, arg_int. apply wp_bind, wp_gets, wp_bind. unfold getS, wp at 1. apply wp_ret. destruct (argint _ _ n) as [fd|]; [|done]. cbn.
  destruct (Z.ltb_spec fd 0); [done|]. cbn. destruct (_ <=? fd); [done|]. unfold getZ. rewrite (proj2 (Z.leb_le 0 fd)) by done.
  destruct (ofile s !! Z.to_nat fd) as [[f|]|] eqn:E; [by apply HQ|done|done].
Qed.
Lemma wp_fdalloc s f (Q : Z → sysst B P → Prop) :
  Q (-1) s → (∀ fd : nat, ofile s !! fd = Some None → Q (Z.of_nat fd) (set_ofile (<[fd := Some f]> (ofile s)) s)) → wp (fdalloc f) Q s.
Proof using Type.
  clear dr dw. intros HN HQ. unfold fdalloc. apply wp_bind, wp_gets. destruct (list_find _ _) as [[fd y]|] eqn:E; [|by apply wp_ret].
  apply list_find_Some in E as ([Hy _]%lookup_take_Some & -> & _). apply wp_bind, wp_modify, wp_ret. by apply HQ.
Qed.
Lemma count_fd o (fd : nat) f f' : o !! fd = Some None → count (<[fd := Some f]> o ++ rest) f' = count (Some f :: o ++ rest) f'.
Proof using Type. intros Hfd. rewrite count_app, (count_insert o fd None), count_cons, count_app by done. rewrite (decide_False (P := None = Some f')) by done. lia. Qed.
Lemma count_unfd o (fd : nat) f f' : o !! fd = Some (Some f) → count (Some f :: <[fd := None]> o ++ rest) f' = count (o ++ rest) f'.
Proof using Type. intros Hfd. rewrite count_cons, !count_app, (count_insert o fd (Some f)) by done. rewrite (decide_False (P := None = Some f')) by done. destruct (decide (Some f = Some f')); lia. Qed.

Lemma wpx_file {A} (m : M (files B P) A) F o w um sp (Q : A → sysst B P → Prop) :
  wpx m (λ a F', Q a (Sys F' o w um sp)) any F → wpx (file_ m) Q any (Sys F o w um sp).
Proof using Type. intros H. by apply wpx_zoom. Qed.

(** sys_dup returns a descriptor or -1; it never panics. *)
Lemma wp_sys_dup s : refs_ok rest s → wp sys_dup (λ _, refs_ok rest) s.
Proof using Type.
  clear dr dw. intros Hs. destruct s as [[S ft ps] o w um sp]. destruct Hs as [Hs Hlen]. cbn in Hs, Hlen. unfold sys_dup. apply wp_bind, wp_argfd; [by apply wp_ret|]. cbn [ofile]. intros fd f _ Hfd.
  apply wp_bind, wp_fdalloc; [by apply wp_ret|]. cbn [ofile]. intros fd' Hfd'. rewrite (proj2 (Z.ltb_ge _ _)) by lia. apply wp_bind, wp_zoom.
  apply (wp_filedup S ft ps (o ++ rest) f); [done|apply elem_of_app; left; by eapply list_elem_of_lookup_2|]. intros ft' HR. apply wp_ret. split; cbn; [|by rewrite length_insert].
  eapply refs_counts; [exact HR|]. intros f'. by apply count_fd.
Qed.

Lemma keeps_refs_sys_close : keeps_refs (B := B) (P := P) rest sys_close.
Proof using Type.
  clear dr dw. intros s Hs. destruct s as [[S ft ps] o w um sp]. destruct Hs as [Hs Hlen]. cbn in Hs, Hlen. unfold sys_close. apply wpx_bind_wp, wp_argfd; [by apply wpx_ret|]. cbn [ofile]. intros fd f H0 Hfd.
  apply wpx_bind_wp, wp_modify. unfold set_ofile. cbn [sfiles ofile cwd umem uesp]. unfold setZ. rewrite (proj2 (Z.leb_le 0 fd)) by done.
  apply wpx_bind, wpx_file. apply (wpx_fileclose S ft ps (<[Z.to_nat fd := None]> o ++ rest)); [eapply refs_counts; [exact Hs|]; intros f'; by apply count_unfd|].
  intros S' ft' ps' HR. apply wpx_ret. split; cbn; [done|by rewrite length_insert].
Qed.

Lemma keeps_refs_open_file ip m : keeps_refs (B := B) (P := P) rest (open_file ip m).
Proof using Type.
  clear dr dw. intros s Hs. destruct s as [[S ft ps] o w um sp]. destruct Hs as [Hs Hlen]. cbn in Hs, Hlen. unfold open_file. apply wpx_bind, wpx_file, wpx_wp.
  assert (keeps_refs (B := B) (P := P) rest (node_ (iunlockput ip);; end_op_;; mret (-1))) as Hbad by keep_refs.
  apply (wp_filealloc S ft ps (o ++ rest)); [done|by apply wpx_bind_wp, wp_ret, Hbad|]. intros f ft1 HR1.
  apply wpx_bind_wp, wp_fdalloc; cbn [ofile].
  - apply wpx_bind, wpx_file, (wpx_fileclose S ft1 ps (o ++ rest)); [done|]. intros S2 ft2 ps2 HR2. by apply Hbad.
  - intros fd Hfd. rewrite (proj2 (Z.ltb_ge _ _)) by lia. unfold set_ofile. cbn [sfiles ofile cwd umem uesp].
    assert (refs ft1 (<[fd := Some f]> o ++ rest)) as HR2 by (eapply refs_counts; [exact HR1|]; intros f'; by apply count_fd).
    apply wpx_bind, wpx_file, wpx_any_fs. intros _ S2. apply wpx_bind, wpx_file, wpx_any_fs. intros _ S3. apply wpx_bind, wpx_file, wpx_bind, wpx_any_get. intros x Hx. apply wpx_wp, wp_modify, wpx_ret.
    split; cbn; [|by rewrite length_insert]. apply (refs_same ft1 _ f x); [done|done|done|left].
    rewrite (rf_count _ _ HR2 f x Hx), count_fd, count_cons, decide_True by done. pose proof (count_nonneg (o ++ rest) f). lia.
Qed.
Hint Resolve keeps_refs_open_inode keeps_refs_open_file : refs.
Lemma keeps_refs_sys_open : keeps_refs rest (sys_open (B := B) (P := P) dr dw).
Proof using Type. unfold sys_open, arg_str, arg_int. keep_refs. Qed.

Lemma wpx_pipealloc S ft ps o (Q : option (nat * nat) → files B P → Prop) :
  refs ft o → (∀ S' ft' ps', refs ft' o → Q None (Files S' ft' ps')) →
  (∀ a b S' ft' ps', refs ft' (Some b :: Some a :: o) → Q (Some (a, b)) (Files S' ft' ps')) → wpx pipealloc Q any (Files S ft ps).
Proof using Type.
  clear dr dw. intros HR HN HQ. unfold pipealloc. apply wpx_bind_wp, (wp_filealloc S ft ps o); [done| |].
  { apply wpx_bind_wp, wp_ret. by apply wpx_bind_wp, wp_ret, wpx_bind_wp, wp_ret, wpx_ret, HN. }
  intros a ft1 HR1. apply wpx_bind_wp, (wp_filealloc S ft1 ps (Some a :: o)); [done| |].
  { apply wpx_bind, (wpx_fileclose S ft1 ps o); [done|]. intros S2 ft2 ps2 HR2. by apply wpx_bind_wp, wp_ret, wpx_ret, HN. }
  intros b ft2 HR2. apply wpx_bind, wpx_any_pipe. intros [p|] ps2.
  - assert (∀ f x x' ft3, refs ft3 (Some b :: Some a :: o) → Some f ∈ Some b :: Some a :: o → ft3 !! f = Some x → f_ref x' = f_ref x → refs (<[f := x']> ft3) (Some b :: Some a :: o)) as Hset.
    { intros f x x' ft3 HR3 Hin Hx Hr. apply (refs_same ft3 _ f x); [done|done|done|left]. rewrite (rf_count _ _ HR3 f x Hx). pose proof (count_pos _ f Hin). lia. }
    apply wpx_bind, wpx_bind, wpx_any_get. intros x Hx. apply wpx_wp, wp_modify, wpx_bind, wpx_bind, wpx_any_get. intros y Hy. apply wpx_wp, wp_modify, wpx_ret, HQ.
    apply (Hset b y); [apply (Hset a x); [done|right; left|done|done]|left|done|done].
  - apply wpx_bind, (wpx_fileclose S ft2 ps2 (Some b :: o)); [eapply refs_counts; [exact HR2|]; intros f; rewrite !count_cons; lia|]. intros S3 ft3 ps3 HR3.
    apply wpx_bind, (wpx_fileclose S3 ft3 ps3 o); [done|]. intros S4 ft4 ps4 HR4. by apply wpx_ret, HN.
Qed.

Lemma keeps_refs_sys_pipe : keeps_refs (B := B) (P := P) rest sys_pipe.
Proof using Type.
  clear dr dw. intros s Hs. destruct s as [[S ft ps] o w um sp]. destruct Hs as [Hs Hlen]. cbn in Hs, Hlen. unfold sys_pipe, arg_ptr. apply wpx_bind_wp, wp_gets. destruct (argptr _ _ 0 8) as [p|]; [|by apply wpx_ret].
  apply wpx_bind, wpx_file, (wpx_pipealloc S ft ps (o ++ rest)); [done|intros S1 ft1 ps1 HR1; by apply wpx_ret|]. intros a b S1 ft1 ps1 HR1.
  assert (∀ o', length o' = NOFILE → (∀ f, count (o' ++ rest) f = count (o ++ rest) f) → wpx (file_ (fileclose a);; file_ (fileclose b);; mret (-1)) (λ _, refs_ok rest) any (Sys (Files S1 ft1 ps1) o' w um sp)) as Hbad.
  { intros o' Hlo Ho. apply wpx_bind, wpx_file, (wpx_fileclose S1 ft1 ps1 (Some b :: o' ++ rest)); [eapply refs_counts; [exact HR1|]; intros f; rewrite !count_cons, Ho; lia|]. intros S2 ft2 ps2 HR2.
    apply wpx_bind, wpx_file, (wpx_fileclose S2 ft2 ps2 (o' ++ rest)); [done|]. intros S3 ft3 ps3 HR3. by apply wpx_ret. }
  apply wpx_bind_wp, wp_fdalloc; cbn [ofile].
  - apply wpx_bind_wp, wp_ret. by apply wpx_bind_wp, wp_ret, Hbad.
  - intros fd Hfd. rewrite (proj2 (Z.ltb_ge (Z.of_nat fd) 0)) by lia. cbn [orb]. pose proof (lookup_lt_Some _ _ _ Hfd) as Hlt. apply wpx_bind_wp, wp_fdalloc; cbn [ofile set_ofile sfiles cwd umem uesp].
    + rewrite (proj2 (Z.leb_le 0 (Z.of_nat fd))) by lia. apply wpx_bind_wp, wp_modify. unfold set_ofile, setZ. cbn [ofile sfiles cwd umem uesp]. rewrite (proj2 (Z.leb_le 0 (Z.of_nat fd))) by lia.
      rewrite Nat2Z.id, list_insert_insert_eq, list_insert_id by done. by apply Hbad.
    + intros fd1 Hfd1. rewrite (proj2 (Z.ltb_ge (Z.of_nat fd1) 0)) by lia.
      apply (keeps_refs_bind rest (user_store p (le_enc 4 (Z.of_nat fd))) (λ _, user_store (p + 4) (le_enc 4 (Z.of_nat fd1));; mret 0)); [auto with refs|keep_refs|].
      split; cbn; [|by rewrite !length_insert]. eapply refs_counts; [exact HR1|]. intros f. rewrite count_fd by done. rewrite !count_cons, count_fd by done. rewrite count_cons. lia.
Qed.

(** ** Every sequence of calls *)

Inductive fcall := CDup | CRead | CWrite | CClose | CFstat | CLink | CUnlink | COpen | CMkdir | CMknod | CChdir | CPipe.
Definition do_fcall (k : fcall) : M (sysst B P) Z :=
  match k with
  | CDup => sys_dup | CRead => sys_read dr | CWrite => sys_write dw | CClose => sys_close | CFstat => sys_fstat
  | CLink => sys_link dr dw | CUnlink => sys_unlink dr dw | COpen => sys_open dr dw | CMkdir => sys_mkdir dr dw
  | CMknod => sys_mknod dr dw | CChdir => sys_chdir dr | CPipe => sys_pipe
  end.

Lemma keeps_refs_call k : keeps_refs rest (do_fcall k).
Proof using Type.
  destruct k; cbn [do_fcall]; eauto using keeps_refs_sys_read, keeps_refs_sys_write, keeps_refs_sys_close, keeps_refs_sys_fstat, keeps_refs_sys_link, keeps_refs_sys_unlink,
    keeps_refs_sys_open, keeps_refs_sys_mkdir, keeps_refs_sys_mknod, keeps_refs_sys_chdir, keeps_refs_sys_pipe. intros s1 Hs1. by apply wpx_wp, wp_sys_dup.
Qed.
End invariant.

(** ** Every run of the kernel *)

From S2P Require Import Xstring Spinlock Proc ProcSpec ProcInv ProcDemo.

(** A pointer to an entry of a table, as the process table keeps it. *)
Definition ptr (y : option nat) : Z := match y with Some f => Z.of_nat f + 1 | None => 0 end.
Definition unptr (z : Z) : option nat := if z =? 0 then None else Some (Z.to_nat (z - 1)).

Lemma unptr_ptr y : unptr (ptr y) = y.
Proof. destruct y as [f|]; cbn; [|done]. unfold unptr. rewrite (proj2 (Z.eqb_neq _ _)) by lia. f_equal. lia. Qed.

(** The open files of a process, and of all processes. *)
Definition fds (p : proc) : list (option nat) := unptr <$> Proc.ofile p.
Definition all_fds (t : list proc) : list (option nat) := t ≫= fds.

Definition dead (p : proc) : Prop := state p ∈ [UNUSED; EMBRYO; ZOMBIE].
Definition nofiles (p : proc) : Prop := Proc.ofile p = replicate NOFILE 0.

(** The references of the file table are the descriptors of all processes; those
    that do not run, except slot [ex], have none. *)
Record finv (ex : option nat) ft (t : list proc) : Prop := {
  fi_refs : refs ft (all_fds t);
  fi_len i p : t !! i = Some p → length (Proc.ofile p) = NOFILE;
  fi_dead i p : t !! i = Some p → ex ≠ Some i → dead p → nofiles p
}.

Lemma count_all_insert t i p p' f : t !! i = Some p → count (all_fds (<[i := p']> t)) f = count (all_fds t) f - count (fds p) f + count (fds p') f.
Proof.
  revert i. induction t as [|q t IH]; intros [|i] Hi; cbn in Hi; try done.
  - injection Hi as ->. cbn. rewrite !count_app. lia.
  - change (count (fds q ++ all_fds (<[i := p']> t)) f = count (fds q ++ all_fds t) f - count (fds p) f + count (fds p') f).
    rewrite !count_app, IH by done. lia.
Qed.
Lemma count_fds_insert p (fd : nat) y z f : Proc.ofile p !! fd = Some y →
  count (fds (Proc.set_ofile p (<[fd := z]> (Proc.ofile p)))) f = count (fds p) f - (if decide (unptr y = Some f) then 1 else 0) + (if decide (unptr z = Some f) then 1 else 0).
Proof. intros Hy. unfold fds. cbn. rewrite list_fmap_insert, (count_insert _ fd (unptr y)); [done|]. by rewrite list_lookup_fmap, Hy. Qed.
Lemma fds_in t i p (fd : nat) y f : t !! i = Some p → Proc.ofile p !! fd = Some y → unptr y = Some f → Some f ∈ all_fds t.
Proof.
  intros Hp Hy <-. apply list_elem_of_bind. exists p. split; [|by eapply list_elem_of_lookup_2].
  apply list_elem_of_fmap_2. by eapply list_elem_of_lookup_2.
Qed.

(** A slot that keeps its files, and does not come to rest with some. *)
Lemma fdinv_upd ex ft t i p p' : finv ex ft t → t !! i = Some p → Proc.ofile p' = Proc.ofile p → (dead p' → dead p ∨ nofiles p) → finv ex ft (<[i := p']> t).
Proof.
  intros [H1 H2 H3] Hi Ho Hd. constructor.
  - eapply refs_counts; [exact H1|]. intros f. rewrite (count_all_insert t i p) by done. unfold fds. rewrite Ho. lia.
  - intros j q. rewrite list_lookup_insert_Some. intros [(<- & <- & _)|[_ Hq]]; [rewrite Ho|]; by eapply H2.
  - intros j q. rewrite list_lookup_insert_Some. intros [(<- & <- & _)|[_ Hq]]; [|by apply H3]. intros Hx Hdead. unfold nofiles. rewrite Ho.
    destruct (Hd Hdead); [by apply (H3 i p)|done].
Qed.

(** One descriptor of a process that runs, or of slot [ex]. *)
Lemma count_set_fd t i p (fd : nat) y z f : t !! i = Some p → Proc.ofile p !! fd = Some y →
  count (all_fds (<[i := Proc.set_ofile p (<[fd := z]> (Proc.ofile p))]> t)) f =
  count (all_fds t) f - (if decide (unptr y = Some f) then 1 else 0) + (if decide (unptr z = Some f) then 1 else 0).
Proof. intros Hp Hy. rewrite (count_all_insert t i p), (count_fds_insert p fd y) by done. lia. Qed.
Lemma finv_set_fd ex ft ft' t i p (fd : nat) z : finv ex ft t → t !! i = Some p → ex = Some i ∨ ¬ dead p →
  refs ft' (all_fds (<[i := Proc.set_ofile p (<[fd := z]> (Proc.ofile p))]> t)) → finv ex ft' (<[i := Proc.set_ofile p (<[fd := z]> (Proc.ofile p))]> t).
Proof.
  intros [_ H2 H3] Hi Hx HR. constructor; [done|..]; intros j q; rewrite list_lookup_insert_Some; intros [(<- & <- & _)|[_ Hq]]; [|by eapply H2| |by apply H3].
  - cbn. rewrite length_insert. by eapply H2.
  - intros Hne Hd. destruct Hx as [?|[]]; done.
Qed.

Section kernel.
Context {B P V : Type} `{!Buffers B} `{!Operations B} `{!Pipes P} `{vm : !KernelOps V}.
Context (dr : Z → option (Z → M B (Z * list Z))) (dw : Z → option (list Z → M B Z)).
(** The log at boot, where the first process starts, its code and its stack. *)
Context (boot_log : Z → M (fsys B) unit) (forkret_at : Z) (initcode : list Z) (fresh_tf : trapframe).

(** *** proc.c on top of file.c and fs.c *)

Definition on_files {A} (m : M (files B P) A) : M (files B P * V) A := zoom fst (λ F e, (F, snd e)) m.
Definition on_vm {A} (m : M V A) : M (files B P * V) A := zoom snd (λ v e, (fst e, v)) m.

#[local] Instance file_kernel : KernelOps (files B P * V) := {|
  kalloc := on_vm kalloc; kfree a := on_vm (kfree a); setupkvm := on_vm setupkvm; inituvm pg c := on_vm (inituvm pg c);
  allocuvm pg a b := on_vm (allocuvm pg a b); deallocuvm pg a b := on_vm (deallocuvm pg a b); copyuvm pg n := on_vm (copyuvm pg n);
  freevm pg := on_vm (freevm pg); switchuvm pg ks := on_vm (switchuvm pg ks); switchkvm := on_vm switchkvm;
  filedup z := on_files (f ← File.filedup (Z.to_nat (z - 1)); mret (ptr (Some f)));
  fileclose z := on_files (File.fileclose (Z.to_nat (z - 1)));
  idup z := on_files (i ← fs_ (Fs.idup (Z.to_nat (z - 1))); mret (ptr (Some i)));
  iput z := on_files (fs_ (Fs.iput (Z.to_nat (z - 1))));
  begin_op := on_files begin_; end_op := on_files end_;
  namei path := on_files (y ← fs_ (Fs.namei dr 0 (until_zero path)); mret (ptr y));
  iinit _ := on_files (fs_ Fs.iinit); initlog dev := on_files (fs_ (boot_log dev))
|}.

Abbreviation kernel := (@kernel (files B P * V)).
Implicit Types (k : kernel) (p q : proc) (t : list proc).

Definition kinv (ex : option nat) k : Prop := finv ex (ftable (fst (env k))) (ptable k).
(** The invariant, when slot [z] has no files. *)
Definition kz (ex z : option nat) k : Prop := kinv ex k ∧ ∀ i, z = Some i → ∃ p, ptable k !! i = Some p ∧ nofiles p.
Definition fkeeps {A} (I : kernel → Prop) (c : M kernel A) : Prop := ∀ k, I k → safe c (λ _, I) I k.

Lemma fkeeps_ret {A} I (a : A) : fkeeps I (mret a).
Proof using Type. intros k Hk. by apply safe_ret. Qed.
Lemma fkeeps_fail {A} I e : fkeeps I (fail (A := A) e).
Proof using Type. intros k Hk. unfold safe. apply wpx_fail. by destruct e. Qed.
Lemma fkeeps_gets {A} I (f : kernel → A) : fkeeps I (gets f).
Proof using Type. by intros k Hk. Qed.
Lemma fkeeps_bind {A C} I (c : M kernel A) (f : A → M kernel C) : fkeeps I c → (∀ a, fkeeps I (f a)) → fkeeps I (c ≫= f).
Proof using Type. intros Hc Hf k Hk. apply safe_bind. eapply safe_mono; [by apply Hc|]. intros a k' Hk'. by apply Hf. Qed.
Lemma fkeeps_option {A} I (o : option A) : fkeeps I (of_option o).
Proof using Type. destruct o; [apply fkeeps_ret|apply fkeeps_fail]. Qed.
Lemma fkeeps_int I z : fkeeps I (int_ z).
Proof using Type. unfold int_. destruct (_ && _); [apply fkeeps_ret|apply fkeeps_fail]. Qed.
Lemma fkeeps_panic I b msg : fkeeps I (panic_unless b msg).
Proof using Type. unfold panic_unless. destruct b; [apply fkeeps_ret|apply fkeeps_fail]. Qed.
Lemma fkeeps_for {R} I n i (body : nat → M kernel (option R)) : (∀ j, fkeeps I (body j)) → fkeeps I (for_ n i body).
Proof using Type.
  intros Hb. revert i. induction n as [|n IH]; intros i; cbn [for_]; [apply fkeeps_ret|].
  apply fkeeps_bind; [done|]. intros [r|]; [apply fkeeps_ret|done].
Qed.
Lemma fkeeps_get I i : fkeeps I (get_proc i).
Proof using Type. intros k Hk. by apply safe_get_proc. Qed.
Lemma fkeeps_onm {A} ex z (m : M machine A) : fkeeps (kz ex z) (onm m).
Proof using Type. intros k Hk. by apply safe_onm. Qed.
Lemma fkeeps_modify ex z (f : kernel → kernel) : (∀ k, ptable (f k) = ptable k ∧ env (f k) = env k) → fkeeps (kz ex z) (modify f).
Proof using Type. intros Hf k Hk. apply wpx_wp, wp_modify. unfold kz, kinv. by destruct (Hf k) as [-> ->]. Qed.
Lemma fkeeps_one {A} ex z (m : M (files B P * V) A) :
  (∀ e, wpx m (λ _ e', ftable (fst e') = ftable (fst e)) (λ _ e', ftable (fst e') = ftable (fst e)) e) → fkeeps (kz ex z) (one m).
Proof using Type.
  intros Hm k Hk. apply wpx_zoom. eapply wpx_mono; [apply Hm|..].
  - intros a e' He. unfold kz, kinv. cbn. by rewrite He.
  - intros e e' He. destruct e; try done. unfold switched, kz, kinv. cbn. by rewrite He.
Qed.
Lemma fkeeps_vm {A} ex z (m : M V A) : fkeeps (kz ex z) (one (on_vm m)).
Proof using Type. apply fkeeps_one. intros e. apply wpx_zoom. unfold wpx. by destruct (m _). Qed.
Lemma fkeeps_fs {A} ex z (m : M (fsys B) A) : fkeeps (kz ex z) (one (on_files (fs_ m))).
Proof using Type. apply fkeeps_one. intros [[S ft ps] v]. apply wpx_zoom, wpx_zoom. unfold wpx. by destruct (m _). Qed.
Lemma fkeeps_fs_map {A C} ex z (m : M (fsys B) A) (h : A → C) : fkeeps (kz ex z) (one (on_files (a ← fs_ m; mret (h a)))).
Proof using Type. apply fkeeps_one. intros [[S ft ps] v]. apply wpx_zoom, wpx_bind, wpx_zoom. unfold wpx. by destruct (m _). Qed.

(** A slot is changed, not its files; [z] may come to rest. *)
Lemma fkeeps_upd ex z i h : (∀ p, Proc.ofile (h p) = Proc.ofile p) → (∀ p, dead (h p) → dead p ∨ z = Some i) → fkeeps (kz ex z) (upd_proc i h).
Proof using Type.
  intros Ho Hd k [Hk Hz]. apply safe_upd_proc. intros p Hp. split; cbn.
  - eapply fdinv_upd; [done|done|done|]. intros [?| ->]%Hd; [by left|right]. destruct (Hz i eq_refl) as (p1 & Hp1 & Hn). congruence.
  - intros j ->. destruct (Hz j eq_refl) as (p1 & Hp1 & Hn). destruct (decide (j = i)) as [->|]; [|exists p1; by rewrite list_lookup_insert_ne].
    exists (h p). rewrite list_lookup_insert_eq by (by eapply lookup_lt_Some). split; [done|]. unfold nofiles. rewrite Ho. congruence.
Qed.

Lemma kz_forget ex z k : kz ex z k → kz ex None k.
Proof using Type. intros [Hk _]. by split. Qed.
Lemma kz_of k i p : kz None None k → ptable k !! i = Some p → dead p → kz None (Some i) k.
Proof using Type. intros [Hk _] Hp Hd. split; [done|]. intros j [= <-]. exists p. split; [done|]. by eapply fi_dead. Qed.
(** A computation that keeps the stronger invariant. *)
Lemma safe_forget {A} ex z (c : M kernel A) (Q : A → kernel → Prop) I k :
  fkeeps (kz ex z) c → kz ex z k → (∀ k', kz ex z k' → I k') → (∀ a k', kz ex z k' → Q a k') → safe c Q I k.
Proof using Type.
  intros Hc Hk HI HQ. eapply wpx_mono; [by apply Hc|auto|]. intros e k' He. destruct e; try done. by apply HI.
Qed.
End kernel.

Create HintDb fkeeps discriminated.
#[export] Hint Resolve fkeeps_ret fkeeps_fail fkeeps_gets fkeeps_option fkeeps_int fkeeps_panic fkeeps_get fkeeps_onm : fkeeps.
(** A state that is not at rest. *)
Ltac not_dead := intros ?; unfold dead; cbn; first [by left | by right | by intros ?; exfalso; set_solver].
Ltac file_kept :=
  repeat (intros;
    lazymatch goal with
    | |- fkeeps _ (_ ≫= _) => apply fkeeps_bind; [|intros]
    | |- fkeeps _ (match ?y with _ => _ end) => destruct y
    | |- fkeeps _ (for_ _ _ _) => apply fkeeps_for; intros
    | |- fkeeps _ (upd_proc _ _) => apply fkeeps_upd; [done|not_dead]
    | |- fkeeps _ (one _) => first [apply fkeeps_vm | apply fkeeps_fs | apply fkeeps_fs_map]
    | |- fkeeps _ (modify _) => by apply fkeeps_modify
    | |- fkeeps _ _ => solve [auto with fkeeps]
    end).

(** One step of a computation that keeps the invariant [kz None z]. *)
Ltac file_goes H :=
  eapply safe_forget; [|exact H| |]; [file_kept|first [done | intros ? ?; by eapply kz_forget | intros ? ?; left; by eapply kz_forget]|]; clear H; intros ? ? H.
Ltac file_step H := apply safe_bind; file_goes H.

Section operations.
Context {B P V : Type} `{!Buffers B} `{!Operations B} `{!Pipes P} `{vm : !KernelOps V}.
Context (dr : Z → option (Z → M B (Z * list Z))) (boot_log : Z → M (fsys B) unit).
#[local] Instance ops : KernelOps (files B P * V) := file_kernel dr boot_log.
Abbreviation kernel := (@kernel (files B P * V)).
Implicit Types (k : kernel) (p q : proc) (t : list proc).

Lemma fkeeps_curproc ex z : fkeeps (B := B) (P := P) (V := V) (kz ex z) curproc.
Proof. unfold curproc. file_kept. Qed.
Hint Resolve fkeeps_curproc : fkeeps.
Lemma fkeeps_wakeup1 ex z c : fkeeps (B := B) (P := P) (V := V) (kz ex z) (Proc.wakeup1 c).
Proof. unfold wakeup1. file_kept. Qed.
Hint Resolve fkeeps_wakeup1 : fkeeps.
Lemma fkeeps_sched ex z : fkeeps (B := B) (P := P) (V := V) (kz ex z) sched.
Proof. unfold sched. file_kept. Qed.
Hint Resolve fkeeps_sched : fkeeps.
Lemma fkeeps_reparent ex z cur : fkeeps (B := B) (P := P) (V := V) (kz ex z) (reparent cur).
Proof. unfold reparent. file_kept. Qed.
Hint Resolve fkeeps_reparent : fkeeps.
Lemma fkeeps_sleep ex z c lk : fkeeps (B := B) (P := P) (V := V) (kz ex z) (sleep c lk).
Proof. unfold sleep. file_kept. Qed.
Lemma fkeeps_sleep_post ex z l : fkeeps (B := B) (P := P) (V := V) (kz ex z) (sleep_post l).
Proof. unfold sleep_post. file_kept. Qed.
Hint Resolve fkeeps_sleep fkeeps_sleep_post : fkeeps.
Lemma fkeeps_count ex z n i a : fkeeps (B := B) (P := P) (V := V) (kz ex z) (count_procs n i a).
Proof. revert i a. induction n as [|n IH]; intros i a; cbn [count_procs]; file_kept. Qed.
Lemma fkeeps_max ex z n i a : fkeeps (B := B) (P := P) (V := V) (kz ex z) (max_pid_loop n i a).
Proof. revert i a. induction n as [|n IH]; intros i a; cbn [max_pid_loop]; file_kept. Qed.
Lemma fkeeps_fill ex z n i l : fkeeps (B := B) (P := P) (V := V) (kz ex z) (fill_queue n i l).
Proof. revert i l. induction n as [|n IH]; intros i l; cbn [fill_queue]; file_kept. Qed.
Hint Resolve fkeeps_count fkeeps_max fkeeps_fill : fkeeps.

(** What the running process may call, except fork and exit. *)
Lemma fkeeps_reap i : fkeeps (B := B) (P := P) (V := V) (kz None (Some i)) (reap i).
Proof. unfold reap. file_kept. Qed.
Lemma fkeeps_wait_scan n : ∀ i cur h, fkeeps (B := B) (P := P) (V := V) (kz None None) (wait_scan n i cur h).
Proof.
  induction n as [|n IH]; intros i cur h; cbn [wait_scan]; [file_kept|]. intros k Hk. apply safe_bind, safe_get_proc. intros p Hp.
  destruct (decide (parent p = Some cur)); [|by apply IH]. destruct (decide (state p = ZOMBIE)) as [Hz|]; [|by apply IH].
  apply safe_bind, (safe_forget None (Some i)); [apply fkeeps_reap| |by apply kz_forget|].
  - apply (kz_of k i p); [done..|]. unfold dead. rewrite Hz. set_solver.
  - intros r k' Hk'. apply safe_ret. by apply kz_forget in Hk'.
Qed.
Hint Resolve fkeeps_wait_scan : fkeeps.
Lemma fkeeps_wait_body cur : fkeeps (B := B) (P := P) (V := V) (kz None None) (wait_body cur).
Proof. unfold wait_body. file_kept. Qed.
Hint Resolve fkeeps_wait_body : fkeeps.

Lemma fkeeps_perform forkret_at fresh_tf cur c :
  c ≠ CFork → c ≠ CExit → fkeeps (B := B) (P := P) (V := V) (kz None None) (perform forkret_at fresh_tf cur c).
Proof.
  intros Hf He. destruct c; try done; cbn [perform]; unfold wait, yield, wakeup, kill, set_prio, get_prio, growproc, get_num_proc, get_max_pid, get_proc_info,
    forkret, wait_resume, sched_post; file_kept.
Qed.
Lemma fkeeps_sched_pass c : fkeeps (B := B) (P := P) (V := V) (kz None None) (sched_pass (λ i, fail (Sleep (proc_addr i))) c).
Proof.
  assert (∀ l, fkeeps (B := B) (P := P) (V := V) (kz None None) (sched_rounds (λ i, fail (Sleep (proc_addr i))) c l)) as Hl.
  { induction l as [|q l IH]; cbn [sched_rounds]; unfold sched_round, dispatch; file_kept. }
  unfold sched_pass. file_kept.
Qed.
Lemma fkeeps_dispatch_end c i : fkeeps (B := B) (P := P) (V := V) (kz None None) (dispatch_end c i).
Proof. unfold dispatch_end. file_kept. Qed.
Lemma fkeeps_wakeup c : fkeeps (B := B) (P := P) (V := V) (kz None None) (Proc.wakeup c).
Proof. unfold wakeup. file_kept. Qed.

(** ** A new process *)

Lemma safe_find_unused k (Q : option nat → kernel → Prop) I :
  Q None k → (∀ i p, ptable k !! i = Some p → state p = UNUSED → Q (Some i) k) → safe find_unused Q I k.
Proof.
  intros HN HQ. apply wpx_for with (I := λ _ k', k' = k); [done| |by intros ? ->]. intros j k' _ ->. apply safe_bind, safe_get_proc. intros p Hp.
  destruct (decide (state p = UNUSED)); apply safe_ret; [by eapply HQ|done].
Qed.
Lemma fsafe_allocproc forkret_at fresh_tf k (Q : option nat → kernel → Prop) :
  kz None None k → (∀ k', kz None None k' → Q None k') →
  (∀ i p k', ptable k !! i = Some p → state p = UNUSED → kz None (Some i) k' → Q (Some i) k') → safe (allocproc forkret_at fresh_tf) Q (kz None None) k.
Proof.
  intros Hk HN HQ. apply safe_bind, safe_onm; [|done]. intros _ m1. apply safe_bind, safe_find_unused.
  { apply safe_bind, safe_onm; [|done]. intros _ m2. by apply safe_ret, HN. }
  intros i p Hp Hs. cbn in Hp. assert (kz None (Some i) (set_mach m1 k)) as Hz by (apply (kz_of _ i p); [done|done|unfold dead; rewrite Hs; set_solver]).
  do 10 file_step Hz. case_match; [file_step Hz; apply safe_ret, HN; by eapply kz_forget|].
  file_step Hz. apply safe_ret. by eapply HQ.
Qed.

Lemma wp_dup_files np cur k (Q : unit → kernel → Prop) :
  np ≠ cur → kz None (Some np) k → is_Some (ptable k !! cur) → (∀ k', kz (Some np) None k' → Q tt k') → wp (dup_files np cur) Q k.
Proof.
  intros Hne [Hk Hz] Hcur HQ. apply wp_bind, wp_for with (I := λ j k', kinv (Some np) k' ∧ is_Some (ptable k' !! cur) ∧
    ∃ q, ptable k' !! np = Some q ∧ ∀ i, (j ≤ i < NOFILE)%nat → Proc.ofile q !! i = Some 0).
  - destruct (Hz np eq_refl) as (q & Hq & Hn). split_and!; [|done|].
    + destruct Hk as [H1 H2 H3]. constructor; [done..|]. intros i p Hp _ Hd. by apply (H3 i p).
    + exists q. split; [done|]. intros i Hi. rewrite Hn. apply lookup_replicate. lia.
  - intros j k1 Hj (Hk1 & [p Hp] & q & Hq & Hz1). apply wp_bind, wp_get_proc with p; [done|].
    destruct (lookup_lt_is_Some_2 (Proc.ofile p) j) as [f Hf]; [rewrite (fi_len _ _ _ Hk1 cur p Hp); lia|]. apply wp_bind, wp_of_option with f; [done|].
    destruct (Z.eqb_spec f 0) as [->|Hf0]; cbn [negb].
    { apply wp_ret. split_and!; [done|by exists p|]. exists q. split; [done|]. intros i Hi. apply Hz1. lia. }
    assert (unptr f = Some (Z.to_nat (f - 1))) as Hu by (unfold unptr; by rewrite (proj2 (Z.eqb_neq _ _))).
    apply wp_bind, wp_zoom, wp_zoom, wp_bind. destruct k1 as [m t n ini fst0 [[S ft ps] v]]. cbn in *.
    apply (wp_filedup S ft ps (all_fds t)); [apply Hk1|eapply fds_in; [exact Hp|exact Hf|exact Hu]|]. intros ft' HR. apply wp_ret.
    apply wp_bind, wp_upd_proc with q; [done|]. apply wp_ret. cbn. split_and!.
    + eapply finv_set_fd; [exact Hk1|done|by left|]. eapply refs_counts; [exact HR|]. intros f1.
      pose proof (unptr_ptr (Some (Z.to_nat (f - 1)))) as Hup. cbn [ptr] in Hup.
      rewrite (count_set_fd t np q j 0), Hup, count_cons by (done || apply Hz1; lia). rewrite (decide_False (P := unptr 0 = Some f1)) by done. lia.
    + rewrite list_lookup_insert_ne by done. by exists p.
    + eexists. rewrite list_lookup_insert_eq by (by eapply lookup_lt_Some). split; [done|]. cbn. intros i Hi. rewrite list_lookup_insert_ne by lia. apply Hz1. lia.
  - intros k1 (Hk1 & _). by apply wp_ret, HQ.
Qed.

Lemma files_dupped np cur k (Q : unit → kernel → Prop) I :
  np ≠ cur → kz None (Some np) k → (∀ k', kz (Some np) None k' → Q tt k') → safe (dup_files np cur) Q I k.
Proof.
  intros Hne Hk HQ. destruct (ptable k !! cur) as [p|] eqn:Hp; [apply wpx_wp, wp_dup_files; [done|done|by exists p|done]|].
  apply safe_bind. cbn [for_ NOFILE]. apply safe_bind, safe_bind, safe_get_proc. congruence.
Qed.

Lemma fsafe_fork forkret_at fresh_tf cur p k :
  kz None None k → ptable k !! cur = Some p → state p = RUNNING → at_proc cur (mach k) →
  safe (fork forkret_at fresh_tf) (λ _, kz None None) (λ _, True) k.
Proof.
  intros Hk Hp Hr Hat. apply safe_bind, (safe_curproc cur); [done| |done]. intros m1 _. apply safe_bind.
  eapply wpx_mono; [apply (fsafe_allocproc forkret_at fresh_tf _ (λ r k', match r with Some np => np ≠ cur ∧ kz None (Some np) k' | None => kz None None k' end))| |by intros []]; [done|done| |].
  { intros i p' k' Hp' Hs Hz. cbn in Hp'. split; [|done]. intros ->. congruence. }
  intros [np|] k1; [|by intros Hz; apply safe_ret]. intros [Hne Hz]. do 3 file_step Hz. case_match.
  { do 4 file_step Hz. apply safe_ret. by eapply kz_forget. }
  do 4 file_step Hz. apply safe_bind, (files_dupped np cur); [done..|]. clear Hz. intros k2 Hz. do 6 file_step Hz.
  apply safe_bind, safe_upd_proc. intros q Hq.
  match goal with |- context [set_ptable ?t ?k] => assert (kz None None (set_ptable t k)) as Hz' end.
  { destruct Hz as [[H1 H2 H3] _]. split; [|done]. constructor; cbn.
    - eapply refs_counts; [exact H1|]. intros f. rewrite (count_all_insert _ np q) by done. unfold fds. cbn. lia.
    - intros j q'. rewrite list_lookup_insert_Some. intros [(<- & <- & _)|[_ Hq']]; [exact (H2 np q Hq)|by eapply H2].
    - intros j q'. rewrite list_lookup_insert_Some. intros [(<- & <- & _)|[Hj Hq']]; [intros _ Hd; unfold dead in Hd; cbn in Hd; exfalso; set_solver|].
      intros _. apply (H3 j); [done|congruence]. }
  file_step Hz'. by apply safe_ret.
Qed.

(** ** The end of a process *)

Definition runs (cur : nat) k : Prop := ∃ p, ptable k !! cur = Some p ∧ state p = RUNNING.

Lemma files_closed cur k (Q : unit → kernel → Prop) (I : kernel → Prop) :
  kz None None k → runs cur k → (∀ k', runs cur k' → I k') → (∀ k', kz None (Some cur) k' → Q tt k') → safe (close_files cur) Q I k.
Proof.
  intros [Hk _] Hrun HI HQ. apply safe_bind, wpx_for with (I := λ j k', kinv None k' ∧
    ∃ p, ptable k' !! cur = Some p ∧ state p = RUNNING ∧ ∀ i, (i < j)%nat → Proc.ofile p !! i = Some 0).
  - split; [done|]. destruct Hrun as (p & Hp & Hr). exists p. split_and!; [done..|]. lia.
  - intros j k1 Hj (Hk1 & p & Hp & Hr & Hz). apply safe_bind, safe_get_proc. intros p' Hp'. assert (p' = p) as -> by congruence. clear Hp'.
    apply safe_bind, safe_of_option. intros f Hf.
    destruct (Z.eqb_spec f 0) as [->|Hf0]; cbn [negb].
    { apply safe_ret. split; [done|]. exists p. split_and!; [done..|]. intros i Hi. destruct (decide (i = j)) as [->|]; [done|]. apply Hz. lia. }
    assert (unptr f = Some (Z.to_nat (f - 1))) as Hu by (unfold unptr; by rewrite (proj2 (Z.eqb_neq _ _))).
    destruct k1 as [m t n ini fst0 [[S ft ps] v]]. cbn in Hp. assert (¬ dead p) as Hnd by (unfold dead; rewrite Hr; set_solver).
    set (t' := <[cur := Proc.set_ofile p (<[j := 0]> (Proc.ofile p))]> t).
    apply safe_bind, wpx_zoom, wpx_zoom. cbn. eapply wpx_mono; [apply (wpx_fileclose S ft ps (all_fds t') _ (λ _ F, refs (ftable F) (all_fds t')))|..].
    + eapply refs_counts; [apply Hk1|]. intros f1. cbn [ptable]. rewrite count_cons. unfold t'. rewrite (count_set_fd t cur p j f), Hu by done.
      rewrite (decide_False (P := unptr 0 = Some f1)) by done. destruct (decide (Some _ = Some f1)); lia.
    + done.
    + intros [] F HR. apply safe_bind, safe_upd_at with p; [done|]. apply safe_ret. cbn. split; [by eapply finv_set_fd; [exact Hk1|..]; auto|].
      eexists. rewrite list_lookup_insert_eq by (by eapply lookup_lt_Some). split_and!; [done..|]. cbn. intros i Hi.
      destruct (decide (i = j)) as [->|]; [rewrite list_lookup_insert_eq by (by eapply lookup_lt_Some); done|]. rewrite list_lookup_insert_ne by done. apply Hz. lia.
    + intros e F _. destruct e; try done. apply HI. by exists p.
  - intros k1 (Hk1 & p & Hp & Hr & Hz). apply safe_ret, HQ. split; [done|]. intros i [= <-]. exists p. split; [done|].
    apply list_eq_same_length with NOFILE; [apply length_replicate|by eapply fi_len|]. intros i a b Hi Ha Hb.
    rewrite Hz in Ha by done. rewrite lookup_replicate_2 in Hb by done. congruence.
Qed.

Lemma fsafe_exit cur k :
  kz None None k → runs cur k → at_proc cur (mach k) → safe exit (λ _ _, True) (λ k', kz None None k' ∨ runs cur k') k.
Proof.
  intros Hk Hrun Hat. apply safe_bind, (safe_curproc cur); [done| |by left]. intros m1 _. apply safe_bind, wpx_wp, wp_gets.
  destruct (decide (_ = Some cur)); [by apply wpx_fail|]. apply safe_bind, files_closed; [done|done|by right|]. intros k1 Hz.
  do 11 file_step Hz. by apply wpx_fail.
Qed.

Lemma fsafe_userinit forkret_at initcode fresh_tf k :
  kz None None k → safe (userinit forkret_at initcode fresh_tf) (λ _, kz None None) (λ _, True) k.
Proof.
  intros Hk. apply safe_bind. eapply wpx_mono; [apply (fsafe_allocproc forkret_at fresh_tf k (λ r, kz None r))| |by intros []]; [done|done|by intros|].
  intros [i|] k1 Hz; [|by apply safe_bind, safe_bind]. do 4 file_step Hz. case_match; [by apply wpx_fail|]. do 9 file_step Hz.
  file_goes Hz. by eapply kz_forget.
Qed.
End operations.

Section runs.
Context {B P V : Type} `{!Buffers B} `{!Operations B} `{!Pipes P} `{vm : !KernelOps V}.
Context (dr : Z → option (Z → M B (Z * list Z))) (dw : Z → option (list Z → M B Z)).
Context (boot_log : Z → M (fsys B) unit) (forkret_at : Z) (initcode : list Z) (fresh_tf : trapframe).
#[local] Instance kernel_ops : KernelOps (files B P * V) := file_kernel dr boot_log.
Abbreviation kernel := (@kernel (files B P * V)).
Implicit Types (k : kernel) (p : proc) (s : sysst B P).

(** A system call sees the files and the process that makes it, with its memory
    [um] and its stack pointer [sp]; what it changes goes back to the slot. *)
Definition enter k p (um : list Z) (sp : Z) : sysst B P := Sys (fst (env k)) (fds p) (Z.to_nat (Proc.cwd p - 1)) um sp.
Definition leave (cur : nat) p s k : kernel :=
  set_ptable (<[cur := Proc.set_cwd (Proc.set_ofile p (ptr <$> Sysfile.ofile s)) (ptr (Some (Sysfile.cwd s)))]> (ptable k)) (set_env (sfiles s, snd (env k)) k).

(** The states reached from a boot without open files.  One process after the
    other makes a call that returns or, in proc.c, switches to the scheduler;
    in between the schedulers run, and anything may happen to the machine, the
    memory, the file system and the pipes. *)
Inductive fd_reach : kernel → Prop :=
  | fd_boot k k' : Forall (λ p, state p = UNUSED ∧ nofiles p) (ptable k) → Forall (λ x, f_ref x = 0 ∧ f_type x = FD_NONE) (ftable (fst (env k))) →
      userinit forkret_at initcode fresh_tf k = Ret tt k' → fd_reach k'
  (** a system call of sysfile.c *)
  | fd_file k cur p um sp c r s : fd_reach k → ptable k !! cur = Some p → state p = RUNNING →
      do_fcall dr dw c (enter k p um sp) = Ret r s → fd_reach (leave cur p s k)
  (** fork returns; exit leaves a zombie; other calls of proc.c *)
  | fd_fork k cur p r k' : fd_reach k → ptable k !! cur = Some p → state p = RUNNING → at_proc cur (mach k) →
      fork forkret_at fresh_tf k = Ret r k' → fd_reach k'
  | fd_exit k cur p p' k' : fd_reach k → ptable k !! cur = Some p → state p = RUNNING → at_proc cur (mach k) →
      exit k = Fail (Sleep 0) k' → ptable k' !! cur = Some p' → state p' = ZOMBIE → fd_reach k'
  | fd_call k cur p c k' : fd_reach k → ptable k !! cur = Some p → state p = RUNNING → at_proc cur (mach k) → c ≠ CFork → c ≠ CExit →
      leads (perform forkret_at fresh_tf cur c) k k' → fd_reach k'
  (** the schedulers, and interrupts *)
  | fd_sched k c k' : fd_reach k → leads (sched_pass (λ i, fail (Sleep (proc_addr i))) c) k k' → fd_reach k'
  | fd_back k c i k' : fd_reach k → leads (dispatch_end c i) k k' → fd_reach k'
  | fd_wakeup k ch k' : fd_reach k → leads (wakeup ch) k k' → fd_reach k'
  | fd_other k m b S ps v : fd_reach k →
      fd_reach (Kernel m (ptable k) (nextpid k) (initproc k) b (Files S (ftable (fst (env k))) ps, v)).

Lemma fsafe_leads {A} (c : M kernel A) k k' : fkeeps (kz None None) c → kz None None k → leads c k k' → kz None None k'.
Proof. intros Hc Hk. specialize (Hc k Hk). unfold safe, wpx in Hc. by intros [[a He]|[ch He]]; rewrite He in Hc. Qed.

Lemma boot_kz k : Forall (λ p, state p = UNUSED ∧ nofiles p) (ptable k) → Forall (λ x, f_ref x = 0 ∧ f_type x = FD_NONE) (ftable (fst (env k))) → kz None None k.
Proof.
  intros Ht Hf. rewrite !Forall_lookup in *. assert (∀ f, count (all_fds (ptable k)) f = 0) as Hc.
  { intros f. destruct (decide (Some f ∈ all_fds (ptable k))) as [Hin|Hin].
    - apply list_elem_of_bind in Hin as (p & Hin & [i Hp]%list_elem_of_lookup). destruct (Ht i p Hp) as [_ Hn]. unfold fds in Hin. rewrite Hn in Hin.
      apply list_elem_of_fmap in Hin as (y & Hy & [-> _]%elem_of_replicate). done.
    - unfold count. destruct (filter _ _) as [|y l] eqn:E; [done|]. assert (y ∈ filter (λ y, y = Some f) (all_fds (ptable k))) as Hy by (rewrite E; left).
      apply list_elem_of_filter in Hy as [-> Hy]. done. }
  split; [|done]. constructor; [constructor|..].
  - intros f x Hx. rewrite Hc. by apply (Hf f).
  - intros f Hin. pose proof (count_pos _ f Hin) as Hp. rewrite Hc in Hp. lia.
  - intros f x Hx _. by apply (Hf f).
  - intros i p Hp. destruct (Ht i p Hp) as [_ ->]. apply length_replicate.
  - intros i p Hp _ _. by apply (Ht i p).
Qed.

Lemma call_kz k cur p um sp c r s :
  kz None None k → ptable k !! cur = Some p → state p = RUNNING → do_fcall dr dw c (enter k p um sp) = Ret r s → kz None None (leave cur p s k).
Proof.
  intros [Hk _] Hp Hr Hc. split; [|done]. set (rest := all_fds (<[cur := Proc.set_ofile p []]> (ptable k))).
  assert (refs_ok rest (enter k p um sp)) as Hs.
  { split; [|cbn; unfold fds; rewrite length_fmap; by eapply fi_len]. eapply refs_counts; [apply Hk|]. intros f.
    cbn. unfold rest. rewrite count_app, (count_all_insert _ cur p) by done. change (count (fds (Proc.set_ofile p [])) f) with 0. lia. }
  apply (keeps_refs_call dr dw rest c) in Hs. unfold wpx in Hs. rewrite Hc in Hs. destruct Hs as [HR Hl].
  assert (∀ q, fds (Proc.set_cwd (Proc.set_ofile p (ptr <$> Sysfile.ofile s)) q) = Sysfile.ofile s) as Hfds.
  { intros q. unfold fds. cbn. rewrite <- list_fmap_compose. rewrite <- (list_fmap_id (Sysfile.ofile s)) at 2. apply list_fmap_ext. intros i y _. apply unptr_ptr. }
  constructor; cbn.
  - eapply refs_counts; [exact HR|]. intros f. rewrite (count_all_insert _ cur p), Hfds, count_app by done. unfold rest.
    rewrite (count_all_insert _ cur p) by done. change (count (fds (Proc.set_ofile p [])) f) with 0. lia.
  - intros j q. rewrite list_lookup_insert_Some. intros [(<- & <- & _)|[_ Hq]]; [cbn; by rewrite length_fmap|by eapply (fi_len _ _ _ Hk)].
  - intros j q. rewrite list_lookup_insert_Some. intros [(<- & <- & _)|[_ Hq]]; [|by apply (fi_dead _ _ _ Hk j)].
    unfold dead. cbn. rewrite Hr. intros _ Hd. exfalso. set_solver.
Qed.

Lemma fd_reach_kz k : fd_reach k → kz None None k.
Proof.
  induction 1 as [k k' Ht Hf Hu|k cur p um sp c r s _ IH Hp Hr Hc|k cur p r k' _ IH Hp Hr Hat He|k cur p p' k' _ IH Hp Hr Hat He Hp' Hz|
    k cur p c k' _ IH Hp Hr Hat H1 H2 Hl|k c k' _ IH Hl|k c i k' _ IH Hl|k ch k' _ IH Hl|k m b S ps v _ IH].
  - pose proof (fsafe_userinit dr boot_log forkret_at initcode fresh_tf k (boot_kz k Ht Hf)) as Hs. change (ops dr boot_log) with kernel_ops in Hs. unfold safe, wpx in Hs. by rewrite Hu in Hs.
  - by eapply call_kz.
  - pose proof (fsafe_fork dr boot_log forkret_at fresh_tf cur p k IH Hp Hr Hat) as Hs. change (ops dr boot_log) with kernel_ops in Hs. unfold safe, wpx in Hs. by rewrite He in Hs.
  - pose proof (fsafe_exit dr boot_log cur k IH (ex_intro _ p (conj Hp Hr)) Hat) as Hs. change (ops dr boot_log) with kernel_ops in Hs. unfold safe, wpx in Hs. rewrite He in Hs.
    destruct Hs as [Hs|(q & Hq & Hrq)]; [done|congruence].
  - eapply fsafe_leads; [by apply (fkeeps_perform dr boot_log)|done|done].
  - eapply fsafe_leads; [apply (fkeeps_sched_pass dr boot_log)|done|done].
  - eapply fsafe_leads; [apply (fkeeps_dispatch_end dr boot_log)|done|done].
  - eapply fsafe_leads; [apply fkeeps_wakeup; done|done|done].
  - done.
Qed.
End runs.

(** C10. The reference counts of open files are exact.  Take any state of the
    kernel reached from its boot by system calls of any number of processes
    (the twelve of sysfile.c that open, use and close files and directories,
    fork, exit, wait and the others of proc.c) and the scheduler, where a call
    of one process is over before the next begins.  Each entry of the file
    table has exactly as many references as descriptors of all processes name
    it, and one without references has no type; a descriptor names an entry in
    use, and only a process that is alive has descriptors.  So neither filedup
    nor fileclose finds a free entry: dup by any running process returns, and
    so does the loop of fork that copies the descriptors. *)
Theorem fd_refs_exact {B P V} `{!Buffers B} `{!Operations B} `{!Pipes P} `{!KernelOps V} dr dw boot_log forkret_at initcode fresh_tf
    (k : @kernel (files B P * V)) :
  fd_reach dr dw boot_log forkret_at initcode fresh_tf k →
  (∀ f x, ftable (fst (env k)) !! f = Some x → f_ref x = count (all_fds (ptable k)) f ∧ (f_ref x = 0 → f_type x = FD_NONE)) ∧
  (∀ i p (fd : nat) f, ptable k !! i = Some p → fds p !! fd = Some (Some f) →
     state p ∈ [SLEEPING; RUNNABLE; RUNNING] ∧ ∃ x, ftable (fst (env k)) !! f = Some x ∧ 1 ≤ f_ref x) ∧
  (∀ i p um sp, ptable k !! i = Some p → wp sys_dup (λ _ _, True) (enter k p um sp)) ∧
  (∀ np cur q p, np ≠ cur → ptable k !! np = Some q → state q ∈ [UNUSED; EMBRYO; ZOMBIE] → ptable k !! cur = Some p →
     wp (@dup_files _ (file_kernel dr boot_log) np cur) (λ _ _, True) k).
Proof.
  intros [Hk Hn]%fd_reach_kz. pose proof (fi_refs _ _ _ Hk) as HR. split_and!.
  - intros f x Hx. split; [by apply (rf_count _ _ HR)|by apply (rf_free _ _ HR f)].
  - intros i p fd f Hp Hfd. split.
    + destruct (decide (state p ∈ [SLEEPING; RUNNABLE; RUNNING])) as [|Hs]; [done|]. exfalso. unfold fds in Hfd.
      rewrite (fi_dead _ _ _ Hk i p Hp) in Hfd by (done || unfold dead; destruct (state p); set_solver). apply list_lookup_fmap_Some in Hfd as (y & Hu & Hy).
      apply lookup_replicate in Hy as [-> _]. done.
    + apply list_lookup_fmap_Some in Hfd as (y & Hu & Hy). pose proof (fds_in _ _ _ _ _ _ Hp Hy (eq_sym Hu)) as Hin.
      destruct (lookup_lt_is_Some_2 _ f (rf_in _ _ HR f Hin)) as [x Hx]. exists x. split; [done|]. rewrite (rf_count _ _ HR f x Hx). pose proof (count_pos _ f Hin). lia.
  - intros i p um sp Hp. eapply wp_mono; [apply (wp_sys_dup (all_fds (<[i := Proc.set_ofile p []]> (ptable k))))|done].
    split; [|cbn; unfold fds; rewrite length_fmap; by eapply fi_len]. eapply refs_counts; [exact HR|]. intros f.
    cbn. rewrite count_app, (count_all_insert _ i p) by done. change (count (fds (Proc.set_ofile p [])) f) with 0. lia.
  - intros np cur q p Hne Hq Hd Hp. apply (wp_dup_files dr boot_log); [done|by apply (kz_of k np q)|by exists p|done].
Qed.

(** *** A machine without disks, whose pipes are numbered *)

Definition no_disk : Buffers unit := {| bl_read _ := fail Fault; bl_update _ _ := fail Fault |}.
Definition no_log : Operations unit := {| bl_begin := mret tt; bl_end := mret tt |}.
Definition numbered : Pipes nat :=
  {| p_new := (n ← getS; modify S;; mret (Some n)); p_read _ _ := mret (0, []); p_write _ l := mret (lenZ l); p_close _ _ := mret tt |}.
Definition mem0 (a : Z) : list Z := put 4 (le_enc 4 a) (replicate 64 0).
#[local] Existing Instances no_disk no_log numbered demo_ops.
Abbreviation demo_kernel := (@kernel (files unit nat * Z)).
#[local] Instance demo_kernel_ops : KernelOps (files unit nat * Z) := file_kernel (λ _, None) (λ _, mret tt).
Abbreviation demo_reach := (fd_reach (λ _, None) (λ _, None) (λ _, mret tt) 0x1000 [] tf_zero).

(** One CPU that runs [c], with interrupts on and all locks free. *)
Definition cpu_with (c : option nat) : machine := Machine [Cpu 0 0 true c] true 0 {[ PTLOCK := free_lock ]}.
Definition on_machine (c : option nat) (k : demo_kernel) : demo_kernel :=
  Kernel (cpu_with c) (ptable k) (nextpid k) (initproc k) false (Files (ffs (fst (env k))) (ftable (fst (env k))) (pipes (fst (env k))), snd (env k)).
Definition demo_off : demo_kernel :=
  Kernel (cpu_with None) (replicate NPROC blank_proc) 1 None false
    (Files (Fsys tt (sb_of []) (replicate 3 (Inode 0 0 0 false false 0 0 0 0 0 []))) (replicate 3 (File FD_NONE 0 false false 0 0 0)) 0%nat, 10).
Definition demo_call (cur : nat) (c : fcall) (um : list Z) (k : demo_kernel) : demo_kernel :=
  match ptable k !! cur with
  | Some p => leave cur p (final (do_fcall (λ _, None) (λ _, None) c) (enter k p um 0)) k
  | None => k
  end.
Definition start_at (cur : nat) (k : demo_kernel) : demo_kernel :=
  on_machine (Some cur) (final (sched_pass (λ i, fail (Sleep (proc_addr i))) 0) (on_machine None k)).

(** init makes a pipe, duplicates its read end and forks; the child exits. *)
Definition demo_init : demo_kernel := Eval vm_compute in start_at 0 (final (userinit 0x1000 [] tf_zero) demo_off).
Definition demo_dup : demo_kernel := Eval vm_compute in demo_call 0 CDup (mem0 0) (demo_call 0 CPipe (mem0 16) demo_init).
Definition demo_fork : demo_kernel := Eval vm_compute in final (fork 0x1000 tf_zero) demo_dup.
Definition demo_child : demo_kernel := Eval vm_compute in start_at 1 demo_fork.
Definition demo_exit : demo_kernel := Eval vm_compute in final exit demo_child.

Lemma demo_running k (c : option nat) : demo_reach k → demo_reach (on_machine c k).
Proof. intros Hk. exact (fd_other _ _ _ _ _ _ k (cpu_with c) false _ _ _ Hk). Qed.
Lemma demo_start cur k : demo_reach k →
  sched_pass (λ i, fail (Sleep (proc_addr i))) 0 (on_machine None k) =
    Fail (Sleep (proc_addr cur)) (final (sched_pass (λ i, fail (Sleep (proc_addr i))) 0) (on_machine None k)) →
  demo_reach (start_at cur k).
Proof.
  intros Hk He. apply demo_running. eapply (fd_sched _ _ _ _ _ _ (on_machine None k) 0); [by apply demo_running|].
  right. exists (proc_addr cur). exact He.
Qed.
Lemma demo_at cur : at_proc cur (cpu_with (Some cur)).
Proof. exists 0%nat, (Cpu 0 0 true (Some cur)). repeat split. Qed.

Lemma demo_init_reach : demo_reach demo_init.
Proof.
  replace demo_init with (start_at 0 (final (userinit 0x1000 [] tf_zero) demo_off)) by crefl. apply demo_start; [|crefl].
  apply (fd_boot _ _ _ _ _ _ demo_off); [by apply Forall_replicate|by apply Forall_replicate|crefl].
Qed.
Lemma demo_call_reach k um c : demo_reach k → state <$> ptable k !! 0%nat = Some RUNNING →
  (∃ r, match ptable k !! 0%nat with Some p => do_fcall (λ _, None) (λ _, None) c (enter k p um 0) = Ret r (final (do_fcall (λ _, None) (λ _, None) c) (enter k p um 0)) | None => False end) →
  demo_reach (demo_call 0 c um k).
Proof.
  unfold demo_call. intros Hk Hs [r Hr]. destruct (ptable k !! 0%nat) as [p|] eqn:Hp; [|done]. injection Hs as Hs.
  by eapply (fd_file _ _ _ _ _ _ k 0 p um 0 c).
Qed.
Lemma demo_dup_reach : demo_reach demo_dup.
Proof.
  replace demo_dup with (demo_call 0 CDup (mem0 0) (demo_call 0 CPipe (mem0 16) demo_init)) by crefl.
  apply demo_call_reach; [apply demo_call_reach; [exact demo_init_reach|crefl|exists 0; crefl]|crefl|exists 2; crefl].
Qed.
Lemma demo_exit_reach : demo_reach demo_exit.
Proof.
  apply (fd_exit _ _ _ _ _ _ demo_child 1 (nth 1 (ptable demo_child) blank_proc) (nth 1 (ptable demo_exit) blank_proc)); [|crefl|crefl|apply demo_at|crefl..].
  replace demo_child with (start_at 1 demo_fork) by crefl. apply demo_start; [|crefl].
  apply (fd_fork _ _ _ _ _ _ demo_dup 0 (nth 0 (ptable demo_dup) blank_proc) 2); [exact demo_dup_reach|crefl|crefl|apply demo_at|crefl].
Qed.

Lemma fd_refs_exact_witness :
  demo_reach demo_exit ∧ f_ref <$> ftable (fst (env demo_fork)) = [4; 2; 0] ∧ f_ref <$> ftable (fst (env demo_exit)) = [2; 1; 0] ∧
  (∀ f x, ftable (fst (env demo_exit)) !! f = Some x → f_ref x = count (all_fds (ptable demo_exit)) f ∧ (f_ref x = 0 → f_type x = FD_NONE)).
Proof.
  split; [exact demo_exit_reach|]. split; [crefl|]. split; [crefl|].
  exact (proj1 (fd_refs_exact (λ _, None) (λ _, None) (λ _, mret tt) 0x1000 [] tf_zero demo_exit demo_exit_reach)).
Defined.
