(* ===== verification/Kalloc.v ===== *)
(** * Physical memory and its page allocator (kalloc.c)

    Physical memory as the kernel sees it: the pages by their kernel virtual
    address, 4096 bytes each.  The free list goes through the first word of
    the free pages themselves. *)

From S2P Require Import Prelude Bytes.

Definition PGSIZE : Z := 4096.
Definition EXTMEM : Z := 0x100000.
Definition PHYSTOP : Z := 0xE000000.
Definition DEVSPACE : Z := 0xFE000000.
Definition KERNBASE : Z := 0x80000000.
Definition KERNLINK : Z := KERNBASE + EXTMEM.
Definition V2P (a : Z) : Z := u32 (a - KERNBASE).
Definition P2V (a : Z) : Z := u32 (a + KERNBASE).

Definition PGROUNDDOWN (a : Z) : Z := Z.land a (u32 (Z.lnot (PGSIZE - 1))).
Definition PGROUNDUP (sz : Z) : Z := Z.land (u32 (sz + PGSIZE - 1)) (u32 (Z.lnot (PGSIZE - 1))).

(** [kmem], src/hw3/xv6/kalloc.c:20-24
    [pages] is the memory, [klock] says whether kmem.lock is held. *)
Record mem := Mem { pages : gmap Z (list Z); freelist : Z; use_lock : bool; klock : bool }.
Definition set_pages (x : gmap Z (list Z)) (s : mem) := Mem x (freelist s) (use_lock s) (klock s).
Definition set_freelist (x : Z) (s : mem) := Mem (pages s) x (use_lock s) (klock s).
Definition set_use_lock (x : bool) (s : mem) := Mem (pages s) (freelist s) x (klock s).
Definition set_klock (x : bool) (s : mem) := Mem (pages s) (freelist s) (use_lock s) x.

Definition acquire_kmem : M mem unit :=
  l ← gets klock; panic_unless (negb l) "acquire";; modify (set_klock true).
Definition release_kmem : M mem unit :=
  l ← gets klock; panic_unless l "release";; modify (set_klock false).
Definition when_ (b : bool) (m : M mem unit) : M mem unit := if b then m else mret tt.

(** The page an address is in, and the offset there. *)
Definition page_of (a : Z) : Z := a - a mod PGSIZE.
Definition offset_of (a : Z) : nat := Z.to_nat (a mod PGSIZE).

Definition get_page (v : Z) : M mem (list Z) := s ← getS; of_option (pages s !! v).
Definition upd_page (v : Z) (f : list Z → list Z) : M mem unit :=
  p ← get_page v; modify (λ s, set_pages (<[v := f p]> (pages s)) s).
Definition load (a : Z) : M mem Z := p ← get_page (page_of a); mret (get_u32 (offset_of a) p).
Definition store (a x : Z) : M mem unit := upd_page (page_of a) (put_u32 (offset_of a) x).

(** memset(v, c, PGSIZE) of a page *)
Definition memset_page (v c : Z) : M mem unit := upd_page v (λ _, replicate 4096 c).

Section kalloc.
(** The first address after the kernel, from the linker script. *)
Context (kend : Z).

(** [kfree], src/hw3/xv6/kalloc.c:55-77 *)
Definition kfree (v : Z) : M mem unit :=
  panic_unless ((v mod PGSIZE =? 0) && (kend <=? v) && (V2P v <? PHYSTOP)) "kfree";;
  memset_page v 1;;
  u ← gets use_lock;
  when_ u acquire_kmem;;
  fl ← gets freelist;
  store v fl;;
  modify (set_freelist v);;
  u ← gets use_lock;
  when_ u release_kmem.

(** [kalloc], src/hw3/xv6/kalloc.c:79-95 *)
Definition kalloc : M mem Z :=
  u ← gets use_lock;
  when_ u acquire_kmem;;
  r ← gets freelist;
  (if r =? 0 then mret tt else next ← load r; modify (set_freelist next));;
  u ← gets use_lock;
  when_ u release_kmem;;
  mret r.

(** [freerange: the loop], src/hw3/xv6/kalloc.c:51-52 *)
Fixpoint freerange_loop (fuel : nat) (p vend : Z) : M mem unit :=
  if u32 (p + PGSIZE) <=? vend then
    match fuel with
    | O => fail OutOfFuel
    | S fuel' => kfree p;; freerange_loop fuel' (u32 (p + PGSIZE)) vend
    end
  else mret tt.

(** [freerange], src/hw3/xv6/kalloc.c:46-53 *)
Definition freerange (vstart vend : Z) : M mem unit :=
  freerange_loop (Z.to_nat ((vend - PGROUNDUP vstart) / PGSIZE)) (PGROUNDUP vstart) vend.

(** [kinit1], src/hw3/xv6/kalloc.c:31-37 *)
Definition kinit1 (vstart vend : Z) : M mem unit :=
  modify (set_klock false);;
  modify (set_use_lock false);;
  freerange vstart vend.

(** [kinit2], src/hw3/xv6/kalloc.c:39-44 *)
Definition kinit2 (vstart vend : Z) : M mem unit :=
  freerange vstart vend;;
  modify (set_use_lock true).
End kalloc.

(** ** Addresses *)

Lemma page_round (a : Z) : 0 ≤ a < 2 ^ 32 → PGROUNDDOWN a = page_of a.
Proof.
  intros Ha. unfold PGROUNDDOWN, page_of, PGSIZE. change (u32 (Z.lnot (4096 - 1))) with (Z.ldiff (2 ^ 32 - 1) (2 ^ 12 - 1)).
  change (2 ^ 12 - 1) with (Z.ones 12). change (2 ^ 32 - 1) with (Z.ones 32).
  assert (Z.land a (Z.ldiff (Z.ones 32) (Z.ones 12)) = Z.ldiff a (Z.ones 12)) as ->.
  { apply Z.bits_inj'. intros i Hi. rewrite Z.land_spec, !Z.ldiff_spec. destruct (decide (i < 32)) as [H|H].
    - rewrite (Z.ones_spec_low 32) by lia. done.
    - rewrite (proj1 (Z.bounded_iff_bits_nonneg 32 a ltac:(lia) ltac:(lia)) ltac:(lia) i) by lia. done. }
  rewrite Z.ldiff_ones_r, Z.shiftr_div_pow2, Z.shiftl_mul_pow2 by lia. change (2 ^ 12) with 4096. dlia.
Qed.

Lemma page_of_add (t o : Z) : t mod PGSIZE = 0 → 0 ≤ o < PGSIZE → page_of (t + o) = t ∧ offset_of (t + o) = Z.to_nat o.
Proof.
  unfold page_of, offset_of, PGSIZE. intros Ht Ho. assert ((t + o) mod 4096 = o) as -> by dlia. split; [lia|done].
Qed.
Lemma page_of_aligned (t : Z) : t mod PGSIZE = 0 → page_of t = t ∧ offset_of t = 0%nat.
Proof. intros Ht. destruct (page_of_add t 0 Ht) as [H1 H2]; [unfold PGSIZE; lia|]. by rewrite Z.add_0_r in *. Qed.

(** ** Steps on the memory *)

Lemma wp_get_page v p Q s : pages s !! v = Some p → Q p s → wp (get_page v) Q s.
Proof. intros Hp HQ. apply wp_bind. unfold wp, getS. by rewrite Hp. Qed.
Lemma wp_upd_page v p f Q s : pages s !! v = Some p → Q tt (set_pages (<[v := f p]> (pages s)) s) → wp (upd_page v f) Q s.
Proof. intros Hp HQ. by apply wp_bind, wp_get_page with p. Qed.

(** The word [i] of the page [v]. *)
Definition word (s : mem) (v : Z) (i : nat) : Z := match pages s !! v with Some p => get_u32 (4 * i) p | None => 0 end.
Definition has_page (s : mem) (v : Z) : Prop := ∃ p, pages s !! v = Some p ∧ length p = 4096%nat ∧ bytes p.
Definition set_word (v : Z) (i : nat) (x : Z) (s : mem) : mem :=
  match pages s !! v with Some p => set_pages (<[v := put_u32 (4 * i) x p]> (pages s)) s | None => s end.
Definition set_page (v : Z) (p : list Z) (s : mem) : mem := set_pages (<[v := p]> (pages s)) s.

Lemma wp_load v (i : nat) Q s :
  v mod PGSIZE = 0 → (i < 1024)%nat → has_page s v → Q (word s v i) s → wp (load (v + 4 * Z.of_nat i)) Q s.
Proof.
  intros Hv Hi (p & Hp & Hl & _) HQ. destruct (page_of_add v (4 * Z.of_nat i) Hv) as [H1 H2]; [unfold PGSIZE; lia|].
  unfold load. rewrite H1, H2. apply wp_bind, wp_get_page with p; [done|]. apply wp_ret.
  unfold word in HQ. rewrite Hp in HQ. by replace (Z.to_nat (4 * Z.of_nat i)) with (4 * i)%nat by lia.
Qed.
Lemma wp_store_word v (i : nat) x Q s :
  v mod PGSIZE = 0 → (i < 1024)%nat → has_page s v → Q tt (set_word v i x s) → wp (store (v + 4 * Z.of_nat i) x) Q s.
Proof.
  intros Hv Hi (p & Hp & Hl & _) HQ. destruct (page_of_add v (4 * Z.of_nat i) Hv) as [H1 H2]; [unfold PGSIZE; lia|].
  unfold store. rewrite H1, H2. apply wp_upd_page with p; [done|]. unfold set_word in HQ. rewrite Hp in HQ.
  by replace (Z.to_nat (4 * Z.of_nat i)) with (4 * i)%nat by lia.
Qed.
Lemma wp_memset_page v c Q s : has_page s v → Q tt (set_page v (replicate 4096 c) s) → wp (memset_page v c) Q s.
Proof. intros (p & Hp & _) HQ. by apply wp_upd_page with p. Qed.

(** ** Words and pages after a store *)

Lemma word_range s v i : has_page s v → (i < 1024)%nat → 0 ≤ word s v i < 2 ^ 32.
Proof.
  intros (p & Hp & Hl & Hb) Hi. unfold word. rewrite Hp. unfold get_u32.
  pose proof (le_dec_bound (get (4 * i) 4 p) (Forall_get _ _ _ _ Hb)) as H. rewrite length_get in H by lia. done.
Qed.

Lemma has_page_set_word s v i x w : (i < 1024)%nat → has_page s w → has_page (set_word v i x s) w.
Proof.
  intros Hi (p & Hp & Hl & Hb). unfold set_word. destruct (pages s !! v) as [q|] eqn:Hq; [|by exists p].
  unfold has_page. cbn [set_pages pages]. destruct (decide (w = v)) as [->|Hne].
  - rewrite lookup_insert_eq. rewrite Hq in Hp. injection Hp as ->. eexists. split; [done|].
    rewrite length_put_u32 by lia. split; [done|by apply bytes_put_u32].
  - rewrite lookup_insert_ne by done. by exists p.
Qed.
Lemma has_page_set_page s v p w : length p = 4096%nat → bytes p → has_page s w → has_page (set_page v p s) w.
Proof.
  intros Hl Hb (q & Hq & Hrest). unfold has_page, set_page. cbn [set_pages pages]. destruct (decide (w = v)) as [->|Hne].
  - rewrite lookup_insert_eq. by exists p.
  - rewrite lookup_insert_ne by done. by exists q.
Qed.

Lemma word_set_word s v i x w j :
  has_page s v → (i < 1024)%nat → (j < 1024)%nat →
  word (set_word v i x s) w j = if decide (w = v ∧ j = i) then u32 x else word s w j.
Proof.
  intros (p & Hp & Hl & _) Hi Hj. unfold set_word, word. rewrite Hp. cbn [set_pages pages]. destruct (decide (w = v)) as [->|Hne].
  - rewrite lookup_insert_eq, Hp. case_decide as Hc.
    + destruct Hc as [_ ->]. apply get_put_u32. lia.
    + unfold put_u32. apply get_u32_put_ne; rewrite length_le_enc; [lia|]. assert (j ≠ i) by tauto. lia.
  - rewrite lookup_insert_ne by done. rewrite decide_False by tauto. done.
Qed.
Lemma word_set_page s v p w j : w ≠ v → word (set_page v p s) w j = word s w j.
Proof. intros. unfold word, set_page. cbn [set_pages pages]. by rewrite lookup_insert_ne. Qed.
Lemma word_fill s v j : (j < 1024)%nat → word (set_page v (replicate 4096 0) s) v j = 0.
Proof.
  intros. unfold word, set_page. cbn [set_pages pages]. rewrite lookup_insert_eq. unfold get_u32.
  replace (get (4 * j) 4 (replicate 4096 0)) with (replicate 4 0 : list Z); [done|].
  unfold get. rewrite drop_replicate, take_replicate. f_equal. lia.
Qed.

(** ** The free list *)

(** [fl] are the pages of the list that starts at [h]. *)
Fixpoint runs (s : mem) (h : Z) (fl : list Z) : Prop :=
  match fl with
  | [] => h = 0
  | v :: fl' => h = v ∧ runs s (word s v 0) fl'
  end.

Lemma runs_ext s s' h fl : (∀ v, v ∈ fl → word s' v 0 = word s v 0) → runs s h fl → runs s' h fl.
Proof.
  revert h. induction fl as [|v fl IH]; intros h Hw Hr; [done|]. destruct Hr as [-> Hr]. split; [done|].
  rewrite Hw by (by left). apply IH; [|done]. intros w Hin. apply Hw. by right.
Qed.

(** A page the allocator may hand out. *)
Definition page_ok (kend : Z) (s : mem) (v : Z) : Prop :=
  v mod PGSIZE = 0 ∧ kend ≤ v ∧ KERNBASE ≤ v < KERNBASE + PHYSTOP ∧ has_page s v.

Record kinv (kend : Z) (s : mem) (fl : list Z) : Prop := {
  ki_runs : runs s (freelist s) fl;
  ki_nodup : NoDup fl;
  ki_pages v : v ∈ fl → page_ok kend s v;
  ki_lock : klock s = false
}.

Lemma V2P_small v : KERNBASE ≤ v < KERNBASE + PHYSTOP → V2P v = v - KERNBASE.
Proof. unfold V2P, KERNBASE, PHYSTOP. intros. apply u32_small. lia. Qed.
Lemma P2V_small a : 0 ≤ a < PHYSTOP → P2V a = a + KERNBASE.
Proof. unfold P2V, KERNBASE, PHYSTOP. intros. apply u32_small. lia. Qed.

(** Taking the lock, and giving it back. *)
Lemma wp_acquire_if Q s : klock s = false → Q tt (set_klock (use_lock s) s) → wp (when_ (use_lock s) acquire_kmem) Q s.
Proof.
  intros Hk HQ. unfold when_. destruct (use_lock s) eqn:Hu.
  - apply wp_bind, wp_gets. rewrite Hk. apply wp_bind, wp_panic_unless; [done|]. by apply wp_modify.
  - apply wp_ret. by replace (set_klock false s) with s in HQ by (destruct s; cbn in *; by subst).
Qed.
Lemma wp_release_if Q s : klock s = use_lock s → Q tt (set_klock false s) → wp (when_ (use_lock s) release_kmem) Q s.
Proof.
  intros Hk HQ. unfold when_. destruct (use_lock s) eqn:Hu.
  - apply wp_bind, wp_gets. rewrite Hk. apply wp_bind, wp_panic_unless; [done|]. by apply wp_modify.
  - apply wp_ret. by replace (set_klock false s) with s in HQ by (destruct s; cbn in *; by subst).
Qed.

(** What one step of the allocator leaves of the memory: the words and pages of
    all pages but [v]. *)
Record only_page (s s' : mem) (v : Z) : Prop := {
  oo_pages w : w ≠ v → pages s' !! w = pages s !! w;
  oo_has w : has_page s w → has_page s' w;
  oo_lock : use_lock s' = use_lock s
}.
Lemma oo_word s s' v w j : only_page s s' v → w ≠ v → word s' w j = word s w j.
Proof. intros [H _ _] Hw. unfold word. by rewrite H. Qed.
Lemma page_ok_only kend s s' v w : only_page s s' v → page_ok kend s w → page_ok kend s' w.
Proof. intros Ho (H1 & H2 & H3 & H4). do 3 (split; [done|]). by apply Ho. Qed.

Lemma set_word_only s v i x : (i < 1024)%nat → only_page s (set_word v i x s) v.
Proof.
  intros Hi. constructor.
  - intros w Hw. unfold set_word. destruct (pages s !! v); [|done]. cbn. by rewrite lookup_insert_ne.
  - intros w. by apply has_page_set_word.
  - unfold set_word. by destruct (pages s !! v).
Qed.
Lemma set_page_only s v p : length p = 4096%nat → bytes p → only_page s (set_page v p s) v.
Proof.
  intros Hl Hb. constructor; [|intros w; by apply has_page_set_page|done].
  intros w Hw. unfold set_page. cbn. by rewrite lookup_insert_ne.
Qed.
Lemma only_trans s s' s'' v : only_page s s' v → only_page s' s'' v → only_page s s'' v.
Proof. intros [A1 A2 A3] [B1 B2 B3]. constructor; [|auto|congruence]. intros w Hw. by rewrite B1, A1. Qed.

Lemma wp_kfree kend s fl v Q :
  kinv kend s fl → page_ok kend s v → v ∉ fl →
  (∀ s', kinv kend s' (v :: fl) → only_page s s' v → Q tt s') → wp (kfree kend v) Q s.
Proof.
  intros [Hr Hn Hp Hk] Hv Hni HQ. pose proof Hv as (Hal & He & Hra & Hpg).
  assert (bytes (replicate 4096 1)) as Hb1 by (apply Forall_replicate; unfold byte; lia).
  apply wp_bind, wp_panic_unless.
  { rewrite V2P_small by done. rewrite (proj2 (Z.eqb_eq _ _)), (proj2 (Z.leb_le _ _)), (proj2 (Z.ltb_lt _ _)) by lia. done. }
  apply wp_bind, wp_memset_page; [done|]. pose proof (set_page_only s v (replicate 4096 1) (length_replicate _ _) Hb1) as Ho1.
  set (s1 := set_page v _ s) in *. apply wp_bind, wp_gets, wp_bind, wp_acquire_if; [done|].
  set (s2 := set_klock (use_lock s1) s1). apply wp_bind, wp_gets, wp_bind. change (freelist s2) with (freelist s).
  replace v with (v + 4 * Z.of_nat 0) at 1 by lia. assert (has_page s2 v) as Hp2 by exact (oo_has _ _ _ Ho1 v Hpg).
  apply wp_store_word; [done|lia|done|]. pose proof (set_word_only s2 v 0 (freelist s) ltac:(lia)) as Ho2.
  set (s3 := set_word v 0 (freelist s) s2) in *. apply wp_bind, wp_modify, wp_bind, wp_gets.
  assert (klock s3 = use_lock s3) as Hk3.
  { unfold s3, set_word. destruct (pages s2 !! v); done. }
  assert (only_page s (set_klock false (set_freelist v s3)) v) as Ho.
  { destruct (only_trans s s1 s3 v Ho1) as [A1 A2 A3]; [|by constructor]. destruct Ho2 as [B1 B2 B3]. by constructor. }
  apply wp_release_if; [done|]. apply HQ; [|done]. assert (∀ w, w ∈ fl → w ≠ v) as Hne by (intros w Hw ->; done).
  constructor; cbn [freelist set_klock set_freelist klock]; [|by constructor| |done].
  - split; [done|]. assert (word (set_klock false (set_freelist v s3)) v 0 = freelist s) as ->.
    { change (word (set_klock false (set_freelist v s3)) v 0) with (word s3 v 0). unfold s3.
      rewrite word_set_word, decide_True by (done || lia). apply u32_small.
      destruct fl as [|x fl']; cbn in Hr; [rewrite Hr; lia|]. destruct Hr as [-> _].
      destruct (Hp x ltac:(by left)) as (_ & _ & Hx & _). unfold KERNBASE, PHYSTOP in Hx. lia. }
    apply (runs_ext s); [|done]. intros w Hw. apply (oo_word _ _ v w 0 Ho). auto.
  - intros w [->|Hw]%elem_of_cons; apply (page_ok_only kend s _ v); auto.
Qed.

Lemma wp_kalloc kend s fl Q :
  kinv kend s fl →
  (fl = [] → Q 0 s) → (∀ v fl', fl = v :: fl' → page_ok kend s v → v ≠ 0 → kinv kend (set_freelist (word s v 0) s) fl' → Q v (set_freelist (word s v 0) s)) →
  wp kalloc Q s.
Proof.
  intros HK HQ0 HQ. pose proof HK as [Hr Hn Hp Hk]. apply wp_bind, wp_gets, wp_bind, wp_acquire_if; [done|].
  set (s1 := set_klock (use_lock s) s). apply wp_bind, wp_gets. change (freelist s1) with (freelist s).
  assert (∀ x, set_klock false (set_freelist x s1) = set_freelist x s) as Hs1 by (intros x; unfold s1; destruct s; cbn in *; by subst).
  destruct fl as [|v fl'].
  - cbn in Hr. rewrite Hr. change (0 =? 0) with true. apply wp_bind, wp_ret, wp_bind, wp_gets, wp_bind, wp_release_if; [done|]. apply wp_ret.
    replace (set_klock false s1) with s by (unfold s1; destruct s; cbn in *; by subst). by apply HQ0.
  - destruct Hr as [-> Hr]. pose proof (Hp v ltac:(by left)) as Hv. pose proof Hv as (Hal & He & Hra & Hpg).
    assert (v ≠ 0) as Hv0 by (unfold KERNBASE in Hra; lia). rewrite (proj2 (Z.eqb_neq _ _)) by done. apply wp_bind, wp_bind.
    replace v with (v + 4 * Z.of_nat 0) at 1 by lia. apply wp_load; [done|lia|done|]. apply wp_modify.
    change (word s1 v 0) with (word s v 0). apply wp_bind, wp_gets, wp_bind, wp_release_if; [done|]. apply wp_ret. rewrite Hs1.
    apply NoDup_cons in Hn as [Hni Hn]. apply (HQ v fl'); [done|done|done|]. constructor; [by apply (runs_ext s)|done| |done].
    intros w Hw. apply Hp. by right.
Qed.
