(* ===== verification/Vm.v ===== *)
(** * Page tables and user memory (vm.c)

    A page directory and its page tables are pages of the memory of Kalloc.v;
    an entry is a word of such a page.  [kend] and [kdata] are the linker
    script's symbols end and data. *)

From S2P Require Import Prelude Bytes Kalloc.

Definition PTE_P : Z := 1.
Definition PTE_W : Z := 2.
Definition PTE_U : Z := 4.
Definition NPDENTRIES : nat := 1024.
Definition PDXSHIFT : Z := 22.
Definition PTXSHIFT : Z := 12.

(** [PDX], src/hw3/xv6/mmu.h:74-74 *)
Definition PDX (va : Z) : Z := Z.land (Z.shiftr va PDXSHIFT) 0x3FF.
(** [PTX], src/hw3/xv6/mmu.h:77-77 *)
Definition PTX (va : Z) : Z := Z.land (Z.shiftr va PTXSHIFT) 0x3FF.
(** [PGADDR], src/hw3/xv6/mmu.h:80-80 *)
Definition PGADDR (d t o : Z) : Z := u32 (Z.lor (Z.lor (Z.shiftl d PDXSHIFT) (Z.shiftl t PTXSHIFT)) o).
(** [PTE_ADDR], src/hw3/xv6/mmu.h:100-100 *)
Definition PTE_ADDR (pte : Z) : Z := Z.land pte (u32 (Z.lnot 0xFFF)).
(** [PTE_FLAGS], src/hw3/xv6/mmu.h:101-101 *)
Definition PTE_FLAGS (pte : Z) : Z := Z.land pte 0xFFF.

Definition present (pte : Z) : bool := negb (Z.land pte PTE_P =? 0).

Section vm.
Context (kend kdata : Z).

(** [walkpgdir], src/hw3/xv6/vm.c:32-55 *)
Definition walkpgdir (pgdir va : Z) (alloc : bool) : M mem Z :=
  let pde_at := pgdir + 4 * PDX va in
  pde ← load pde_at;
  if present pde then mret (P2V (PTE_ADDR pde) + 4 * PTX va)
  else if negb alloc then mret 0
  else
    pgtab ← kalloc;
    if pgtab =? 0 then mret 0
    else
      memset_page pgtab 0;;
      store pde_at (Z.lor (Z.lor (Z.lor (V2P pgtab) PTE_P) PTE_W) PTE_U);;
      mret (pgtab + 4 * PTX va).

(** [mappages: the loop], src/hw3/xv6/vm.c:68-78 *)
Fixpoint map_loop (fuel : nat) (pgdir a last pa perm : Z) : M mem Z :=
  pte_at ← walkpgdir pgdir a true;
  if pte_at =? 0 then mret (-1)
  else
    pte ← load pte_at;
    panic_unless (negb (present pte)) "remap";;
    store pte_at (Z.lor (Z.lor pa perm) PTE_P);;
    if a =? last then mret 0
    else match fuel with
         | O => fail OutOfFuel
         | S fuel' => map_loop fuel' pgdir (u32 (a + PGSIZE)) last (u32 (pa + PGSIZE)) perm
         end.

(** [mappages], src/hw3/xv6/vm.c:57-80 *)
Definition mappages (pgdir va size pa perm : Z) : M mem Z :=
  let a := PGROUNDDOWN va in
  let last := PGROUNDDOWN (u32 (va + size - 1)) in
  map_loop (Z.to_nat (u32 (last - a) / PGSIZE)) pgdir a last pa perm.

(** [deallocuvm: the loop], src/hw3/xv6/vm.c:265-277 *)
Fixpoint dealloc_loop (fuel : nat) (pgdir a oldsz : Z) : M mem unit :=
  if a <? oldsz then
    match fuel with
    | O => fail OutOfFuel
    | S fuel' =>
        pte_at ← walkpgdir pgdir a false;
        if pte_at =? 0 then dealloc_loop fuel' pgdir (u32 (u32 (PGADDR (PDX a + 1) 0 0 - PGSIZE) + PGSIZE)) oldsz
        else
          pte ← load pte_at;
          (if present pte then
             panic_unless (negb (PTE_ADDR pte =? 0)) "kfree";;
             kfree kend (P2V (PTE_ADDR pte));;
             store pte_at 0
           else mret tt);;
          dealloc_loop fuel' pgdir (u32 (a + PGSIZE)) oldsz
    end
  else mret tt.

(** [deallocuvm], src/hw3/xv6/vm.c:251-279 *)
Definition deallocuvm (pgdir oldsz newsz : Z) : M mem Z :=
  if oldsz <=? newsz then mret (i32 oldsz)
  else
    dealloc_loop (Z.to_nat ((oldsz - newsz) / PGSIZE + 1)) pgdir (PGROUNDUP newsz) oldsz;;
    mret (i32 newsz).

(** [freevm: the page tables], src/hw3/xv6/vm.c:291-296 *)
Definition free_tables (pgdir : Z) : M mem unit :=
  for_ (R := unit) NPDENTRIES 0 (λ i,
    pde ← load (pgdir + 4 * Z.of_nat i);
    (if present pde then kfree kend (P2V (PTE_ADDR pde)) else mret tt);;
    mret None);;
  mret tt.

(** [freevm], src/hw3/xv6/vm.c:281-298 *)
Definition freevm (pgdir : Z) : M mem unit :=
  panic_unless (negb (pgdir =? 0)) "freevm: no pgdir";;
  deallocuvm pgdir KERNBASE 0;;
  free_tables pgdir;;
  kfree kend pgdir.

(** [kmap], src/hw3/xv6/vm.c:103-115
    Virtual address, first and last physical address, permissions. *)
Definition kmap : list (Z * Z * Z * Z) :=
  [(KERNBASE, 0, EXTMEM, PTE_W); (KERNLINK, V2P KERNLINK, V2P kdata, 0);
   (kdata, V2P kdata, PHYSTOP, PTE_W); (DEVSPACE, DEVSPACE, 0, PTE_W)].

(** [setupkvm: the loop over kmap], src/hw3/xv6/vm.c:129-135 *)
Fixpoint kmap_loop (ks : list (Z * Z * Z * Z)) (pgdir : Z) : M mem Z :=
  match ks with
  | [] => mret pgdir
  | (virt, ps, pe, perm) :: ks' =>
      r ← mappages pgdir virt (u32 (pe - ps)) ps perm;
      if r <? 0 then freevm pgdir;; mret 0 else kmap_loop ks' pgdir
  end.

(** [setupkvm], src/hw3/xv6/vm.c:117-136 *)
Definition setupkvm : M mem Z :=
  pgdir ← kalloc;
  if pgdir =? 0 then mret 0
  else
    memset_page pgdir 0;;
    panic_unless (negb (DEVSPACE <? P2V PHYSTOP)) "PHYSTOP too high";;
    kmap_loop kmap pgdir.

(** [inituvm], src/hw3/xv6/vm.c:180-193 *)
Definition inituvm (pgdir : Z) (init : list Z) (sz : Z) : M mem unit :=
  panic_unless (sz <? PGSIZE) "inituvm: more than a page";;
  m ← kalloc;
  memset_page m 0;;
  mappages pgdir 0 PGSIZE (V2P m) (Z.lor PTE_W PTE_U);;
  upd_page m (put 0 (take (Z.to_nat sz) init)).

(** [allocuvm: the loop], src/hw3/xv6/vm.c:233-247
    It says whether the memory sufficed. *)
Fixpoint alloc_loop (fuel : nat) (pgdir a newsz oldsz : Z) : M mem bool :=
  if a <? newsz then
    match fuel with
    | O => fail OutOfFuel
    | S fuel' =>
        m ← kalloc;
        if m =? 0 then deallocuvm pgdir newsz oldsz;; mret false
        else
          memset_page m 0;;
          r ← mappages pgdir a PGSIZE (V2P m) (Z.lor PTE_W PTE_U);
          if r <? 0 then deallocuvm pgdir newsz oldsz;; kfree kend m;; mret false
          else alloc_loop fuel' pgdir (u32 (a + PGSIZE)) newsz oldsz
    end
  else mret true.

(** [allocuvm], src/hw3/xv6/vm.c:219-249 *)
Definition allocuvm (pgdir oldsz newsz : Z) : M mem Z :=
  if KERNBASE <=? newsz then mret 0
  else if newsz <? oldsz then mret (i32 oldsz)
  else
    ok ← alloc_loop (Z.to_nat ((newsz - oldsz) / PGSIZE + 1)) pgdir (PGROUNDUP oldsz) newsz oldsz;
    mret (if (ok : bool) then i32 newsz else 0).

(** [loaduvm: the loop], src/hw3/xv6/vm.c:205-215
    [readi off n] is what the file has there, or absent when the read fails. *)
Fixpoint load_loop (readi : Z → Z → option (list Z)) (fuel : nat) (pgdir addr offset sz i : Z) : M mem Z :=
  if i <? sz then
    match fuel with
    | O => fail OutOfFuel
    | S fuel' =>
        pte_at ← walkpgdir pgdir (u32 (addr + i)) false;
        panic_unless (negb (pte_at =? 0)) "loaduvm: address should exist";;
        pte ← load pte_at;
        let n := if sz - i <? PGSIZE then sz - i else PGSIZE in
        match readi (u32 (offset + i)) n with
        | Some bs =>
            upd_page (P2V (PTE_ADDR pte)) (put 0 bs);;
            if lenZ bs =? n then load_loop readi fuel' pgdir addr offset sz (u32 (i + PGSIZE)) else mret (-1)
        | None => mret (-1)
        end
    end
  else mret 0.

(** [loaduvm], src/hw3/xv6/vm.c:195-217 *)
Definition loaduvm (readi : Z → Z → option (list Z)) (pgdir addr offset sz : Z) : M mem Z :=
  panic_unless (addr mod PGSIZE =? 0) "loaduvm: addr must be page aligned";;
  load_loop readi (Z.to_nat (sz / PGSIZE + 1)) pgdir addr offset sz 0.

(** [clearpteu], src/hw3/xv6/vm.c:300-311 *)
Definition clearpteu (pgdir uva : Z) : M mem unit :=
  pte_at ← walkpgdir pgdir uva false;
  panic_unless (negb (pte_at =? 0)) "clearpteu";;
  pte ← load pte_at;
  store pte_at (Z.land pte (u32 (Z.lnot PTE_U))).

(** [copyuvm: the loop], src/hw3/xv6/vm.c:325-339 *)
Fixpoint copy_loop (fuel : nat) (pgdir d sz i : Z) : M mem bool :=
  if i <? sz then
    match fuel with
    | O => fail OutOfFuel
    | S fuel' =>
        pte_at ← walkpgdir pgdir i false;
        panic_unless (negb (pte_at =? 0)) "copyuvm: pte should exist";;
        pte ← load pte_at;
        panic_unless (present pte) "copyuvm: page not present";;
        m ← kalloc;
        if m =? 0 then mret false
        else
          src ← get_page (P2V (PTE_ADDR pte));
          upd_page m (λ _, src);;
          r ← mappages d i PGSIZE (V2P m) (PTE_FLAGS pte);
          if r <? 0 then kfree kend m;; mret false
          else copy_loop fuel' pgdir d sz (u32 (i + PGSIZE))
    end
  else mret true.

(** [copyuvm], src/hw3/xv6/vm.c:313-345 *)
Definition copyuvm (pgdir sz : Z) : M mem Z :=
  d ← setupkvm;
  if d =? 0 then mret 0
  else
    ok ← copy_loop (Z.to_nat (sz / PGSIZE + 1)) pgdir d sz 0;
    if (ok : bool) then mret d else freevm d;; mret 0.

(** [uva2ka], src/hw3/xv6/vm.c:347-360 *)
Definition uva2ka (pgdir uva : Z) : M mem Z :=
  pte_at ← walkpgdir pgdir uva false;
  pte ← load pte_at;
  if negb (present pte) then mret 0
  else if Z.land pte PTE_U =? 0 then mret 0
  else mret (P2V (PTE_ADDR pte)).

(** [copyout: the loop], src/hw3/xv6/vm.c:372-384 *)
Fixpoint copyout_loop (fuel : nat) (pgdir va : Z) (buf : list Z) : M mem Z :=
  match buf with
  | [] => mret 0
  | _ =>
      match fuel with
      | O => fail OutOfFuel
      | S fuel' =>
          let va0 := PGROUNDDOWN va in
          pa0 ← uva2ka pgdir va0;
          if pa0 =? 0 then mret (-1)
          else
            let n := Z.min (PGSIZE - (va - va0)) (lenZ buf) in
            upd_page pa0 (put (Z.to_nat (va - va0)) (take (Z.to_nat n) buf));;
            copyout_loop fuel' pgdir (u32 (va0 + PGSIZE)) (drop (Z.to_nat n) buf)
      end
  end.

(** [copyout], src/hw3/xv6/vm.c:362-386
    [buf] is the [len] bytes at [p]. *)
Definition copyout (pgdir va : Z) (buf : list Z) : M mem Z :=
  copyout_loop (Z.to_nat (lenZ buf / PGSIZE + 2)) pgdir va buf.
End vm.
