(* ===== verification/VmInv.v ===== *)
(** * Page table entries by their bit fields, who owns which page, and what the
    page tables say (mmu.h, vm.c, kalloc.c) *)

From S2P Require Import Prelude Bytes Kalloc Vm.

(** Page numbers: the directory index and the table index of an address. *)
Definition pdx (va : Z) : nat := Z.to_nat (va / 2 ^ 22).
Definition ptx (va : Z) : nat := Z.to_nat (va / 2 ^ 12 mod 1024).

Lemma land_low a n : 0 ≤ n → Z.land a (2 ^ n - 1) = a mod 2 ^ n.
Proof. intros. replace (2 ^ n - 1) with (Z.ones n) by (rewrite Z.ones_equiv; lia). by apply Z.land_ones. Qed.

Lemma PDX_eq va : 0 ≤ va < 2 ^ 32 → PDX va = Z.of_nat (pdx va).
Proof.
  intros Hva. unfold PDX, pdx, PDXSHIFT. change 0x3FF with (2 ^ 10 - 1). rewrite land_low, Z.shiftr_div_pow2 by lia.
  rewrite Z.mod_small by dlia. rewrite Z2Nat.id; [done|dlia].
Qed.
Lemma PTX_eq va : 0 ≤ va < 2 ^ 32 → PTX va = Z.of_nat (ptx va).
Proof.
  intros Hva. unfold PTX, ptx, PTXSHIFT. change 0x3FF with (2 ^ 10 - 1). rewrite land_low, Z.shiftr_div_pow2 by lia.
  rewrite Z2Nat.id; [done|dlia].
Qed.
Lemma pdx_lt va : 0 ≤ va < 2 ^ 32 → (pdx va < 1024)%nat.
Proof. unfold pdx. intros. dlia. Qed.
Lemma ptx_lt va : (ptx va < 1024)%nat.
Proof. unfold ptx. dlia. Qed.

(** Pages with the same indexes are the same page. *)
Lemma page_eq va va' :
  0 ≤ va < 2 ^ 32 → 0 ≤ va' < 2 ^ 32 → va mod PGSIZE = 0 → va' mod PGSIZE = 0 → pdx va = pdx va' → ptx va = ptx va' → va = va'.
Proof. unfold pdx, ptx, PGSIZE. intros. dlia. Qed.

Lemma lor_low a b : a mod PGSIZE = 0 → 0 ≤ b < PGSIZE → Z.lor a b = a + b.
Proof.
  unfold PGSIZE. intros Ha Hb. rewrite Z.add_nocarry_lxor, Z.lxor_lor; [done|..].
  all: replace a with (Z.shiftl (a / 4096) 12) by (rewrite Z.shiftl_mul_pow2 by lia; change (2 ^ 12) with 4096; dlia).
  all: apply Z.bits_inj'; intros i Hi; rewrite Z.land_spec, Z.bits_0, Z.shiftl_spec by done; destruct (decide (i < 12)).
  1, 3: by rewrite Z.testbit_neg_r by lia.
  all: rewrite (proj1 (Z.bounded_iff_bits_nonneg 12 b ltac:(lia) ltac:(lia)) ltac:(lia) i) by lia; apply andb_false_r.
Qed.

(** An entry made of an address and flags. *)
Definition entry (pa flags : Z) : Z := pa + flags.

Section entry.
Context (pa fl : Z).
Hypotheses (Hpa : pa mod PGSIZE = 0) (Hr : 0 ≤ pa < 2 ^ 32) (Hfl : 0 ≤ fl < PGSIZE).

Lemma entry_small : 0 ≤ entry pa fl < 2 ^ 32.
Proof. unfold entry, PGSIZE in *. dlia. Qed.
Lemma PTE_ADDR_entry : PTE_ADDR (entry pa fl) = pa.
Proof.
  pose proof entry_small. unfold PTE_ADDR. change (u32 (Z.lnot 0xFFF)) with (u32 (Z.lnot (PGSIZE - 1))).
  change (PGROUNDDOWN (entry pa fl) = pa). rewrite page_round by done. unfold page_of, entry, PGSIZE in *. dlia.
Qed.
Lemma PTE_FLAGS_entry : PTE_FLAGS (entry pa fl) = fl.
Proof. unfold PTE_FLAGS. change 0xFFF with (2 ^ 12 - 1). rewrite land_low by lia. unfold entry, PGSIZE in *. change (2 ^ 12) with 4096. dlia. Qed.
Lemma present_entry : present (entry pa fl) = Z.odd fl.
Proof.
  unfold present, PTE_P. change 1 with (2 ^ 1 - 1) at 1. rewrite land_low by lia. change (2 ^ 1) with 2. unfold entry.
  rewrite Zodd_mod. assert ((pa + fl) mod 2 = fl mod 2) as -> by (unfold PGSIZE in *; dlia).
  destruct (Z.mod_pos_bound fl 2) as [H1 H2]; [lia|]. assert (fl mod 2 = 0 ∨ fl mod 2 = 1) as [->| ->] by lia; done.
Qed.
End entry.

(** Any entry is made of its two parts. *)
Lemma PTE_ADDR_eq e : 0 ≤ e < 2 ^ 32 → PTE_ADDR e = e - e mod PGSIZE.
Proof. intros. unfold PTE_ADDR. change (u32 (Z.lnot 0xFFF)) with (u32 (Z.lnot (PGSIZE - 1))). change (PGROUNDDOWN e = page_of e). by apply page_round. Qed.
Lemma PTE_FLAGS_eq e : PTE_FLAGS e = e mod PGSIZE.
Proof. unfold PTE_FLAGS. change 0xFFF with (2 ^ 12 - 1). by rewrite land_low by lia. Qed.
Lemma entry_parts e : 0 ≤ e < 2 ^ 32 → e = entry (PTE_ADDR e) (PTE_FLAGS e).
Proof. intros. unfold entry. rewrite PTE_ADDR_eq, PTE_FLAGS_eq by done. lia. Qed.
Lemma present_0 : present 0 = false.
Proof. done. Qed.
Lemma present_odd e : present e = Z.odd e.
Proof.
  unfold present, PTE_P. change 1 with (2 ^ 1 - 1) at 1. rewrite land_low by lia. change (2 ^ 1) with 2.
  rewrite Zodd_mod. destruct (Z.mod_pos_bound e 2) as [H1 H2]; [lia|]. assert (e mod 2 = 0 ∨ e mod 2 = 1) as [->| ->] by lia; done.
Qed.

Lemma PGROUNDUP_eq sz : 0 ≤ sz ≤ 2 ^ 32 - PGSIZE → PGROUNDUP sz = (sz + PGSIZE - 1) / PGSIZE * PGSIZE.
Proof.
  unfold PGROUNDUP, PGSIZE. intros. rewrite (u32_small (sz + 4096 - 1)) by lia.
  change (PGROUNDDOWN (sz + 4096 - 1) = (sz + 4096 - 1) / 4096 * 4096). rewrite page_round by lia. unfold page_of, PGSIZE. dlia.
Qed.
Lemma PGADDR_next a : 0 ≤ a < 2 ^ 32 → PGADDR (PDX a + 1) 0 0 = u32 ((a / 2 ^ 22 + 1) * 2 ^ 22).
Proof.
  intros Ha. unfold PGADDR, PDXSHIFT. rewrite PDX_eq by done. unfold pdx. rewrite Z2Nat.id by dlia.
  rewrite Z.shiftl_0_l, !Z.lor_0_r, Z.shiftl_mul_pow2 by lia. done.
Qed.

Inductive role := Free | Dir | Tab (pg : Z) (i : nat) | Frame (pg va : Z) | Held.
#[export] Instance role_eq_dec : EqDecision role.
Proof. solve_decision. Defined.

Implicit Types (s : mem) (own : gmap Z role).

(** The entry for [va] in directory [pg]; 0 where there is no table. *)
Definition pte s (pg va : Z) : Z :=
  let e := word s pg (pdx va) in if present e then word s (P2V (PTE_ADDR e)) (ptx va) else 0.

Definition is_user (va : Z) : Prop := 0 ≤ va < KERNBASE.
Definition is_va (va : Z) : Prop := 0 ≤ va < 2 ^ 32 ∧ va mod PGSIZE = 0.

Record vinv (kend : Z) s own : Prop := {
  vi_free : ∃ fl, kinv kend s fl ∧ ∀ x, x ∈ fl ↔ own !! x = Some Free;
  vi_page x r : own !! x = Some r → page_ok kend s x;
  vi_tab t pg i : own !! t = Some (Tab pg i) → own !! pg = Some Dir ∧ (i < 1024)%nat ∧ word s pg i = entry (V2P t) 7;
  vi_dir pg i : own !! pg = Some Dir → (i < 1024)%nat → present (word s pg i) = true → ∃ t, own !! t = Some (Tab pg i);
  vi_frame f pg va : own !! f = Some (Frame pg va) →
    own !! pg = Some Dir ∧ is_va va ∧ is_user va ∧ present (pte s pg va) = true ∧ PTE_ADDR (pte s pg va) = V2P f;
  vi_pte pg va : own !! pg = Some Dir → is_va va → is_user va → present (pte s pg va) = true → ∃ f, own !! f = Some (Frame pg va)
}.

Section inv.
Context (kend : Z).
Hypothesis Hkend : KERNBASE ≤ kend.

Lemma page_V2P s v : page_ok kend s v → V2P v mod PGSIZE = 0 ∧ 0 ≤ V2P v < PHYSTOP ∧ P2V (V2P v) = v ∧ v ≠ 0.
Proof.
  intros (Ha & _ & Hr & _). rewrite V2P_small by done. rewrite P2V_small by lia. unfold KERNBASE, PGSIZE, PHYSTOP in *.
  repeat split; [dlia|lia|lia|lia|lia].
Qed.

Lemma tab_entry s own t pg i :
  vinv kend s own → own !! t = Some (Tab pg i) → present (word s pg i) = true ∧ P2V (PTE_ADDR (word s pg i)) = t.
Proof.
  intros HI Ht. destruct (vi_tab _ _ _ HI t pg i Ht) as (_ & _ & ->). destruct (page_V2P s t (vi_page _ _ _ HI _ _ Ht)) as (H1 & H2 & H3 & _).
  unfold PHYSTOP in H2. rewrite present_entry, PTE_ADDR_entry by (done || (unfold PGSIZE; lia)). done.
Qed.

(** The table of a directory entry, and what [pte] reads then. *)
Lemma dir_case s own pg i :
  vinv kend s own → own !! pg = Some Dir → (i < 1024)%nat →
  (present (word s pg i) = false ∧ ∀ t, own !! t ≠ Some (Tab pg i)) ∨
  ∃ t, own !! t = Some (Tab pg i) ∧ present (word s pg i) = true ∧ P2V (PTE_ADDR (word s pg i)) = t.
Proof.
  intros HI Hd Hi. destruct (present (word s pg i)) eqn:Hp.
  - right. destruct (vi_dir _ _ _ HI pg i Hd Hi Hp) as [t Ht]. exists t. destruct (tab_entry _ _ _ _ _ HI Ht). done.
  - left. split; [done|]. intros t Ht. destruct (tab_entry _ _ _ _ _ HI Ht). congruence.
Qed.

Lemma pte_tab s own pg va t : vinv kend s own → own !! t = Some (Tab pg (pdx va)) → pte s pg va = word s t (ptx va).
Proof. intros HI Ht. unfold pte. destruct (tab_entry _ _ _ _ _ HI Ht) as [-> ->]. done. Qed.
Lemma pte_none s pg va : present (word s pg (pdx va)) = false → pte s pg va = 0.
Proof. intros H. unfold pte. by rewrite H. Qed.

Lemma tab_uniq s own t t' pg i : vinv kend s own → own !! t = Some (Tab pg i) → own !! t' = Some (Tab pg i) → t = t'.
Proof. intros HI H1 H2. destruct (tab_entry _ _ _ _ _ HI H1) as [_ <-], (tab_entry _ _ _ _ _ HI H2) as [_ <-]. done. Qed.

Lemma frame_uniq s own f f' pg va : vinv kend s own → own !! f = Some (Frame pg va) → own !! f' = Some (Frame pg va) → f = f'.
Proof.
  intros HI H1 H2. destruct (vi_frame _ _ _ HI _ _ _ H1) as (_ & _ & _ & _ & E1), (vi_frame _ _ _ HI _ _ _ H2) as (_ & _ & _ & _ & E2).
  destruct (page_V2P s f (vi_page _ _ _ HI _ _ H1)) as (_ & _ & <- & _), (page_V2P s f' (vi_page _ _ _ HI _ _ H2)) as (_ & _ & <- & _). congruence.
Qed.

(** ** Looking an address up *)

Lemma wp_walk_find s own pg va Q :
  vinv kend s own → own !! pg = Some Dir → 0 ≤ va < 2 ^ 32 →
  (∀ t, own !! t = Some (Tab pg (pdx va)) → t ≠ 0 → Q (t + 4 * Z.of_nat (ptx va)) s) →
  (present (word s pg (pdx va)) = false → (∀ t, own !! t ≠ Some (Tab pg (pdx va))) → Q 0 s) →
  wp (walkpgdir pg va false) Q s.
Proof.
  intros HI Hd Hva HQ HQ0. destruct (vi_page _ _ _ HI _ _ Hd) as (Hal & _ & Hr & Hp). unfold walkpgdir. cbv zeta.
  rewrite PDX_eq, PTX_eq by done. apply wp_bind, wp_load; [done|by apply pdx_lt|done|].
  destruct (dir_case s own pg (pdx va) HI Hd (pdx_lt va Hva)) as [[Hn Hno]|(t & Ht & Hpr & Hpt)].
  - rewrite Hn. apply wp_ret. by apply HQ0.
  - rewrite Hpr, Hpt. apply wp_ret. apply HQ; [done|]. by apply (page_V2P s t), (vi_page _ _ _ HI _ _ Ht).
Qed.

(** ** Changes of single pages *)

(** A page that is in nobody's tables changes: what the others say stays. *)
Lemma pte_same s s' own pg va :
  vinv kend s own → own !! pg = Some Dir → 0 ≤ va < 2 ^ 32 →
  word s' pg (pdx va) = word s pg (pdx va) →
  (∀ t, own !! t = Some (Tab pg (pdx va)) → word s' t (ptx va) = word s t (ptx va)) → pte s' pg va = pte s pg va.
Proof.
  intros HI Hd Hva Hw Ht. unfold pte. rewrite Hw.
  destruct (dir_case s own pg (pdx va) HI Hd (pdx_lt va Hva)) as [[-> _]|(t & Hto & -> & ->)]; [done|]. by apply Ht.
Qed.

(** Pages that hold tables. *)
Definition table_role (r : option role) : Prop := match r with Some Dir | Some (Tab _ _) => True | _ => False end.

(** The invariant only looks at the words of tables and of free pages. *)
Lemma vinv_data s s' own own' :
  vinv kend s own →
  (∃ fl, kinv kend s' fl ∧ ∀ x, x ∈ fl ↔ own' !! x = Some Free) →
  (∀ x r, own' !! x = Some r → page_ok kend s' x) →
  (∀ x, table_role (own !! x) → ∀ j, (j < 1024)%nat → word s' x j = word s x j) →
  (∀ x r, r ≠ Free → r ≠ Held → own' !! x = Some r ↔ own !! x = Some r) → vinv kend s' own'.
Proof.
  intros HI Hf Hp Hw Ho.
  assert (∀ pg va, own !! pg = Some Dir → is_va va → pte s' pg va = pte s pg va) as Hpte.
  { intros pg va Hd [Hva _]. apply (pte_same s s' own); [done..| |].
    - apply Hw; [by rewrite Hd|by apply pdx_lt].
    - intros t Ht. apply Hw; [by rewrite Ht|apply ptx_lt]. }
  constructor; [done|done|..].
  - intros t pg i Ht%Ho; [|done..]. destruct (vi_tab _ _ _ HI t pg i Ht) as (Hd & Hi & He). split; [by apply Ho|]. split; [done|].
    rewrite Hw; [done|by rewrite Hd|done].
  - intros pg i Hd%Ho Hi Hpr; [|done..]. rewrite Hw in Hpr by (rewrite ?Hd; done). destruct (vi_dir _ _ _ HI pg i Hd Hi Hpr) as [t Ht].
    exists t. by apply Ho.
  - intros f pg va Hfr%Ho; [|done..]. destruct (vi_frame _ _ _ HI f pg va Hfr) as (Hd & Hva & Hu & Hpr & Ha).
    rewrite Hpte by done. split; [by apply Ho|done].
  - intros pg va Hd%Ho Hva Hu Hpr; [|done..]. rewrite Hpte in Hpr by done. destruct (vi_pte _ _ _ HI pg va Hd Hva Hu Hpr) as [f Hfr].
    exists f. by apply Ho.
Qed.
End inv.
