(* ===== verification/VmSteps.v ===== *)
(** * Single steps on page tables: allocate, free, add a table, set an entry *)

From S2P Require Import Prelude Bytes Kalloc Vm VmInv.

Implicit Types (s : mem) (own : gmap Z role).

Definition data_role (r : role) : Prop := match r with Frame _ _ | Held => True | _ => False end.

(** User pages keep their contents. *)
Definition same_data s own s' : Prop := ∀ x r, own !! x = Some r → data_role r → pages s' !! x = pages s !! x.
Definition same_ptes s own s' : Prop := ∀ pg va, own !! pg = Some Dir → is_va va → pte s' pg va = pte s pg va.

Lemma table_word s own x j : table_role (own !! x) → ∀ s', pages s' !! x = pages s !! x → word s' x j = word s x j.
Proof. intros _ s' Hp. unfold word. by rewrite Hp. Qed.

Section steps.
Context (kend : Z).

Lemma kinv_set_word s fl t i x : kinv kend s fl → t ∉ fl → (i < 1024)%nat → kinv kend (set_word t i x s) fl.
Proof.
  intros [Hr Hn Hp Hk] Ht Hi. pose proof (set_word_only s t i x Hi) as Ho. constructor.
  - assert (freelist (set_word t i x s) = freelist s) as -> by (unfold set_word; by destruct (pages s !! t)).
    apply (runs_ext s); [|done]. intros v Hv. apply (oo_word _ _ t v 0 Ho). by intros ->.
  - done.
  - intros v Hv. apply (page_ok_only kend s _ t); auto.
  - unfold set_word. by destruct (pages s !! t).
Qed.
Lemma kinv_set_page s fl v p : kinv kend s fl → v ∉ fl → length p = 4096%nat → bytes p → kinv kend (set_page v p s) fl.
Proof.
  intros [Hr Hn Hp Hk] Ht Hl Hb. pose proof (set_page_only s v p Hl Hb) as Ho. constructor; [|done| |done].
  - apply (runs_ext s); [|done]. intros w Hv. apply (oo_word _ _ v w 0 Ho). by intros ->.
  - intros w Hv. apply (page_ok_only kend s _ v); auto.
Qed.

Lemma own_insert_free own v (r : role) (fl fl' : list Z) :
  (∀ x, x ∈ fl ↔ own !! x = Some Free) → r ≠ Free → (∀ x, x ∈ fl' ↔ x ∈ fl ∧ x ≠ v) →
  ∀ x, x ∈ fl' ↔ <[v := r]> own !! x = Some Free.
Proof.
  intros Hf Hr Hfl x. rewrite Hfl, Hf. destruct (decide (x = v)) as [->|Hne].
  - rewrite lookup_insert_eq. naive_solver.
  - rewrite lookup_insert_ne by done. naive_solver.
Qed.

(** ** The allocator *)

Lemma wp_kalloc_own s own Q :
  vinv kend s own →
  ((∀ x, own !! x ≠ Some Free) → Q 0 s) →
  (∀ v s', own !! v = Some Free → vinv kend s' (<[v := Held]> own) → pages s' = pages s → v ≠ 0 → Q v s') →
  wp kalloc Q s.
Proof.
  intros HI HQ0 HQ. destruct (vi_free _ _ _ HI) as (fl & HK & Hfl). apply (wp_kalloc kend s fl); [done|..].
  - intros ->. apply HQ0. intros x Hx%Hfl. by apply elem_of_nil in Hx.
  - intros v fl' -> Hv Hv0 HK'. pose proof (ki_nodup _ _ _ HK) as [Hni _]%NoDup_cons.
    assert (own !! v = Some Free) as Hvo by (apply Hfl; by left). apply HQ; [done| |done|done].
    apply (vinv_data kend s _ own); [done| | |done|].
    + exists fl'. split; [done|]. apply (own_insert_free own v Held (v :: fl')); [done|done|].
      intros x. rewrite elem_of_cons. split; [|naive_solver]. intros Hx. split; [by right|]. by intros ->.
    + intros x r [[<- _]|[_ Hx]]%lookup_insert_Some; [done|]. by apply (vi_page _ _ _ HI x r).
    + intros x r Hr1 Hr2. destruct (decide (x = v)) as [->|Hne]; [rewrite lookup_insert_eq|by rewrite lookup_insert_ne].
      rewrite Hvo. split; intros [= <-]; done.
Qed.

Lemma wp_kfree_own s own v Q :
  vinv kend s own → own !! v = Some Held →
  (∀ s', vinv kend s' (<[v := Free]> own) → only_page s s' v → Q tt s') → wp (kfree kend v) Q s.
Proof.
  intros HI Hv HQ. destruct (vi_free _ _ _ HI) as (fl & HK & Hfl). assert (v ∉ fl) as Hni by (rewrite Hfl; by rewrite Hv).
  apply (wp_kfree kend s fl); [done|by apply (vi_page _ _ _ HI v Held)|done|]. intros s' HK' Ho. apply HQ; [|done].
  apply (vinv_data kend s s' own); [done| | | |].
  - exists (v :: fl). split; [done|]. intros x. rewrite elem_of_cons, Hfl. destruct (decide (x = v)) as [->|Hne].
    + rewrite lookup_insert_eq. naive_solver.
    + rewrite lookup_insert_ne by done. naive_solver.
  - intros x r [[<- _]|[_ Hx]]%lookup_insert_Some; apply (page_ok_only kend s s' v); try done; by eapply vi_page.
  - intros x Hx j _. apply (oo_word _ _ v x j Ho). intros ->. by rewrite Hv in Hx.
  - intros x r Hr1 Hr2. destruct (decide (x = v)) as [->|Hne]; [rewrite lookup_insert_eq|by rewrite lookup_insert_ne].
    rewrite Hv. split; intros [= <-]; done.
Qed.

(** Filling a page that the code holds. *)
Lemma vinv_fill s own v p : vinv kend s own → own !! v = Some Held → length p = 4096%nat → bytes p → vinv kend (set_page v p s) own.
Proof.
  intros HI Hv Hl Hb. destruct (vi_free _ _ _ HI) as (fl & HK & Hfl). pose proof (set_page_only s v p Hl Hb) as Ho.
  apply (vinv_data kend s _ own); [done| | | |done].
  - exists fl. split; [|done]. apply kinv_set_page; [done|by rewrite Hfl, Hv|done|done].
  - intros x r Hx. apply (page_ok_only kend s _ v); [done|]. by eapply vi_page.
  - intros x Hx j _. apply (oo_word _ _ v x j Ho). intros ->. by rewrite Hv in Hx.
Qed.

(** ** Setting one entry *)

(** The entry of [va] in [pg] becomes [e]; the frames of that page change so
    that the entry is right. *)
Lemma pte_change s s' own pg va t e :
  vinv kend s own → own !! t = Some (Tab pg (pdx va)) → is_va va →
  (∀ x, table_role (own !! x) → ∀ j, (j < 1024)%nat → word s' x j = if decide (x = t ∧ j = ptx va) then e else word s x j) →
  ∀ pg' va', own !! pg' = Some Dir → is_va va' → pte s' pg' va' = if decide (pg' = pg ∧ va' = va) then e else pte s pg' va'.
Proof.
  intros HI Ht [Hva Hal] Hw pg' va' Hd [Hva' Hal']. pose proof (pdx_lt va' Hva') as Hi. pose proof (ptx_lt va') as Hj.
  assert (word s' pg' (pdx va') = word s pg' (pdx va')) as Hdir.
  { rewrite Hw by (rewrite ?Hd; done). rewrite decide_False; [done|]. intros [-> _]. congruence. }
  unfold pte. rewrite Hdir. destruct (dir_case kend s own pg' (pdx va') HI Hd Hi) as [[-> Hno]|(t' & Ht' & -> & ->)].
  - rewrite decide_False; [done|]. intros [-> ->]. by apply (Hno t).
  - rewrite Hw by (rewrite ?Ht'; done). destruct (decide (pg' = pg ∧ va' = va)) as [[-> ->]|Hne].
    + rewrite decide_True; [done|]. split; [|done]. by eapply tab_uniq.
    + rewrite decide_False; [done|]. intros [-> Hpt]. rewrite Ht in Ht'. injection Ht' as <- Hpd. apply Hne. split; [done|].
      by apply page_eq.
Qed.

Lemma vinv_pte s s' own own' pg va t e :
  vinv kend s own → own !! t = Some (Tab pg (pdx va)) → is_va va →
  (∃ fl, kinv kend s' fl ∧ ∀ x, x ∈ fl ↔ own' !! x = Some Free) →
  (∀ x r, own' !! x = Some r → page_ok kend s' x) →
  (∀ x, table_role (own !! x) → ∀ j, (j < 1024)%nat → word s' x j = if decide (x = t ∧ j = ptx va) then e else word s x j) →
  (∀ x r, r ≠ Free → r ≠ Held → r ≠ Frame pg va → own' !! x = Some r ↔ own !! x = Some r) →
  (is_user va → present e = true → ∃ f, own' !! f = Some (Frame pg va)) →
  (∀ f, own' !! f = Some (Frame pg va) → is_user va ∧ present e = true ∧ PTE_ADDR e = V2P f) →
  vinv kend s' own'.
Proof.
  intros HI Ht Hva Hf Hp Hw Ho He1 He2. pose proof (pte_change s s' own pg va t e HI Ht Hva Hw) as Hpte.
  destruct (vi_tab _ _ _ HI t pg (pdx va) Ht) as (Hdpg & _ & _). constructor; [done|done|..].
  - intros t' pg' i Ht'%Ho; [|done..]. destruct (vi_tab _ _ _ HI t' pg' i Ht') as (Hd & Hi & He). split; [by apply Ho|]. split; [done|].
    rewrite Hw, decide_False; [done| |by rewrite Hd|done]. intros [-> _]. congruence.
  - intros pg' i Hd%Ho Hi Hpr; [|done..]. rewrite Hw, decide_False in Hpr; [| |by rewrite Hd|done].
    + destruct (vi_dir _ _ _ HI pg' i Hd Hi Hpr) as [t' Ht']. exists t'. by apply Ho.
    + intros [-> _]. congruence.
  - intros f pg' va' Hfr. destruct (decide (Frame pg' va' = Frame pg va)) as [[= -> ->]|Hne].
    + destruct (He2 f Hfr) as (Hu & Hpr & Ha). rewrite Hpte, decide_True by done. split; [by apply Ho|done].
    + apply Ho in Hfr; [|done..]. destruct (vi_frame _ _ _ HI f pg' va' Hfr) as (Hd & Hva' & Hu & Hpr & Ha).
      rewrite Hpte, decide_False by (done || naive_solver). split; [by apply Ho|done].
  - intros pg' va' Hd%Ho Hva' Hu Hpr; [|done..]. rewrite Hpte in Hpr by done. case_decide as Hc.
    + destruct Hc as [-> ->]. by apply He1.
    + destruct (vi_pte _ _ _ HI pg' va' Hd Hva' Hu Hpr) as [f Hfr]. exists f. apply Ho; [done|done| |done]. naive_solver.
Qed.

(** ** Adding a table *)

Section new_table.
Context (s s' : mem) (own : gmap Z role) (pg v : Z) (i : nat).
Hypotheses (HI : vinv kend s own) (Hd : own !! pg = Some Dir) (Hv : own !! v = Some Held) (Hi : (i < 1024)%nat).
Hypotheses (Hnp : present (word s pg i) = false) (Hz : ∀ j, (j < 1024)%nat → word s' v j = 0).
Hypotheses (Hw : ∀ x, table_role (own !! x) → ∀ j, (j < 1024)%nat → word s' x j = if decide (x = pg ∧ j = i) then entry (V2P v) 7 else word s x j).

Lemma new_entry : present (entry (V2P v) 7) = true ∧ P2V (PTE_ADDR (entry (V2P v) 7)) = v.
Proof using HI Hv.
  clear Hw Hz Hnp Hi. destruct (page_V2P kend s v (vi_page _ _ _ HI _ _ Hv)) as (H1 & H2 & H3 & _). unfold PHYSTOP in H2.
  rewrite present_entry, PTE_ADDR_entry by (done || (unfold PGSIZE; lia)). done.
Qed.

Lemma new_table_ptes : same_ptes s own s'.
Proof using All.
  intros pg' va Hd' [Hva _]. pose proof (pdx_lt va Hva) as Hl. unfold pte. rewrite Hw by (rewrite ?Hd'; done).
  destruct (decide (pg' = pg ∧ pdx va = i)) as [[-> Hpd]|Hne].
  - destruct new_entry as [-> ->]. rewrite Hpd, Hnp. apply Hz, ptx_lt.
  - destruct (dir_case kend s own pg' (pdx va) HI Hd' Hl) as [[-> _]|(t & Ht & -> & ->)]; [done|].
    rewrite Hw, decide_False; [done| |by rewrite Ht|apply ptx_lt]. intros [-> _]. congruence.
Qed.

Lemma vinv_new_table :
  (∃ fl, kinv kend s' fl ∧ ∀ x, x ∈ fl ↔ own !! x = Some Free) → (∀ x r, own !! x = Some r → page_ok kend s' x) →
  vinv kend s' (<[v := Tab pg i]> own).
Proof using All.
  intros (fl & HK & Hfl) Hp. pose proof new_table_ptes as Hpte.
  assert (∀ t, own !! t ≠ Some (Tab pg i)) as Hno.
  { intros t Ht. destruct (tab_entry kend s own t pg i HI Ht). congruence. }
  assert (v ≠ pg) as Hvp by (intros ->; congruence).
  assert (∀ x r, r ≠ Held → r ≠ Tab pg i → <[v := Tab pg i]> own !! x = Some r ↔ own !! x = Some r) as Ho.
  { intros x r Hr1 Hr2. destruct (decide (x = v)) as [->|Hne]; [rewrite lookup_insert_eq, Hv; split; intros [= <-]; done|by rewrite lookup_insert_ne]. }
  constructor.
  - exists fl. split; [done|]. intros x. rewrite Hfl. symmetry. by apply Ho.
  - intros x r [[<- _]|[_ Hx]]%lookup_insert_Some; eauto.
  - intros t pg' j [[<- [= <- <-]]|[Hne Ht]]%lookup_insert_Some.
    + split; [by apply Ho|]. split; [done|]. rewrite Hw, decide_True by (rewrite ?Hd; done). done.
    + destruct (vi_tab _ _ _ HI t pg' j Ht) as (Hd' & Hj & He). split; [by apply Ho|]. split; [done|].
      rewrite Hw, decide_False; [done| |by rewrite Hd'|done]. intros [-> ->]. by apply (Hno t).
  - intros pg' j Hd'%Ho Hj Hpr; [|done..]. destruct (decide (pg' = pg ∧ j = i)) as [[-> ->]|Hne]; [exists v; by rewrite lookup_insert_eq|].
    rewrite Hw, decide_False in Hpr by (rewrite ?Hd'; done). destruct (vi_dir _ _ _ HI pg' j Hd' Hj Hpr) as [t Ht]. exists t.
    apply Ho; [done|naive_solver|done].
  - intros f pg' va Hfr%Ho; [|done..]. destruct (vi_frame _ _ _ HI f pg' va Hfr) as (Hd' & Hva & Hrest). rewrite Hpte by done.
    split; [by apply Ho|done].
  - intros pg' va Hd'%Ho Hva Hu Hpr; [|done..]. rewrite Hpte in Hpr by done. destruct (vi_pte _ _ _ HI pg' va Hd' Hva Hu Hpr) as [f Hf].
    exists f. by apply Ho.
Qed.
End new_table.

Lemma lor7 v s : page_ok kend s v → Z.lor (Z.lor (Z.lor (V2P v) PTE_P) PTE_W) PTE_U = entry (V2P v) 7.
Proof.
  intros Hv. destruct (page_V2P kend s v Hv) as (H1 & H2 & _). rewrite <- !Z.lor_assoc. change (Z.lor PTE_P (Z.lor PTE_W PTE_U)) with 7.
  apply lor_low; [done|unfold PGSIZE; lia].
Qed.

(** Looking an address up, with a new table if need be. *)
Lemma wp_walk_alloc s own pg va Q :
  vinv kend s own → own !! pg = Some Dir → 0 ≤ va < 2 ^ 32 →
  (∀ t own' s', own' !! t = Some (Tab pg (pdx va)) → t ≠ 0 → vinv kend s' own' →
     (own' = own ∨ (own !! t = Some Free ∧ own' = <[t := Tab pg (pdx va)]> own)) →
     same_data s own s' → same_ptes s own s' → Q (t + 4 * Z.of_nat (ptx va)) s') →
  ((∀ x, own !! x ≠ Some Free) → Q 0 s) →
  wp (walkpgdir pg va true) Q s.
Proof.
  intros HI Hd Hva HQ HQ0. destruct (vi_page _ _ _ HI _ _ Hd) as (Hal & _ & Hr & Hp). unfold walkpgdir. cbv zeta.
  pose proof (pdx_lt va Hva) as Hi. rewrite PDX_eq, PTX_eq by done. apply wp_bind, wp_load; [done|done|done|].
  destruct (dir_case kend s own pg (pdx va) HI Hd Hi) as [[Hn Hno]|(t & Ht & -> & ->)].
  2: { apply wp_ret. apply (HQ t own s); [done| |done|by left|done|done]. by apply (page_V2P kend s t), (vi_page _ _ _ HI _ _ Ht). }
  rewrite Hn. cbn [negb]. apply wp_bind, (wp_kalloc_own s own); [done|..].
  { intros Hno'. change (0 =? 0) with true. cbv iota. by apply wp_ret, HQ0. }
  intros v s1 Hv HI1 Hp1 Hv0. rewrite (proj2 (Z.eqb_neq v 0)) by done. set (own1 := <[v := Held]> own) in *.
  assert (own1 !! v = Some Held) as Hv1 by apply lookup_insert_eq. assert (v ≠ pg) as Hvp by (intros ->; congruence).
  assert (own1 !! pg = Some Dir) as Hd1 by (unfold own1; by rewrite lookup_insert_ne).
  assert (page_ok kend s1 v) as Hok by (by eapply vi_page).
  apply wp_bind, wp_memset_page; [apply Hok|].
  assert (bytes (replicate 4096 0)) as Hb by (apply Forall_replicate; unfold byte; lia).
  pose proof (vinv_fill s1 own1 v (replicate 4096 0) HI1 Hv1 (length_replicate _ _) Hb) as HI2. pose proof (set_page_only s1 v (replicate 4096 0) (length_replicate _ _) Hb) as Ho2.
  pose proof (word_fill s1 v) as Hz. remember (set_page v (replicate 4096 0) s1) as s2 eqn:Hs2.
  assert (page_ok kend s2 pg) as (_ & _ & _ & Hpg2) by (by eapply vi_page). rewrite (lor7 v s1 Hok).
  apply wp_bind, wp_store_word; [done|done|done|]. apply wp_ret. pose proof (set_word_only s2 pg (pdx va) (entry (V2P v) 7) Hi) as Ho3.
  destruct (vi_free _ _ _ HI2) as (fl & HK2 & Hfl). assert (pg ∉ fl) as Hpf by (rewrite Hfl, Hd1; done).
  assert (∀ x j, (j < 1024)%nat → word (set_word pg (pdx va) (entry (V2P v) 7) s2) x j = if decide (x = pg ∧ j = pdx va) then entry (V2P v) 7 else word s2 x j) as Hw3.
  { intros x j Hj. rewrite word_set_word by done. case_decide; [|done]. apply u32_small.
    destruct (page_V2P kend s1 v Hok) as (H1 & H2 & _). unfold PHYSTOP in H2. apply entry_small; [done|lia|unfold PGSIZE; lia]. }
  assert (present (word s2 pg (pdx va)) = false) as Hn2.
  { rewrite (oo_word _ _ v pg (pdx va) Ho2) by done. unfold word in *. by rewrite Hp1. }
  set (s3 := set_word pg (pdx va) (entry (V2P v) 7) s2) in *.
  assert (∀ j, (j < 1024)%nat → word s3 v j = 0) as Hz3 by (intros j Hj; rewrite Hw3, decide_False by naive_solver; by apply Hz).
  assert (∀ x, x ≠ v → x ≠ pg → pages s3 !! x = pages s !! x) as Hpx.
  { intros x H1 H2. by rewrite (oo_pages _ _ _ Ho3), (oo_pages _ _ _ Ho2), Hp1. }
  apply (HQ v (<[v := Tab pg (pdx va)]> own1)); [by rewrite lookup_insert_eq|done| | | |].
  - apply (vinv_new_table s2 s3 own1); try done; [by intros x _ j Hj; apply Hw3| |].
    + exists fl. split; [|done]. by apply kinv_set_word.
    + intros x r Hx. apply (page_ok_only kend s2 s3 pg); [done|]. by eapply vi_page.
  - right. split; [done|]. unfold own1. by rewrite insert_insert_eq.
  - intros x r Hx Hdr. apply Hpx; intros ->; rewrite ?Hv, ?Hd in Hx; injection Hx as <-; done.
  - intros pg' va' Hd' Hva'. assert (pg' ≠ v) as Hne by (intros ->; congruence).
    rewrite (new_table_ptes s2 s3 own1 pg v (pdx va) HI2 Hd1 Hv1 Hi Hn2 Hz3); try done; [|by intros x _ j Hj; apply Hw3|unfold own1; by rewrite lookup_insert_ne].
    assert (pte s2 pg' va' = pte s1 pg' va') as ->.
    { apply (pte_same kend s1 s2 own1); [done|unfold own1; by rewrite lookup_insert_ne|apply Hva'|by apply (oo_word _ _ v)|].
      intros t Ht. apply (oo_word _ _ v _ _ Ho2). intros ->. congruence. }
    unfold pte, word. by rewrite Hp1.
Qed.
End steps.
