(* ===== verification/VmMap.v ===== *)
(** * Creating mappings (mappages of vm.c) *)

From S2P Require Import Prelude Bytes Kalloc Vm VmInv VmSteps.

Implicit Types (s : mem) (own : gmap Z role).

#[global] Instance is_user_dec va : Decision (is_user va).
Proof. unfold is_user. apply _. Defined.

(** Some free pages became tables of [pg]. *)
Definition grows (pg : Z) own own' : Prop :=
  ∀ x, own' !! x = own !! x ∨ (own !! x = Some Free ∧ ∃ i, own' !! x = Some (Tab pg i)).

Lemma grows_refl pg own : grows pg own own.
Proof. intros x. by left. Qed.
Lemma grows_trans pg own own' own'' : grows pg own own' → grows pg own' own'' → grows pg own own''.
Proof.
  intros H1 H2 x. destruct (H1 x) as [E1|[F1 (i & E1)]], (H2 x) as [E2|[F2 (j & E2)]].
  - left. congruence.
  - right. split; [congruence|by exists j].
  - right. split; [done|]. exists i. congruence.
  - congruence.
Qed.
Lemma grows_keeps pg own own' x r : grows pg own own' → own !! x = Some r → r ≠ Free → own' !! x = Some r.
Proof. intros H Hx Hr. destruct (H x) as [E|[F _]]; congruence. Qed.
Lemma grows_back pg own own' x r : grows pg own own' → own' !! x = Some r → (∀ i, r ≠ Tab pg i) → own !! x = Some r.
Proof. intros H Hx Hr. destruct (H x) as [E|[_ (i & E)]]; [congruence|]. rewrite Hx in E. injection E as ->. by destruct (Hr i). Qed.
Lemma grows_insert pg own own' m (r : role) : grows pg own own' → own !! m ≠ Some Free → grows pg (<[m := r]> own) (<[m := r]> own').
Proof.
  intros H Hm x. destruct (decide (x = m)) as [->|Hne]; [left; by rewrite !lookup_insert_eq|]. rewrite !lookup_insert_ne by done. apply H.
Qed.

Lemma lor_1_range perm : 0 ≤ perm < PGSIZE → 0 ≤ Z.lor perm 1 < PGSIZE ∧ Z.odd (Z.lor perm 1) = true.
Proof.
  unfold PGSIZE. intros Hp. assert (0 ≤ Z.lor perm 1) as H0 by (apply Z.lor_nonneg; lia). split; [split; [done|]|].
  - change 4096 with (2 ^ 12). apply (Z.bounded_iff_bits_nonneg 12); [lia|done|]. intros i Hi.
    rewrite Z.lor_spec, (proj1 (Z.bounded_iff_bits_nonneg 12 perm ltac:(lia) ltac:(lia)) ltac:(lia) i),
      (proj1 (Z.bounded_iff_bits_nonneg 12 1 ltac:(lia) ltac:(lia)) ltac:(lia) i) by lia. done.
  - rewrite <- Z.bit0_odd, Z.lor_spec. apply orb_true_r.
Qed.

Section map.
Context (kend : Z).

(** The owners after [va] was mapped to [pa]. *)
Definition mapped own (pg va pa : Z) : gmap Z role := if decide (is_user va) then <[P2V pa := Frame pg va]> own else own.
Definition can_map own (va pa : Z) : Prop := is_user va → own !! P2V pa = Some Held ∧ V2P (P2V pa) = pa.

Lemma mapped_other own pg va pa x r :
  can_map own va pa → r ≠ Free → r ≠ Held → r ≠ Frame pg va → mapped own pg va pa !! x = Some r ↔ own !! x = Some r.
Proof.
  intros Hc H1 H2 H3. unfold mapped. case_decide as Hu; [|done]. destruct (Hc Hu) as [Hh _].
  destruct (decide (x = P2V pa)) as [->|Hne]; [|by rewrite lookup_insert_ne]. rewrite lookup_insert_eq, Hh. naive_solver.
Qed.

Lemma mapped_free own pg va pa x : can_map own va pa → mapped own pg va pa !! x = Some Free ↔ own !! x = Some Free.
Proof.
  intros Hc. unfold mapped. case_decide as Hu; [|done]. destruct (Hc Hu) as [Hh _].
  destruct (decide (x = P2V pa)) as [->|Hne]; [|by rewrite lookup_insert_ne]. rewrite lookup_insert_eq, Hh. naive_solver.
Qed.

(** The entry stored. *)
Lemma vinv_mapped s own pg va pa perm t :
  vinv kend s own → own !! t = Some (Tab pg (pdx va)) → is_va va → can_map own va pa →
  pa mod PGSIZE = 0 → 0 ≤ pa < 2 ^ 32 → 0 ≤ perm < PGSIZE → present (pte s pg va) = false →
  let e := entry pa (Z.lor perm 1) in let s' := set_word t (ptx va) e s in
  vinv kend s' (mapped own pg va pa) ∧ same_data s own s' ∧
  ∀ pg' va', own !! pg' = Some Dir → is_va va' → pte s' pg' va' = if decide (pg' = pg ∧ va' = va) then e else pte s pg' va'.
Proof.
  intros HI Ht Hva Hc Hpa Hpr Hperm Hnp e s'. pose proof (vi_page _ _ _ HI _ _ Ht) as (Hal & _ & _ & Hpt).
  destruct (lor_1_range perm Hperm) as [Hf Hodd]. pose proof (entry_small pa _ Hpa Hpr Hf) as He. pose proof (ptx_lt va) as Hj.
  assert (∀ x j, (j < 1024)%nat → word s' x j = if decide (x = t ∧ j = ptx va) then e else word s x j) as Hw.
  { intros x j Hjx. unfold s'. rewrite word_set_word by done. case_decide; [|done]. by apply u32_small. }
  assert (present e = true ∧ PTE_ADDR e = pa) as [Hpe Hae] by (unfold e; rewrite present_entry, PTE_ADDR_entry by done; done).
  pose proof (set_word_only s t (ptx va) e Hj) as Ho. destruct (vi_free _ _ _ HI) as (fl & HK & Hfl).
  split; [|split].
  - apply (vinv_pte kend s s' own _ pg va t e); [done|done|done| | |by intros x _ j; apply Hw| | |].
    + exists fl. split; [apply kinv_set_word; [done|by rewrite Hfl, Ht|done]|]. intros x. rewrite Hfl. symmetry. by apply mapped_free.
    + intros x r Hx. apply (page_ok_only kend s s' t); [done|]. unfold mapped in Hx. case_decide as Hu; [|by eapply vi_page].
      apply lookup_insert_Some in Hx as [[<- _]|[_ Hx]]; eapply vi_page; [done| |done|done]. by apply Hc.
    + intros x r ???. by apply mapped_other.
    + intros Hu _. exists (P2V pa). unfold mapped. rewrite decide_True by done. apply lookup_insert_eq.
    + intros f Hfr. unfold mapped in Hfr. case_decide as Hu.
      * apply lookup_insert_Some in Hfr as [[<- _]|[_ Hfr]].
        -- split; [done|]. split; [done|]. rewrite Hae. symmetry. by apply Hc.
        -- destruct (vi_frame _ _ _ HI f pg va Hfr) as (_ & _ & _ & Hp & _). congruence.
      * destruct (vi_frame _ _ _ HI f pg va Hfr) as (_ & _ & Hu' & _). done.
  - intros x r Hx Hr. apply (oo_pages _ _ _ Ho). intros ->. rewrite Ht in Hx. by injection Hx as <-.
  - apply (pte_change kend s s' own pg va t e); [done..|]. by intros x _ j; apply Hw.
Qed.

Lemma map_loop_eq fuel pg va last pa perm :
  map_loop fuel pg va last pa perm =
  (pte_at ← walkpgdir pg va true;
   if pte_at =? 0 then mret (-1)
   else
     pte ← load pte_at;
     panic_unless (negb (present pte)) "remap";;
     store pte_at (Z.lor (Z.lor pa perm) PTE_P);;
     if va =? last then mret 0
     else match fuel with
          | O => fail OutOfFuel
          | S fuel' => map_loop fuel' pg (u32 (va + PGSIZE)) last (u32 (pa + PGSIZE)) perm
          end).
Proof. by destruct fuel. Qed.

(** One round of the loop. *)
Lemma wp_map_round fuel s own pg va last pa perm Q :
  vinv kend s own → own !! pg = Some Dir → is_va va → can_map own va pa →
  pa mod PGSIZE = 0 → 0 ≤ pa < 2 ^ 32 → 0 ≤ perm < PGSIZE → present (pte s pg va) = false →
  (∀ own' s', vinv kend s' own' → grows pg (mapped own pg va pa) own' → same_data s own s' →
     (∀ pg' va', own !! pg' = Some Dir → is_va va' →
        pte s' pg' va' = if decide (pg' = pg ∧ va' = va) then entry pa (Z.lor perm 1) else pte s pg' va') →
     wp (if va =? last then mret 0
         else match fuel with
              | O => fail OutOfFuel
              | S fuel' => map_loop fuel' pg (u32 (va + PGSIZE)) last (u32 (pa + PGSIZE)) perm
              end) Q s') →
  ((∀ x, own !! x ≠ Some Free) → Q (-1) s) →
  wp (map_loop fuel pg va last pa perm) Q s.
Proof.
  intros HI Hd Hva Hc Hpa Hpr Hperm Hnp HQ HQ0. assert (0 ≤ va < 2 ^ 32) as Hv by apply Hva.
  rewrite map_loop_eq. apply wp_bind, (wp_walk_alloc kend s own); [done..| |intros Hno; by apply wp_ret, HQ0].
  intros t own1 s1 Ht Ht0 HI1 Hown Hsd Hsp. pose proof (ptx_lt va) as Hj. destruct (vi_page _ _ _ HI1 _ _ Ht) as (Hal & _ & Hr & Hpt).
  rewrite (proj2 (Z.eqb_neq _ 0)) by (unfold KERNBASE in Hr; lia). apply wp_bind, wp_load; [done|done|done|].
  rewrite <- (pte_tab kend s1 own1 pg va t HI1 Ht), Hsp, Hnp by done. apply wp_bind, wp_panic_unless; [done|].
  rewrite <- Z.lor_assoc. change (Z.lor perm PTE_P) with (Z.lor perm 1). rewrite lor_low by (try apply lor_1_range; done).
  change (pa + Z.lor perm 1) with (entry pa (Z.lor perm 1)). apply wp_bind, wp_store_word; [done|done|done|].
  assert (grows pg own own1) as Hg.
  { destruct Hown as [->|[HF ->]]; [apply grows_refl|]. intros x. destruct (decide (x = t)) as [->|Hne].
    - right. split; [done|]. exists (pdx va). by rewrite lookup_insert_eq.
    - left. by rewrite lookup_insert_ne. }
  assert (can_map own1 va pa) as Hc1 by (intros Hu; destruct (Hc Hu) as [Hh He]; split; [by eapply grows_keeps|done]).
  assert (∀ pg', own !! pg' = Some Dir → own1 !! pg' = Some Dir) as Hd1 by (intros pg' Hd'; by eapply grows_keeps).
  destruct (vinv_mapped s1 own1 pg va pa perm t HI1 Ht Hva Hc1 Hpa Hpr Hperm ltac:(by rewrite Hsp)) as (HI2 & Hsd2 & Hpte2).
  apply (HQ (mapped own1 pg va pa)); [done| | |].
  - unfold mapped. case_decide as Hu; [|done]. apply grows_insert; [done|]. by destruct (Hc Hu) as [-> _].
  - intros x r Hx Hr'. rewrite (Hsd2 x r); [by apply (Hsd x r)| |done]. eapply grows_keeps; [done|done|]. by intros ->.
  - intros pg' va' Hd' Hva'. rewrite Hpte2 by auto. by rewrite Hsp.
Qed.

(** ** A user page *)

Lemma wp_map_user s own pg va m perm Q :
  vinv kend s own → own !! pg = Some Dir → is_va va → is_user va → own !! m = Some Held →
  0 ≤ perm < PGSIZE → present (pte s pg va) = false →
  (∀ own' s', vinv kend s' own' → grows pg (<[m := Frame pg va]> own) own' → same_data s own s' →
     (∀ pg' va', own !! pg' = Some Dir → is_va va' →
        pte s' pg' va' = if decide (pg' = pg ∧ va' = va) then entry (V2P m) (Z.lor perm 1) else pte s pg' va') → Q 0 s') →
  ((∀ x, own !! x ≠ Some Free) → Q (-1) s) →
  wp (mappages pg va PGSIZE (V2P m) perm) Q s.
Proof.
  intros HI Hd Hva Hu Hm Hperm Hnp HQ HQ0. destruct (page_V2P kend s m (vi_page _ _ _ HI _ _ Hm)) as (H1 & H2 & H3 & _).
  unfold PHYSTOP in H2. pose proof Hva as [Hv Hal]. unfold is_user, KERNBASE in Hu. unfold mappages. cbv zeta.
  assert (PGROUNDDOWN va = va) as -> by (rewrite page_round by done; unfold page_of; lia).
  assert (PGROUNDDOWN (u32 (va + PGSIZE - 1)) = va) as ->.
  { rewrite u32_small, page_round by (unfold PGSIZE; lia). unfold page_of, PGSIZE in *. dlia. }
  apply (wp_map_round _ s own); try done; [by intros _; rewrite H3|lia|].
  intros own' s' HI' Hg Hsd Hpte. rewrite Z.eqb_refl. apply wp_ret. apply (HQ own'); [done| |done|done].
  unfold mapped in Hg. by rewrite decide_True, H3 in Hg.
Qed.

(** ** A range of kernel pages *)

Definition in_range (a n va : Z) : Prop := a ≤ va ≤ a + n * PGSIZE.
#[global] Instance in_range_dec a n va : Decision (in_range a n va).
Proof. unfold in_range. apply _. Defined.

Lemma wp_map_kernel n : ∀ s own pg a pa perm Q,
  vinv kend s own → own !! pg = Some Dir → is_va a → KERNBASE ≤ a → a + Z.of_nat n * PGSIZE < 2 ^ 32 →
  pa mod PGSIZE = 0 → 0 ≤ pa → pa + Z.of_nat n * PGSIZE < 2 ^ 32 → 0 ≤ perm < PGSIZE →
  (∀ va, is_va va → in_range a (Z.of_nat n) va → present (pte s pg va) = false) →
  (∀ r own' s', vinv kend s' own' → grows pg own own' → same_data s own s' →
     (∀ pg' va', own !! pg' = Some Dir → is_va va' → ¬ (pg' = pg ∧ in_range a (Z.of_nat n) va') → pte s' pg' va' = pte s pg' va') →
     (r = 0 ∧ (∀ va', is_va va' → in_range a (Z.of_nat n) va' → pte s' pg va' = entry (pa + (va' - a)) (Z.lor perm 1)) ∨
      r = -1 ∧ ∀ x, own' !! x ≠ Some Free) → Q r s') →
  wp (map_loop n pg a (a + Z.of_nat n * PGSIZE) pa perm) Q s.
Proof.
  induction n as [|n IH]; intros s own pg a pa perm Q HI Hd Ha Hk Hend Hpa Hpa0 Hpe Hperm Hnp HQ.
  all: assert (¬ is_user a) as Hnu by (unfold is_user; lia); assert (can_map own a pa) as Hc by (by intros Hu).
  all: apply (wp_map_round _ s own); try done; [unfold PGSIZE in *; lia|apply Hnp; [done|unfold in_range, PGSIZE; lia]| |].
  2, 4: intros Hno; apply (HQ (-1) own s); [done|apply grows_refl|done|done|by right].
  all: intros own1 s1 HI1 Hg Hsd Hpte; unfold mapped in Hg; rewrite decide_False in Hg by done.
  - rewrite (proj2 (Z.eqb_eq _ _)) by lia. apply wp_ret. apply (HQ 0 own1); [done..| |].
    + intros pg' va' Hd' Hva' Hne. rewrite Hpte, decide_False; [done| |done|done]. intros [-> ->]. apply Hne. split; [done|]. unfold in_range. lia.
    + left. split; [done|]. intros va' Hva' Hin. unfold in_range in Hin. replace va' with a by lia. rewrite Hpte, decide_True by done. f_equal. lia.
  - rewrite (proj2 (Z.eqb_neq _ _)) by (unfold PGSIZE; lia). destruct Ha as [Ha Hal]. rewrite !u32_small by (unfold PGSIZE in *; lia).
    replace (a + Z.of_nat (S n) * PGSIZE) with (a + PGSIZE + Z.of_nat n * PGSIZE) by lia.
    assert (own1 !! pg = Some Dir) as Hd1 by (by eapply grows_keeps).
    assert (∀ va', is_va va' → va' ≠ a → in_range a (Z.of_nat (S n)) va' → in_range (a + PGSIZE) (Z.of_nat n) va') as Hin.
    { intros va' [Hv Hva'] Hne. unfold in_range, PGSIZE in *. intros. assert (a + 4096 ≤ va') by dlia. lia. }
    apply (IH s1 own1); try done; [split; [unfold PGSIZE in *; lia|unfold PGSIZE in *; dlia]|unfold PGSIZE; lia|unfold PGSIZE in *; lia|unfold PGSIZE in *; dlia|unfold PGSIZE in *; lia|unfold PGSIZE in *; lia| |].
    { intros va Hva Hr. unfold in_range in Hr. rewrite Hpte, decide_False; [|unfold PGSIZE in *; lia|done|done]. apply Hnp; [done|]. unfold in_range, PGSIZE in *. lia. }
    intros r own2 s2 HI2 Hg2 Hsd2 Hsp2 Hcase. apply (HQ r own2); [done|by eapply grows_trans| | |].
    + intros x rr Hx Hr. rewrite (Hsd2 x rr); [by apply (Hsd x rr)| |done]. eapply grows_keeps; [done|done|]. by intros ->.
    + intros pg' va' Hd' Hva' Hne. assert (own1 !! pg' = Some Dir) as Hd1' by (by eapply grows_keeps).
      rewrite Hsp2 by (done || (intros [-> Hr]; apply Hne; split; [done|unfold in_range, PGSIZE in *; lia])).
      rewrite Hpte, decide_False; [done| |done|done]. intros [-> ->]. apply Hne. split; [done|]. unfold in_range, PGSIZE. lia.
    + destruct Hcase as [[-> Hall]|[-> Hno]]; [left|by right]. split; [done|]. intros va' Hva' Hr. destruct (decide (va' = a)) as [->|Hne].
      * rewrite Hsp2, Hpte, decide_True by (done || (unfold in_range, PGSIZE; lia)). f_equal. lia.
      * rewrite Hall by auto. f_equal. lia.
Qed.
End map.
