(* ===== verification/VmFree.v ===== *)
(** * Removing mappings and address spaces (deallocuvm, freevm of vm.c) *)

From S2P Require Import Prelude Bytes Kalloc Vm VmInv VmSteps VmMap.

Implicit Types (s : mem) (own : gmap Z role).

(** The owners after the user pages of [pg] in [lo, hi) were freed. *)
Definition unmap1 (pg lo hi : Z) (r : role) : role :=
  match r with Frame p va => if decide (p = pg ∧ lo ≤ va < hi) then Free else r | _ => r end.
Definition unmap (pg lo hi : Z) own : gmap Z role := unmap1 pg lo hi <$> own.

Lemma unmap_lookup pg lo hi own x : unmap pg lo hi own !! x = unmap1 pg lo hi <$> own !! x.
Proof. unfold unmap. by rewrite lookup_fmap. Qed.
Lemma unmap_dir pg lo hi own x : unmap pg lo hi own !! x = Some Dir ↔ own !! x = Some Dir.
Proof.
  rewrite unmap_lookup. destruct (own !! x) as [r|]; [|done]. cbn. destruct r; cbn; try done. case_decide; done.
Qed.

Section free.
(** The kernel is linked at KERNLINK (kernel.ld). *)
Context (kend : Z) (Hkend : KERNLINK ≤ kend).

(** Nothing is mapped in between. *)
Lemma unmap_skip s own pg a b hi :
  vinv kend s own → own !! pg = Some Dir → a ≤ b →
  (∀ va, is_va va → is_user va → a ≤ va < b → va < hi → present (pte s pg va) = false) → unmap pg a hi own = unmap pg b hi own.
Proof.
  intros HI Hd Hab Hnp. apply map_eq. intros x. rewrite !unmap_lookup. destruct (own !! x) as [[| |tp ti|p0 va|]|] eqn:Hx; cbn; try done.
  do 2 f_equal. destruct (vi_frame _ _ _ HI _ _ _ Hx) as (_ & Hva & Hu & Hpr & _).
  destruct (decide (p0 = pg ∧ a ≤ va < hi)) as [[? Hr]|Hn], (decide (p0 = pg ∧ b ≤ va < hi)) as [[? Hr']|Hn']; try done; [|lia].
  subst. rewrite Hnp in Hpr; [done|done|done|lia|lia].
Qed.

(** Freeing the frame of [va] and clearing its entry. *)
Lemma wp_unmap_page s own pg va t Q :
  vinv kend s own → own !! t = Some (Tab pg (pdx va)) → is_va va → is_user va → present (pte s pg va) = true →
  (∀ f s', own !! f = Some (Frame pg va) → vinv kend s' (<[f := Free]> own) →
     (∀ x r, own !! x = Some r → data_role r → x ≠ f → pages s' !! x = pages s !! x) →
     (∀ pg' va', own !! pg' = Some Dir → is_va va' → pte s' pg' va' = if decide (pg' = pg ∧ va' = va) then 0 else pte s pg' va') →
     Q tt s') →
  wp (panic_unless (negb (PTE_ADDR (pte s pg va) =? 0)) "kfree";;
      kfree kend (P2V (PTE_ADDR (pte s pg va)));; store (t + 4 * Z.of_nat (ptx va)) 0) Q s.
Proof.
  intros HI Ht Hva Hu Hpr HQ. destruct (vi_tab _ _ _ HI t pg _ Ht) as (Hd & _ & _).
  destruct (vi_pte _ _ _ HI pg va Hd Hva Hu Hpr) as [f Hf]. destruct (vi_frame _ _ _ HI f pg va Hf) as (_ & _ & _ & _ & Ha).
  pose proof (vi_page _ _ _ HI f _ Hf) as Hfo. destruct (page_V2P kend s f Hfo) as (H1 & H2 & H3 & H4). rewrite Ha, H3.
  destruct (vi_free _ _ _ HI) as (fl & HK & Hfl). assert (f ∉ fl) as Hnf by (rewrite Hfl, Hf; done).
  apply wp_bind, wp_panic_unless.
  { rewrite (proj2 (Z.eqb_neq _ 0)); [done|]. destruct Hfo as (_ & Hke & Hr & _). rewrite V2P_small by done.
    unfold KERNLINK, EXTMEM in Hkend. lia. }
  apply wp_bind, (wp_kfree kend s fl); [done|done|done|]. intros s1 HK1 Ho1.
  pose proof (vi_page _ _ _ HI _ _ Ht) as (Hal & _ & _ & Hpt). pose proof (ptx_lt va) as Hj. assert (t ≠ f) as Htf by (intros ->; congruence).
  assert (has_page s1 t) as Hpt1 by (by apply (oo_has _ _ _ Ho1)). apply wp_store_word; [done|done|done|].
  pose proof (set_word_only s1 t (ptx va) 0 Hj) as Ho2.
  assert (∀ x j, x ≠ f → (j < 1024)%nat → word (set_word t (ptx va) 0 s1) x j = if decide (x = t ∧ j = ptx va) then 0 else word s x j) as Hw.
  { intros x j Hx Hjx. rewrite word_set_word by done. case_decide; [done|]. by apply (oo_word _ _ f x j Ho1). }
  set (s2 := set_word t (ptx va) 0 s1) in *.
  assert (∀ x, table_role (own !! x) → ∀ j, (j < 1024)%nat → word s2 x j = if decide (x = t ∧ j = ptx va) then 0 else word s x j) as Hw'.
  { intros x Hx j Hjx. apply Hw; [|done]. intros ->. by rewrite Hf in Hx. }
  assert (∀ x r, r ≠ Free → r ≠ Frame pg va → <[f := Free]> own !! x = Some r ↔ own !! x = Some r) as Hown.
  { intros x r Hr1 Hr2. destruct (decide (x = f)) as [->|Hne]; [rewrite lookup_insert_eq, Hf; naive_solver|by rewrite lookup_insert_ne]. }
  apply (HQ f); [done| | |by apply (pte_change kend s s2 own pg va t 0)].
  - apply (vinv_pte kend s s2 own _ pg va t 0); [done|done|done| | |done| |done|].
    + exists (f :: fl). split; [apply kinv_set_word; [done| |done]|].
      * intros [->|Hin]%elem_of_cons; [done|]. apply Hfl in Hin. congruence.
      * intros x. rewrite elem_of_cons, Hfl. destruct (decide (x = f)) as [->|Hne]; [rewrite lookup_insert_eq; naive_solver|rewrite lookup_insert_ne by done; naive_solver].
    + intros x r Hx. apply (page_ok_only kend s1 s2 t); [done|]. apply (page_ok_only kend s s1 f); [done|].
      apply lookup_insert_Some in Hx as [[<- _]|[_ Hx]]; by eapply vi_page.
    + intros x r ?? ?. by apply Hown.
    + intros f' [[<- [=]]|[Hne Hf']]%lookup_insert_Some. destruct Hne. by eapply frame_uniq.
  - intros x r Hx Hr Hne. rewrite (oo_pages _ _ _ Ho2), (oo_pages _ _ _ Ho1); [done|done|]. intros ->. rewrite Ht in Hx. by injection Hx as <-.
Qed.

Lemma unmap_step s own pg va f hi :
  vinv kend s own → own !! f = Some (Frame pg va) → va < hi →
  unmap pg (va + PGSIZE) hi (<[f := Free]> own) = unmap pg va hi own.
Proof.
  intros HI Hf Hhi. apply map_eq. intros x. rewrite !unmap_lookup. destruct (decide (x = f)) as [->|Hne].
  - rewrite lookup_insert_eq, Hf. cbn. rewrite decide_True by lia. done.
  - rewrite lookup_insert_ne by done. destruct (own !! x) as [[| |tp ti|p0 va0|]|] eqn:Hx; cbn; try done. do 2 f_equal.
    destruct (vi_frame _ _ _ HI _ _ _ Hx) as (_ & [_ Hal'] & _), (vi_frame _ _ _ HI _ _ _ Hf) as (_ & [_ Hal] & _).
    destruct (decide (p0 = pg ∧ va + PGSIZE ≤ va0 < hi)) as [[? Hr]|Hn], (decide (p0 = pg ∧ va ≤ va0 < hi)) as [[? Hr']|Hn']; try done.
    + unfold PGSIZE in *. lia.
    + subst. exfalso. apply Hn. split; [done|]. assert (va0 ≠ va) by (intros ->; apply Hne; by eapply frame_uniq).
      unfold PGSIZE in *. dlia.
Qed.

Lemma wp_dealloc_loop fuel : ∀ s own pg a hi Q,
  vinv kend s own → own !! pg = Some Dir → is_va a → hi ≤ KERNBASE → hi - a ≤ Z.of_nat fuel * PGSIZE →
  (∀ s', vinv kend s' (unmap pg a hi own) →
     (∀ x r, unmap pg a hi own !! x = Some r → data_role r → pages s' !! x = pages s !! x) →
     (∀ pg' va', own !! pg' = Some Dir → is_va va' → ¬ (pg' = pg ∧ a ≤ va' < hi) → pte s' pg' va' = pte s pg' va') →
     (∀ va', is_va va' → a ≤ va' < hi → present (pte s' pg va') = false) → Q tt s') →
  wp (dealloc_loop kend fuel pg a hi) Q s.
Proof.
  assert (∀ s own pg a hi (Q : unit → mem → Prop), vinv kend s own → own !! pg = Some Dir → hi ≤ a →
    (∀ s', vinv kend s' (unmap pg a hi own) →
     (∀ x r, unmap pg a hi own !! x = Some r → data_role r → pages s' !! x = pages s !! x) →
     (∀ pg' va', own !! pg' = Some Dir → is_va va' → ¬ (pg' = pg ∧ a ≤ va' < hi) → pte s' pg' va' = pte s pg' va') →
     (∀ va', is_va va' → a ≤ va' < hi → present (pte s' pg va') = false) → Q tt s') → Q tt s) as Hdone.
  { intros s own pg a hi Q HI Hd Hle HQ. assert (unmap pg a hi own = own) as He.
    { apply map_eq. intros x. rewrite unmap_lookup. destruct (own !! x) as [[]|]; cbn; try done. rewrite decide_False by lia. done. }
    rewrite He in HQ. apply (HQ s); [done|done|done|lia]. }
  induction fuel as [|fuel IH]; intros s own pg a hi Q HI Hd [Ha Hal] Hhi Hfuel HQ; cbn [dealloc_loop].
  { rewrite (proj2 (Z.ltb_ge a hi)) by lia. apply wp_ret. apply (Hdone s own pg a hi); [done|done|lia|done]. }
  destruct (Z.ltb_spec a hi) as [Hlt|Hge]; [|apply wp_ret; by apply (Hdone s own pg a hi)]. unfold KERNBASE, PGSIZE in *.
  apply wp_bind, (wp_walk_find kend s own); [done|done|done| |].
  - intros t Ht Ht0. destruct (vi_page _ _ _ HI _ _ Ht) as (Htal & _ & Hr & Hpt). pose proof (ptx_lt a) as Hj. unfold KERNBASE, PGSIZE in *.
    rewrite (proj2 (Z.eqb_neq _ 0)) by lia. apply wp_bind, wp_load; [done|done|done|]. rewrite <- (pte_tab kend s own pg a t HI Ht).
    rewrite (u32_small (a + 4096)) by lia. apply wp_bind. destruct (present (pte s pg a)) eqn:Hpr.
    + apply (wp_unmap_page s own); [done|done|by split|unfold is_user, KERNBASE; lia|done|]. intros f s1 Hf HI1 Hsd Hpte.
      assert (f ≠ pg) as Hfp by (intros ->; congruence). pose proof (unmap_step s own pg a f hi HI Hf Hlt) as Hst. unfold PGSIZE in Hst.
      apply (IH s1 (<[f := Free]> own)); [done|by rewrite lookup_insert_ne|split; [lia|unfold PGSIZE; dlia]|done|lia|].
      intros s2 HI2 Hsd2 Hsp2 Hnp2. rewrite Hst in HI2, Hsd2. apply HQ; [done| | |].
      * intros x r Hx Hdr. rewrite (Hsd2 x r) by done. rewrite unmap_lookup in Hx. destruct (own !! x) as [r0|] eqn:Hx0; [|done].
        apply (Hsd x r0); [done| |].
        -- cbn in Hx. destruct r0; cbn in Hx; try done; injection Hx as <-; done.
        -- intros ->. rewrite Hf in Hx0. injection Hx0 as <-. cbn in Hx. rewrite decide_True in Hx by lia. by injection Hx as <-.
      * intros pg' va' Hd' Hva' Hne. assert (f ≠ pg') by (intros ->; congruence). rewrite Hsp2; [|by rewrite lookup_insert_ne|done|lia].
        rewrite Hpte, decide_False; [done|lia|done|done].
      * intros va' Hva' Hr'. destruct (decide (va' = a)) as [->|Hne].
        -- rewrite Hsp2; [|by rewrite lookup_insert_ne|done|lia]. rewrite Hpte, decide_True by done. done.
        -- apply Hnp2; [done|]. destruct Hva' as [_ Hal']. unfold PGSIZE in Hal'. split; [dlia|lia].
    + apply wp_ret. assert (unmap pg a hi own = unmap pg (a + 4096) hi own) as He.
      { apply (unmap_skip s); [done|done|lia|]. intros va [_ Hal'] _ Hr' _. unfold PGSIZE in Hal'. replace va with a by dlia. done. }
      apply (IH s own); [done|done|split; [lia|unfold PGSIZE; dlia]|done|lia|]. rewrite <- He. intros s2 HI2 Hsd2 Hsp2 Hnp2.
      apply HQ; [done|done| |].
      * intros pg' va' Hd' Hva' Hne. apply Hsp2; [done|done|lia].
      * intros va' Hva' Hr'. destruct (decide (va' = a)) as [->|Hne]; [rewrite Hsp2 by (done || lia); done|].
        apply Hnp2; [done|]. destruct Hva' as [_ Hal']. unfold PGSIZE in Hal'. split; [dlia|lia].
  - intros Hn Hno. rewrite PGADDR_next by lia. set (b := (a / 2 ^ 22 + 1) * 2 ^ 22).
    assert (a < b ∧ b ≤ 2 ^ 31 ∧ b mod 4096 = 0) as (Hb1 & Hb2 & Hb3) by (unfold b; change (2 ^ 22) with 4194304; change (2 ^ 31) with 2147483648 in *; dlia).
    change (2 ^ 31) with 2147483648 in Hb2. rewrite (u32_small b), (u32_small (b - 4096)), (u32_small (b - 4096 + 4096)) by dlia.
    replace (b - 4096 + 4096) with b by lia.
    assert (∀ va, is_va va → a ≤ va < b → present (pte s pg va) = false) as Hnp.
    { intros va [Hva _] Hr. rewrite pte_none; [done|]. replace (pdx va) with (pdx a); [done|]. unfold pdx, b in *. f_equal.
      change (2 ^ 22) with 4194304 in *. dlia. }
    assert (unmap pg a hi own = unmap pg b hi own) as He by (apply (unmap_skip s); [done|done|lia|auto]).
    apply (IH s own); [done|done|split; [lia|done]|done|lia|]. rewrite <- He. intros s2 HI2 Hsd2 Hsp2 Hnp2. apply HQ; [done|done| |].
    + intros pg' va' Hd' Hva' Hne. apply Hsp2; [done|done|lia].
    + intros va' Hva' Hr'. destruct (decide (va' < b)); [rewrite Hsp2 by (done || lia); apply Hnp; [done|lia]|]. apply Hnp2; [done|lia].
Qed.

Lemma wp_deallocuvm s own pg hi lo Q :
  vinv kend s own → own !! pg = Some Dir → 0 ≤ lo < hi → hi ≤ KERNBASE →
  (∀ s', let a := PGROUNDUP lo in
     vinv kend s' (unmap pg a hi own) →
     (∀ x r, unmap pg a hi own !! x = Some r → data_role r → pages s' !! x = pages s !! x) →
     (∀ pg' va', own !! pg' = Some Dir → is_va va' → ¬ (pg' = pg ∧ a ≤ va' < hi) → pte s' pg' va' = pte s pg' va') →
     (∀ va', is_va va' → a ≤ va' < hi → present (pte s' pg va') = false) → Q (i32 lo) s') →
  wp (deallocuvm kend pg hi lo) Q s.
Proof.
  intros HI Hd Hlo Hhi HQ. unfold deallocuvm. rewrite (proj2 (Z.leb_gt _ _)) by lia. pose proof Hhi as Hhi'. unfold KERNBASE in Hhi'.
  assert (is_va (PGROUNDUP lo) ∧ lo ≤ PGROUNDUP lo) as [Hva Hge].
  { rewrite PGROUNDUP_eq by (unfold PGSIZE; lia). unfold is_va, PGSIZE. dlia. }
  apply wp_bind, (wp_dealloc_loop _ s own); [done|done|done|done|unfold PGSIZE; dlia|]. intros s' H1 H2 H3 H4. by apply wp_ret, HQ.
Qed.

(** ** Freeing a whole address space *)

Definition rel1 (pg : Z) (r : role) : role :=
  match r with Tab p _ | Frame p _ => if decide (p = pg) then Free else r | _ => r end.
(** The owners after everything of [pg] was freed. *)
Definition released (pg : Z) own : gmap Z role := <[pg := Free]> (rel1 pg <$> own).

(** While the tables are being freed nothing refers to [pg] any more; the tables
    before [j] are free, the others only held. *)
Definition aban1 (pg : Z) (j : nat) (r : role) : role :=
  match r with Tab p i => if decide (p = pg) then (if decide (i < j)%nat then Free else Held) else r | _ => r end.
Definition abandoned (pg : Z) (j : nat) own : gmap Z role := <[pg := Held]> (aban1 pg j <$> own).

Lemma abandoned_lookup pg j own x : x ≠ pg → abandoned pg j own !! x = aban1 pg j <$> own !! x.
Proof. intros. unfold abandoned. by rewrite lookup_insert_ne, lookup_fmap. Qed.

Lemma vinv_abandon s own pg :
  vinv kend s own → own !! pg = Some Dir → (∀ f va, own !! f ≠ Some (Frame pg va)) → vinv kend s (abandoned pg 0 own).
Proof.
  intros HI Hd Hno.
  assert (∀ x r, abandoned pg 0 own !! x = Some r → r ≠ Held → own !! x = Some r ∧ x ≠ pg ∧ ∀ i, r ≠ Tab pg i) as Hback.
  { intros x r Hx Hr. destruct (decide (x = pg)) as [->|Hne]; [unfold abandoned in Hx; rewrite lookup_insert_eq in Hx; congruence|].
    rewrite abandoned_lookup in Hx by done. destruct (own !! x) as [[| |pg0 i| |]|] eqn:E; cbn in Hx; [injection Hx as <-; done..| | | |done]; [|injection Hx as <-; done..].
    destruct (decide (pg0 = pg)); [rewrite decide_False in Hx by lia; congruence|]. injection Hx as <-. split_and!; [done|done|naive_solver]. }
  assert (∀ x r, own !! x = Some r → x ≠ pg → (∀ i, r ≠ Tab pg i) → abandoned pg 0 own !! x = Some r) as Hforw.
  { intros x r Hx Hne Hr. rewrite abandoned_lookup, Hx by done. cbn. destruct r; cbn; try done. rewrite decide_False; [done|]. intros ->. by apply (Hr i). }
  destruct (vi_free _ _ _ HI) as (fl & HK & Hfl). constructor.
  - exists fl. split; [done|]. intros x. rewrite Hfl. split; [intros Hx; apply Hforw; [done|intros ->; congruence|done]|].
    intros Hx. by apply (Hback x Free Hx).
  - intros x r Hx. destruct (own !! x) as [r0|] eqn:E; [by eapply vi_page|]. destruct (decide (x = pg)) as [->|Hne]; [congruence|].
    rewrite abandoned_lookup, E in Hx by done. done.
  - intros t pg' i Ht. destruct (Hback _ _ Ht ltac:(done)) as (Ht' & _ & Hnt). destruct (vi_tab _ _ _ HI t pg' i Ht') as (Hd' & Hi & He).
    split; [|done]. apply Hforw; [done| |done]. intros ->. by apply (Hnt i).
  - intros pg' i Hd' Hi Hpr. destruct (Hback _ _ Hd' ltac:(done)) as (Hd0 & Hne & _). destruct (vi_dir _ _ _ HI pg' i Hd0 Hi Hpr) as [t Ht].
    exists t. apply Hforw; [done| |naive_solver]. intros ->. congruence.
  - intros f pg' va Hf. destruct (Hback _ _ Hf ltac:(done)) as (Hf' & _ & _). destruct (vi_frame _ _ _ HI f pg' va Hf') as (Hd' & Hrest).
    split; [|done]. apply Hforw; [done| |done]. intros ->. by apply (Hno f va).
  - intros pg' va Hd' Hva Hu Hpr. destruct (Hback _ _ Hd' ltac:(done)) as (Hd0 & Hne & _). destruct (vi_pte _ _ _ HI pg' va Hd0 Hva Hu Hpr) as [f Hf].
    exists f. apply Hforw; [done| |done]. intros ->. congruence.
Qed.

(** The state while the tables are freed: the directory still has its words. *)
Record freeing s own (pg : Z) (j : nat) s' : Prop := {
  fr_inv : vinv kend s' (abandoned pg j own);
  fr_dir i : (i < 1024)%nat → word s' pg i = word s pg i;
  fr_data x r : own !! x = Some r → data_role r → pages s' !! x = pages s !! x;
  fr_ptes pg' va : pg' ≠ pg → own !! pg' = Some Dir → is_va va → pte s' pg' va = pte s pg' va
}.

Lemma wp_free_table s own pg j s1 Q :
  vinv kend s own → own !! pg = Some Dir → (j < 1024)%nat → freeing s own pg j s1 →
  (∀ s2, freeing s own pg (S j) s2 → Q None s2) →
  wp (pde ← load (pg + 4 * Z.of_nat j); (if present pde then kfree kend (P2V (PTE_ADDR pde)) else mret tt);; mret (None : option unit)) Q s1.
Proof.
  intros HI Hd Hj [F1 F2 F3 F4] HQ. pose proof (vi_page _ _ _ HI _ _ Hd) as (Hal & _). assert (abandoned pg j own !! pg = Some Held) as Hh by apply lookup_insert_eq.
  destruct (vi_page _ _ _ F1 _ _ Hh) as (_ & _ & _ & Hp). apply wp_bind, wp_load; [done|done|done|]. rewrite F2 by done.
  destruct (dir_case kend s own pg j HI Hd Hj) as [[-> Hno]|(t & Ht & -> & ->)].
  - apply wp_bind, wp_ret, wp_ret, HQ. constructor; [|done..]. replace (abandoned pg (S j) own) with (abandoned pg j own); [done|].
    apply map_eq. intros x. destruct (decide (x = pg)) as [->|Hne]; [unfold abandoned; by rewrite !lookup_insert_eq|].
    rewrite !abandoned_lookup by done. destruct (own !! x) as [[| |p i| |]|] eqn:E; try done. cbn. destruct (decide (p = pg)) as [->|]; [|done].
    assert (i ≠ j) by (intros ->; by apply (Hno x)). do 2 f_equal. repeat case_decide; try done; lia.
  - assert (t ≠ pg) as Htp by (intros ->; congruence).
    assert (abandoned pg j own !! t = Some Held) as Hth by (rewrite abandoned_lookup, Ht by done; cbn; rewrite decide_True, decide_False by (done || lia); done).
    apply wp_bind, (wp_kfree_own kend s1 (abandoned pg j own)); [done|done|]. intros s2 HI2 Ho. apply wp_ret, HQ. constructor.
    + replace (abandoned pg (S j) own) with (<[t := Free]> (abandoned pg j own)); [done|]. apply map_eq. intros x.
      destruct (decide (x = t)) as [->|Hxt].
      { rewrite lookup_insert_eq, abandoned_lookup, Ht by done. cbn. by rewrite !decide_True by lia. }
      rewrite lookup_insert_ne by done. destruct (decide (x = pg)) as [->|Hne]; [unfold abandoned; by rewrite !lookup_insert_eq|].
      rewrite !abandoned_lookup by done. destruct (own !! x) as [[| |p i| |]|] eqn:E; try done. cbn. destruct (decide (p = pg)) as [->|]; [|done].
      assert (i ≠ j) by (intros ->; apply Hxt; exact (tab_uniq kend s own x t pg j HI E Ht)). do 2 f_equal. repeat case_decide; try done; lia.
    + intros i Hi. rewrite (oo_word _ _ t pg i Ho) by done. by apply F2.
    + intros x r Hx Hr. rewrite (oo_pages _ _ _ Ho); [by eapply F3|]. intros ->. rewrite Ht in Hx. by injection Hx as <-.
    + intros pg' va Hne Hd' Hva. rewrite <- F4 by done.
      assert (abandoned pg j own !! pg' = Some Dir) as Hd1 by (rewrite abandoned_lookup, Hd' by done; done).
      apply (pte_same kend s1 s2 (abandoned pg j own)); [done|done|apply Hva| |].
      * apply (oo_word _ _ t _ _ Ho). intros ->. congruence.
      * intros t' Ht'. apply (oo_word _ _ t _ _ Ho). intros ->. congruence.
Qed.

Lemma wp_free_tables s own pg Q :
  vinv kend s own → own !! pg = Some Dir → (∀ f va, own !! f ≠ Some (Frame pg va)) →
  (∀ s', freeing s own pg 1024 s' → Q tt s') → wp (free_tables kend pg) Q s.
Proof.
  intros HI Hd Hno HQ. apply wp_bind. apply (wp_for _ _ _ (λ j s', freeing s own pg j s')).
  - constructor; [by apply vinv_abandon|done|done|done].
  - intros j s1 Hj HF. apply (wp_free_table s own pg j s1); [done|done|unfold NPDENTRIES in Hj; lia|done|done].
  - intros s1 HF. by apply wp_ret, HQ.
Qed.

Lemma wp_freevm s own pg Q :
  vinv kend s own → own !! pg = Some Dir →
  (∀ s', vinv kend s' (released pg own) →
     (∀ x r, released pg own !! x = Some r → data_role r → pages s' !! x = pages s !! x) →
     (∀ pg' va, pg' ≠ pg → own !! pg' = Some Dir → is_va va → pte s' pg' va = pte s pg' va) → Q tt s') →
  wp (freevm kend pg) Q s.
Proof.
  intros HI Hd HQ. destruct (page_V2P kend s pg (vi_page _ _ _ HI _ _ Hd)) as (_ & _ & _ & Hpg0).
  apply wp_bind, wp_panic_unless; [by rewrite (proj2 (Z.eqb_neq _ _))|].
  apply wp_bind, (wp_deallocuvm s own); [done|done|unfold KERNBASE; lia|done|]. change (PGROUNDUP 0) with 0. cbv zeta.
  intros s1 HI1 Hsd1 Hsp1 _. set (own1 := unmap pg 0 KERNBASE own) in *.
  assert (own1 !! pg = Some Dir) as Hd1 by (by apply unmap_dir).
  assert (∀ f va, own1 !! f ≠ Some (Frame pg va)) as Hno.
  { intros f va Hf. destruct (vi_frame _ _ _ HI1 f pg va Hf) as (_ & _ & Hu & _). unfold own1 in Hf. rewrite unmap_lookup in Hf.
    destruct (own !! f) as [[]|]; cbn in Hf; try done. case_decide as Hc; [done|]. injection Hf as -> ->. apply Hc. by split. }
  apply wp_bind, (wp_free_tables s1 own1); [done|done|done|]. intros s2 [F1 F2 F3 F4].
  apply (wp_kfree_own kend s2 (abandoned pg 1024 own1)); [done|apply lookup_insert_eq|]. intros s3 HI3 Ho3.
  assert (<[pg := Free]> (abandoned pg 1024 own1) = released pg own) as He.
  { unfold abandoned, released. rewrite insert_insert_eq. f_equal. apply map_eq. intros x. rewrite !lookup_fmap. unfold own1. rewrite unmap_lookup.
    destruct (own !! x) as [[| |p i|p va|]|] eqn:E; cbn; try done.
    - destruct (vi_tab _ _ _ HI _ _ _ E) as (_ & Hi & _). by rewrite (decide_True (P := (i < 1024)%nat)).
    - destruct (vi_frame _ _ _ HI _ _ _ E) as (_ & _ & Hu & _). unfold is_user in Hu.
      destruct (decide (p = pg)) as [->|Hne]; [by rewrite decide_True by (split; [done|lia])|]. rewrite decide_False by naive_solver. done. }
  rewrite He in HI3. apply HQ; [done| |].
  - intros x r Hx Hr. unfold released in Hx. apply lookup_insert_Some in Hx as [[_ <-]|[Hne Hx]]; [done|]. rewrite lookup_fmap in Hx.
    rewrite (oo_pages _ _ _ Ho3) by done. destruct (own !! x) as [r0|] eqn:E; [|done]. cbn in Hx. injection Hx as Hx.
    assert (own1 !! x = Some r ∧ r = r0) as [E1 ->].
    { unfold own1. rewrite unmap_lookup, E. cbn. destruct r0; cbn in Hx |- *; try (subst; done).
      - case_decide; subst; done.
      - destruct (decide (pg0 = pg)); [subst; done|]. rewrite decide_False by naive_solver. subst. done. }
    rewrite (F3 x r0) by done. by apply (Hsd1 x r0).
  - intros pg' va Hne Hd' Hva. assert (own1 !! pg' = Some Dir) as Hd1' by (by apply unmap_dir).
    assert (abandoned pg 1024 own1 !! pg' = Some Dir) as Hda by (rewrite abandoned_lookup, Hd1' by done; done).
    rewrite (pte_same kend s2 s3 (abandoned pg 1024 own1)); [|done|done|apply Hva|by apply (oo_word _ _ pg _ _ Ho3)|].
    + rewrite F4, Hsp1 by (done || naive_solver). done.
    + intros t Ht. apply (oo_word _ _ pg _ _ Ho3). intros ->. unfold abandoned in Ht. by rewrite lookup_insert_eq in Ht.
Qed.
End free.
