(* ===== verification/VmGrow.v ===== *)
(** * Growing an address space page by page (allocuvm of vm.c) *)

From S2P Require Import Prelude Bytes Kalloc Vm VmInv VmSteps VmMap VmFree.

Implicit Types (s : mem) (own : gmap Z role).

Definition zeros : list Z := replicate 4096 0.
Lemma zeros_page : length zeros = 4096%nat ∧ bytes zeros.
Proof. split; [apply length_replicate|]. apply Forall_replicate. unfold byte. lia. Qed.
Lemma zeros_eq : zeros = replicate 4096 0.
Proof. done. Qed.
#[global] Opaque zeros.

Section grow.
Context (kend : Z) (Hkend : KERNLINK ≤ kend).

(** From [s0] the address space [pg] got new pages for [lo, hi): the page of
    [va] has the contents [fst (g va)] and the flags [snd (g va)]. *)
Record grown (g : Z → list Z * Z) (s0 : mem) (own0 : gmap Z role) (pg lo hi : Z) (s : mem) (own : gmap Z role) : Prop := {
  gr_inv : vinv kend s own;
  gr_own x : own !! x = own0 !! x ∨
    (own0 !! x = Some Free ∧ ((∃ i, own !! x = Some (Tab pg i)) ∨ ∃ va, own !! x = Some (Frame pg va) ∧ lo ≤ va < hi));
  gr_data : same_data s0 own0 s;
  gr_ptes pg' va : own0 !! pg' = Some Dir → is_va va → ¬ (pg' = pg ∧ lo ≤ va < hi) → pte s pg' va = pte s0 pg' va;
  gr_new va : is_va va → lo ≤ va < hi →
    ∃ f, own !! f = Some (Frame pg va) ∧ pages s !! f = Some (fst (g va)) ∧ pte s pg va = entry (V2P f) (Z.lor (snd (g va)) 1)
}.

Lemma grown_refl g s own pg lo : vinv kend s own → grown g s own pg lo lo s own.
Proof. intros HI. constructor; [done|by left|done|done|lia]. Qed.

Lemma grown_keep g s0 own0 pg lo hi s own x r : grown g s0 own0 pg lo hi s own → own0 !! x = Some r → r ≠ Free → own !! x = Some r.
Proof. intros G Hx Hr. destruct (gr_own _ _ _ _ _ _ _ _ G x) as [->|[HF _]]; congruence. Qed.
Lemma grown_free g s0 own0 pg lo hi s own x : grown g s0 own0 pg lo hi s own → own !! x = Some Free → own0 !! x = Some Free.
Proof.
  intros G Hx. destruct (gr_own _ _ _ _ _ _ _ _ G x) as [<-|[HF _]]; done.
Qed.

(** One more page: [m] was allocated, filled and mapped. *)
Lemma grown_step g s0 own0 pg lo a s own m s2 s3 own3 :
  grown g s0 own0 pg lo a s own → own0 !! pg = Some Dir → is_va a → lo ≤ a → own !! m = Some Free →
  (∀ x, x ≠ m → pages s2 !! x = pages s !! x) → pages s2 !! m = Some (fst (g a)) →
  same_ptes s own s2 → vinv kend s3 own3 →
  grows pg (<[m := Frame pg a]> (<[m := Held]> own)) own3 → same_data s2 (<[m := Held]> own) s3 →
  (∀ pg' va', <[m := Held]> own !! pg' = Some Dir → is_va va' →
     pte s3 pg' va' = if decide (pg' = pg ∧ va' = a) then entry (V2P m) (Z.lor (snd (g a)) 1) else pte s2 pg' va') →
  grown g s0 own0 pg lo (a + PGSIZE) s3 own3.
Proof.
  intros G Hd Ha Hlo Hm Hp2 Hm2 Hsp HI3 Hg Hsd Hpte. pose proof G as [G1 G2 G3 G4 G5]. rewrite insert_insert_eq in Hg.
  assert (own0 !! m = Some Free) as Hm0 by (by eapply grown_free).
  assert (∀ x r, own0 !! x = Some r → r ≠ Free → <[m := Held]> own !! x = Some r ∧ own !! x = Some r) as Hk.
  { intros x r Hx Hr. assert (x ≠ m) by (intros ->; congruence). rewrite lookup_insert_ne by done. split; by eapply grown_keep. }
  assert (∀ va, is_va va → lo ≤ va < a + PGSIZE → va ≠ a → lo ≤ va < a) as Hlt.
  { intros va [_ Hal] Hr Hne. destruct Ha as [_ Hal']. unfold PGSIZE in *. dlia. }
  constructor; [done|..].
  - intros x. destruct (decide (x = m)) as [->|Hne].
    + right. split; [done|]. destruct (Hg m) as [E|[E _]]; rewrite lookup_insert_eq in E; [|done]. right. exists a. unfold PGSIZE. split; [done|lia].
    + destruct (Hg x) as [E|[E (i & Ei)]]; rewrite lookup_insert_ne in E by done.
      * rewrite E. destruct (G2 x) as [->|[HF [Hi|(va & Hva & Hr)]]]; [by left|right; by eauto|right]. split; [done|]. right. exists va. unfold PGSIZE. split; [done|lia].
      * right. split; [by eapply grown_free|]. left. by exists i.
  - intros x r Hx Hr. assert (r ≠ Free) as Hrf by (by intros ->). destruct (Hk x r Hx Hrf) as [H1 H2].
    rewrite (Hsd x r), Hp2; [by apply (G3 x r)| |done|done]. intros ->. congruence.
  - intros pg' va Hd' Hva Hn. destruct (Hk pg' Dir Hd' ltac:(done)) as [H1 H2]. rewrite Hpte, decide_False; [| |done|done].
    + rewrite Hsp by done. apply G4; [done|done|]. intros [-> Hr]. apply Hn. unfold PGSIZE. split; [done|lia].
    + intros [-> ->]. apply Hn. unfold PGSIZE. split; [done|lia].
  - intros va Hva Hr. destruct (Hk pg Dir Hd ltac:(done)) as [H1 H2]. destruct (decide (va = a)) as [->|Hne].
    + exists m. rewrite Hpte, decide_True by done. split_and!; [|by rewrite (Hsd m Held) by (rewrite ?lookup_insert_eq; done)|done].
      destruct (Hg m) as [E|[E _]]; rewrite lookup_insert_eq in E; done.
    + destruct (G5 va Hva (Hlt va Hva Hr Hne)) as (f & Hf & Hpf & Hpt). assert (f ≠ m) as Hfm by (intros ->; congruence). exists f. split_and!.
      * eapply grows_keeps; [done|by rewrite lookup_insert_ne|done].
      * rewrite (Hsd f (Frame pg va)), Hp2 by (rewrite ?lookup_insert_ne; done). done.
      * rewrite Hpte, decide_False, Hsp by (done || naive_solver). done.
Qed.

(** Taking the new pages away again leaves only new tables. *)
Lemma grown_undone g s0 own0 pg lo hi s own hi' :
  vinv kend s0 own0 → own0 !! pg = Some Dir → grown g s0 own0 pg lo hi s own → hi ≤ hi' →
  (∀ va, is_va va → is_user va → lo ≤ va < hi' → present (pte s0 pg va) = false) → grows pg own0 (unmap pg lo hi' own).
Proof.
  intros HI Hd G Hle Hnp x. rewrite unmap_lookup. destruct (gr_own _ _ _ _ _ _ _ _ G x) as [E|[HF [(i & E)|(va & E & Hr)]]]; rewrite E.
  - left. destruct (own0 !! x) as [[| | |p va|]|] eqn:E0; cbn; try done. rewrite decide_False; [done|]. intros [-> Hr].
    destruct (vi_frame _ _ _ HI x pg va E0) as (_ & Hva & Hu & Hpr & _). rewrite Hnp in Hpr by done. done.
  - right. split; [done|]. by exists i.
  - left. cbn. rewrite decide_True by (split; [done|lia]). done.
Qed.

(** A held page gets new contents. *)
Lemma wp_fill s own m p Q :
  vinv kend s own → own !! m = Some Held → length p = 4096%nat → bytes p →
  (∀ s', vinv kend s' own → (∀ x, x ≠ m → pages s' !! x = pages s !! x) → pages s' !! m = Some p → same_ptes s own s' → Q tt s') →
  wp (upd_page m (λ _, p)) Q s.
Proof.
  intros HI Hm Hl Hb HQ. destruct (vi_page _ _ _ HI m Held Hm) as (_ & _ & _ & q & Hq & _). apply wp_upd_page with q; [done|].
  change (Q tt (set_page m p s)). pose proof (set_page_only s m p Hl Hb) as Ho. apply HQ; [by apply vinv_fill|apply Ho|by apply lookup_insert_eq|].
  intros pg va Hd Hva. apply (pte_same kend s _ own); [done|done|apply Hva| |].
  - apply (oo_word _ _ m _ _ Ho). intros ->. congruence.
  - intros t Ht. apply (oo_word _ _ m _ _ Ho). intros ->. congruence.
Qed.
Lemma wp_zero s own m Q :
  vinv kend s own → own !! m = Some Held →
  (∀ s', vinv kend s' own → (∀ x, x ≠ m → pages s' !! x = pages s !! x) → pages s' !! m = Some zeros → same_ptes s own s' → Q tt s') →
  wp (memset_page m 0) Q s.
Proof. intros HI Hm HQ. destruct zeros_page as [Hl Hb]. unfold memset_page. rewrite <- zeros_eq. by apply (wp_fill s own). Qed.

Lemma same_ptes_pages s s1 own : vinv kend s own → pages s1 = pages s → same_ptes s own s1.
Proof. intros _ Hp pg va _ _. unfold pte, word. by rewrite Hp. Qed.

(** ** allocuvm *)

(** It ran out of memory: new tables at most, no new page. *)
Record undone (s0 : mem) (own0 : gmap Z role) (pg lo hi : Z) s own : Prop := {
  un_inv : vinv kend s own;
  un_own : grows pg own0 own;
  un_data : same_data s0 own0 s;
  un_ptes pg' va : own0 !! pg' = Some Dir → is_va va → ¬ (pg' = pg ∧ lo ≤ va < hi) → pte s pg' va = pte s0 pg' va;
  un_gone va : is_va va → lo ≤ va < hi → present (pte s pg va) = false
}.

Section alloc.
Context (s0 : mem) (own0 : gmap Z role) (pg oldsz newsz : Z).
Abbreviation lo := (PGROUNDUP oldsz).
Abbreviation zg := (λ _ : Z, (zeros, 6)).
Hypotheses (HI0 : vinv kend s0 own0) (Hd0 : own0 !! pg = Some Dir) (Hsz : 0 ≤ oldsz ≤ newsz) (Hnew : newsz < KERNBASE).
Hypothesis (Hnp : ∀ va, is_va va → is_user va → lo ≤ va < newsz → present (pte s0 pg va) = false).

Lemma lo_va : is_va lo ∧ oldsz ≤ lo < oldsz + PGSIZE.
Proof using Hsz Hnew. clear HI0 Hd0 Hnp. unfold KERNBASE in Hnew. rewrite PGROUNDUP_eq by (unfold PGSIZE; lia). unfold is_va, PGSIZE. dlia. Qed.

(** What is left when a step of the loop fails in a state [s1] that grew. *)
Lemma wp_alloc_fail s1 own1 hi (K : M mem bool) (Q : bool → mem → Prop) :
  grown zg s0 own0 pg lo hi s1 own1 → oldsz < newsz → hi ≤ newsz →
  (∀ s2, undone s0 own0 pg lo newsz s2 (unmap pg lo newsz own1) → wp K Q s2) →
  wp (deallocuvm kend pg newsz oldsz;; K) Q s1.
Proof using All.
  intros G Hlt Hle HQ. assert (own1 !! pg = Some Dir) as Hd1 by (by eapply grown_keep).
  apply wp_bind, (wp_deallocuvm kend Hkend s1 own1); [apply G|done|lia|lia|]. cbv zeta. intros s2 HI2 Hsd Hsp Hgone. apply HQ.
  pose proof (grown_undone zg s0 own0 pg lo hi s1 own1 newsz HI0 Hd0 G Hle Hnp) as Hg. constructor; [done|done| | |done].
  - intros x r Hx Hr. assert (unmap pg lo newsz own1 !! x = Some r) as Hu by (eapply grows_keeps; [done|done|by intros ->]).
    rewrite (Hsd x r Hu Hr). by apply (gr_data _ _ _ _ _ _ _ _ G x r).
  - intros pg' va Hd' Hva Hn. assert (own1 !! pg' = Some Dir) as Hd1' by (by eapply grown_keep).
    rewrite Hsp by done. apply (gr_ptes _ _ _ _ _ _ _ _ G); [done|done|]. intros [-> Hr]. apply Hn. split; [done|lia].
Qed.

(** The same with a page [m] in hand, which is given back. *)
Lemma wp_alloc_fail_held s1 own1 hi m s2 (Q : bool → mem → Prop) :
  grown zg s0 own0 pg lo hi s1 own1 → oldsz < newsz → hi ≤ newsz → own1 !! m = Some Free → vinv kend s2 (<[m := Held]> own1) →
  (∀ x, x ≠ m → pages s2 !! x = pages s1 !! x) → same_ptes s1 own1 s2 →
  (∀ s3, undone s0 own0 pg lo newsz s3 (unmap pg lo newsz own1) → Q false s3) →
  wp (deallocuvm kend pg newsz oldsz;; kfree kend m;; mret false) Q s2.
Proof using All.
  intros G Hlt Hle Hm HI2 Hpx Hsp1 HQ. assert (own1 !! pg = Some Dir) as Hd1 by (by eapply grown_keep). assert (m ≠ pg) as Hmp by (intros ->; congruence).
  apply wp_bind, (wp_deallocuvm kend Hkend s2 (<[m := Held]> own1)); [done|by rewrite lookup_insert_ne|lia|lia|]. cbv zeta. intros s3 HI3 Hsd Hsp Hgone.
  assert (unmap pg lo newsz (<[m := Held]> own1) = <[m := Held]> (unmap pg lo newsz own1)) as Hu by (unfold unmap; by rewrite fmap_insert).
  rewrite Hu in HI3, Hsd. apply wp_bind, (wp_kfree_own kend s3 (<[m := Held]> (unmap pg lo newsz own1))); [done|apply lookup_insert_eq|].
  intros s4 HI4 Ho. apply wp_ret, HQ. rewrite insert_insert_eq, insert_id in HI4 by (by rewrite unmap_lookup, Hm).
  pose proof (grown_undone zg s0 own0 pg lo hi s1 own1 newsz HI0 Hd0 G Hle Hnp) as Hg.
  assert (own0 !! m = Some Free) as Hm0 by (by eapply grown_free).
  assert (∀ pg' va, own1 !! pg' = Some Dir → is_va va → pte s4 pg' va = pte s3 pg' va) as Hsp4.
  { intros pg' va Hd' Hva. assert (pg' ≠ m) as Hne by (intros ->; congruence).
    apply (pte_same kend s3 s4 (<[m := Held]> (unmap pg lo newsz own1))); [done|rewrite lookup_insert_ne by done; by apply unmap_dir|apply Hva|by apply (oo_word _ _ m _ _ Ho)|].
    intros t Ht. apply (oo_word _ _ m _ _ Ho). intros ->. by rewrite lookup_insert_eq in Ht. }
  constructor; [done|done| | |].
  - intros x r Hx Hr. assert (x ≠ m) as Hxm by (intros ->; rewrite Hm0 in Hx; by injection Hx as <-). assert (r ≠ Free) as Hrf by (by intros ->).
    assert (unmap pg lo newsz own1 !! x = Some r) as Hux by (by eapply grows_keeps).
    rewrite (oo_pages _ _ _ Ho), (Hsd x r), Hpx by (rewrite ?lookup_insert_ne; done). by apply (gr_data _ _ _ _ _ _ _ _ G x r).
  - intros pg' va Hd' Hva Hn. assert (own1 !! pg' = Some Dir) as Hd1' by (by eapply grown_keep). assert (pg' ≠ m) as Hne by (intros ->; congruence).
    rewrite Hsp4, Hsp, Hsp1 by (rewrite ?lookup_insert_ne; done). apply (gr_ptes _ _ _ _ _ _ _ _ G); [done|done|]. intros [-> Hr]. apply Hn. split; [done|lia].
  - intros va Hva Hr. rewrite Hsp4 by done. by apply Hgone.
Qed.

Lemma wp_alloc_loop fuel : ∀ s own a Q,
  grown zg s0 own0 pg lo a s own → is_va a → lo ≤ a ≤ PGROUNDUP newsz → newsz - a ≤ Z.of_nat fuel * PGSIZE →
  (∀ s' own', grown zg s0 own0 pg lo (PGROUNDUP newsz) s' own' → Q true s') →
  (∀ s' own', undone s0 own0 pg lo newsz s' own' → Q false s') →
  wp (alloc_loop kend fuel pg a newsz oldsz) Q s.
Proof using All.
  assert (is_va (PGROUNDUP newsz) ∧ newsz ≤ PGROUNDUP newsz < newsz + PGSIZE) as [[Hn1 Hn2] Hn3].
  { pose proof Hnew as Hn. unfold KERNBASE in Hn. rewrite PGROUNDUP_eq by (unfold PGSIZE; lia). unfold is_va, PGSIZE. dlia. }
  induction fuel as [|fuel IH]; intros s own a Q G [Ha Hal] Hr Hfuel HQ HQF; cbn [alloc_loop];
    (destruct (Z.ltb_spec a newsz) as [Hlt|Hge]; [|apply wp_ret, (HQ s own); replace (PGROUNDUP newsz) with a by (unfold PGSIZE in *; dlia); done]).
  { lia. }
  pose proof lo_va as [_ Hlo]. assert (own !! pg = Some Dir) as Hd by (by eapply grown_keep). pose proof (gr_inv _ _ _ _ _ _ _ _ G) as HI.
  apply wp_bind, (wp_kalloc_own kend s own); [done|..].
  { intros _. change (0 =? 0) with true. cbv iota. apply (wp_alloc_fail s own a); [done|lia|lia|]. intros s2 HU. by apply wp_ret, (HQF s2 (unmap pg lo newsz own)). }
  intros m s1 Hm HI1 Hp1 Hm0. rewrite (proj2 (Z.eqb_neq m 0)) by done. assert (m ≠ pg) as Hmp by (intros ->; congruence).
  apply wp_bind, (wp_zero s1 (<[m := Held]> own)); [done|apply lookup_insert_eq|]. intros s2 HI2 Hpx Hpm Hsp2.
  assert (is_user a) as Hu by (unfold is_user; lia).
  assert (same_ptes s own s2) as Hsp.
  { intros pg' va Hd' Hva. assert (pg' ≠ m) by (intros ->; congruence). rewrite Hsp2 by (rewrite ?lookup_insert_ne; done). by apply (same_ptes_pages s s1 own). }
  assert (<[m := Held]> own !! pg = Some Dir) as Hd1 by (by rewrite lookup_insert_ne).
  assert (present (pte s2 pg a) = false) as Hnpa.
  { rewrite Hsp by done. rewrite (gr_ptes _ _ _ _ _ _ _ _ G) by (done || lia). apply Hnp; [done|done|lia]. }
  apply wp_bind, (wp_map_user kend s2 (<[m := Held]> own)); [done|done|done|done|apply lookup_insert_eq|done|done|..].
  - intros own3 s3 HI3 Hg3 Hsd3 Hpte3. change (0 <? 0) with false. cbv iota. unfold KERNBASE in Hnew. rewrite u32_small by (unfold PGSIZE; lia).
    apply (IH s3 own3); [|split; unfold PGSIZE in *; [lia|dlia]|unfold PGSIZE in *; dlia|lia|done|done].
    apply (grown_step zg s0 own0 pg lo a s own m s2 s3 own3); try done; [lia|]. intros x Hx. by rewrite Hpx, Hp1.
  - intros Hno. change (-1 <? 0) with true. cbv iota. apply (wp_alloc_fail_held s own a m s2); [done|lia|lia|done|done| |done|].
    + intros x Hx. by rewrite Hpx, Hp1.
    + intros s3 HU. by apply (HQF s3 (unmap pg lo newsz own)).
Qed.
End alloc.

(** allocuvm: the new pages are zero, private, writable by the user, and
    nothing else changes; without enough memory nothing is mapped. *)
Lemma wp_allocuvm s own pg oldsz newsz Q :
  vinv kend s own → own !! pg = Some Dir → 0 ≤ oldsz ≤ newsz → newsz < KERNBASE →
  (∀ va, is_va va → is_user va → PGROUNDUP oldsz ≤ va < newsz → present (pte s pg va) = false) →
  (∀ s' own', grown (λ _, (zeros, 6)) s own pg (PGROUNDUP oldsz) (PGROUNDUP newsz) s' own' → Q newsz s') →
  (∀ s' own', undone s own pg (PGROUNDUP oldsz) newsz s' own' → Q 0 s') →
  wp (allocuvm kend pg oldsz newsz) Q s.
Proof using Hkend.
  intros HI Hd Hsz Hnew Hnp HQ HQF. unfold allocuvm. rewrite (proj2 (Z.leb_gt _ _)), (proj2 (Z.ltb_ge _ _)) by lia.
  destruct (lo_va oldsz newsz Hsz Hnew) as [Hlo Hlo'].
  assert (PGROUNDUP oldsz ≤ PGROUNDUP newsz) as Hle.
  { pose proof Hnew as Hn. unfold KERNBASE in Hn. rewrite !PGROUNDUP_eq by (unfold PGSIZE; lia). unfold PGSIZE. dlia. }
  apply wp_bind, (wp_alloc_loop s own pg oldsz newsz HI Hd Hsz Hnew Hnp _ s own); [by apply grown_refl|done|lia|unfold PGSIZE in *; dlia|..].
  - intros s' own' G. apply wp_ret. rewrite i32_small by (unfold KERNBASE in Hnew; lia). by apply (HQ s' own').
  - intros s' own' HU. apply wp_ret. by apply (HQF s' own').
Qed.
End grow.
