(* ===== verification/VmCopy.v ===== *)
(** * New address spaces and their copies (setupkvm and copyuvm of vm.c) *)

From S2P Require Import Prelude Bytes Kalloc Vm VmInv VmSteps VmMap VmFree VmGrow.

Implicit Types (s : mem) (own : gmap Z role).

Section copy.
(** The linker script puts the kernel at KERNLINK and its data on a page
    boundary after the text. *)
Context (kend kdata : Z) (Hkend : KERNLINK ≤ kend).
Hypotheses (Hkdata : kdata mod PGSIZE = 0) (Hkrange : KERNLINK < kdata < KERNBASE + PHYSTOP).

(** ** An empty directory *)

Lemma vinv_new_dir s own d :
  vinv kend s own → own !! d = Some Held → (∀ i, (i < 1024)%nat → word s d i = 0) → vinv kend s (<[d := Dir]> own).
Proof using Type.
  clear Hkdata Hkrange Hkend. intros HI Hd Hz.
  assert (∀ x r, r ≠ Held → r ≠ Dir → <[d := Dir]> own !! x = Some r ↔ own !! x = Some r) as Ho.
  { intros x r Hr1 Hr2. destruct (decide (x = d)) as [->|Hne]; [rewrite lookup_insert_eq, Hd; naive_solver|by rewrite lookup_insert_ne]. }
  assert (∀ pg, own !! pg = Some Dir → pg ≠ d ∧ <[d := Dir]> own !! pg = Some Dir) as Hdir.
  { intros pg Hpg. assert (pg ≠ d) by (intros ->; congruence). by rewrite lookup_insert_ne. }
  destruct (vi_free _ _ _ HI) as (fl & HK & Hfl). constructor.
  - exists fl. split; [done|]. intros x. rewrite Hfl. symmetry. by apply Ho.
  - intros x r [[<- _]|[_ Hx]]%lookup_insert_Some; by eapply vi_page.
  - intros t pg i Ht%Ho; [|done..]. destruct (vi_tab _ _ _ HI t pg i Ht) as (Hpg & Hi & He). split; [by apply Hdir|done].
  - intros pg i [[<- _]|[Hne Hpg]]%lookup_insert_Some Hi Hpr; [by rewrite Hz in Hpr|].
    destruct (vi_dir _ _ _ HI pg i Hpg Hi Hpr) as [t Ht]. exists t. by apply Ho.
  - intros f pg va Hf%Ho; [|done..]. destruct (vi_frame _ _ _ HI f pg va Hf) as (Hpg & Hrest). split; [by apply Hdir|done].
  - intros pg va [[<- _]|[Hne Hpg]]%lookup_insert_Some Hva Hu Hpr.
    + unfold pte in Hpr. rewrite Hz in Hpr by (apply pdx_lt, Hva). done.
    + destruct (vi_pte _ _ _ HI pg va Hpg Hva Hu Hpr) as [f Hf]. exists f. by apply Ho.
Qed.

(** ** The kernel's part *)

(** Entries in ascending order from [lo], by whole pages. *)
Fixpoint kmap_ok (lo : Z) (ks : list (Z * Z * Z * Z)) : Prop :=
  match ks with
  | [] => True
  | (virt, ps, pe, perm) :: ks' =>
      let size := u32 (pe - ps) in
      lo ≤ virt ∧ virt mod PGSIZE = 0 ∧ ps mod PGSIZE = 0 ∧ 0 ≤ ps ∧ 0 < size ∧ size mod PGSIZE = 0 ∧
      virt + size ≤ 2 ^ 32 ∧ ps + size ≤ 2 ^ 32 ∧ 0 ≤ perm < PGSIZE ∧ kmap_ok (virt + size) ks'
  end.

Lemma kmap_sorted : kmap_ok KERNBASE (kmap kdata).
Proof using Hkdata Hkrange.
  unfold kmap, KERNLINK, EXTMEM in *. cbn [kmap_ok]. rewrite (V2P_small kdata), (V2P_small (KERNBASE + 0x100000)) by (unfold KERNBASE, PHYSTOP in *; lia).
  unfold KERNBASE, PHYSTOP, DEVSPACE, PGSIZE, PTE_W in *. rewrite !u32_small by lia. change (u32 (0 - 0xFE000000)) with 0x2000000. dlia.
Qed.

(** What the entries [ks] ask for is in the directory [d]. *)
Definition kmapped s (d : Z) (ks : list (Z * Z * Z * Z)) : Prop :=
  Forall (λ '(virt, ps, pe, perm), ∀ va, is_va va → virt ≤ va < virt + u32 (pe - ps) → pte s d va = entry (ps + (va - virt)) (Z.lor perm 1)) ks.

Lemma wp_mappages_kernel s own d virt size ps perm Q :
  vinv kend s own → own !! d = Some Dir → KERNBASE ≤ virt → virt mod PGSIZE = 0 → ps mod PGSIZE = 0 → 0 ≤ ps →
  0 < size → size mod PGSIZE = 0 → virt + size ≤ 2 ^ 32 → ps + size ≤ 2 ^ 32 → 0 ≤ perm < PGSIZE →
  (∀ va, is_va va → virt ≤ va → present (pte s d va) = false) →
  (∀ r own' s', vinv kend s' own' → grows d own own' → same_data s own s' →
     (∀ pg' va', own !! pg' = Some Dir → is_va va' → ¬ (pg' = d ∧ virt ≤ va' < virt + size) → pte s' pg' va' = pte s pg' va') →
     (r = 0 ∧ (∀ va', is_va va' → virt ≤ va' < virt + size → pte s' d va' = entry (ps + (va' - virt)) (Z.lor perm 1)) ∨ r = -1) → Q r s') →
  wp (mappages d virt size ps perm) Q s.
Proof using Type.
  clear Hkdata Hkrange Hkend. intros HI Hd Hk Hv Hp Hp0 Hs Hsa Hve Hpe Hperm Hnp HQ. unfold KERNBASE in Hk. unfold mappages. cbv zeta.
  assert (PGROUNDDOWN virt = virt) as -> by (rewrite page_round by lia; unfold page_of; lia).
  assert (PGROUNDDOWN (u32 (virt + size - 1)) = virt + (size - PGSIZE)) as ->.
  { rewrite u32_small, page_round by lia. unfold page_of, PGSIZE in *. dlia. }
  replace (u32 (virt + (size - PGSIZE) - virt)) with (size - PGSIZE) by (rewrite u32_small; unfold PGSIZE in *; [lia|dlia]).
  set (n := Z.to_nat ((size - PGSIZE) / PGSIZE)). assert (size - PGSIZE = Z.of_nat n * PGSIZE) as Hn by (unfold n, PGSIZE in *; dlia). clearbody n. rewrite Hn.
  assert (∀ va', is_va va' → in_range virt (Z.of_nat n) va' ↔ virt ≤ va' < virt + size) as Hin.
  { intros va' [_ Hal]. unfold in_range. rewrite <- Hn. unfold PGSIZE in *. dlia. }
  apply (wp_map_kernel kend n s own); [done|done|split; [lia|done]|unfold KERNBASE; lia|unfold PGSIZE in *; lia|done|done|unfold PGSIZE in *; lia|done| |].
  - intros va Hva [? _]. by apply Hnp.
  - intros r own' s' HI' Hg Hsd Hsp Hr. apply (HQ r own'); [done|done|done| |].
    + intros pg' va' Hd' Hva' Hne. apply Hsp; [done|done|]. by rewrite Hin.
    + destruct Hr as [[-> Hr]|[-> _]]; [left|by right]. split; [done|]. intros va' Hva' Hr'. apply Hr; [done|]. by apply Hin.
Qed.

(** A directory that is given up again: the owners are as before it. *)
Lemma released_back s own d own' :
  vinv kend s own → own !! d = Some Free → grows d (<[d := Dir]> own) own' → released d own' = own.
Proof using Type.
  clear Hkdata Hkrange Hkend. intros HI Hd Hg. assert (∀ x r, own !! x = Some r → rel1 d r = r) as Hrel.
  { intros x [] Hx; cbn; try done; rewrite decide_False; try done; intros ->.
    - destruct (vi_tab _ _ _ HI _ _ _ Hx) as [? _]. congruence.
    - destruct (vi_frame _ _ _ HI _ _ _ Hx) as [? _]. congruence. }
  apply map_eq. intros x. unfold released. destruct (decide (x = d)) as [->|Hne]; [by rewrite lookup_insert_eq|].
  rewrite lookup_insert_ne, lookup_fmap by done. destruct (Hg x) as [E|[E (i & E')]]; rewrite lookup_insert_ne in E by done.
  - rewrite E. destruct (own !! x) as [r|] eqn:Ex; [|done]. cbn. by rewrite (Hrel x r).
  - rewrite E', E. cbn. by rewrite decide_True.
Qed.

(** The state of memory is as before, for everybody else. *)
Record restored (s : mem) (own : gmap Z role) s' : Prop := {
  rs_inv : vinv kend s' own;
  rs_data : same_data s own s';
  rs_ptes : same_ptes s own s'
}.

(** A new directory [d] with the kernel's mappings and no user page. *)
Record fresh_space (s : mem) (own : gmap Z role) (d : Z) s' own' : Prop := {
  fs_inv : vinv kend s' own';
  fs_free : own !! d = Some Free;
  fs_own : grows d (<[d := Dir]> own) own';
  fs_data : same_data s own s';
  fs_ptes : same_ptes s own s';
  fs_user va : is_va va → is_user va → pte s' d va = 0;
  fs_kernel : kmapped s' d (kmap kdata)
}.

Lemma wp_free_fresh s own d s' own' (Q : Z → mem → Prop) :
  vinv kend s own → own !! d = Some Free → vinv kend s' own' → own' !! d = Some Dir → released d own' = own →
  same_data s own s' → same_ptes s own s' → (∀ s2, restored s own s2 → Q 0 s2) → wp (freevm kend d;; mret 0) Q s'.
Proof using Hkend.
  clear Hkdata Hkrange. intros HI Hd HI' Hd' Hrel Hsd Hsp HQ. apply wp_bind, (wp_freevm kend Hkend s' own'); [done|done|]. rewrite Hrel. intros s2 HI2 Hsd2 Hsp2.
  apply wp_ret, HQ. constructor; [done| |].
  - intros x r Hx Hr. rewrite (Hsd2 x r) by done. by apply (Hsd x r).
  - intros pg' va Hpg Hva. assert (pg' ≠ d) as Hne by (intros ->; congruence). rewrite Hsp2; [by apply Hsp|done| |done].
    destruct (own' !! pg') as [r|] eqn:E.
    + rewrite <- Hrel in Hpg. unfold released in Hpg. rewrite lookup_insert_ne, lookup_fmap, E in Hpg by done. cbn in Hpg.
      destruct r; cbn in Hpg; try done; case_decide; done.
    + rewrite <- Hrel in Hpg. unfold released in Hpg. rewrite lookup_insert_ne, lookup_fmap, E in Hpg by done. done.
Qed.

Lemma same_data_trans s s1 s2 own own1 :
  same_data s own s1 → (∀ x r, own !! x = Some r → data_role r → own1 !! x = Some r) → same_data s1 own1 s2 → same_data s own s2.
Proof using Type. intros H1 Hk H2 x r Hx Hr. rewrite (H2 x r) by auto. by apply (H1 x r). Qed.

Lemma wp_kmap_loop ks : ∀ s own d s1 own1 lo done_ Q,
  vinv kend s own → own !! d = Some Free → vinv kend s1 own1 → grows d (<[d := Dir]> own) own1 →
  same_data s own s1 → same_ptes s own s1 → kmap_ok lo ks → KERNBASE ≤ lo →
  (∀ va, is_va va → is_user va → pte s1 d va = 0) → (∀ va, is_va va → lo ≤ va → present (pte s1 d va) = false) →
  kmapped s1 d done_ → Forall (λ '(virt, ps, pe, perm), virt + u32 (pe - ps) ≤ lo) done_ →
  (∀ s' own', vinv kend s' own' → grows d (<[d := Dir]> own) own' → same_data s own s' → same_ptes s own s' →
     (∀ va, is_va va → is_user va → pte s' d va = 0) → kmapped s' d (done_ ++ ks) → Q d s') →
  (∀ s', restored s own s' → Q 0 s') →
  wp (kmap_loop kend ks d) Q s1.
Proof using Hkend.
  clear Hkdata Hkrange. induction ks as [|[[[virt ps] pe] perm] ks IH]; intros s own d s1 own1 lo done_ Q HI Hf HI1 Hg Hsd Hsp Hok Hlo Hu Hnp Hkm Hdn HQ HQ0; cbn [kmap_loop].
  { apply wp_ret, (HQ s1 own1); try done. by rewrite app_nil_r. }
  destruct Hok as (H1 & H2 & H3 & H4 & H5 & H6 & H7 & H8 & H9 & Hok). remember (u32 (pe - ps)) as size eqn:Hsize.
  assert (own1 !! d = Some Dir) as Hd1 by (eapply grows_keeps; [done|apply lookup_insert_eq|done]).
  assert (∀ pg, own !! pg = Some Dir → pg ≠ d ∧ own1 !! pg = Some Dir) as Hdir.
  { intros pg Hpg. assert (pg ≠ d) by (intros ->; congruence). split; [done|]. eapply grows_keeps; [done|by rewrite lookup_insert_ne|done]. }
  assert (∀ x r, own !! x = Some r → data_role r → own1 !! x = Some r) as Hdata.
  { intros x r Hx Hr. assert (x ≠ d) by (intros ->; rewrite Hf in Hx; by injection Hx as <-). eapply grows_keeps; [done|by rewrite lookup_insert_ne|by intros ->]. }
  apply wp_bind, (wp_mappages_kernel s1 own1); try done; [lia|intros va Hva ?; apply Hnp; [done|lia]|].
  intros r own2 s2 HI2 Hg2 Hsd2 Hsp2 Hr.
  assert (same_data s own s2) as Hsd' by (by eapply same_data_trans). assert (grows d (<[d := Dir]> own) own2) as Hg' by (by eapply grows_trans).
  assert (same_ptes s own s2) as Hsp'.
  { intros pg' va Hpg Hva. destruct (Hdir pg' Hpg) as [Hne Hpg1]. rewrite Hsp2 by (done || naive_solver). by apply Hsp. }
  destruct Hr as [[-> Hr]| ->].
  - change (0 <? 0) with false. cbv iota.
    apply (IH s own d s2 own2 (virt + size) (done_ ++ [(virt, ps, pe, perm)])); try done; [lia| | | | |].
    + intros va Hva Huv. rewrite Hsp2; [by apply Hu|done|done|]. unfold is_user in Huv. lia.
    + intros va Hva Hr'. rewrite Hsp2; [apply Hnp; [done|lia]|done|done|lia].
    + apply Forall_app. split; [|constructor; [by rewrite <- Hsize|done]]. unfold kmapped in Hkm. rewrite Forall_forall in Hkm, Hdn |- *. intros [[[v' p'] q'] m'] Hin va Hva Hr'.
      specialize (Hkm _ Hin va Hva Hr'). specialize (Hdn _ Hin). cbv beta iota in Hdn. rewrite Hsp2; [done|done|done|lia].
    + apply Forall_app. split; [|constructor; [lia|done]]. eapply Forall_impl; [exact Hdn|]. intros [[[v' p'] q'] m'] Hle. lia.
    + intros s' own' A1 A2 A3 A4 A5 A6. apply (HQ s' own'); try done. by rewrite <- app_assoc in A6.
  - change (-1 <? 0) with true. cbv iota. apply (wp_free_fresh s own d s2 own2); try done; [by eapply (grows_keeps d own1 own2)|].
    by apply (released_back s own d own2).
Qed.

Lemma wp_setupkvm s own Q :
  vinv kend s own → (∀ d s' own', fresh_space s own d s' own' → d ≠ 0 → Q d s') → (∀ s', restored s own s' → Q 0 s') →
  wp (setupkvm kend kdata) Q s.
Proof using All.
  intros HI HQ HQ0. apply wp_bind, (wp_kalloc_own kend s own); [done|..].
  { intros _. change (0 =? 0) with true. cbv iota. apply wp_ret, HQ0. by constructor. }
  intros d s1 Hd HI1 Hp1 Hd0. rewrite (proj2 (Z.eqb_neq d 0)) by done. set (ownh := <[d := Held]> own) in *.
  assert (ownh !! d = Some Held) as Hh by apply lookup_insert_eq.
  apply wp_bind, (wp_zero kend s1 ownh); [done|done|]. intros s2 HI2 Hpx Hpm Hsp2.
  assert (∀ i, (i < 1024)%nat → word s2 d i = 0) as Hz.
  { intros i Hi. rewrite <- (word_fill s1 d i Hi). unfold word, set_page. cbn [set_pages pages]. by rewrite lookup_insert_eq, Hpm, zeros_eq. }
  pose proof (vinv_new_dir s2 ownh d HI2 Hh Hz) as HI3. unfold ownh in HI3. rewrite insert_insert_eq in HI3.
  apply wp_bind, wp_panic_unless; [done|].
  assert (∀ x r, own !! x = Some r → data_role r → x ≠ d) as Hxd by (intros x r Hx Hr ->; rewrite Hd in Hx; by injection Hx as <-).
  apply (wp_kmap_loop (kmap kdata) s own d s2 (<[d := Dir]> own) KERNBASE []); try done.
  - apply grows_refl.
  - intros x r Hx Hr. rewrite Hpx by eauto. by rewrite Hp1.
  - intros pg va Hpg Hva. assert (pg ≠ d) by (intros ->; congruence). rewrite Hsp2 by (unfold ownh; rewrite ?lookup_insert_ne; done). unfold pte, word. by rewrite Hp1.
  - by apply kmap_sorted.
  - intros va Hva _. unfold pte. rewrite Hz by (apply pdx_lt, Hva). done.
  - intros va Hva _. unfold pte. rewrite Hz by (apply pdx_lt, Hva). done.
  - constructor.
  - intros s' own' A1 A2 A3 A4 A5 A6. apply (HQ d s' own'); [|done]. by constructor.
Qed.
End copy.


(** The page of memory behind the user page [va]. *)
Definition frame_of s (pg va : Z) : Z := P2V (PTE_ADDR (pte s pg va)).
Definition upage s (pg va : Z) : list Z := default [] (pages s !! frame_of s pg va).

Section fork.
Context (kend kdata : Z).

Lemma frame_of_frame s own pg va f : vinv kend s own → own !! f = Some (Frame pg va) → frame_of s pg va = f.
Proof using Type.
  intros HI Hf. destruct (vi_frame _ _ _ HI f pg va Hf) as (_ & _ & _ & _ & Ha). unfold frame_of. rewrite Ha.
  by apply (page_V2P kend s f), (vi_page _ _ _ HI _ _ Hf).
Qed.
Lemma upage_frame s own pg va :
  vinv kend s own → own !! pg = Some Dir → is_va va → is_user va → present (pte s pg va) = true →
  own !! frame_of s pg va = Some (Frame pg va) ∧ pages s !! frame_of s pg va = Some (upage s pg va) ∧
  length (upage s pg va) = 4096%nat ∧ bytes (upage s pg va).
Proof using Type.
  intros HI Hd Hva Hu Hpr. destruct (vi_pte _ _ _ HI pg va Hd Hva Hu Hpr) as [f Hf]. unfold upage.
  rewrite (frame_of_frame s own pg va f HI Hf). destruct (vi_page _ _ _ HI _ _ Hf) as (_ & _ & _ & p & Hp & Hl). by rewrite Hp.
Qed.

(** Reading the entry of a mapped page. *)
Lemma wp_find_pte {A} s own pg va msg (K : Z → M mem A) Q :
  vinv kend s own → own !! pg = Some Dir → 0 ≤ va < 2 ^ 32 → present (pte s pg va) = true → wp (K (pte s pg va)) Q s →
  wp (pte_at ← walkpgdir pg va false; panic_unless (negb (pte_at =? 0)) msg;; p ← load pte_at; K p) Q s.
Proof using Type.
  intros HI Hd Hva Hpr HK. apply wp_bind, (wp_walk_find kend s own); [done|done|done|..].
  - intros t Ht Ht0. destruct (vi_page _ _ _ HI _ _ Ht) as (Hal & _ & Hr & Hp). apply wp_bind, wp_panic_unless.
    { rewrite (proj2 (Z.eqb_neq _ 0)); [done|]. unfold KERNBASE in Hr. lia. }
    apply wp_bind, wp_load; [done|apply ptx_lt|done|]. by rewrite <- (pte_tab kend s own pg va t).
  - intros Hn _. by rewrite (pte_none s pg va Hn) in Hpr.
Qed.

Section copyuvm.
Context (s : mem) (own : gmap Z role) (pg sz d : Z) (s1 : mem) (own1 : gmap Z role).
Hypotheses (HI : vinv kend s own) (Hd : own !! pg = Some Dir) (Hsz : 0 ≤ sz ≤ KERNBASE) (F : fresh_space kend kdata s own d s1 own1).
Hypothesis (Hpr : ∀ va, is_va va → 0 ≤ va < sz → present (pte s pg va) = true).
Abbreviation g := (λ va, (upage s pg va, PTE_FLAGS (pte s pg va))).

(** A copy that stops half-way: [d] can be given up without a trace. *)
Record stopped s' own' : Prop := {
  st_inv : vinv kend s' own';
  st_dir : own' !! d = Some Dir;
  st_back : released d own' = own;
  st_data : same_data s own s';
  st_ptes : same_ptes s own s'
}.

Lemma fork_keep x r : own !! x = Some r → r ≠ Free → x ≠ d ∧ own1 !! x = Some r.
Proof using F.
  intros Hx Hr. pose proof (fs_free _ _ _ _ _ _ _ F) as Hf. assert (x ≠ d) by (intros ->; congruence). split; [done|].
  eapply grows_keeps; [apply F|by rewrite lookup_insert_ne|done].
Qed.
Lemma fork_dir : own1 !! d = Some Dir.
Proof using F. eapply grows_keeps; [apply F|apply lookup_insert_eq|done]. Qed.

Lemma released_grown a s2 own2 : grown kend g s1 own1 d 0 a s2 own2 → released d own2 = own.
Proof using HI F.
  intros G. rewrite <- (released_back kend s own d own1 HI); [|apply F|apply F].
  apply map_eq. intros x. unfold released. destruct (decide (x = d)) as [->|Hne]; [by rewrite !lookup_insert_eq|].
  rewrite !lookup_insert_ne, !lookup_fmap by done. destruct (gr_own _ _ _ _ _ _ _ _ _ G x) as [->|[-> [[i ->]|(va & -> & _)]]]; cbn; by rewrite ?decide_True.
Qed.

Lemma grown_stopped a s2 own2 : grown kend g s1 own1 d 0 a s2 own2 → stopped s2 own2.
Proof using HI F.
  intros G. constructor; [apply G|eapply grown_keep; [done|apply fork_dir|done]|by eapply released_grown| |].
  - intros x r Hx Hr. assert (r ≠ Free) as Hrf by (by intros ->). destruct (fork_keep x r Hx Hrf) as [_ Hx1].
    rewrite (gr_data _ _ _ _ _ _ _ _ _ G x r) by done. by apply (fs_data _ _ _ _ _ _ _ F x r).
  - intros p va Hp Hva. destruct (fork_keep p Dir Hp) as [Hne Hp1]; [done|].
    rewrite (gr_ptes _ _ _ _ _ _ _ _ _ G) by (done || intros [? _]; done). by apply (fs_ptes _ _ _ _ _ _ _ F).
Qed.

(** The same with a page in hand that is given back. *)
Lemma wp_copy_stop a s2 own2 m s3 (Q : bool → mem → Prop) :
  grown kend g s1 own1 d 0 a s2 own2 → own2 !! m = Some Free → vinv kend s3 (<[m := Held]> own2) →
  (∀ x, x ≠ m → pages s3 !! x = pages s2 !! x) → same_ptes s2 own2 s3 → (∀ s' own', stopped s' own' → Q false s') →
  wp (kfree kend m;; mret false) Q s3.
Proof using HI F.
  intros G Hm HI3 Hpx Hsp HQ. apply wp_bind, (wp_kfree_own kend s3 (<[m := Held]> own2)); [done|apply lookup_insert_eq|].
  intros s4 HI4 Ho. rewrite insert_insert_eq, insert_id in HI4 by done. apply wp_ret, (HQ s4 own2).
  pose proof (grown_stopped a s2 own2 G) as S. constructor; [done|apply S|apply S| |].
  - intros x r Hx Hr. assert (r ≠ Free) as Hrf by (by intros ->). destruct (fork_keep x r Hx Hrf) as [_ Hx1].
    assert (own2 !! x = Some r) as Hx2 by (by eapply grown_keep). assert (x ≠ m) by (intros ->; congruence).
    rewrite (oo_pages _ _ _ Ho), Hpx by done. by apply (st_data _ _ S x r).
  - intros p va Hp Hva. destruct (fork_keep p Dir Hp) as [_ Hp1]; [done|]. assert (own2 !! p = Some Dir) as Hp2 by (by eapply grown_keep).
    assert (p ≠ m) by (intros ->; congruence). rewrite <- (st_ptes _ _ S p va) by done. rewrite <- (Hsp p va) by done.
    apply (pte_same kend s3 s4 (<[m := Held]> own2)); [done|by rewrite lookup_insert_ne|apply Hva|by apply (oo_word _ _ m _ _ Ho)|].
    intros t Ht. apply (oo_word _ _ m _ _ Ho). intros ->. by rewrite lookup_insert_eq in Ht.
Qed.

(** The page of the parent is what it was before the copy. *)
Lemma parent_page a s2 own2 va :
  grown kend g s1 own1 d 0 a s2 own2 → is_va va → 0 ≤ va < sz →
  own2 !! pg = Some Dir ∧ pte s2 pg va = pte s pg va ∧ pages s2 !! frame_of s pg va = Some (upage s pg va) ∧
  length (upage s pg va) = 4096%nat ∧ bytes (upage s pg va).
Proof using HI Hd Hsz F Hpr.
  intros G Hva Hr. pose proof (grown_stopped a s2 own2 G) as S.
  destruct (upage_frame s own pg va HI Hd Hva) as (Hf & Hp & Hl & Hb); [unfold is_user; lia|by apply Hpr|]. split_and!; [|by apply (st_ptes _ _ S)| |done|done].
  - destruct (fork_keep pg Dir Hd) as [_ Hp1]; [done|]. by eapply grown_keep.
  - by rewrite (st_data _ _ S _ _ Hf).
Qed.

Lemma wp_copy_loop fuel : ∀ s2 own2 a Q,
  grown kend g s1 own1 d 0 a s2 own2 → is_va a → a ≤ PGROUNDUP sz → sz - a ≤ Z.of_nat fuel * PGSIZE →
  (∀ s' own', grown kend g s1 own1 d 0 (PGROUNDUP sz) s' own' → Q true s') → (∀ s' own', stopped s' own' → Q false s') →
  wp (copy_loop kend fuel pg d sz a) Q s2.
Proof using HI Hd Hsz F Hpr.
  assert (is_va (PGROUNDUP sz) ∧ sz ≤ PGROUNDUP sz < sz + PGSIZE) as [[Hn1 Hn2] Hn3].
  { clear F HI Hpr. unfold KERNBASE in Hsz. rewrite PGROUNDUP_eq by (unfold PGSIZE; lia). unfold is_va, PGSIZE. dlia. }
  induction fuel as [|fuel IH]; intros s2 own2 a Q G [Ha Hal] Hle Hfuel HQ HQF; cbn [copy_loop];
    (destruct (Z.ltb_spec a sz) as [Hlt|Hge]; [|apply wp_ret, (HQ s2 own2); replace (PGROUNDUP sz) with a by (clear -Hal Hn2 Hn3 Hge Hle; unfold PGSIZE in *; dlia); done]).
  { lia. }
  assert (is_user a) as Hu by (unfold is_user; lia). pose proof (gr_inv _ _ _ _ _ _ _ _ _ G) as HI2.
  destruct (parent_page a s2 own2 a G) as (Hpg & Hpt & Hpp & Hl & Hb); [done|lia|]. assert (present (pte s pg a) = true) as Hpra by (apply Hpr; [done|lia]).
  assert (own2 !! d = Some Dir) as Hd2 by (eapply grown_keep; [done|apply fork_dir|done]).
  apply (wp_find_pte s2 own2); [done|done|done|by rewrite Hpt|]. rewrite Hpt. apply wp_bind, wp_panic_unless; [done|].
  apply wp_bind, (wp_kalloc_own kend s2 own2); [done|..].
  { intros _. change (0 =? 0) with true. cbv iota. apply wp_ret, (HQF s2 own2). by apply (grown_stopped a). }
  intros m s3 Hm HI3 Hp3 Hm0. rewrite (proj2 (Z.eqb_neq m 0)) by done. assert (m ≠ d) as Hmd by (intros ->; congruence).
  apply wp_bind, wp_get_page with (upage s pg a); [by rewrite Hp3|].
  apply wp_bind, (wp_fill kend s3 (<[m := Held]> own2)); [done|apply lookup_insert_eq|done|done|]. intros s4 HI4 Hpx Hpm Hsp4.
  assert (same_ptes s2 own2 s4) as Hsp.
  { intros p va Hp Hva. assert (p ≠ m) by (intros ->; congruence). rewrite Hsp4 by (rewrite ?lookup_insert_ne; done). by apply (same_ptes_pages kend s2 s3 own2). }
  assert (present (pte s4 d a) = false) as Hnpa.
  { rewrite Hsp, (gr_ptes _ _ _ _ _ _ _ _ _ G) by (done || lia || apply fork_dir). rewrite (fs_user _ _ _ _ _ _ _ F) by done. done. }
  apply wp_bind, (wp_map_user kend s4 (<[m := Held]> own2)); [done|by rewrite lookup_insert_ne|done|done|apply lookup_insert_eq| |done|..].
  - rewrite PTE_FLAGS_eq. apply Z.mod_pos_bound. done.
  - intros own5 s5 HI5 Hg5 Hsd5 Hpte5. change (0 <? 0) with false. cbv iota. rewrite u32_small by (unfold PGSIZE, KERNBASE in *; lia).
    apply (IH s5 own5); [|clear F HI Hpr; split; unfold PGSIZE, KERNBASE in *; [lia|dlia]|clear F HI Hpr; unfold PGSIZE in *; dlia|lia|done|done].
    apply (grown_step kend g s1 own1 d 0 a s2 own2 m s4 s5 own5); try done; [apply fork_dir|lia|]. intros x Hx. by rewrite Hpx, Hp3.
  - intros _. change (-1 <? 0) with true. cbv iota. apply (wp_copy_stop a s2 own2 m s4); try done. intros x Hx. by rewrite Hpx, Hp3.
Qed.
End copyuvm.

(** ** copyuvm *)

(** The address space [d] is a copy of the first [sz] bytes of [pg]: it has its
    own frames with the same bytes and flags, and nothing else changed. *)
Record copied s own (pg sz d : Z) s' own' : Prop := {
  cp_inv : vinv kend s' own';
  cp_new : own !! d = Some Free;
  cp_dir : own' !! d = Some Dir;
  cp_data : same_data s own s';
  cp_ptes : same_ptes s own s';
  cp_page va : is_va va → 0 ≤ va < sz →
    own' !! frame_of s' d va = Some (Frame d va) ∧ upage s' d va = upage s pg va ∧ PTE_FLAGS (pte s' d va) = PTE_FLAGS (pte s pg va);
  cp_rest va : is_va va → is_user va → PGROUNDUP sz ≤ va → pte s' d va = 0;
  cp_kernel : kmapped s' d (kmap kdata);
  cp_free : released d own' = own
}.

Lemma flags_present e : present e = true → Z.lor (PTE_FLAGS e) 1 = PTE_FLAGS e.
Proof using Type.
  rewrite present_odd, PTE_FLAGS_eq. intros Ho. set (x := e mod PGSIZE). assert (Z.testbit x 0 = true) as Hb.
  { unfold x. change PGSIZE with (2 ^ 12). rewrite Z.mod_pow2_bits_low by lia. by rewrite Z.bit0_odd. }
  apply Z.bits_inj'. intros n Hn. rewrite Z.lor_spec. destruct (decide (n = 0)) as [->|Hne]; [by rewrite Hb|].
  replace (Z.testbit 1 n) with false; [apply orb_false_r|]. symmetry. change 1 with (2 ^ 0). by apply Z.pow2_bits_false.
Qed.

Lemma kmap_high : KERNLINK < kdata → Forall (λ '(virt, _, _, _), KERNBASE ≤ virt) (kmap kdata).
Proof using Type. intros. unfold kmap, KERNLINK, EXTMEM, DEVSPACE, KERNBASE in *. repeat constructor; lia. Qed.

Lemma grown_copied s own pg sz d s1 own1 s' own' :
  KERNLINK < kdata → vinv kend s own → own !! pg = Some Dir → 0 ≤ sz ≤ KERNBASE → fresh_space kend kdata s own d s1 own1 →
  (∀ va, is_va va → 0 ≤ va < sz → present (pte s pg va) = true) →
  grown kend (λ va, (upage s pg va, PTE_FLAGS (pte s pg va))) s1 own1 d 0 (PGROUNDUP sz) s' own' → copied s own pg sz d s' own'.
Proof using Type.
  intros Hkd HI Hd Hsz F Hpr G. pose proof (grown_stopped s own pg d s1 own1 HI F _ _ _ G) as S.
  assert (sz ≤ PGROUNDUP sz ≤ KERNBASE) as Hup by (unfold KERNBASE in *; rewrite PGROUNDUP_eq by (unfold PGSIZE; lia); unfold PGSIZE; dlia).
  pose proof (fork_dir s own d s1 own1 F) as Hd1.
  constructor; [apply S|apply F|apply S|apply S|apply S| | | |apply S].
  - intros va Hva Hr. destruct (gr_new _ _ _ _ _ _ _ _ _ G va Hva) as (f & Hf & Hp & Ht); [lia|]. cbn [fst snd] in Hp, Ht.
    pose proof (frame_of_frame s' own' d va f (st_inv _ _ _ _ _ S) Hf) as Hfr. unfold upage at 1. rewrite Hfr, Hp, Ht.
    destruct (page_V2P kend s' f (vi_page _ _ _ (st_inv _ _ _ _ _ S) _ _ Hf)) as (H1 & H2 & _). unfold PHYSTOP in H2.
    rewrite flags_present by (by apply Hpr). rewrite PTE_FLAGS_entry; [done|done|lia|]. rewrite PTE_FLAGS_eq. by apply Z.mod_pos_bound.
  - intros va Hva Hu Hge. rewrite (gr_ptes _ _ _ _ _ _ _ _ _ G) by (done || lia). by apply (fs_user _ _ _ _ _ _ _ F).
  - pose proof (fs_kernel _ _ _ _ _ _ _ F) as Hk. pose proof (kmap_high Hkd) as Hge. unfold kmapped in *. rewrite Forall_forall in Hk, Hge |- *.
    intros [[[v p] q] m] Hin va Hva Hr. specialize (Hge _ Hin). cbv beta iota in Hge.
    rewrite (gr_ptes _ _ _ _ _ _ _ _ _ G) by (done || lia). by apply (Hk _ Hin).
Qed.

Lemma wp_copyuvm s own pg sz Q :
  KERNLINK ≤ kend → kdata mod PGSIZE = 0 → KERNLINK < kdata < KERNBASE + PHYSTOP →
  vinv kend s own → own !! pg = Some Dir → 0 ≤ sz ≤ KERNBASE → (∀ va, is_va va → 0 ≤ va < sz → present (pte s pg va) = true) →
  (∀ d s' own', d ≠ 0 → copied s own pg sz d s' own' → Q d s') → (∀ s', restored kend s own s' → Q 0 s') →
  wp (copyuvm kend kdata pg sz) Q s.
Proof using Type.
  intros Hke Hk1 Hk2 HI Hd Hsz Hpr HQ HQ0. apply wp_bind, (wp_setupkvm kend kdata Hke Hk1 Hk2 s own); [done| |by intros s' R; apply wp_ret, HQ0].
  intros d s1 own1 F Hd0. rewrite (proj2 (Z.eqb_neq d 0)) by done.
  apply wp_bind, (wp_copy_loop s own pg sz d s1 own1 HI Hd Hsz F Hpr _ s1 own1); [apply grown_refl, F|done| | |..].
  - unfold KERNBASE in Hsz. rewrite PGROUNDUP_eq by (unfold PGSIZE; lia). unfold PGSIZE. dlia.
  - unfold PGSIZE. dlia.
  - intros s' own' G. apply wp_ret, (HQ d s' own'); [done|]. apply (grown_copied s own pg sz d s1 own1); try done; lia.
  - intros s' own' S. apply (wp_free_fresh kend Hke s own d s' own'); [done|apply F|apply S..|done].
Qed.
End fork.
