(* ===== verification/VmUser.v ===== *)
(** * Kernel writes to user memory (uva2ka and copyout of vm.c) *)

From S2P Require Import Prelude Bytes Kalloc Vm VmInv VmSteps VmMap VmFree VmGrow VmCopy.

Implicit Types (s : mem) (own : gmap Z role).

(** The byte at the user address [a]. *)
Definition ubyte s (pg a : Z) : option Z := upage s pg (page_of a) !! offset_of a.
(** The user may use the page. *)
Definition user_page s (pg va : Z) : bool := present (pte s pg va) && negb (Z.land (pte s pg va) PTE_U =? 0).
(** The directory has a table for the address. *)
Definition has_table s (pg va : Z) : bool := present (word s pg (pdx va)).

Section user.
Context (kend : Z) (own : gmap Z role) (pg : Z).
Hypothesis Hd : own !! pg = Some Dir.

(** [bs] was written at [va] of the address space [pg], and nothing else. *)
Record written s (va : Z) (bs : list Z) s' : Prop := {
  wr_inv : vinv kend s' own;
  wr_tables va' : is_va va' → has_table s' pg va' = has_table s pg va';
  wr_ptes : same_ptes s own s';
  wr_bytes a : is_user a → present (pte s pg (page_of a)) = true →
    ubyte s' pg a = if decide (va ≤ a < va + lenZ bs) then bs !! Z.to_nat (a - va) else ubyte s pg a;
  wr_pages x : (∀ va', own !! x ≠ Some (Frame pg va')) → pages s' !! x = pages s !! x
}.

Lemma written_nil s va : vinv kend s own → written s va [] s.
Proof using Type. intros HI. constructor; [done|done|done| |done]. intros a _ _. rewrite decide_False; [done|]. unfold lenZ. cbn. lia. Qed.

Lemma page_of_va a : is_user a → is_va (page_of a) ∧ is_user (page_of a).
Proof using Type. unfold is_user, is_va, page_of, KERNBASE, PGSIZE. dlia. Qed.

Lemma written_app s va bs s1 bs2 s2 : written s va bs s1 → written s1 (va + lenZ bs) bs2 s2 → written s va (bs ++ bs2) s2.
Proof using Hd.
  intros [A1 A0 A2 A3 A4] [B1 B0 B2 B3 B4]. constructor; [done| | | |].
  - intros va' Hva'. by rewrite B0, A0.
  - intros p va' Hp Hva'. by rewrite B2, A2.
  - intros a Hu Hpr. destruct (page_of_va a Hu) as [Hva _]. rewrite B3, A3 by (done || by rewrite A2). unfold lenZ. rewrite length_app.
    repeat case_decide; try lia; try done; [|by rewrite lookup_app_l by lia].
    rewrite lookup_app_r by lia. f_equal. lia.
  - intros x Hx. by rewrite B4, A4.
Qed.

(** One page. *)
Lemma written_page s va bs :
  vinv kend s own → is_user va → present (pte s pg (page_of va)) = true → bytes bs → va - page_of va + lenZ bs ≤ PGSIZE →
  written s va bs (set_page (frame_of s pg (page_of va)) (put (offset_of va) bs (upage s pg (page_of va))) s).
Proof using Hd.
  intros HI Hu Hpr Hbs Hlen. destruct (page_of_va va Hu) as [Hva Hu']. destruct (upage_frame kend s own pg (page_of va) HI Hd Hva Hu' Hpr) as (Hf & Hp & Hl & Hb).
  set (f := frame_of s pg (page_of va)) in *. set (p := upage s pg (page_of va)) in *. clearbody p.
  assert (Z.of_nat (offset_of va) = va - page_of va) as Hoff by (unfold offset_of, page_of, PGSIZE; dlia).
  assert (offset_of va + length bs ≤ length p)%nat as Hfit by (unfold lenZ, PGSIZE in *; lia).
  assert (length (put (offset_of va) bs p) = 4096%nat) as Hl' by (by rewrite length_put). assert (bytes (put (offset_of va) bs p)) as Hb' by (by apply Forall_put).
  pose proof (set_page_only s f _ Hl' Hb') as Ho.
  assert (∀ x, table_role (own !! x) → ∀ j, word (set_page f (put (offset_of va) bs p) s) x j = word s x j) as Hw.
  { intros x Hx j. apply (oo_word _ _ f _ _ Ho). intros ->. by rewrite Hf in Hx. }
  assert (same_ptes s own (set_page f (put (offset_of va) bs p) s)) as Hsp.
  { intros q va' Hq Hva'. apply (pte_same kend s _ own); [done|done|apply Hva'|apply Hw; by rewrite Hq|]. intros t Ht. apply Hw. by rewrite Ht. }
  constructor; [|intros va' _; unfold has_table; by rewrite Hw by (by rewrite Hd)|done| |].
  - destruct (vi_free _ _ _ HI) as (fl & HK & Hfl). apply (vinv_data kend s _ own); [done| | | |done].
    + exists fl. split; [|done]. apply kinv_set_page; [done|by rewrite Hfl, Hf|done|done].
    + intros x r Hx. apply (page_ok_only kend s _ f); [done|]. by eapply vi_page.
    + intros x Hx j _. by apply Hw.
  - intros a Ha Hpa. destruct (page_of_va a Ha) as [Hva2 Hu2]. destruct (upage_frame kend s own pg (page_of a) HI Hd Hva2 Hu2 Hpa) as (Hfa & _ & _ & _).
    assert (Z.of_nat (offset_of a) = a - page_of a ∧ 0 ≤ a - page_of a < PGSIZE) as [Hoa Hob] by (unfold offset_of, page_of, PGSIZE; dlia).
    unfold ubyte, upage. replace (frame_of (set_page f _ s) pg (page_of a)) with (frame_of s pg (page_of a)) by (unfold frame_of; by rewrite Hsp).
    unfold set_page. cbn [set_pages pages]. destruct (decide (frame_of s pg (page_of a) = f)) as [E|Hne].
    + rewrite E, Hfa in *. assert (page_of a = page_of va) as Epa by congruence. rewrite lookup_insert_eq, Hp. cbn [from_option id].
      rewrite lookup_put by done. unfold lenZ. repeat case_decide; try lia; try done. f_equal. lia.
    + rewrite lookup_insert_ne by done. rewrite decide_False; [done|]. intros Hr. destruct Hne. unfold f. f_equal. unfold lenZ, page_of, PGSIZE in *. dlia.
  - intros x Hx. apply Ho. intros ->. by destruct (Hx _ Hf).
Qed.

Lemma wp_uva2ka s va Q :
  vinv kend s own → is_va va → has_table s pg va = true → Q (if user_page s pg va then frame_of s pg va else 0) s → wp (uva2ka pg va) Q s.
Proof using Hd.
  intros HI [Hva Hal] Ht HQ. apply wp_bind, (wp_walk_find kend s own); [done|done|done|..]; [|intros Hn _; unfold has_table in Ht; congruence].
  intros t Hto Ht0. destruct (vi_page _ _ _ HI _ _ Hto) as (Htal & _ & _ & Hp). apply wp_bind, wp_load; [done|apply ptx_lt|done|].
  rewrite <- (pte_tab kend s own pg va t) by done. unfold user_page in HQ. destruct (present (pte s pg va)); [|by apply wp_ret]. cbn [negb andb] in HQ |- *.
  destruct (Z.land (pte s pg va) PTE_U =? 0); by apply wp_ret.
Qed.

Lemma frame_nonzero s va : vinv kend s own → is_va va → is_user va → user_page s pg va = true → frame_of s pg va ≠ 0.
Proof using Hd.
  intros HI Hva Hu [Hpr _]%andb_prop. destruct (upage_frame kend s own pg va HI Hd Hva Hu Hpr) as (Hf & _).
  by apply (page_V2P kend s _), (vi_page _ _ _ HI _ _ Hf).
Qed.

(** copyout wrote the first [n] bytes, all of them or up to a page that the
    user may not use. *)
Definition copied_out s (va : Z) (buf : list Z) (r : Z) s' : Prop :=
  ∃ n, written s va (take n buf) s' ∧
    (r = 0 ∧ n = length buf ∨ r = -1 ∧ (n < length buf)%nat ∧ user_page s pg (page_of (va + Z.of_nat n)) = false).

Lemma wp_copyout_loop fuel : ∀ s va buf (Q : Z → mem → Prop),
  vinv kend s own → 0 ≤ va → va + lenZ buf ≤ KERNBASE → va - page_of va + lenZ buf ≤ Z.of_nat fuel * PGSIZE → bytes buf →
  (∀ va', is_va va' → page_of va ≤ va' < va + lenZ buf → has_table s pg va' = true) →
  (∀ r s', copied_out s va buf r s' → Q r s') → wp (copyout_loop fuel pg va buf) Q s.
Proof using Hd.
  induction fuel as [|fuel IH]; intros s va buf Q HI Hva Hend Hfuel Hb Ht HQ; (destruct buf as [|b buf0] eqn:Ebuf;
    [apply wp_ret, HQ; exists 0%nat; split; [by apply written_nil|by left]|]); cbn [copyout_loop]; rewrite <- Ebuf in *;
    assert (0 < lenZ buf) as Hpos by (rewrite Ebuf; unfold lenZ; cbn; lia).
  { unfold page_of, PGSIZE in *. dlia. }
  clear Ebuf b buf0. cbv zeta. assert (is_user va) as Hu by (unfold is_user; lia). destruct (page_of_va va Hu) as [Hpv Hpu].
  assert (va - PGSIZE < page_of va ≤ va ∧ page_of va mod PGSIZE = 0) as [Hrange Hal] by (unfold page_of, PGSIZE; dlia).
  rewrite page_round by (unfold KERNBASE in *; lia). apply wp_bind, wp_uva2ka; [done|done|apply Ht; [done|lia]|].
  destruct (user_page s pg (page_of va)) eqn:Hup.
  2: { change (0 =? 0) with true. cbv iota. apply wp_ret, HQ. exists 0%nat. split; [by apply written_nil|right]. split; [done|]. rewrite Z.add_0_r. unfold lenZ in Hpos. split; [lia|done]. }
  rewrite (proj2 (Z.eqb_neq _ 0)) by (by apply (frame_nonzero s)). set (n := Z.to_nat (Z.min (PGSIZE - (va - page_of va)) (lenZ buf))).
  assert (Z.of_nat n = Z.min (PGSIZE - (va - page_of va)) (lenZ buf)) as Hn by (unfold n; lia). clearbody n.
  assert (n ≤ length buf)%nat as Hnl by (unfold lenZ in Hn; lia). pose proof Hup as [Hpr _]%andb_prop.
  destruct (upage_frame kend s own pg (page_of va) HI Hd Hpv Hpu Hpr) as (_ & Hp & _ & _).
  assert (lenZ (take n buf) = Z.of_nat n) as Hlt by (unfold lenZ; rewrite length_take_le; lia).
  pose proof (written_page s va (take n buf) HI Hu Hpr (Forall_take _ n _ Hb)) as W. rewrite Hlt in W. specialize (W ltac:(lia)).
  apply wp_bind, wp_upd_page with (upage s pg (page_of va)); [done|].
  replace (Z.to_nat (va - page_of va)) with (offset_of va) by (unfold offset_of, page_of; f_equal; lia). fold (set_page (frame_of s pg (page_of va)) (put (offset_of va) (take n buf) (upage s pg (page_of va))) s).
  set (s1 := set_page _ _ s) in *. clearbody s1. rewrite u32_small by (unfold KERNBASE, PGSIZE in *; lia).
  assert (lenZ (drop n buf) = lenZ buf - Z.of_nat n) as Hld by (unfold lenZ; rewrite length_drop; lia).
  assert (n = length buf ∨ page_of va + PGSIZE = va + Z.of_nat n) as Hcase by (unfold lenZ in Hn; lia).
  assert (page_of (page_of va + PGSIZE) = page_of va + PGSIZE) as Hpp by (unfold page_of, PGSIZE; dlia).
  destruct Hcase as [Hall|Hnext].
  - rewrite drop_ge by lia. destruct fuel; apply wp_ret, HQ; exists n; split; try done; left; done.
  - apply IH; [apply W|lia|rewrite Hld; lia|rewrite Hld, Hpp; lia|by apply Forall_drop| |].
    + intros va' Hva' Hr. rewrite Hld in Hr. rewrite (wr_tables _ _ _ _ W) by done. apply Ht; [done|]. rewrite Hpp in Hr. unfold PGSIZE in *. lia.
    + intros r s' (k & Wk & Hk). apply HQ. exists (n + k)%nat. split.
      * rewrite <- take_take_drop. apply (written_app s va _ s1); [done|]. by rewrite Hlt, <- Hnext.
      * rewrite length_drop in Hk. destruct Hk as [[-> ->]|(-> & Hk & Hnu)]; [left; split; [done|lia]|right]. split; [done|]. split; [lia|].
        replace (va + Z.of_nat (n + k)) with (page_of va + PGSIZE + Z.of_nat k) by lia. rewrite <- Hnu. unfold user_page.
        rewrite (wr_ptes _ _ _ _ W); [done|done|]. apply page_of_va. unfold is_user, lenZ in *. lia.
Qed.

Lemma wp_copyout s va buf (Q : Z → mem → Prop) :
  vinv kend s own → 0 ≤ va → va + lenZ buf ≤ KERNBASE → bytes buf →
  (∀ va', is_va va' → page_of va ≤ va' < va + lenZ buf → has_table s pg va' = true) →
  (∀ r s', copied_out s va buf r s' → Q r s') → wp (copyout pg va buf) Q s.
Proof using Hd.
  intros HI Hva Hend Hb Ht HQ. apply wp_copyout_loop; [done|done|done| |done|done|done].
  assert (0 ≤ lenZ buf) by (unfold lenZ; lia). unfold page_of, PGSIZE. dlia.
Qed.
End user.
