(* ===== verification/VmThms.v ===== *)
(** * What kalloc.c and vm.c promise *)

From S2P Require Import Prelude Bytes Kalloc Vm VmInv VmSteps VmMap VmFree VmGrow VmCopy VmUser.

Implicit Types (s : mem) (own : gmap Z role).

(** ** The free list after freerange *)

Lemma wp_freerange_loop kend fuel vend : ∀ p s fl (Q : unit → mem → Prop),
  kinv kend s fl → p mod PGSIZE = 0 → kend ≤ p → KERNBASE ≤ p → vend ≤ KERNBASE + PHYSTOP → p ≤ KERNBASE + PHYSTOP → vend - p < (Z.of_nat fuel + 1) * PGSIZE →
  (∀ v, v mod PGSIZE = 0 → p ≤ v → v + PGSIZE ≤ vend → has_page s v ∧ v ∉ fl) →
  (∀ s' fl', kinv kend s' fl' → (∀ v, v ∈ fl' ↔ v ∈ fl ∨ v mod PGSIZE = 0 ∧ p ≤ v ∧ v + PGSIZE ≤ vend) → Q tt s') →
  wp (freerange_loop kend fuel p vend) Q s.
Proof.
  induction fuel as [|fuel IH]; intros p s fl Q HK Hal Hke Hkb Hve Hph Hfuel Hpg HQ; cbn [freerange_loop];
    rewrite u32_small by (unfold KERNBASE, PHYSTOP, PGSIZE in *; lia);
    (destruct (Z.leb_spec (p + PGSIZE) vend) as [Hle|Hgt]; [|apply wp_ret, (HQ s fl HK); intros v; split; [by left|intros [?|?]; [done|lia]]]).
  { lia. }
  destruct (Hpg p Hal ltac:(lia) Hle) as [Hp Hni]. assert (0 < PGSIZE) by done.
  apply wp_bind, (wp_kfree kend s fl); [done|split; [done|split; [lia|split; [lia|done]]]|done|]. intros s1 HK1 Ho.
  apply (IH (p + PGSIZE) s1 (p :: fl)); [done| |lia|lia|lia|lia|lia| |].
  - clear -Hal. unfold PGSIZE in *. dlia.
  - intros v Hv Hpv Hvv. destruct (Hpg v Hv ltac:(lia) Hvv) as [Hhv Hnv]. split; [by apply Ho|]. intros [->|?]%elem_of_cons; [lia|done].
  - intros s' fl' HK' Hfl'. apply (HQ s' fl' HK'). intros v. rewrite Hfl', elem_of_cons. split.
    + intros [[->|?]|?]; [right; split; [done|lia]|by left|right]. intuition lia.
    + intros [?|(Hv & Hpv & Hvv)]; [left; by right|]. destruct (decide (v = p)) as [->|Hne]; [by left; left|right].
      split; [done|]. split; [|done]. clear -Hv Hal Hpv Hne. unfold PGSIZE in *. dlia.
Qed.

(** freerange puts every whole page between its bounds on the free list,
    once, keeps what was there, and stops. *)
Theorem freerange_frees kend s fl vstart vend :
  kinv kend s fl → kend ≤ vstart → KERNBASE ≤ vstart ≤ vend → vend ≤ KERNBASE + PHYSTOP →
  (∀ v, v mod PGSIZE = 0 → vstart ≤ v → v + PGSIZE ≤ vend → has_page s v ∧ v ∉ fl) →
  wp (freerange kend vstart vend) (λ _ s', ∃ fl', kinv kend s' fl' ∧
    ∀ v, v ∈ fl' ↔ v ∈ fl ∨ v mod PGSIZE = 0 ∧ vstart ≤ v ∧ v + PGSIZE ≤ vend) s.
Proof.
  intros HK Hke Hr Hve Hpg. unfold freerange. assert (vstart ≤ PGROUNDUP vstart < vstart + PGSIZE ∧ PGROUNDUP vstart mod PGSIZE = 0) as [Hup Hal].
  { clear Hpg HK. unfold KERNBASE, PHYSTOP in *. rewrite PGROUNDUP_eq by (unfold PGSIZE; lia). unfold PGSIZE. dlia. }
  assert (∀ v, v mod PGSIZE = 0 → vstart ≤ v ↔ PGROUNDUP vstart ≤ v) as Hiff.
  { intros v Hv. split; [|lia]. intros ?. clear -H Hup Hal Hv. unfold PGSIZE in *. dlia. }
  assert (PGROUNDUP vstart ≤ KERNBASE + PHYSTOP) as Htop by (clear -Hup Hal Hr Hve; unfold KERNBASE, PHYSTOP, PGSIZE in *; dlia).
  apply (wp_freerange_loop _ _ _ _ s fl); [done|done|lia|lia|done|done| | |].
  - clear -Hup. unfold PGSIZE. dlia.
  - intros v Hv Hpv Hvv. apply Hpg; [done|by apply Hiff|done].
  - intros s' fl' HK' Hfl'. exists fl'. split; [done|]. intros v. rewrite Hfl'. split; intros [?|(Hv & Hp & He)]; try (by left); right; split; try done; (split; [|done]); by apply Hiff.
Qed.

(** ** Address spaces *)

Section spaces.
Context (kend kdata : Z).

(** C6. copyuvm of an address space whose first [sz] bytes are mapped gives a
    new one with the same bytes and flags in frames of its own and the kernel's
    mappings; or it returns 0 and every page it took is free again.  Either way
    the pages and entries of everybody else are as they were. *)
Theorem copyuvm_copies s own pg sz :
  KERNLINK ≤ kend → kdata mod PGSIZE = 0 → KERNLINK < kdata < KERNBASE + PHYSTOP →
  vinv kend s own → own !! pg = Some Dir → 0 ≤ sz ≤ KERNBASE → (∀ va, is_va va → 0 ≤ va < sz → present (pte s pg va) = true) →
  wp (copyuvm kend kdata pg sz)
    (λ d s', d ≠ 0 ∧ (∃ own', copied kend kdata s own pg sz d s' own') ∨ d = 0 ∧ restored kend s own s') s.
Proof.
  intros H1 H2 H3 HI Hd Hsz Hpr. apply (wp_copyuvm kend kdata s own); try done.
  - intros d s' own' Hd0 HC. left. split; [done|]. by exists own'.
  - intros s' HR. by right.
Qed.

(** C20. A copied address space that is freed again leaves no page behind:
    exactly the pages that were free are free, and everything else is as it was. *)
Theorem copyuvm_freevm s own pg sz :
  KERNLINK ≤ kend → kdata mod PGSIZE = 0 → KERNLINK < kdata < KERNBASE + PHYSTOP →
  vinv kend s own → own !! pg = Some Dir → 0 ≤ sz ≤ KERNBASE → (∀ va, is_va va → 0 ≤ va < sz → present (pte s pg va) = true) →
  wp (d ← copyuvm kend kdata pg sz; if d =? 0 then mret tt else freevm kend d) (λ _ s', restored kend s own s') s.
Proof.
  intros H1 H2 H3 HI Hd Hsz Hpr. apply wp_bind, (wp_copyuvm kend kdata s own); try done.
  intros d s1 own1 Hd0 HC. rewrite (proj2 (Z.eqb_neq d 0)) by done. pose proof HC as [C1 C2 C3 C4 C5 _ _ _ C6].
  assert (wp (freevm kend d;; mret 0) (λ _ s', restored kend s own s') s1) as HW by (by apply (wp_free_fresh kend H1 s own d s1 own1)).
  unfold wp, mbind, M_bind in HW |- *. by destruct (freevm kend d s1).
Qed.

(** freevm of an address space gives every page of it back to the free list
    and touches neither the pages nor the entries of any other. *)
Theorem freevm_frees s own pg :
  KERNLINK ≤ kend → vinv kend s own → own !! pg = Some Dir →
  wp (freevm kend pg) (λ _ s', vinv kend s' (released pg own) ∧
    (∀ x r, released pg own !! x = Some r → data_role r → pages s' !! x = pages s !! x) ∧
    (∀ pg' va, pg' ≠ pg → own !! pg' = Some Dir → is_va va → pte s' pg' va = pte s pg' va)) s.
Proof. intros H1 HI Hd. by apply (wp_freevm kend H1 s own). Qed.

(** C21. allocuvm from [oldsz] to [newsz] maps zeroed frames of its own, for the
    user to write, at the new pages and returns [newsz]; without memory it
    returns 0 and none of the new pages is mapped.  Nothing else changes. *)
Theorem allocuvm_grows s own pg oldsz newsz :
  KERNLINK ≤ kend → vinv kend s own → own !! pg = Some Dir → 0 ≤ oldsz ≤ newsz → newsz < KERNBASE →
  (∀ va, is_va va → is_user va → PGROUNDUP oldsz ≤ va < newsz → present (pte s pg va) = false) →
  wp (allocuvm kend pg oldsz newsz) (λ r s',
    r = newsz ∧ (∃ own', grown kend (λ _, (zeros, Z.lor PTE_W PTE_U)) s own pg (PGROUNDUP oldsz) (PGROUNDUP newsz) s' own') ∨
    r = 0 ∧ ∃ own', undone kend s own pg (PGROUNDUP oldsz) newsz s' own') s.
Proof.
  intros H1 HI Hd Hsz Hn Hnp. apply (wp_allocuvm kend H1 s own); try done.
  - intros s' own' G. left. split; [done|]. by exists own'.
  - intros s' own' U. right. split; [done|]. by exists own'.
Qed.

(** copyout to addresses below KERNBASE that have page tables writes the
    buffer and returns 0, or returns -1 at the first page the user may not use,
    with what comes before it written.  No other byte changes. *)
Theorem copyout_writes s own pg va buf :
  own !! pg = Some Dir → vinv kend s own → 0 ≤ va → va + lenZ buf ≤ KERNBASE → bytes buf →
  (∀ va', is_va va' → page_of va ≤ va' < va + lenZ buf → has_table s pg va' = true) →
  wp (copyout pg va buf) (copied_out kend own pg s va buf) s.
Proof. intros Hd HI Hva He Hb Ht. by apply (wp_copyout kend own pg Hd). Qed.

(** uva2ka does not look at the pointer that walkpgdir returns: for an
    address without a page table it reads through the null pointer. *)
Theorem uva2ka_no_table s own pg va :
  vinv kend s own → own !! pg = Some Dir → is_va va → has_table s pg va = false → pages s !! 0 = None → fails (uva2ka pg va) Fault s.
Proof.
  intros HI Hd [Hva _] Ht H0. apply fails_bind. apply (wp_walk_find kend s own); [done|done|done|..].
  - intros t Hto _. destruct (tab_entry kend s own t pg _ HI Hto) as [Hp _]. unfold has_table in Ht. congruence.
  - intros _ _. apply fails_bind_l. unfold load. apply fails_bind_l. exists s. unfold get_page, getS, mbind, M_bind. change (page_of 0) with 0. by rewrite H0.
Qed.
End spaces.

(** ** A small memory *)

(** Eight pages after the kernel, freed by kinit1, then one address space with
    one page. *)
Definition kend0 : Z := KERNLINK.
Definition kdata0 : Z := KERNLINK + PGSIZE.
Definition low0 : Z := KERNBASE + 0x400000.
Definition high0 : Z := low0 + 8 * PGSIZE.
Definition blank0 : mem :=
  Mem (list_to_map (map (λ i, (low0 + Z.of_nat i * PGSIZE, replicate 4096 0)) (seq 0 8))) 0 false false.
Definition boot0 : mem := final (kinit1 kend0 low0 high0) blank0.
Definition new_space : M mem Z :=
  d ← kalloc; memset_page d 0;; allocuvm kend0 d 0 PGSIZE;; mret d.
Definition space0 : mem := final new_space boot0.
Definition d0 : Z := low0 + 7 * PGSIZE.

Lemma blank0_pages v : v mod PGSIZE = 0 → low0 ≤ v → v + PGSIZE ≤ high0 → pages blank0 !! v = Some (replicate 4096 0).
Proof.
  intros Hal Hlo Hhi. assert (∃ i, (i < 8)%nat ∧ v = low0 + Z.of_nat i * PGSIZE) as (i & Hi & ->).
  { exists (Z.to_nat ((v - low0) / PGSIZE)). unfold high0, low0, KERNBASE, PGSIZE in *. dlia. }
  clear -Hi. unfold blank0. cbn [pages]. apply elem_of_list_to_map_1.
  - rewrite map_map. apply NoDup_fmap_2; [|apply NoDup_seq]. intros x y. cbn. unfold PGSIZE. lia.
  - apply list_elem_of_fmap. exists i. split; [done|]. apply elem_of_seq. lia.
Qed.

Lemma kinv_blank0 : kinv kend0 blank0 [].
Proof. constructor; [done|apply NoDup_nil_2| |done]. intros v Hv. by apply elem_of_nil in Hv. Qed.
Lemma blank0_free v : v mod PGSIZE = 0 → low0 ≤ v → v + PGSIZE ≤ high0 → has_page blank0 v ∧ v ∉ ([] : list Z).
Proof.
  intros Hal Hlo Hhi. split; [|apply not_elem_of_nil]. exists (replicate 4096 0). split; [by apply blank0_pages|].
  split; [apply length_replicate|]. apply Forall_replicate. unfold byte. lia.
Qed.

Lemma freerange_frees_witness :
  wp (freerange kend0 low0 high0) (λ _ s', ∃ fl', kinv kend0 s' fl' ∧
    ∀ v, v ∈ fl' ↔ v ∈ ([] : list Z) ∨ v mod PGSIZE = 0 ∧ low0 ≤ v ∧ v + PGSIZE ≤ high0) blank0.
Proof. apply (freerange_frees kend0 blank0 [] low0 high0 kinv_blank0); [done|done|done|exact blank0_free]. Defined.

(** All pages of a free list, and no other. *)
Lemma vinv_free kend s fl : kinv kend s fl → vinv kend s (gset_to_gmap Free (list_to_set fl)).
Proof.
  intros HK. assert (∀ x r, gset_to_gmap Free (list_to_set fl : gset Z) !! x = Some r ↔ x ∈ fl ∧ r = Free) as Hl.
  { intros x r. rewrite lookup_gset_to_gmap_Some, elem_of_list_to_set. split; intros [? ?]; done. }
  constructor.
  - exists fl. split; [done|]. intros x. rewrite Hl. split; [done|by intros [? _]].
  - intros x r [Hx _]%Hl. by apply HK.
  - by intros t pg i [_ ?]%Hl.
  - by intros pg i [_ ?]%Hl.
  - by intros f pg va [_ ?]%Hl.
  - by intros pg va [_ ?]%Hl.
Qed.

Lemma boot0_free : ∃ own, vinv kend0 boot0 own.
Proof.
  assert (wp (kinit1 kend0 low0 high0) (λ _ s', ∃ own, vinv kend0 s' own) blank0) as HW.
  { apply wp_bind, wp_modify, wp_bind, wp_modify. change (set_use_lock false (set_klock false blank0)) with blank0.
    apply (wp_freerange_loop kend0 _ _ _ blank0 []); [apply kinv_blank0|done|done|done|done|done|done|exact blank0_free|].
    intros s' fl' HK _. exists (gset_to_gmap Free (list_to_set fl')). by apply vinv_free. }
  destruct (wp_final _ _ _ HW) as [_ H]. exact H.
Qed.

Lemma wp_new_space s own (Q : Z → mem → Prop) :
  vinv kend0 s own → freelist s ≠ 0 → (∀ d s' own', vinv kend0 s' own' → own' !! d = Some Dir → Q d s') → wp new_space Q s.
Proof.
  intros HI Hfl HQ. apply wp_bind, (wp_kalloc_own kend0 s own); [done|..].
  { intros Hno. destruct (vi_free _ _ _ HI) as (fl & HK & Hf). destruct fl as [|v fl]; [by destruct (Hfl (ki_runs _ _ _ HK))|].
    destruct (Hno v). apply Hf. by left. }
  intros d s1 Hd HI1 Hp1 Hd0. set (ownh := <[d := Held]> own) in *. assert (ownh !! d = Some Held) as Hh by apply lookup_insert_eq.
  apply wp_bind, (wp_zero kend0 s1 ownh); [done|done|]. intros s2 HI2 Hpx Hpm Hsp2.
  assert (∀ i, (i < 1024)%nat → word s2 d i = 0) as Hz.
  { intros i Hi. rewrite <- (word_fill s1 d i Hi). unfold word, set_page. cbn [set_pages pages]. by rewrite lookup_insert_eq, Hpm, zeros_eq. }
  pose proof (vinv_new_dir kend0 s2 ownh d HI2 Hh Hz) as HI3.
  apply wp_bind, (wp_allocuvm kend0 ltac:(done) s2 (<[d := Dir]> ownh)); [done|apply lookup_insert_eq|done|done| | |].
  - intros va Hva _ _. unfold pte. rewrite Hz by (apply pdx_lt, Hva). done.
  - intros s' own' G. apply wp_ret, (HQ d s' own'); [apply G|]. eapply grown_keep; [done|apply lookup_insert_eq|done].
  - intros s' own' U. apply wp_ret, (HQ d s' own'); [apply U|]. eapply grows_keeps; [apply U|apply lookup_insert_eq|done].
Qed.

Lemma new_space_final s own d :
  vinv kend0 s own → (freelist s =? 0) = false → match new_space s with Ret d' _ => d' =? d | _ => false end = true →
  ∃ own', vinv kend0 (final new_space s) own' ∧ own' !! d = Some Dir.
Proof.
  intros HI Hfl Hd. assert (wp new_space (λ d s', ∃ own', vinv kend0 s' own' ∧ own' !! d = Some Dir) s) as HW.
  { apply (wp_new_space s own); [done|by apply Z.eqb_neq|]. intros d' s' own' H1 H2. by exists own'. }
  unfold final, wp in *. destruct (new_space s) as [d' s'|]; [|done]. apply Z.eqb_eq in Hd. by subst d'.
Qed.
Lemma boot0_run : (freelist boot0 =? 0) = false ∧ match new_space boot0 with Ret d _ => d =? d0 | _ => false end = true.
Proof. vm_compute. split; reflexivity. Qed.
Lemma space0_ok : ∃ own, vinv kend0 space0 own ∧ own !! d0 = Some Dir.
Proof. destruct boot0_free as [own HI], boot0_run as [H1 H2]. exact (new_space_final boot0 own d0 HI H1 H2). Qed.

Lemma space0_pages :
  present (pte space0 d0 0) = true ∧ present (pte space0 d0 PGSIZE) = false ∧ present (pte space0 d0 (2 * PGSIZE)) = false ∧
  has_table space0 d0 0 = true ∧ has_table space0 d0 PGSIZE = true ∧ has_table space0 d0 0x400000 = false ∧ pages space0 !! 0 = None.
Proof. vm_compute. repeat split; reflexivity. Qed.
Lemma space0_first va : is_va va → 0 ≤ va < PGSIZE → present (pte space0 d0 va) = true.
Proof.
  intros [_ Hal] Hr. destruct space0_pages as [H _]. replace va with 0; [exact H|]. unfold PGSIZE in *. dlia.
Qed.

Lemma small_memory :
  KERNLINK ≤ kend0 ∧ kdata0 mod PGSIZE = 0 ∧ KERNLINK < kdata0 < KERNBASE + PHYSTOP ∧ 0 ≤ PGSIZE ≤ KERNBASE ∧
  0 ≤ PGSIZE ≤ 3 * PGSIZE ∧ 3 * PGSIZE < KERNBASE ∧ is_va 0x400000 ∧ 4090 + 8 ≤ KERNBASE.
Proof. done. Qed.

Lemma copyuvm_copies_witness :
  ∃ own, vinv kend0 space0 own ∧ own !! d0 = Some Dir ∧
  wp (copyuvm kend0 kdata0 d0 PGSIZE)
    (λ d s', d ≠ 0 ∧ (∃ own', copied kend0 kdata0 space0 own d0 PGSIZE d s' own') ∨ d = 0 ∧ restored kend0 space0 own s') space0.
Proof.
  destruct space0_ok as (own & HI & Hd), small_memory as (N1 & N2 & N3 & N4 & N5 & N6 & _ & N7). exists own. split; [exact HI|]. split; [exact Hd|].
  exact (copyuvm_copies kend0 kdata0 space0 own d0 PGSIZE N1 N2 N3 HI Hd N4 space0_first).
Defined.
Lemma copyuvm_freevm_witness :
  ∃ own, vinv kend0 space0 own ∧ own !! d0 = Some Dir ∧
  wp (d ← copyuvm kend0 kdata0 d0 PGSIZE; if d =? 0 then mret tt else freevm kend0 d) (λ _ s', restored kend0 space0 own s') space0.
Proof.
  destruct space0_ok as (own & HI & Hd), small_memory as (N1 & N2 & N3 & N4 & N5 & N6 & _ & N7). exists own. split; [exact HI|]. split; [exact Hd|].
  exact (copyuvm_freevm kend0 kdata0 space0 own d0 PGSIZE N1 N2 N3 HI Hd N4 space0_first).
Defined.
Lemma freevm_frees_witness :
  ∃ own, vinv kend0 space0 own ∧ own !! d0 = Some Dir ∧
  wp (freevm kend0 d0) (λ _ s', vinv kend0 s' (released d0 own) ∧
    (∀ x r, released d0 own !! x = Some r → data_role r → pages s' !! x = pages space0 !! x) ∧
    (∀ pg' va, pg' ≠ d0 → own !! pg' = Some Dir → is_va va → pte s' pg' va = pte space0 pg' va)) space0.
Proof.
  destruct space0_ok as (own & HI & Hd), small_memory as (N1 & N2 & N3 & N4 & N5 & N6 & _ & N7). exists own. split; [exact HI|]. split; [exact Hd|].
  exact (freevm_frees kend0 space0 own d0 N1 HI Hd).
Defined.
Lemma allocuvm_grows_witness :
  ∃ own, vinv kend0 space0 own ∧ own !! d0 = Some Dir ∧
  wp (allocuvm kend0 d0 PGSIZE (3 * PGSIZE)) (λ r s',
    r = 3 * PGSIZE ∧ (∃ own', grown kend0 (λ _, (zeros, Z.lor PTE_W PTE_U)) space0 own d0 (PGROUNDUP PGSIZE) (PGROUNDUP (3 * PGSIZE)) s' own') ∨
    r = 0 ∧ ∃ own', undone kend0 space0 own d0 (PGROUNDUP PGSIZE) (3 * PGSIZE) s' own') space0.
Proof.
  destruct space0_ok as (own & HI & Hd), small_memory as (N1 & N2 & N3 & N4 & N5 & N6 & _ & N7). exists own. split; [exact HI|]. split; [exact Hd|].
  apply (allocuvm_grows kend0 space0 own d0 PGSIZE (3 * PGSIZE) N1 HI Hd N5 N6).
  intros va [_ Hal] _ Hr. change (PGROUNDUP PGSIZE) with PGSIZE in Hr. destruct space0_pages as (_ & H1 & H2 & _).
  assert (va = PGSIZE ∨ va = 2 * PGSIZE) as [E|E] by (unfold PGSIZE in *; dlia); rewrite E; assumption.
Defined.
Lemma copyout_writes_witness :
  ∃ own, vinv kend0 space0 own ∧ own !! d0 = Some Dir ∧
  wp (copyout d0 4090 [1; 2; 3; 4; 5; 6; 7; 8]) (copied_out kend0 own d0 space0 4090 [1; 2; 3; 4; 5; 6; 7; 8]) space0.
Proof.
  destruct space0_ok as (own & HI & Hd), small_memory as (N1 & N2 & N3 & N4 & N5 & N6 & _ & N7). exists own. split; [exact HI|]. split; [exact Hd|].
  apply (copyout_writes kend0 space0 own d0 4090 [1; 2; 3; 4; 5; 6; 7; 8] Hd HI); [apply Z.le_0_sub; discriminate|exact N7| |].
  - repeat constructor; unfold byte; lia.
  - intros va [_ Hal] Hr. change (page_of 4090) with 0 in Hr. unfold lenZ in Hr. cbn in Hr. destruct space0_pages as (_ & _ & _ & H1 & H2 & _).
    assert (va = 0 ∨ va = PGSIZE) as [E|E] by (unfold PGSIZE in *; dlia); rewrite E; assumption.
Defined.
Lemma uva2ka_no_table_witness : fails (uva2ka d0 0x400000) Fault space0.
Proof.
  destruct space0_ok as (own & HI & Hd). destruct space0_pages as (_ & _ & _ & _ & _ & H1 & H2), small_memory as (_ & _ & _ & _ & _ & _ & N & _).
  exact (uva2ka_no_table kend0 space0 own d0 0x400000 HI Hd N H1 H2).
Defined.
