(* ===== verification/SsufsDisk.v ===== *)
(** * The disk layer of ssufs (hw6/ssufs_q/ssufs-disk.c)

    The disk is the host file "ssufs": a superblock of 64 bytes, 8 inodes of
    32 bytes and 30 data blocks of 64 bytes.  [struct superblock_t] and
    [struct inode_t] are kept as the 46 and 32 bytes the code copies to and
    from the file, with their fields at the compiler's offsets, because the
    code's [strcpy] and [strcmp] run over field boundaries.

    The contents of uninitialised memory ([malloc] and local arrays) come from
    an oracle in the state, so every theorem holds whatever they are. *)

From S2P Require Import Prelude Bytes.

Definition BLOCKSIZE : nat := 64.
Definition NUM_DATA_BLOCKS : nat := 30.
Definition NUM_INODES : nat := 8.
Definition MAX_FILE_SIZE : nat := 4.
Definition MAX_OPEN_FILES : nat := 20.
Definition MAX_NAME_STRLEN : nat := 8.
Definition INODE_FREE : Z := 120.      (* 'x' *)
Definition INODE_IN_USE : Z := 49.     (* '1' *)
Definition DATA_BLOCK_FREE : Z := 120. (* 'x' *)
Definition DATA_BLOCK_USED : Z := 49.  (* '1' *)

(** [struct filehandle_t], src/hw6/ssufs_q/ssufs-disk.h:41-45 *)
Record filehandle := FH { fh_offset : Z; fh_inode : Z }.

(** [DISK_FD, file_handle_array], src/hw6/ssufs_q/ssufs-disk.c:3-4 *)
Record fs := Fs {
  disk : list Z;                  (* the bytes of the host file *)
  pos : nat;                      (* the file offset of DISK_FD *)
  handles : list filehandle;      (* file_handle_array *)
  oracle : nat → Z;               (* contents of uninitialised memory *)
  drawn : nat                     (* bytes of it used so far *)
}.

Definition set_disk (d : list Z) (p : nat) (s : fs) : fs :=
  Fs d p (handles s) (oracle s) (drawn s).
Definition set_handles (h : list filehandle) (s : fs) : fs :=
  Fs (disk s) (pos s) h (oracle s) (drawn s).

(** [n] bytes of uninitialised memory. *)
Definition uninit (n : nat) : M fs (list Z) :=
  λ s, Ret ((λ i, u8 (oracle s (drawn s + i)%nat)) <$> seq 0 n)
           (Fs (disk s) (pos s) (handles s) (oracle s) (drawn s + n)).

(** lseek(DISK_FD, off, SEEK_SET) followed by a read of [n] bytes, or by a
    write of [bs].  lseek refuses a negative offset and leaves the position as
    it was (the code does not look at its result).  A read is short at the end
    of the file; a write past the end leaves a hole of zeros. *)
Definition seek (off : Z) (s : fs) : nat := if off <? 0 then pos s else Z.to_nat off.
Definition pread (off : Z) (n : nat) : M fs (list Z) :=
  λ s, let p := seek off s in
       let bs := get p n (disk s) in
       Ret bs (set_disk (disk s) (p + length bs) s).
Definition file_write (off : nat) (bs d : list Z) : list Z :=
  put off bs (d ++ replicate (off + length bs - length d) 0).
Definition pwrite (off : Z) (bs : list Z) : M fs unit :=
  modify (λ s, let p := seek off s in set_disk (file_write p bs (disk s)) (p + length bs) s).

(** ** Field offsets *)

(** [struct superblock_t], src/hw6/ssufs_q/ssufs-disk.h:26-31 *)
Definition sb_size : nat := 46.
Definition sb_inode_freelist (i : nat) : nat := 8 + i.
Definition sb_datablock_freelist (i : nat) : nat := 16 + i.

(** [struct inode_t], src/hw6/ssufs_q/ssufs-disk.h:33-39 *)
Definition inode_size : nat := 32.
Definition in_status : nat := 0.
Definition in_name : nat := 4.
Definition in_file_size : nat := 12.
Definition in_direct (i : nat) : nat := 16 + 4 * i.

Definition direct (b : list Z) (i : nat) : Z := get_i32 (in_direct i) b.
Definition fsize (b : list Z) : Z := get_i32 in_file_size b.
Definition status (b : list Z) : Z := get_i32 in_status b.

(** ** Superblock *)

(** [ssufs_readSuperBlock], src/hw6/ssufs_q/ssufs-disk.c:6-15 *)
Definition ssufs_readSuperBlock : M fs (list Z) :=
  tempBuf ← pread 0 BLOCKSIZE;
  assertb (bool_decide (length tempBuf = BLOCKSIZE));;
  mret (take sb_size tempBuf).

(** [ssufs_writeSuperBlock], src/hw6/ssufs_q/ssufs-disk.c:17-26 *)
Definition ssufs_writeSuperBlock (superblock : list Z) : M fs unit :=
  tempBuf ← uninit BLOCKSIZE;
  pwrite 0 (put 0 superblock tempBuf).

(** ** Inodes *)

(** [ssufs_readInode], src/hw6/ssufs_q/ssufs-disk.c:139-149 *)
Definition ssufs_readInode (inodenum : Z) : M fs (list Z) :=
  assertb (inodenum <? Z.of_nat NUM_INODES);;
  tempBuf ← pread (64 + inodenum * 32) inode_size;
  assertb (bool_decide (length tempBuf = inode_size));;
  mret tempBuf.

(** [ssufs_writeInode], src/hw6/ssufs_q/ssufs-disk.c:151-161 *)
Definition ssufs_writeInode (inodenum : Z) (inode : list Z) : M fs unit :=
  assertb (inodenum <? Z.of_nat NUM_INODES);;
  pwrite (64 + inodenum * 32) inode.

(** ** Data blocks *)

(** [ssufs_allocDataBlock], src/hw6/ssufs_q/ssufs-disk.c:163-179 *)
Definition ssufs_allocDataBlock : M fs Z :=
  superblock ← ssufs_readSuperBlock;
  r ← for_ NUM_DATA_BLOCKS 0 (λ i,
    c ← of_option (superblock !! sb_datablock_freelist i);
    if c =? DATA_BLOCK_FREE then
      ssufs_writeSuperBlock (<[sb_datablock_freelist i := DATA_BLOCK_USED]> superblock);;
      mret (Some (Z.of_nat i))
    else mret None);
  match r with Some i => mret i | None => mret (-1) end.

(** [ssufs_freeDataBlock], src/hw6/ssufs_q/ssufs-disk.c:181-191 *)
Definition ssufs_freeDataBlock (blocknum : Z) : M fs unit :=
  superblock ← ssufs_readSuperBlock;
  c ← of_option (getZ (drop (sb_datablock_freelist 0) superblock) blocknum);
  assertb (c =? DATA_BLOCK_USED);;
  ssufs_writeSuperBlock (<[sb_datablock_freelist (Z.to_nat blocknum) := DATA_BLOCK_FREE]> superblock).

(** [ssufs_readDataBlock], src/hw6/ssufs_q/ssufs-disk.c:193-203 *)
Definition ssufs_readDataBlock (blocknum : Z) : M fs (list Z) :=
  assertb (blocknum <? Z.of_nat NUM_DATA_BLOCKS);;
  tempBuf ← pread (64 * (5 + blocknum)) BLOCKSIZE;
  assertb (bool_decide (length tempBuf = BLOCKSIZE));;
  mret tempBuf.

(** [ssufs_writeDataBlock], src/hw6/ssufs_q/ssufs-disk.c:205-215 *)
Definition ssufs_writeDataBlock (blocknum : Z) (buf : list Z) : M fs unit :=
  assertb (blocknum <? Z.of_nat NUM_DATA_BLOCKS);;
  pwrite (64 * (5 + blocknum)) buf.

(** ** Allocation of inodes, lookup by name, formatting *)

(** [ssufs_allocInode], src/hw6/ssufs_q/ssufs-disk.c:94-110 *)
Definition ssufs_allocInode : M fs Z :=
  superblock ← ssufs_readSuperBlock;
  r ← for_ NUM_INODES 0 (λ i,
    c ← of_option (superblock !! sb_inode_freelist i);
    if c =? INODE_FREE then
      ssufs_writeSuperBlock (<[sb_inode_freelist i := INODE_IN_USE]> superblock);;
      mret (Some (Z.of_nat i))
    else mret None);
  match r with Some i => mret i | None => mret (-1) end.

(** [ssufs_freeInode: one direct block], src/hw6/ssufs_q/ssufs-disk.c:126-131
    The superblock and inode variables are threaded through. *)
Definition free_round (i : nat) (superblock inode : list Z) : M fs (list Z * list Z) :=
  superblock' ← (if negb (direct inode i =? -1) then
                   ssufs_writeSuperBlock superblock;;
                   ssufs_freeDataBlock (direct inode i);;
                   ssufs_readSuperBlock
                 else mret superblock);
  mret (superblock', put_u32 (in_direct i) (-1) inode).

Fixpoint free_rounds (n i : nat) (superblock inode : list Z) : M fs (list Z * list Z) :=
  match n with
  | O => mret (superblock, inode)
  | S n' => '(superblock, inode) ← free_round i superblock inode; free_rounds n' (S i) superblock inode
  end.

(** [ssufs_freeInode], src/hw6/ssufs_q/ssufs-disk.c:112-137 *)
Definition ssufs_freeInode (inodenum : Z) : M fs unit :=
  assertb (inodenum <? Z.of_nat NUM_INODES);;
  superblock ← ssufs_readSuperBlock;
  inode ← ssufs_readInode inodenum;
  c ← of_option (getZ (take NUM_INODES (drop (sb_inode_freelist 0) superblock)) inodenum);
  assertb (c =? INODE_IN_USE);;
  let superblock := <[sb_inode_freelist (Z.to_nat inodenum) := INODE_FREE]> superblock in
  let inode := put_u32 in_file_size 0 (put_u32 in_status INODE_FREE inode) in
  '(superblock, inode) ← free_rounds MAX_FILE_SIZE 0 superblock inode;
  ssufs_writeSuperBlock superblock;;
  ssufs_writeInode inodenum inode.

(** [open_namei], src/hw6/ssufs_q/ssufs-disk.c:66-92 *)
Definition open_namei (filename : list Z) : M fs Z :=
  n ← of_option (strlen filename);
  if (MAX_NAME_STRLEN <? n)%nat then mret (-1)
  else
    superblock ← ssufs_readSuperBlock;
    r ← for_ NUM_INODES 0 (λ i,
      c ← of_option (superblock !! sb_inode_freelist i);
      if c =? INODE_IN_USE then
        tmp ← ssufs_readInode (Z.of_nat i);
        r ← of_option (strcmp (drop in_name tmp) filename);
        if r =? 0 then mret (Some (Z.of_nat i)) else mret None
      else mret None);
    match r with Some i => mret i | None => mret (-1) end.

(** [ssufs_formatDisk], src/hw6/ssufs_q/ssufs-disk.c:28-64 *)
Definition ssufs_formatDisk : M fs unit :=
  modify (set_disk [] 0);;
  superblock ← uninit sb_size;
  two ← uninit 2;    (* the literal "ssufs" has 6 bytes; memcpy reads 8 *)
  let superblock := put 0 ([115; 115; 117; 102; 115; 0] ++ two) superblock in
  let superblock := put (sb_inode_freelist 0) (replicate NUM_INODES INODE_FREE) superblock in
  let superblock := put (sb_datablock_freelist 0) (replicate NUM_DATA_BLOCKS DATA_BLOCK_FREE) superblock in
  ssufs_writeSuperBlock superblock;;
  inode ← uninit inode_size;
  let inode := put in_name [0] inode in
  let inode := put_u32 in_status INODE_FREE inode in
  let inode := put_u32 in_file_size 0 inode in
  let inode := put_u32 (in_direct 3) (-1) (put_u32 (in_direct 2) (-1)
              (put_u32 (in_direct 1) (-1) (put_u32 (in_direct 0) (-1) inode))) in
  for_ (R := unit) NUM_INODES 0 (λ i, ssufs_writeInode (Z.of_nat i) inode;; mret None);;
  modify (set_handles (replicate MAX_OPEN_FILES (FH 0 (-1)))).

(** ** Printing the state of the disk *)

(** What the arguments of a printf call contribute to the output. *)
Inductive item := PStr (s : list Z) | PChar (c : Z) | PInt (z : Z).

(** The bytes printed by %s: up to the NUL. *)
Definition pstr (b : list Z) : M fs item :=
  n ← of_option (strlen b); mret (PStr (take n b)).

(** [ssufs_dump: one inode], src/hw6/ssufs_q/ssufs-disk.c:238-253 *)
Definition dump_inode (i : nat) : M fs (list item) :=
  inode ← ssufs_readInode (Z.of_nat i);
  if status inode =? INODE_IN_USE then
    nm ← pstr (drop in_name inode);
    blocks ← mapM (M := M fs) (λ j,
      if negb (direct inode j =? -1) then
        tempBuf ← ssufs_readDataBlock (direct inode j);
        it ← pstr (tempBuf ++ [0]);
        mret [PInt (Z.of_nat j); it]
      else mret []) (seq 0 MAX_FILE_SIZE);
    mret ([PInt (Z.of_nat i); PChar (u8 (status inode)); nm; PInt (fsize inode)]
          ++ ((λ j, PInt (direct inode j)) <$> seq 0 MAX_FILE_SIZE) ++ mjoin blocks)
  else mret [].

(** [ssufs_dump], src/hw6/ssufs_q/ssufs-disk.c:217-258 *)
Definition ssufs_dump : M fs (list item) :=
  superblock ← ssufs_readSuperBlock;
  nm ← pstr (take MAX_NAME_STRLEN superblock ++ [0]);
  inodes ← mapM (M := M fs) dump_inode (seq 0 NUM_INODES);
  mret ([nm] ++ (PChar <$> drop (sb_inode_freelist 0) superblock) ++ mjoin inodes).
