(* ===== verification/SsufsOps.v ===== *)
(** * The file operations of ssufs (hw6/ssufs_q/ssufs-ops.c) *)

From S2P Require Import Prelude Bytes SsufsDisk.

Definition read_handle (fh : Z) : M fs filehandle :=
  s ← getS; of_option (getZ (handles s) fh).
Definition write_handle (fh : Z) (h : filehandle) : M fs unit :=
  s ← getS;
  _ ← of_option (getZ (handles s) fh);
  putS (set_handles (setZ (handles s) fh h) s).

(** [ssufs_allocFileHandle], src/hw6/ssufs_q/ssufs-ops.c:5-12 *)
Definition ssufs_allocFileHandle : M fs Z :=
  r ← for_ MAX_OPEN_FILES 0 (λ i,
    h ← read_handle (Z.of_nat i);
    if fh_inode h =? -1 then mret (Some (Z.of_nat i)) else mret None);
  match r with Some i => mret i | None => mret (-1) end.

(** [ssufs_create], src/hw6/ssufs_q/ssufs-ops.c:14-32 *)
Definition ssufs_create (filename : list Z) : M fs Z :=
  r ← open_namei filename;
  if negb (r =? -1) then mret (-1)
  else
    i_num ← ssufs_allocInode;
    if i_num =? -1 then mret (-1)
    else
      inode ← ssufs_readInode i_num;
      let inode := put_u32 in_status INODE_IN_USE inode in
      inode ← of_option (strcpy in_name filename inode);
      ssufs_writeInode i_num inode;;
      mret i_num.

(** [ssufs_delete], src/hw6/ssufs_q/ssufs-ops.c:34-59 *)
Definition ssufs_delete (filename : list Z) : M fs unit :=
  f_inode ← open_namei filename;
  if f_inode =? -1 then mret tt
  else
    tmp ← ssufs_readInode f_inode;
    for_ (R := unit) MAX_FILE_SIZE 0 (λ i,
      if negb (direct tmp i =? -1) then
        buf ← ssufs_readDataBlock (direct tmp i);
        (* memset(buf, 0, sizeof(buf)): buf is a pointer, 8 bytes *)
        ssufs_writeDataBlock (direct tmp i) (put 0 (replicate 8 0) buf);;
        mret None
      else mret None);;
    ssufs_freeInode f_inode.

(** [ssufs_open], src/hw6/ssufs_q/ssufs-ops.c:61-78 *)
Definition ssufs_open (filename : list Z) : M fs Z :=
  i_num ← open_namei filename;
  handler_num ← ssufs_allocFileHandle;
  if (i_num =? -1) || (handler_num =? -1) then mret (-1)
  else
    write_handle handler_num (FH 0 i_num);;
    mret handler_num.

(** [ssufs_close], src/hw6/ssufs_q/ssufs-ops.c:80-83 *)
Definition ssufs_close (fh : Z) : M fs unit := write_handle fh (FH 0 (-1)).

(** [ssufs_lseek], src/hw6/ssufs_q/ssufs-ops.c:217-236 *)
Definition ssufs_lseek (fh nseek : Z) : M fs Z :=
  h ← read_handle fh;
  tmp ← ssufs_readInode (fh_inode h);
  let fsz := fsize tmp in
  offset ← int_ (fh_offset h + nseek);
  if (fsz =? -1) || (offset <? 0) || (fsz <? offset) then mret (-1)
  else
    write_handle fh (FH offset (fh_inode h));;
    mret 0.

(** [ssufs_read: copying from one block], src/hw6/ssufs_q/ssufs-ops.c:105-117 *)
Fixpoint copy_out (rest : list Z) (curr nbytes : Z) (buf : list Z) : bool * Z * list Z :=
  match rest with
  | [] => (false, curr, buf)
  | x :: rest' =>
      let buf := buf ++ [x] in
      if curr + 1 =? nbytes then (true, curr + 1, buf)
      else copy_out rest' (curr + 1) nbytes buf
  end.

(** [ssufs_read: loop over the direct blocks], src/hw6/ssufs_q/ssufs-ops.c:99-129 *)
Fixpoint read_blocks (n i : nat) (fh : Z) (tmp : list Z) (nbytes f_offset curr : Z)
    (buf : list Z) : M fs (Z * list Z) :=
  match n with
  | O => mret (-1, buf)
  | S n' =>
      if (0 <=? f_offset) && (f_offset <? 64) && negb (direct tmp i =? -1) then
        tmp_buf ← ssufs_readDataBlock (direct tmp i);
        match copy_out (drop (Z.to_nat f_offset) tmp_buf) curr nbytes buf with
        | (true, _, buf') => ssufs_lseek fh nbytes;; mret (0, buf')
        | (false, curr', buf') => read_blocks n' (S i) fh tmp nbytes 0 curr' buf'
        end
      else
        let f_offset' := if negb (f_offset =? 0) then f_offset - 64 else f_offset in
        read_blocks n' (S i) fh tmp nbytes f_offset' curr buf
  end.

(** [ssufs_read], src/hw6/ssufs_q/ssufs-ops.c:85-130 *)
Definition ssufs_read (fh nbytes : Z) : M fs (Z * list Z) :=
  h ← read_handle fh;
  tmp ← ssufs_readInode (fh_inode h);
  last ← int_ (fh_offset h + nbytes);
  if fsize tmp <? last then mret (-1, [])
  else read_blocks MAX_FILE_SIZE 0 fh tmp nbytes (fh_offset h) 0 [].

(** [ssufs_write: filling one block], src/hw6/ssufs_q/ssufs-ops.c:187-199 *)
Fixpoint copy_in (n : nat) (f_offset : nat) (curr nbytes : Z) (buf tmp_buf : list Z)
    : M fs (bool * Z * list Z) :=
  match n with
  | O => mret (false, curr, tmp_buf)
  | S n' =>
      x ← of_option (getZ buf curr);
      let tmp_buf := <[f_offset := x]> tmp_buf in
      if curr + 1 =? nbytes then mret (true, curr + 1, tmp_buf)
      else copy_in n' (S f_offset) (curr + 1) nbytes buf tmp_buf
  end.

(** [ssufs_write: undoing after a failed allocation], src/hw6/ssufs_q/ssufs-ops.c:160-172 *)
Definition undo_writes (tmp : list Z) (isUsed : list bool) (rollback_index : Z)
    (rollback tmp_buf : list Z) : M fs unit :=
  for_ (R := unit) MAX_FILE_SIZE 0 (λ j,
    u ← of_option (isUsed !! j);
    if (u : bool) then
      if Z.of_nat j =? rollback_index then
        ssufs_writeDataBlock (direct tmp j) rollback;; mret None
      else
        ssufs_writeDataBlock (direct tmp j) tmp_buf;;
        ssufs_freeDataBlock (direct tmp j);;
        mret None
    else mret None);;
  mret tt.

(** [ssufs_write: one block], src/hw6/ssufs_q/ssufs-ops.c:154-202
    [None] when no block could be allocated and the write was undone;
    otherwise whether all bytes are written, and the updated variables. *)
Definition write_block (i : nat) (buf : list Z) (nbytes : Z) (tmp : list Z) (f_offset curr : Z)
    (tmp_buf rollback : list Z) (rollback_index : Z) (isUsed : list bool)
    : M fs (option (bool * Z * list Z * list Z * Z)) :=
  b ← (if direct tmp i =? -1 then ssufs_allocDataBlock else mret (direct tmp i));
  let tmp := put_u32 (in_direct i) b tmp in
  if b =? -1 then undo_writes tmp isUsed rollback_index rollback tmp_buf;; mret None
  else
    '(tmp_buf, rollback, rollback_index) ←
      (if negb (f_offset =? 0) then
         tmp_buf ← ssufs_readDataBlock b;
         rollback ← of_option (strcpy 0 tmp_buf rollback);
         mret (tmp_buf, rollback, Z.of_nat i)
       else mret (tmp_buf, rollback, rollback_index));
    '(done, curr, tmp_buf) ←
      copy_in (64 - Z.to_nat f_offset) (Z.to_nat f_offset) curr nbytes buf tmp_buf;
    ssufs_writeDataBlock b tmp_buf;;
    mret (Some (done, curr, tmp, rollback, rollback_index)).

(** [ssufs_write: loop over the direct blocks], src/hw6/ssufs_q/ssufs-ops.c:150-214 *)
Fixpoint write_blocks (n i : nat) (fh f_inode : Z) (buf : list Z) (nbytes : Z)
    (tmp : list Z) (f_offset curr : Z) (tmp_buf rollback : list Z) (rollback_index : Z)
    (isUsed : list bool) : M fs Z :=
  match n with
  | O => mret (-1)
  | S n' =>
      if (0 <=? f_offset) && (f_offset <? 64) then
        r ← write_block i buf nbytes tmp f_offset curr tmp_buf rollback rollback_index isUsed;
        match r with
        | None => mret (-1)
        | Some (true, _, tmp, _, _) =>
            ssufs_writeInode f_inode (put_u32 in_file_size (fsize tmp + nbytes) tmp);;
            ssufs_lseek fh nbytes;;
            mret 0
        | Some (false, curr, tmp, rollback, rollback_index) =>
            write_blocks n' (S i) fh f_inode buf nbytes tmp 0 curr (replicate BLOCKSIZE 0)
              rollback rollback_index (<[i := true]> isUsed)
        end
      else
        let f_offset' := if negb (f_offset =? 0) then f_offset - 64 else f_offset in
        write_blocks n' (S i) fh f_inode buf nbytes tmp f_offset' curr tmp_buf rollback
          rollback_index isUsed
  end.

(** [ssufs_write], src/hw6/ssufs_q/ssufs-ops.c:132-215 *)
Definition ssufs_write (fh : Z) (buf : list Z) (nbytes : Z) : M fs Z :=
  h ← read_handle fh;
  tmp_buf ← uninit BLOCKSIZE;
  rollback ← uninit BLOCKSIZE;
  rollback_index ← uninit 4;
  tmp ← ssufs_readInode (fh_inode h);
  total ← int_ (fsize tmp + nbytes);
  if 256 <? total then mret (-1)
  else write_blocks MAX_FILE_SIZE 0 fh (fh_inode h) buf nbytes tmp (fh_offset h) 0
         tmp_buf rollback (i32 (le_dec rollback_index)) (replicate MAX_FILE_SIZE false).
