(* ===== verification/SsufsView.v ===== *)
(** * A structured view of the ssufs disk

    The bytes of the host file, padded with zeros to the full 35 blocks, are
    cut into the superblock, the 8 inodes and the 30 data blocks.  Each
    function of ssufs-disk.c then reads or updates one component of the view;
    the lemmas here state this once, and the file operations are proved on
    views. *)

From S2P Require Import Prelude Bytes SsufsDisk SsufsOps.

Record view := View {
  v_sb : list Z;               (* superblock *)
  v_ino : list (list Z);       (* inodes *)
  v_blk : list (list Z);       (* data blocks *)
  v_len : nat;                 (* length of the host file *)
  v_h : list filehandle        (* open files *)
}.

Definition DISKSIZE : nat := 2240.
Definition pad (d : list Z) : list Z := d ++ replicate (DISKSIZE - length d) 0.
Definition slices (off w n : nat) (P : list Z) : list (list Z) :=
  (λ i, get (off + w * i) w P) <$> seq 0 n.

Definition view_of (s : fs) : view :=
  let P := pad (disk s) in
  View (get 0 46 P) (slices 64 32 8 P) (slices 320 64 30 P) (length (disk s)) (handles s).

Definition vset_sb (b : list Z) (v : view) : view :=
  View b (v_ino v) (v_blk v) (v_len v) (v_h v).
Definition vset_ino (i : nat) (b : list Z) (v : view) : view :=
  View (v_sb v) (<[i := b]> (v_ino v)) (v_blk v) (v_len v) (v_h v).
Definition vset_blk (k : nat) (b : list Z) (v : view) : view :=
  View (v_sb v) (v_ino v) (<[k := b]> (v_blk v)) (v_len v `max` (320 + 64 * k + 64)) (v_h v).
Definition vset_h (h : list filehandle) (v : view) : view :=
  View (v_sb v) (v_ino v) (v_blk v) (v_len v) h.

(** The disk is formatted: the superblock and all inodes are in the file. *)
Definition formatted (s : fs) : Prop := (320 ≤ length (disk s) ≤ DISKSIZE)%nat.

#[global] Arguments slices : simpl never.
#[global] Arguments pad : simpl never.
#[global] Arguments get : simpl never.
#[global] Arguments put : simpl never.

Ltac vsimpl :=
  cbn [view_of vset_sb vset_ino vset_blk vset_h v_sb v_ino v_blk v_len v_h] in *.

(** ** Slices *)

Lemma length_slices off w n P : length (slices off w n P) = n.
Proof. unfold slices. by rewrite length_fmap, length_seq. Qed.

Lemma lookup_slices off w n P i :
  slices off w n P !! i = if decide (i < n)%nat then Some (get (off + w * i) w P) else None.
Proof.
  unfold slices. rewrite list_lookup_fmap. case_decide.
  - by rewrite lookup_seq_lt by done.
  - by rewrite lookup_seq_ge by lia.
Qed.

Lemma slices_put off w n P i bs :
  (i < n)%nat → length bs = w → (off + w * n ≤ length P)%nat →
  slices off w n (put (off + w * i) bs P) = <[i := bs]> (slices off w n P).
Proof.
  intros Hi Hw HP. assert (w * i + w ≤ w * n)%nat by nia.
  apply list_eq. intros j. rewrite list_lookup_insert, !lookup_slices, length_slices.
  destruct (decide (i = j)) as [->|Hne].
  - rewrite decide_True by done. destruct (decide _); [|lia]. f_equal. apply get_put_eq; lia.
  - destruct (decide (i = j ∧ _)); [lia|]. case_decide; [|done]. f_equal.
    apply get_put_ne; [lia|]. destruct (decide (i < j)%nat); nia.
Qed.

Lemma slices_put_ne off w n P o bs :
  (o + length bs ≤ length P)%nat → (o + length bs ≤ off ∨ off + w * n ≤ o)%nat →
  slices off w n (put o bs P) = slices off w n P.
Proof.
  intros Hl Hd. apply list_eq. intros j. rewrite !lookup_slices. case_decide; [|done].
  f_equal. apply get_put_ne; [lia|]. nia.
Qed.

Lemma length_pad d : (length d ≤ DISKSIZE)%nat → length (pad d) = DISKSIZE.
Proof. intros. unfold pad. rewrite length_app, length_replicate. lia. Qed.

Lemma length_file_write off bs d :
  length (file_write off bs d) = (length d `max` (off + length bs))%nat.
Proof.
  unfold file_write. rewrite length_put; rewrite length_app, length_replicate; lia.
Qed.

Lemma lookup_app_zeros (d : list Z) n i :
  (i < length d + n)%nat → (d ++ replicate n 0) !! i = Some (default 0 (d !! i)).
Proof.
  intros. destruct (decide (i < length d)%nat) as [Hi|].
  - rewrite lookup_app_l by done. by destruct (lookup_lt_is_Some_2 d i Hi) as [x ->].
  - rewrite lookup_app_r by lia. rewrite lookup_replicate_2 by lia.
    by rewrite lookup_ge_None_2 by lia.
Qed.

Lemma pad_file_write off bs d :
  (length d ≤ DISKSIZE)%nat → (off + length bs ≤ DISKSIZE)%nat →
  pad (file_write off bs d) = put off bs (pad d).
Proof.
  intros Hd Hb. apply list_eq_same_length with DISKSIZE.
  - by rewrite length_put; rewrite length_pad.
  - rewrite length_pad; [done|]. rewrite length_file_write. lia.
  - intros i x y Hi. unfold pad at 1. rewrite lookup_app_zeros by (rewrite length_file_write; lia).
    unfold file_write. rewrite !lookup_put by (rewrite ?length_app, ?length_replicate, ?length_pad; lia).
    unfold pad. rewrite (lookup_app_zeros d (DISKSIZE - _)) by (unfold DISKSIZE in *; lia).
    case_decide as Hc.
    + destruct (lookup_lt_is_Some_2 bs (i - off)) as [z ->]; [lia|]. by intros [= <-] [= <-].
    + destruct (decide (i < length d `max` (off + length bs))%nat).
      * rewrite lookup_app_zeros by lia. by intros [= <-] [= <-].
      * rewrite (lookup_ge_None_2 (_ ++ _)) by (rewrite length_app, length_replicate; lia).
        rewrite (lookup_ge_None_2 d) by lia. by intros [= <-] [= <-].
Qed.

Lemma get_pad off n d : (off + n ≤ length d)%nat → get off n (pad d) = get off n d.
Proof.
  intros. apply list_eq. intros i. rewrite !lookup_get. case_decide; [|done].
  unfold pad. by rewrite lookup_app_l by lia.
Qed.

(** ** Lookups in a view *)

Lemma view_length s :
  length (v_sb (view_of s)) = 46%nat ∧ length (v_ino (view_of s)) = 8%nat ∧
  length (v_blk (view_of s)) = 30%nat.
Proof.
  vsimpl. rewrite !length_slices. split; [|done]. rewrite length_get; [done|].
  unfold pad, DISKSIZE. rewrite length_app, length_replicate. lia.
Qed.

Lemma view_ino_length s i b : v_ino (view_of s) !! i = Some b → length b = 32%nat ∧ (i < 8)%nat.
Proof.
  vsimpl. rewrite lookup_slices. case_decide; intros [= <-]. split; [|done].
  apply length_get. unfold pad, DISKSIZE. rewrite length_app, length_replicate. lia.
Qed.

Lemma view_blk_length s i b : v_blk (view_of s) !! i = Some b → length b = 64%nat ∧ (i < 30)%nat.
Proof.
  vsimpl. rewrite lookup_slices. case_decide; intros [= <-]. split; [|done].
  apply length_get. unfold pad, DISKSIZE. rewrite length_app, length_replicate. lia.
Qed.

Lemma formatted_view s s' : view_of s' = view_of s → formatted s → formatted s'.
Proof. unfold formatted. intros H. apply (f_equal v_len) in H. vsimpl. by rewrite H. Qed.

(** ** The functions of the disk layer on views

    Each rule has the shape of a continuation: the operation returns, and
    what follows has to work in every state with the stated view. *)

Lemma wp_uninit_any n Q s :
  (∀ l s', length l = n → bytes l → view_of s' = view_of s → Q l s') → wp (uninit n) Q s.
Proof.
  intros H. apply H; [by rewrite length_fmap, length_seq| |done].
  apply Forall_fmap, Forall_true. intros i. unfold byte, u8. simpl. apply Z.mod_pos_bound. lia.
Qed.

Lemma wp_uninit n Q s :
  (∀ l s', length l = n → bytes l → view_of s' = view_of s → formatted s' → Q l s') →
  formatted s → wp (uninit n) Q s.
Proof. intros H Hf. apply wp_uninit_any. intros l s' Hl Hb Hv. apply H; [done..|by eapply formatted_view]. Qed.

Lemma wp_pread off n Q s :
  formatted s → (off + n ≤ length (disk s))%nat →
  (∀ s', view_of s' = view_of s → formatted s' → Q (get off n (pad (disk s))) s') →
  wp (pread (Z.of_nat off) n) Q s.
Proof.
  intros Hf Hn H. unfold wp, pread, seek. rewrite (proj2 (Z.ltb_ge _ _)) by lia.
  rewrite Nat2Z.id, <- get_pad by done. by apply H.
Qed.

Lemma wp_pwrite off bs Q s :
  (length (disk s) ≤ DISKSIZE)%nat → (off + length bs ≤ DISKSIZE)%nat →
  (∀ s', pad (disk s') = put off bs (pad (disk s)) → handles s' = handles s →
     length (disk s') = (length (disk s) `max` (off + length bs))%nat → Q tt s') →
  wp (pwrite (Z.of_nat off) bs) Q s.
Proof.
  intros Hf Hn H. apply wp_modify. unfold seek.
  rewrite (proj2 (Z.ltb_ge _ _)), Nat2Z.id by lia.
  apply H; [by apply pad_file_write|done|apply length_file_write].
Qed.

Lemma wp_readSuperBlock Q s :
  formatted s →
  (∀ s', view_of s' = view_of s → formatted s' → Q (v_sb (view_of s)) s') →
  wp ssufs_readSuperBlock Q s.
Proof.
  intros Hf H. unfold formatted in *. apply wp_bind, (wp_pread 0); [done|unfold BLOCKSIZE; lia|]. intros s' Hv Hf'.
  assert (length (pad (disk s)) = DISKSIZE) by (apply length_pad; lia).
  apply wp_bind, wp_assertb.
  { apply bool_decide_eq_true_2, length_get. unfold BLOCKSIZE, DISKSIZE in *. lia. }
  apply wp_ret. unfold get at 1. rewrite take_take. by apply H.
Qed.

Lemma wp_writeSuperBlock_any b Q s (v := view_of s) :
  (v_len v ≤ DISKSIZE)%nat → length b = 46%nat →
  (∀ s', view_of s' = View b (v_ino v) (v_blk v) (v_len v `max` 64) (v_h v) → Q tt s') →
  wp (ssufs_writeSuperBlock b) Q s.
Proof.
  intros Hf Hb H. apply wp_bind, wp_uninit_any. intros l s1 Hl _ Hv1. fold v in Hv1.
  assert (length (disk s1) ≤ DISKSIZE)%nat as Hf1 by (change (v_len (view_of s1) ≤ DISKSIZE)%nat; by rewrite Hv1).
  assert (length (put 0 b l) = 64%nat) as Hp by (rewrite length_put; rewrite Hl; [done|]; unfold BLOCKSIZE; lia).
  apply (wp_pwrite 0); [done|rewrite Hp; unfold DISKSIZE; lia|].
  intros s2 Hpad Hh Hlen. apply H. rewrite <- Hv1.
  assert (length (pad (disk s1)) = DISKSIZE) as HD by (by apply length_pad).
  unfold view_of. vsimpl. rewrite Hpad, Hh, Hlen. unfold DISKSIZE in *. f_equal.
  - rewrite <- (get_put_eq 0 46 b l) at 2 by (unfold BLOCKSIZE in *; lia).
    rewrite <- (get_put_eq 0 64 (put 0 b l) (pad (disk s1))) at 2 by lia.
    symmetry. apply (get_get 0 64 0 46). lia.
  - apply slices_put_ne; lia.
  - apply slices_put_ne; lia.
  - lia.
Qed.

Lemma wp_writeSuperBlock b Q s :
  formatted s → length b = 46%nat →
  (∀ s', view_of s' = vset_sb b (view_of s) → formatted s' → Q tt s') →
  wp (ssufs_writeSuperBlock b) Q s.
Proof.
  intros Hf Hb H. apply wp_writeSuperBlock_any; [apply Hf|done|]. intros s' Hv'.
  assert (view_of s' = vset_sb b (view_of s)) as Hv.
  { rewrite Hv'. unfold vset_sb. f_equal. unfold formatted in Hf. vsimpl. lia. }
  apply H; [done|]. unfold formatted. change (length (disk s')) with (v_len (view_of s')). by rewrite Hv.
Qed.

Lemma wp_readInode i b Q s :
  formatted s → v_ino (view_of s) !! i = Some b →
  (∀ s', view_of s' = view_of s → formatted s' → Q b s') →
  wp (ssufs_readInode (Z.of_nat i)) Q s.
Proof.
  intros Hf Hi H. pose proof (view_ino_length _ _ _ Hi) as [Hb Hi8]. unfold formatted in *.
  apply wp_bind, wp_assertb; [apply Z.ltb_lt; unfold NUM_INODES; lia|].
  replace (64 + Z.of_nat i * 32) with (Z.of_nat (64 + 32 * i)) by lia.
  apply wp_bind, wp_pread; [done|unfold inode_size; lia|]. intros s' Hv Hf'.
  vsimpl. rewrite lookup_slices, decide_True in Hi by done. apply (inj Some) in Hi.
  unfold inode_size. rewrite Hi. apply wp_bind, wp_assertb; [by apply bool_decide_eq_true_2|].
  by apply wp_ret, H.
Qed.

Lemma wp_writeInode_any i b Q s (v := view_of s) :
  (v_len v ≤ DISKSIZE)%nat → length b = 32%nat → (i < 8)%nat →
  (∀ s', view_of s' = View (v_sb v) (<[i := b]> (v_ino v)) (v_blk v) (v_len v `max` (64 + 32 * i + 32)) (v_h v) →
     Q tt s') →
  wp (ssufs_writeInode (Z.of_nat i) b) Q s.
Proof.
  intros Hf Hb Hi H. apply wp_bind, wp_assertb; [apply Z.ltb_lt; unfold NUM_INODES; lia|].
  replace (64 + Z.of_nat i * 32) with (Z.of_nat (64 + 32 * i)) by lia.
  apply wp_pwrite; [done|unfold DISKSIZE; lia|]. intros s' Hpad Hh Hlen.
  apply H. assert (length (pad (disk s)) = DISKSIZE) as HD by (by apply length_pad).
  unfold view_of. vsimpl. rewrite Hpad, Hh, Hlen. unfold DISKSIZE in *. f_equal.
  - apply get_put_ne; lia.
  - apply slices_put; lia.
  - apply slices_put_ne; lia.
  - unfold v, view_of; vsimpl. lia.
Qed.

Lemma wp_writeInode i b Q s :
  formatted s → length b = 32%nat → (i < 8)%nat →
  (∀ s', view_of s' = vset_ino i b (view_of s) → formatted s' → Q tt s') →
  wp (ssufs_writeInode (Z.of_nat i) b) Q s.
Proof.
  intros Hf Hb Hi H. apply wp_writeInode_any; [apply Hf|done..|]. intros s' Hv'.
  assert (view_of s' = vset_ino i b (view_of s)) as Hv.
  { rewrite Hv'. unfold vset_ino. f_equal. unfold formatted in Hf. vsimpl. lia. }
  apply H; [done|]. unfold formatted. change (length (disk s')) with (v_len (view_of s')). by rewrite Hv.
Qed.

Lemma wp_readDataBlock k b Q s :
  formatted s → v_blk (view_of s) !! k = Some b → (320 + 64 * k + 64 ≤ v_len (view_of s))%nat →
  (∀ s', view_of s' = view_of s → formatted s' → Q b s') →
  wp (ssufs_readDataBlock (Z.of_nat k)) Q s.
Proof.
  intros Hf Hi Hlen H. pose proof (view_blk_length _ _ _ Hi) as [Hb Hk]. unfold formatted in *.
  apply wp_bind, wp_assertb; [apply Z.ltb_lt; unfold NUM_DATA_BLOCKS; lia|].
  replace (64 * (5 + Z.of_nat k)) with (Z.of_nat (320 + 64 * k)) by lia.
  apply wp_bind, wp_pread; [done|done|]. intros s' Hv Hf'.
  vsimpl. rewrite lookup_slices, decide_True in Hi by done. apply (inj Some) in Hi.
  unfold BLOCKSIZE. rewrite Hi. apply wp_bind, wp_assertb; [by apply bool_decide_eq_true_2|].
  by apply wp_ret, H.
Qed.

Lemma wp_writeDataBlock k b Q s :
  formatted s → length b = 64%nat → (k < 30)%nat →
  (∀ s', view_of s' = vset_blk k b (view_of s) → formatted s' → Q tt s') →
  wp (ssufs_writeDataBlock (Z.of_nat k) b) Q s.
Proof.
  intros Hf Hb Hi H. unfold formatted in *.
  apply wp_bind, wp_assertb; [apply Z.ltb_lt; unfold NUM_DATA_BLOCKS; lia|].
  replace (64 * (5 + Z.of_nat k)) with (Z.of_nat (320 + 64 * k)) by lia.
  apply wp_pwrite; [lia|unfold DISKSIZE; lia|]. intros s' Hpad Hh Hlen.
  apply H; [|unfold formatted, DISKSIZE in *; lia].
  assert (length (pad (disk s)) = DISKSIZE) as HD by (apply length_pad; lia).
  unfold view_of, vset_blk. vsimpl. rewrite Hpad, Hh, Hlen. unfold DISKSIZE in *. f_equal.
  - apply get_put_ne; lia.
  - apply slices_put_ne; lia.
  - apply slices_put; lia.
  - lia.
Qed.

#[global] Arguments view_of : simpl never.
