(* ===== verification/SsufsRep.v ===== *)
(** * Files on the ssufs disk: the representation invariant

    An abstract file system is the table of the 8 inodes, each either free or
    a file with a name and contents.  [rep v F] says that the disk with view
    [v] holds exactly the files of [F]: sizes, names and bytes agree, a block
    is marked used exactly when some inode points to it, and no block has two
    owners. *)

From S2P Require Import Prelude Bytes SsufsDisk SsufsOps SsufsView.

Definition ifl (v : view) (i : nat) : option Z := v_sb v !! (8 + i)%nat.
Definition dfl (v : view) (k : nat) : option Z := v_sb v !! (16 + k)%nat.

(** The name field holds the C string [nm]. *)
Definition named (b nm : list Z) : Prop :=
  nonul nm ∧ (length nm ≤ 7)%nat ∧ ∃ r, get 4 8 b = nm ++ 0 :: r.

Definition owns (v : view) (i j k : nat) : Prop :=
  (j < 4)%nat ∧ ∃ b, v_ino v !! i = Some b ∧ direct b j = Z.of_nat k.

(** Block [j] of a file with contents [data] is on the disk. *)
Definition block_at (v : view) (b data : list Z) (j : nat) : Prop :=
  ∃ k blk, direct b j = Z.of_nat k ∧ v_blk v !! k = Some blk ∧
    (320 + 64 * k + 64 ≤ v_len v)%nat ∧
    get 0 (length data - 64 * j) blk = get (64 * j) 64 data.

Record file_at (v : view) (b nm data : list Z) : Prop := {
  fa_named : named b nm;
  fa_size : fsize b = lenZ data;
  fa_max : (length data ≤ 256)%nat;
  fa_block : ∀ j, (64 * j < length data)%nat → block_at v b data j;
  fa_none : ∀ j, (j < 4)%nat → (length data ≤ 64 * j)%nat → direct b j = -1
}.

Abbreviation table := (list (option (list Z * list Z))).

Record rep (v : view) (F : table) : Prop := {
  rep_sb : length (v_sb v) = 46%nat;
  rep_ni : length (v_ino v) = 8%nat;
  rep_nb : length (v_blk v) = 30%nat;
  rep_li : Forall (λ b, length b = 32%nat) (v_ino v);
  rep_lb : Forall (λ b, length b = 64%nat) (v_blk v);
  rep_len : length F = 8%nat;
  rep_file i nm data : F !! i = Some (Some (nm, data)) →
    ifl v i = Some 49 ∧ ∃ b, v_ino v !! i = Some b ∧ file_at v b nm data;
  rep_free i : F !! i = Some None →
    ifl v i = Some 120 ∧ ∃ b, v_ino v !! i = Some b ∧ fsize b = 0 ∧ ∀ j, (j < 4)%nat → direct b j = -1;
  rep_used k : (k < 30)%nat →
    (dfl v k = Some 49 ∧ ∃ i j, owns v i j k) ∨ (dfl v k = Some 120 ∧ ∀ i j, ¬ owns v i j k);
  rep_excl i i' j j' k : owns v i j k → owns v i' j' k → i = i' ∧ j = j'
}.

(** ** Fields of an inode *)

Lemma len32 o z b : length b = 32%nat → (o ≤ 28)%nat → length (put_u32 o z b) = 32%nat.
Proof. intros. rewrite length_put_u32; lia. Qed.

(** Lengths of an inode with some fields stored. *)
Ltac l32 := repeat (apply len32; [|unfold in_direct, in_file_size, in_status; lia]); done.

Lemma direct_put b j j' z :
  length b = 32%nat → (j < 4)%nat → (j' < 4)%nat →
  direct (put_u32 (in_direct j) z b) j' = if decide (j = j') then i32 z else direct b j'.
Proof.
  intros Hb Hj Hj'. unfold direct, in_direct. case_decide as Hd; [subst; apply get_i32_put; lia|].
  unfold get_i32, put_u32. rewrite get_put_ne; rewrite ?length_le_enc; [done|lia|lia].
Qed.

Lemma direct_put_other b o z j :
  length b = 32%nat → (o + 4 ≤ 16)%nat → direct (put_u32 o z b) j = direct b j.
Proof.
  intros Hb Ho. unfold direct, in_direct, get_i32, put_u32.
  rewrite get_put_ne; rewrite ?length_le_enc; [done|lia|lia].
Qed.

Lemma fsize_put b z : length b = 32%nat → fsize (put_u32 in_file_size z b) = i32 z.
Proof. intros. apply get_i32_put. unfold in_file_size. lia. Qed.

Lemma fsize_put_other b o z :
  length b = 32%nat → (o + 4 ≤ 12 ∨ 16 ≤ o ≤ 28)%nat → fsize (put_u32 o z b) = fsize b.
Proof.
  intros Hb Ho. unfold fsize, in_file_size, get_i32, put_u32.
  rewrite get_put_ne; rewrite ?length_le_enc; [done|lia|lia].
Qed.

Lemma named_put b o z nm :
  length b = 32%nat → (o + 4 ≤ 4 ∨ 12 ≤ o ≤ 28)%nat → named (put_u32 o z b) nm ↔ named b nm.
Proof.
  intros Hb Ho. unfold named, put_u32.
  by rewrite get_put_ne by (rewrite ?length_le_enc; lia).
Qed.

Lemma named_inj b nm nm' : named b nm → named b nm' → nm = nm'.
Proof.
  intros (Hn & _ & r & Hr) (Hn' & _ & r' & Hr').
  apply (strcmp_app nm nm' r r' Hn Hn'). rewrite <- Hr, Hr'.
  by apply (strcmp_app nm' nm' r' r' Hn' Hn').
Qed.

(** ** Consequences of the invariant *)

Lemma rep_ino v F i b : rep v F → v_ino v !! i = Some b → length b = 32%nat ∧ (i < 8)%nat.
Proof.
  intros HR Hi. split; [by apply (Forall_lookup_1 _ _ _ _ (rep_li _ _ HR) Hi)|].
  rewrite <- (rep_ni _ _ HR). by eapply lookup_lt_Some.
Qed.

Lemma rep_blk v F k b : rep v F → v_blk v !! k = Some b → length b = 64%nat ∧ (k < 30)%nat.
Proof.
  intros HR Hi. split; [by apply (Forall_lookup_1 _ _ _ _ (rep_lb _ _ HR) Hi)|].
  rewrite <- (rep_nb _ _ HR). by eapply lookup_lt_Some.
Qed.

Lemma rep_owned v F i j k : rep v F → owns v i j k → (k < 30)%nat → dfl v k = Some 49.
Proof. intros HR Ho Hk. destruct (rep_used _ _ HR k Hk) as [[? _]|[_ Hn]]; [done|]. by destruct (Hn i j). Qed.

Lemma file_at_mono v v' b nm data :
  (∀ j, block_at v b data j → block_at v' b data j) → file_at v b nm data → file_at v' b nm data.
Proof. intros H []. constructor; auto. Qed.

Lemma rep_handles v F h : rep v F → rep (vset_h h v) F.
Proof.
  intros []. constructor; try assumption. intros i nm data Hi.
  destruct (rep_file0 i nm data Hi) as (? & b & ? & ?). split; [done|]. exists b.
  split; [done|]. by apply file_at_mono with v.
Qed.

(** ** Searching the superblock *)

Lemma wp_first_free base n Q s (v := view_of s) :
  formatted s → (base + n ≤ 46)%nat →
  (∀ s', view_of s' = v → formatted s' → (∀ i, (i < n)%nat → v_sb v !! (base + i)%nat ≠ Some 120) →
     Q None s') →
  (∀ k s', (k < n)%nat → v_sb v !! (base + k)%nat = Some 120 →
     (∀ i, (i < k)%nat → v_sb v !! (base + i)%nat ≠ Some 120) →
     view_of s' = vset_sb (<[(base + k)%nat := 49]> (v_sb v)) v → formatted s' → Q (Some (Z.of_nat k)) s') →
  wp (for_ n 0 (λ i,
    c ← of_option (v_sb v !! (base + i)%nat);
    if c =? 120 then
      ssufs_writeSuperBlock (<[(base + i)%nat := 49]> (v_sb v));; mret (Some (Z.of_nat i))
    else mret None)) Q s.
Proof.
  intros Hf Hb HN HS. destruct (view_length s) as [Hl _].
  apply wp_for with (I := λ j s', view_of s' = v ∧ formatted s' ∧
    ∀ i, (i < j)%nat → v_sb v !! (base + i)%nat ≠ Some 120).
  - split_and!; [done..|lia].
  - intros j s' Hj (Hv & Hf' & Hnone).
    destruct (lookup_lt_is_Some_2 (v_sb v) (base + j)) as [c Hc]; [unfold v; lia|].
    apply wp_bind, wp_of_option with c; [done|]. destruct (Z.eqb_spec c 120) as [->|].
    + apply wp_bind, wp_writeSuperBlock; [done|by rewrite length_insert|].
      intros s2 Hv2 Hf2. apply wp_ret, HS; [lia|done|done|by rewrite Hv2, Hv|done].
    + apply wp_ret. split_and!; [done..|]. intros i Hi.
      destruct (decide (i = j)) as [->|]; [congruence|apply Hnone; lia].
  - intros s' (Hv & Hf' & Hnone). by apply HN.
Qed.

Lemma wp_allocDataBlock Q s (v := view_of s) :
  formatted s →
  (∀ s', view_of s' = v → formatted s' → (∀ k, (k < 30)%nat → dfl v k ≠ Some 120) → Q (-1) s') →
  (∀ k s', (k < 30)%nat → dfl v k = Some 120 →
     view_of s' = vset_sb (<[(16 + k)%nat := 49]> (v_sb v)) v → formatted s' → Q (Z.of_nat k) s') →
  wp ssufs_allocDataBlock Q s.
Proof.
  intros Hf HN HS. apply wp_bind, wp_readSuperBlock; [done|]. intros s1 Hv1 Hf1.
  fold v in Hv1 |- *. rewrite <- Hv1. apply wp_bind, (wp_first_free 16 30); [done|lia| |].
  - intros s' Hv Hf' Hn. apply wp_ret, HN; [congruence|done|]. intros k Hk. rewrite <- Hv1. by apply Hn.
  - intros k s' Hk Hfr _ Hv Hf'. rewrite Hv1 in *. by apply wp_ret, HS.
Qed.

Lemma wp_allocInode Q s (v := view_of s) :
  formatted s →
  (∀ s', view_of s' = v → formatted s' → (∀ i, (i < 8)%nat → ifl v i ≠ Some 120) → Q (-1) s') →
  (∀ i s', (i < 8)%nat → ifl v i = Some 120 → (∀ j, (j < i)%nat → ifl v j ≠ Some 120) →
     view_of s' = vset_sb (<[(8 + i)%nat := 49]> (v_sb v)) v → formatted s' → Q (Z.of_nat i) s') →
  wp ssufs_allocInode Q s.
Proof.
  intros Hf HN HS. apply wp_bind, wp_readSuperBlock; [done|]. intros s1 Hv1 Hf1.
  fold v in Hv1 |- *. rewrite <- Hv1. apply wp_bind, (wp_first_free 8 8); [done|lia| |].
  - intros s' Hv Hf' Hn. apply wp_ret, HN; [congruence|done|]. intros k Hk. rewrite <- Hv1. by apply Hn.
  - intros k s' Hk Hfr Hlow Hv Hf'. rewrite Hv1 in *. by apply wp_ret, HS.
Qed.

Lemma wp_freeDataBlock k Q s (v := view_of s) :
  formatted s → (k < 30)%nat → dfl v k = Some 49 →
  (∀ s', view_of s' = vset_sb (<[(16 + k)%nat := 120]> (v_sb v)) v → formatted s' → Q tt s') →
  wp (ssufs_freeDataBlock (Z.of_nat k)) Q s.
Proof.
  intros Hf Hk Hd H. apply wp_bind, wp_readSuperBlock; [done|]. intros s1 Hv1 Hf1. fold v in Hv1 |- *.
  apply wp_bind, wp_of_option with 49; [by rewrite getZ_nat, lookup_drop|].
  apply wp_bind, wp_assertb; [done|]. rewrite Nat2Z.id.
  apply wp_writeSuperBlock; [done|rewrite length_insert; apply (view_length s)|].
  intros s2 Hv2 Hf2. apply H; [by rewrite Hv2, Hv1|done].
Qed.

(** ** Handles *)

Lemma wp_read_handle fh h Q s :
  getZ (v_h (view_of s)) fh = Some h → Q h s → wp (read_handle fh) Q s.
Proof. intros Hh H. unfold read_handle. apply wp_bind. by apply wp_of_option with h. Qed.

Lemma wp_write_handle fh h h0 Q s :
  formatted s → getZ (v_h (view_of s)) fh = Some h0 →
  (∀ s', view_of s' = vset_h (setZ (v_h (view_of s)) fh h) (view_of s) → formatted s' → Q tt s') →
  wp (write_handle fh h) Q s.
Proof.
  intros Hf Hh H. unfold write_handle. apply wp_bind, wp_bind, wp_of_option with h0; [done|]. by apply H.
Qed.

Lemma wp_lseek fh o i n b Q s (v := view_of s) :
  formatted s → getZ (v_h v) fh = Some (FH o (Z.of_nat i)) → v_ino v !! i = Some b →
  0 ≤ o + n ≤ fsize b →
  (∀ s', view_of s' = vset_h (setZ (v_h v) fh (FH (o + n) (Z.of_nat i))) v → formatted s' → Q 0 s') →
  wp (ssufs_lseek fh n) Q s.
Proof.
  intros Hf Hh Hi Hn H. apply wp_bind, wp_read_handle with (FH o (Z.of_nat i)); [done|].
  apply wp_bind, wp_readInode with b; [done..|]. intros s1 Hv1 Hf1. fold v in Hv1.
  pose proof (i32_range (le_dec (get in_file_size 4 b))). fold (get_i32 in_file_size b) in *. fold (fsize b) in *.
  apply wp_bind, wp_int; [cbn [fh_offset]; lia|]. cbn [fh_offset fh_inode].
  rewrite (proj2 (Z.eqb_neq _ _)), (proj2 (Z.ltb_ge _ _)), (proj2 (Z.ltb_ge _ _)) by lia. simpl.
  apply wp_bind, wp_write_handle with (FH o (Z.of_nat i)); [done|by rewrite Hv1|].
  intros s2 Hv2 Hf2. apply wp_ret, H; [by rewrite Hv2, Hv1|done].
Qed.
