(* ===== verification/SsufsSpec.v ===== *)
(** * ssufs refines a table of named byte strings

    Each operation of ssufs-ops.c, run on a disk that represents a table of
    files ([rep]), returns and leaves a disk that represents the table the
    abstract operation gives. *)

From S2P Require Import Prelude Bytes SsufsDisk SsufsOps SsufsView SsufsRep.

(** ** Abstract operations *)

Definition has_name (nm : list Z) (f : option (list Z * list Z)) : Prop := fst <$> f = Some nm.
#[global] Instance has_name_dec nm f : Decision (has_name nm f).
Proof. unfold has_name. apply _. Defined.

Definition lookup_name (nm : list Z) (F : table) : option nat := fst <$> list_find (has_name nm) F.
Definition first_free (F : table) : option nat := fst <$> list_find (λ f, f = None) F.

Lemma first_index {A} (P : A → Prop) `{∀ x, Decision (P x)} (l : list A) i x :
  l !! i = Some x → P x → (∀ j y, (j < i)%nat → l !! j = Some y → ¬ P y) →
  fst <$> list_find P l = Some i.
Proof. intros. by rewrite (proj2 (list_find_Some P l i x)) by naive_solver. Qed.

Lemma first_index_none {A} (P : A → Prop) `{∀ x, Decision (P x)} (l : list A) :
  (∀ j y, l !! j = Some y → ¬ P y) → fst <$> list_find P l = None.
Proof. intros HN. rewrite (proj2 (list_find_None P l)); [done|]. by apply Forall_lookup. Qed.

(** ** Lookup of a name *)

Lemma strcmp_named b nm nm' :
  length b = 32%nat → named b nm → nonul nm' →
  ∃ r, strcmp (drop in_name b) (cstr nm') = Some r ∧ (r = 0 ↔ nm = nm').
Proof.
  intros Hb (Hn & _ & r & Hr) Hn'.
  assert (drop in_name b = nm ++ 0 :: (r ++ drop 12 b)) as ->.
  { unfold in_name. change (0 :: (r ++ drop 12 b)) with ((0 :: r) ++ drop 12 b).
    rewrite app_assoc, <- Hr. unfold get. rewrite <- (take_drop 8 (drop 4 b)) at 1.
    by rewrite drop_drop. }
  destruct (strcmp_app nm nm' (r ++ drop 12 b) [] Hn Hn') as [Hiff [z Hz]].
  exists z. split; [exact Hz|]. rewrite <- Hiff, Hz. split; [by intros ->|by intros [= ->]].
Qed.

Lemma wp_open_namei nm F Q s (v := view_of s) :
  formatted s → rep v F → nonul nm → (length nm ≤ 8)%nat →
  (∀ s', view_of s' = v → formatted s' →
     Q (match lookup_name nm F with Some i => Z.of_nat i | None => -1 end) s') →
  wp (open_namei (cstr nm)) Q s.
Proof.
  intros Hf HR Hnm Hlen H. apply wp_bind, wp_of_option with (length nm); [by apply strlen_app|].
  rewrite (proj2 (Nat.ltb_ge _ _)) by done.
  apply wp_bind, wp_readSuperBlock; [done|]. intros s1 Hv1 Hf1. fold v in Hv1 |- *.
  apply wp_bind, wp_for with (I := λ i s', view_of s' = v ∧ formatted s' ∧
    ∀ j y, (j < i)%nat → F !! j = Some y → ¬ has_name nm y).
  - split_and!; [done..|]. lia.
  - intros i s2 Hi (Hv2 & Hf2 & Hnone). unfold NUM_INODES in Hi.
    destruct (lookup_lt_is_Some_2 F i) as [f HF]; [rewrite (rep_len _ _ HR); lia|].
    assert (¬ has_name nm f → ∀ j y, (j < S i)%nat → F !! j = Some y → ¬ has_name nm y) as Hext.
    { intros Hno j y Hj HFj. destruct (decide (j = i)) as [Hji|].
      - subst j. rewrite HF in HFj. by injection HFj as <-.
      - apply (Hnone j); [lia|done]. }
    destruct f as [[nm' data]|].
    + destruct (rep_file _ _ HR _ _ _ HF) as (Hifl & b & Hb & Hfa).
      apply wp_bind, wp_of_option with 49; [done|].
      apply wp_bind, wp_readInode with b; [done|by rewrite Hv2|]. intros s3 Hv3 Hf3.
      destruct (strcmp_named b nm' nm) as (r & Hr & Hr0); [by eapply rep_ino|apply Hfa|done|].
      apply wp_bind, wp_of_option with r; [done|]. destruct (Z.eqb_spec r 0) as [Hz|Hz].
      * apply wp_ret, wp_ret.
        assert (lookup_name nm F = Some i) as HL.
        { apply (first_index (has_name nm) F i (Some (nm', data))); [done| |done].
          unfold has_name. simpl. f_equal. by apply Hr0. }
        rewrite HL in H. apply H; [congruence|done].
      * apply wp_ret. split_and!; [congruence|done|]. apply Hext. unfold has_name. simpl.
        intros [= ->]. by apply Hz, Hr0.
    + destruct (rep_free _ _ HR _ HF) as (Hifl & b & Hb & _).
      apply wp_bind, wp_of_option with 120; [done|]. apply wp_ret. split_and!; [done..|].
      by apply Hext.
  - intros s2 (Hv2 & Hf2 & Hnone). apply wp_ret.
    assert (lookup_name nm F = None) as HL.
    { apply first_index_none. intros j y HF. eapply Hnone; [|done].
      apply lookup_lt_Some in HF. by rewrite (rep_len _ _ HR) in HF. }
    rewrite HL in H. by apply H.
Qed.

(** ** Changing one inode *)

Definition entry_at (v : view) (i : nat) (b : list Z) (e : option (list Z * list Z)) : Prop :=
  match e with
  | Some (nm, data) => ifl v i = Some 49 ∧ file_at v b nm data
  | None => ifl v i = Some 120 ∧ fsize b = 0 ∧ ∀ j, (j < 4)%nat → direct b j = -1
  end.

Lemma rep_entry v F i e : rep v F → F !! i = Some e → ∃ b, v_ino v !! i = Some b ∧ entry_at v i b e.
Proof.
  intros HR HF. destruct e as [[nm data]|].
  - destruct (rep_file _ _ HR _ _ _ HF) as (? & b & ? & ?). by exists b.
  - destruct (rep_free _ _ HR _ HF) as (? & b & ? & ? & ?). by exists b.
Qed.

Lemma owns_upd v v' i b' i' j k :
  v_ino v' = <[i := b']> (v_ino v) → (i < length (v_ino v))%nat →
  owns v' i' j k ↔ (i' = i ∧ (j < 4)%nat ∧ direct b' j = Z.of_nat k) ∨ (i' ≠ i ∧ owns v i' j k).
Proof.
  intros Hv Hi. unfold owns. rewrite Hv. destruct (decide (i = i')) as [<-|Hne].
  - rewrite list_lookup_insert_eq by done. naive_solver.
  - rewrite list_lookup_insert_ne by done. naive_solver.
Qed.

(** The representation after inode [i] becomes [b'] and its entry [e]. *)
Lemma rep_upd v v' F i b' e :
  rep v F → (i < 8)%nat → length b' = 32%nat →
  length (v_sb v') = 46%nat → length (v_blk v') = 30%nat → Forall (λ b, length b = 64%nat) (v_blk v') →
  v_ino v' = <[i := b']> (v_ino v) →
  (∀ i', i' ≠ i → (i' < 8)%nat → ifl v' i' = ifl v i') →
  (∀ i' b nm data j, i' ≠ i → v_ino v !! i' = Some b → F !! i' = Some (Some (nm, data)) → (64 * j < 256)%nat →
     block_at v b data j → block_at v' b data j) →
  entry_at v' i b' e →
  (∀ k, (k < 30)%nat →
    (dfl v' k = Some 49 ∧ ∃ i j, owns v' i j k) ∨ (dfl v' k = Some 120 ∧ ∀ i j, ¬ owns v' i j k)) →
  (∀ j j' k, (j < 4)%nat → (j' < 4)%nat → direct b' j = Z.of_nat k → direct b' j' = Z.of_nat k → j = j') →
  (∀ i' j j' k, i' ≠ i → owns v i' j k → (j' < 4)%nat → direct b' j' ≠ Z.of_nat k) →
  rep v' (<[i := e]> F).
Proof.
  intros HR Hi Hb Hsb Hnb Hlb Hv Hifl Hblk He Hused Hself Hother.
  assert (i < length (v_ino v))%nat as Hni by (by rewrite (rep_ni _ _ HR)).
  assert (∀ i' e', F !! i' = Some e' → i' ≠ i → ∃ b, v_ino v' !! i' = Some b ∧ entry_at v' i' b e') as Hold.
  { intros i' e' HF Hne. destruct (rep_entry _ _ _ _ HR HF) as (b & Hb1 & He'). exists b.
    rewrite Hv, list_lookup_insert_ne by done. split; [done|].
    assert (i' < 8)%nat as Hi' by (by eapply rep_ino).
    destruct e' as [[nm data]|]; unfold entry_at in *; rewrite Hifl by done; [|done].
    destruct He' as [? Hfa]. split; [done|]. destruct Hfa as [Hn Hs Hm Hbk Hno]. constructor; [done..| |done].
    intros j Hj. eapply Hblk; [done..|lia|]. by apply Hbk. }
  constructor.
  - done.
  - by rewrite Hv, length_insert, (rep_ni _ _ HR).
  - done.
  - rewrite Hv. apply Forall_insert; [apply HR|done].
  - done.
  - by rewrite length_insert, (rep_len _ _ HR).
  - intros i' nm data HF. destruct (decide (i' = i)) as [->|Hne].
    + rewrite list_lookup_insert_eq in HF by (by rewrite (rep_len _ _ HR)). injection HF as ->.
      split; [apply He|]. exists b'. rewrite Hv, list_lookup_insert_eq by done. split; [done|apply He].
    + rewrite list_lookup_insert_ne in HF by done. destruct (Hold _ _ HF Hne) as (b & ? & ? & ?). eauto.
  - intros i' HF. destruct (decide (i' = i)) as [->|Hne].
    + rewrite list_lookup_insert_eq in HF by (by rewrite (rep_len _ _ HR)). injection HF as ->.
      split; [apply He|]. exists b'. rewrite Hv, list_lookup_insert_eq by done. split; [done|apply He].
    + rewrite list_lookup_insert_ne in HF by done. destruct (Hold _ _ HF Hne) as (b & ? & ? & ?). eauto.
  - done.
  - intros i1 i2 j1 j2 k. rewrite !(owns_upd v v' i b') by done.
    intros [(-> & ? & ?)|(? & ?)] [(-> & ? & ?)|(? & ?)].
    + split; [done|by eapply Hself].
    + by edestruct Hother.
    + by edestruct Hother.
    + by eapply (rep_excl _ _ HR).
Qed.

Lemma owns_same v v' i b b' i' j k :
  v_ino v !! i = Some b → v_ino v' = <[i := b']> (v_ino v) →
  (∀ j, (j < 4)%nat → direct b' j = direct b j) → owns v' i' j k ↔ owns v i' j k.
Proof.
  intros Hb Hv Hd. rewrite (owns_upd v v' i b') by (try done; by eapply lookup_lt_Some).
  unfold owns. destruct (decide (i' = i)) as [->|]; [|tauto]. rewrite Hb. split.
  - intros [(_ & ? & ?)|[? _]]; [|done]. split; [done|]. exists b. by rewrite <- Hd.
  - intros (? & b0 & [= <-] & ?). left. by rewrite Hd.
Qed.

(** A change that keeps the inode's block pointers and the used blocks. *)
Lemma rep_upd_same v v' F i b b' e :
  rep v F → v_ino v !! i = Some b → length b' = 32%nat → length (v_sb v') = 46%nat →
  v_blk v' = v_blk v → (v_len v ≤ v_len v')%nat → v_ino v' = <[i := b']> (v_ino v) →
  (∀ i', i' ≠ i → (i' < 8)%nat → ifl v' i' = ifl v i') → (∀ k, dfl v' k = dfl v k) →
  (∀ j, (j < 4)%nat → direct b' j = direct b j) → entry_at v' i b' e →
  rep v' (<[i := e]> F).
Proof.
  intros HR Hb Hb' Hsb Hblk Hlen Hino Hifl Hdfl Hd He.
  destruct (rep_ino _ _ _ _ HR Hb) as [Hl Hi8].
  pose proof (λ i' j k, owns_same v v' i b b' i' j k Hb Hino Hd) as Ho.
  assert (∀ j k, (j < 4)%nat → direct b' j = Z.of_nat k → owns v i j k) as Hown.
  { intros j k Hj HD. rewrite Hd in HD by done. split; [done|by exists b]. }
  apply (rep_upd v v' F i b' e); try done.
  - by rewrite Hblk, (rep_nb _ _ HR).
  - rewrite Hblk. apply HR.
  - intros i' b0 nm data j _ _ _ _ (k & blk & ? & ? & ? & ?). exists k, blk.
    rewrite Hblk. split_and!; [done..|lia|done].
  - intros k Hk. rewrite Hdfl. destruct (rep_used _ _ HR k Hk) as [(? & i' & j & ?)|[? Hn]].
    + left. split; [done|]. exists i', j. by apply Ho.
    + right. split; [done|]. intros i' j. rewrite Ho. apply Hn.
  - intros j j' k Hj Hj' H1 H2. eapply (rep_excl _ _ HR i i); by apply Hown.
  - intros i' j j' k Hne How Hj' H2. exact (Hne (proj1 (rep_excl _ _ HR i' i j j' k How (Hown j' k Hj' H2)))).
Qed.

(** ** Creating a file *)

Lemma strcpy_name nm b :
  nonul nm → (length nm ≤ 7)%nat → length b = 32%nat →
  ∃ b', strcpy in_name (cstr nm) b = Some b' ∧ length b' = 32%nat ∧ named b' nm ∧
    fsize b' = fsize b ∧ ∀ j, direct b' j = direct b j.
Proof.
  intros Hnm Hlen Hb. unfold strcpy. rewrite strlen_cstr by done. unfold in_name.
  rewrite decide_True by lia. rewrite take_ge by (rewrite length_cstr; lia).
  pose proof (length_cstr nm) as Hc.
  eexists. split_and!; [done|by rewrite length_put; lia| | |].
  - split_and!; [done..|]. exists (get (5 + length nm) (7 - length nm) b).
    apply list_eq. intros i. rewrite lookup_get. change (nm ++ 0 :: ?l) with (nm ++ [0] ++ l).
    rewrite app_assoc. fold (cstr nm). destruct (decide (i < length (cstr nm))%nat).
    + rewrite decide_True by lia. rewrite lookup_put, decide_True by lia.
      rewrite lookup_app_l by lia. f_equal. lia.
    + rewrite lookup_app_r, lookup_get by lia. repeat case_decide; try lia; [|done].
      rewrite lookup_put, decide_False by lia. f_equal. lia.
  - unfold fsize, get_i32, in_file_size. by rewrite get_put_ne by lia.
  - intros j. unfold direct, get_i32, in_direct. by rewrite get_put_ne by lia.
Qed.

Lemma create_refines nm F s :
  formatted s → rep (view_of s) F → nonul nm → (length nm ≤ 7)%nat →
  wp (ssufs_create (cstr nm)) (λ r s', formatted s' ∧ v_h (view_of s') = v_h (view_of s) ∧
    match lookup_name nm F, first_free F with
    | None, Some i => r = Z.of_nat i ∧ rep (view_of s') (<[i := Some (nm, [])]> F)
    | _, _ => r = -1 ∧ view_of s' = view_of s
    end) s.
Proof.
  intros Hf HR Hnm Hlen. apply wp_bind, wp_open_namei with F; [done..|lia|]. intros s1 Hv1 Hf1.
  destruct (lookup_name nm F) as [i|].
  { rewrite (proj2 (Z.eqb_neq _ _)) by lia. apply wp_ret. by rewrite Hv1. }
  change (negb (-1 =? -1)) with false. apply wp_bind, wp_allocInode; [done| |].
  - intros s2 Hv2 Hf2 Hnone. apply wp_ret. split; [done|]. rewrite Hv2, Hv1. split; [done|].
    unfold first_free. rewrite first_index_none; [done|]. intros j y HF ->.
    destruct (rep_free _ _ HR _ HF) as [Hi _]. apply (Hnone j); [|by rewrite Hv1].
    apply lookup_lt_Some in HF. by rewrite (rep_len _ _ HR) in HF.
  - intros i s2 Hi Hfree Hlow Hv2 Hf2. rewrite Hv1 in *. rewrite (proj2 (Z.eqb_neq _ _)) by lia.
    destruct (lookup_lt_is_Some_2 F i) as [e HF]; [by rewrite (rep_len _ _ HR)|].
    destruct (rep_entry _ _ _ _ HR HF) as (b & Hb & He).
    assert (e = None) as -> by (destruct e as [[]|]; [destruct He; congruence|done]).
    destruct (rep_ino _ _ _ _ HR Hb) as [Hl _]. destruct He as (_ & Hsz & Hdir).
    apply wp_bind, wp_readInode with b; [done|by rewrite Hv2|]. intros s3 Hv3 Hf3.
    destruct (strcpy_name nm (put_u32 in_status INODE_IN_USE b)) as (b' & Hb' & Hl' & Hn' & Hs' & Hd');
      [done..|by rewrite length_put_u32 by (unfold in_status; lia)|].
    apply wp_bind, wp_of_option with b'; [done|].
    apply wp_bind, wp_writeInode; [done..|]. intros s4 Hv4 Hf4. apply wp_ret.
    rewrite Hv4, Hv3, Hv2. split; [done|]. split; [done|].
    assert (first_free F = Some i) as ->.
    { apply (first_index (λ f, f = None) F i None); [done..|]. intros j y Hj HFj ->.
      apply (Hlow j); [done|]. by destruct (rep_free _ _ HR _ HFj). }
    split; [done|]. assert (length (v_sb (view_of s)) = 46%nat) as Hsb by apply HR.
    rewrite fsize_put_other in Hs' by (try done; unfold in_status; lia).
    assert (∀ j, direct b' j = direct b j) as Hdb.
    { intros j. rewrite Hd'. by apply direct_put_other; [|unfold in_status; lia]. }
    eapply (rep_upd_same _ _ F i b b'); try done.
    + by unfold vset_ino, vset_sb; simpl; rewrite length_insert.
    + intros i' Hne Hi'. unfold ifl; vsimpl. by rewrite list_lookup_insert_ne by lia.
    + intros k. unfold dfl; vsimpl. by rewrite list_lookup_insert_ne by lia.
    + split; [unfold ifl; vsimpl; rewrite list_lookup_insert_eq by lia; done|].
      constructor; [done|by rewrite Hs', Hsz|simpl; lia|simpl; lia|].
      intros j Hj _. rewrite Hdb. by apply Hdir.
Qed.

(** ** Opening a file *)

Definition first_closed (h : list filehandle) : option nat :=
  fst <$> list_find (λ x, fh_inode x = -1) h.

Lemma wp_allocFileHandle Q s :
  length (handles s) = 20%nat →
  Q (match first_closed (handles s) with Some i => Z.of_nat i | None => -1 end) s →
  wp ssufs_allocFileHandle Q s.
Proof.
  intros Hl H. apply wp_bind, wp_for with (I := λ i s', s' = s ∧
    ∀ j y, (j < i)%nat → handles s !! j = Some y → fh_inode y ≠ -1).
  - split; [done|lia].
  - intros i s' Hi [-> Hnone]. unfold MAX_OPEN_FILES in Hi.
    destruct (lookup_lt_is_Some_2 (handles s) i) as [h Hh]; [lia|].
    apply wp_bind, wp_read_handle with h; [by rewrite getZ_nat|]. destruct (Z.eqb_spec (fh_inode h) (-1)) as [He|He].
    + apply wp_ret, wp_ret. unfold first_closed in H.
      by rewrite (first_index (λ x, fh_inode x = -1) (handles s) i h) in H.
    + apply wp_ret. split; [done|]. intros j y Hj Hy. destruct (decide (j = i)) as [->|].
      * rewrite Hh in Hy. by injection Hy as <-.
      * apply (Hnone j); [lia|done].
  - intros s' [-> Hnone]. apply wp_ret. unfold first_closed in H.
    rewrite first_index_none in H; [done|]. intros j y Hy. eapply Hnone; [|done].
    apply lookup_lt_Some in Hy. by rewrite Hl in Hy.
Qed.

Lemma open_refines nm F s :
  formatted s → rep (view_of s) F → nonul nm → (length nm ≤ 8)%nat → length (v_h (view_of s)) = 20%nat →
  wp (ssufs_open (cstr nm)) (λ r s', formatted s' ∧
    match lookup_name nm F, first_closed (v_h (view_of s)) with
    | Some i, Some h => r = Z.of_nat h ∧
        view_of s' = vset_h (setZ (v_h (view_of s)) (Z.of_nat h) (FH 0 (Z.of_nat i))) (view_of s)
    | _, _ => r = -1 ∧ view_of s' = view_of s
    end) s.
Proof.
  intros Hf HR Hnm Hlen Hh. apply wp_bind, wp_open_namei with F; [done..|]. intros s1 Hv1 Hf1.
  assert (handles s1 = v_h (view_of s)) as Hh1 by (by rewrite <- Hv1).
  apply wp_bind, wp_allocFileHandle; [by rewrite Hh1|]. rewrite Hh1.
  destruct (lookup_name nm F) as [i|].
  - rewrite (proj2 (Z.eqb_neq _ _)) by lia. destruct (first_closed _) as [h|] eqn:Hfc.
    + rewrite (proj2 (Z.eqb_neq _ _)) by lia. cbn [orb].
      unfold first_closed in Hfc. apply fmap_Some in Hfc as ([h' x] & Hfc & ->). cbn [fst].
      apply list_find_Some in Hfc as (Hx & _).
      apply wp_bind, wp_write_handle with x; [done|by rewrite Hv1, getZ_nat|]. intros s2 Hv2 Hf2.
      apply wp_ret. split; [done|]. split; [done|]. by rewrite Hv2, Hv1.
    + apply wp_ret. by rewrite Hv1.
  - apply wp_ret. by rewrite Hv1.
Qed.
