(* ===== verification/SsufsWrite.v ===== *)
(** * ssufs: appending to a file and reading it back *)

From S2P Require Import Prelude Bytes SsufsDisk SsufsOps SsufsView SsufsRep SsufsSpec.

(** ** Contents of a growing file *)

Lemma get_app_old {A} off n (l w : list A) :
  (off + n ≤ length l)%nat → get off n (l ++ w) = get off n l.
Proof. intros. unfold get. rewrite drop_app_le by lia. apply take_app_le. rewrite length_drop. lia. Qed.

Lemma get_app_tail {A} off n (l w : list A) :
  (off ≤ length l)%nat → (length l + length w ≤ off + n)%nat → get off n (l ++ w) = drop off l ++ w.
Proof. intros. unfold get. rewrite drop_app_le by lia. apply take_ge. rewrite length_app, length_drop. lia. Qed.

Lemma get_put_prefix {A} o (w blk : list A) :
  (o + length w ≤ length blk)%nat → get 0 (o + length w) (put o w blk) = take o blk ++ w.
Proof.
  intros. unfold get, put. rewrite drop_0, app_assoc.
  rewrite take_app_le by (rewrite length_app, length_take; lia).
  apply take_ge. rewrite length_app, length_take. lia.
Qed.

Lemma get_full {A} n (l : list A) : (length l ≤ n)%nat → get 0 n l = l.
Proof. intros. unfold get. rewrite drop_0. by apply take_ge. Qed.

(** The blocks of a file after [w] is appended into its last block [j], which
    becomes [put o w blk]. *)
Lemma block_at_grow v v' b b' data w j o k blk j' :
  length data = (64 * j + o)%nat → (o + length w ≤ 64)%nat → (64 * j' < length (data ++ w))%nat →
  length blk = 64%nat → (o ≠ 0%nat → take o blk = drop (64 * j) data) →
  direct b' j = Z.of_nat k → (∀ x, (x < j)%nat → direct b' x = direct b x) →
  v_blk v' !! k = Some (put o w blk) → (320 + 64 * k + 64 ≤ v_len v')%nat →
  (v_len v ≤ v_len v')%nat →
  (∀ k' x, (x < j)%nat → direct b x = Z.of_nat k' → v_blk v' !! k' = v_blk v !! k') →
  (∀ x, (64 * x < length data)%nat → block_at v b data x) →
  (∀ k' x, v_blk v !! k' = Some x → length x = 64%nat) →
  block_at v' b' (data ++ w) j'.
Proof.
  intros Hlen Hw Hj' Hblk Ho Hd Hdo Hk Hvl Hmono Hframe Hold Hlb. rewrite length_app in Hj'.
  destruct (decide (j' < j)%nat) as [Hlt|].
  - destruct (Hold j') as (k' & blk' & Hd' & Hb' & Hl' & Hg'); [lia|]. exists k', blk'.
    rewrite Hdo, (Hframe k' j') by done. split_and!; [done..|lia|].
    rewrite get_app_old by lia. rewrite <- Hg', length_app.
    by rewrite !get_full by (rewrite (Hlb _ _ Hb'); lia).
  - assert (j' = j) as -> by lia. exists k, (put o w blk). split_and!; [done..|].
    rewrite get_app_tail by lia. rewrite length_app.
    replace (length data + length w - 64 * j)%nat with (o + length w)%nat by lia.
    rewrite get_put_prefix by lia. f_equal. destruct (decide (o = 0%nat)) as [->|]; [|by apply Ho].
    by rewrite drop_ge by lia.
Qed.

(** ** The representation after a block of an append *)

Lemma owns_direct v i j k b : v_ino v !! i = Some b → (j < 4)%nat → direct b j = Z.of_nat k → owns v i j k.
Proof. intros. split; [done|by exists b]. Qed.

Lemma direct_inj v F i b x x' k :
  rep v F → v_ino v !! i = Some b → (x < 4)%nat → (x' < 4)%nat →
  direct b x = Z.of_nat k → direct b x' = Z.of_nat k → x = x'.
Proof.
  intros HR Hb Hx Hx' H1 H2.
  apply (rep_excl _ _ HR i i x x' k); by eapply owns_direct.
Qed.

Lemma direct_other v F i b i' x x' k :
  rep v F → v_ino v !! i = Some b → i' ≠ i → owns v i' x k → (x' < 4)%nat → direct b x' ≠ Z.of_nat k.
Proof.
  intros HR Hb Hne Ho Hx' Hd. apply Hne.
  apply (rep_excl _ _ HR i' i x x' k); [done|by eapply owns_direct].
Qed.

Lemma rep_eq v v' F : rep v F → v = v' → rep v' F.
Proof. by intros ? <-. Qed.

(** Appending inside the block [k] the file already has. *)
Lemma rep_grow_old v F i b b' nm data w j o k blk :
  rep v F → F !! i = Some (Some (nm, data)) → v_ino v !! i = Some b →
  length data = (64 * j + o)%nat → (0 < o)%nat → (o + length w ≤ 64)%nat → (j < 4)%nat →
  direct b j = Z.of_nat k → v_blk v !! k = Some blk →
  length b' = 32%nat → named b' nm → fsize b' = lenZ (data ++ w) →
  (∀ x, (x < 4)%nat → direct b' x = direct b x) →
  rep (vset_blk k (put o w blk) (vset_ino i b' v)) (<[i := Some (nm, data ++ w)]> F).
Proof.
  intros HR HF Hb Hlen Ho Hw Hj Hd Hblk Hl' Hn' Hs' Hd'.
  destruct (rep_file _ _ HR _ _ _ HF) as (Hifl & b0 & Hb0 & Hfa). rewrite Hb in Hb0. injection Hb0 as <-.
  destruct (rep_blk _ _ _ _ HR Hblk) as [Hlb Hk]. destruct (rep_ino _ _ _ _ HR Hb) as [_ Hi].
  pose proof (owns_direct _ _ _ _ _ Hb Hj Hd) as Hown.
  destruct (fa_block _ _ _ _ Hfa j) as (k0 & blk0 & Hk0 & Hbk0 & Hvl & Hg); [lia|].
  assert (k0 = k) as -> by lia. rewrite Hblk in Hbk0. injection Hbk0 as <-.
  assert (∀ i' j', (i' ≠ i ∨ j' ≠ j) → ∀ k', owns v i' j' k' → k' ≠ k) as Hnk.
  { intros i' j' Hne k' Ho' ->. destruct (rep_excl _ _ HR _ _ _ _ _ Ho' Hown). lia. }
  pose proof (λ i' y z, owns_same v (vset_blk k (put o w blk) (vset_ino i b' v)) i b b' i' y z Hb eq_refl Hd') as Hos.
  apply (rep_upd v _ F i b'); try done.
  - apply HR.
  - vsimpl. by rewrite length_insert, (rep_nb _ _ HR).
  - apply Forall_insert; [apply HR|rewrite length_put; lia].
  - intros i' b1 nm1 data1 x Hne Hb1 HF1 Hx (k1 & blk1 & ? & ? & ? & ?). exists k1, blk1. vsimpl.
    rewrite list_lookup_insert_ne; [split_and!; [done..|lia|done]|].
    intros <-. eapply (Hnk i' x); [by left|by eapply owns_direct; [|lia|]|done].
  - split; [done|]. constructor; [done..| | |].
    + rewrite length_app. lia.
    + intros x Hx. eapply (block_at_grow v _ b b' data w j o k blk x); try done.
      * intros _. unfold get in Hg. rewrite drop_0 in Hg. rewrite (take_ge (drop _ _)) in Hg; [|rewrite length_drop; lia].
        by rewrite <- Hg; f_equal; lia.
      * rewrite Hd' by done. done.
      * intros y Hy. apply Hd'. lia.
      * vsimpl. apply list_lookup_insert_eq. rewrite (rep_nb _ _ HR). lia.
      * vsimpl. lia.
      * vsimpl. lia.
      * intros k' y Hy Hdy. vsimpl. apply list_lookup_insert_ne. intros <-.
        eapply (Hnk i y); [right; lia|by eapply owns_direct; [|lia|]|done].
      * apply Hfa.
      * intros k' y Hy. by eapply rep_blk.
    + intros x Hx Hge. rewrite length_app in Hge. rewrite Hd' by done. apply (fa_none _ _ _ _ Hfa); lia.
  - intros k' Hk'. destruct (rep_used _ _ HR k' Hk') as [(? & i' & x & ?)|[? Hno]].
    + left. split; [done|]. exists i', x. by apply Hos.
    + right. split; [done|]. intros i' x. rewrite Hos. apply Hno.
  - intros x x' k' Hx Hx'. rewrite !Hd' by done. by apply (direct_inj v F i b).
  - intros i' x x' k' Hne Ho' Hx'. rewrite Hd' by done. by eapply (direct_other v F i b).
Qed.

(** Appending the first bytes of a new block [k], taken from the free ones. *)
Lemma rep_grow_new v F i b b' nm data w j k blk :
  rep v F → F !! i = Some (Some (nm, data)) → v_ino v !! i = Some b →
  length data = (64 * j)%nat → (0 < length w ≤ 64)%nat → (j < 4)%nat →
  (k < 30)%nat → dfl v k = Some 120 → length blk = 64%nat →
  length b' = 32%nat → named b' nm → fsize b' = lenZ (data ++ w) →
  direct b' j = Z.of_nat k → (∀ x, (x < 4)%nat → x ≠ j → direct b' x = direct b x) →
  rep (vset_blk k (put 0 w blk) (vset_sb (<[(16 + k)%nat := 49]> (v_sb v)) (vset_ino i b' v)))
    (<[i := Some (nm, data ++ w)]> F).
Proof.
  intros HR HF Hb Hlen Hw Hj Hk Hfree Hlb Hl' Hn' Hs' Hdk Hd'.
  destruct (rep_file _ _ HR _ _ _ HF) as (Hifl & b0 & Hb0 & Hfa). rewrite Hb in Hb0. injection Hb0 as <-.
  destruct (rep_ino _ _ _ _ HR Hb) as [_ Hi]. pose proof (rep_sb _ _ HR) as Hsb.
  assert (∀ i' j' k', owns v i' j' k' → k' ≠ k) as Hnk.
  { intros i' j' k' Ho' ->. pose proof (rep_owned _ _ _ _ _ HR Ho' Hk). congruence. }
  set (v' := vset_blk _ _ _).
  assert (∀ i' x z, owns v' i' x z ↔ (i' = i ∧ x = j ∧ z = k) ∨ owns v i' x z) as Hos.
  { intros i' x z. rewrite (owns_upd v v' i b') by (try done; by rewrite (rep_ni _ _ HR)). split.
    - intros [(-> & Hx & Hz)|[_ ?]]; [|by right]. destruct (decide (x = j)) as [->|]; [left; lia|].
      right. rewrite Hd' in Hz by done. by eapply owns_direct.
    - intros [(-> & -> & ->)|Ho]; [by left|]. destruct (decide (i' = i)) as [->|]; [|by right]. left.
      destruct Ho as (Hx & b1 & Hb1 & Hz). rewrite Hb in Hb1. injection Hb1 as <-. split_and!; [done..|].
      rewrite Hd'; [done..|]. intros ->. rewrite (fa_none _ _ _ _ Hfa) in Hz by lia. lia. }
  apply (rep_upd v v' F i b'); try done.
  - by unfold v'; vsimpl; rewrite length_insert.
  - unfold v'; vsimpl. by rewrite length_insert, (rep_nb _ _ HR).
  - apply Forall_insert; [apply HR|rewrite length_put; lia].
  - intros i' _ Hi'. unfold v', ifl; vsimpl. by rewrite list_lookup_insert_ne by lia.
  - intros i' b1 nm1 data1 x Hne Hb1 HF1 Hx (k1 & blk1 & ? & ? & ? & ?). exists k1, blk1. unfold v'; vsimpl.
    rewrite list_lookup_insert_ne; [split_and!; [done..|lia|done]|].
    intros <-. eapply (Hnk i' x); [by eapply owns_direct; [|lia|]|done].
  - split; [unfold v', ifl; vsimpl; by rewrite list_lookup_insert_ne by lia|]. constructor; [done..| | |].
    + rewrite length_app. lia.
    + intros x Hx. eapply (block_at_grow v v' b b' data w j 0 k blk x); try done; try lia.
      * intros y Hy. apply Hd'; lia.
      * unfold v'; vsimpl. apply list_lookup_insert_eq. rewrite (rep_nb _ _ HR). lia.
      * unfold v'; vsimpl. lia.
      * unfold v'; vsimpl. lia.
      * intros k' y Hy Hdy. unfold v'; vsimpl. apply list_lookup_insert_ne. intros <-.
        eapply (Hnk i y); [by eapply owns_direct; [|lia|]|done].
      * apply Hfa.
      * intros k' y Hy. by eapply rep_blk.
    + intros x Hx Hge. rewrite length_app in Hge. rewrite Hd' by lia. apply (fa_none _ _ _ _ Hfa); lia.
  - intros k' Hk'.
    assert (dfl v' k' = <[(16 + k)%nat := 49]> (v_sb v) !! (16 + k')%nat) as -> by done. destruct (decide (k' = k)) as [->|Hne].
    + left. rewrite list_lookup_insert_eq by lia. split; [done|]. exists i, j. apply Hos. by left.
    + rewrite list_lookup_insert_ne by lia. destruct (rep_used _ _ HR k' Hk') as [(? & i' & x & ?)|[? Hno]].
      * left. split; [done|]. exists i', x. apply Hos. by right.
      * right. split; [done|]. intros i' x. rewrite Hos. intros [?|?]; [lia|by eapply Hno].
  - intros x x' k' Hx Hx' H1 H2. destruct (decide (x = j)) as [->|], (decide (x' = j)) as [->|]; [done| | |].
    + rewrite Hd' in H2 by done. edestruct (Hnk i x' k'); [by eapply owns_direct|lia].
    + rewrite Hd' in H1 by done. edestruct (Hnk i x k'); [by eapply owns_direct|lia].
    + rewrite Hd' in H1, H2 by done. by apply (direct_inj v F i b x x' k').
  - intros i' x x' k' Hne Ho' Hx' H1. destruct (decide (x' = j)) as [->|].
    + edestruct (Hnk i' x k'); [done|lia].
    + rewrite Hd' in H1 by done. by eapply (direct_other v F i b i' x x').
Qed.

(** ** Free blocks *)

Definition nfree (v : view) : nat := length (filter (λ c, c = DATA_BLOCK_FREE) (drop 16 (v_sb v))).
(** Blocks an append of [m] bytes to a file of [n] bytes has to allocate. *)
Definition need (n m : nat) : nat := ((n + m + 63) / 64 - (n + 63) / 64)%nat.

Lemma length_filter_out {A} (P : A → Prop) `{∀ x, Decision (P x)} (l : list A) k x y :
  l !! k = Some x → P x → ¬ P y → S (length (filter P (<[k := y]> l))) = length (filter P l).
Proof.
  intros Hk Hx Hy. pose proof (length_filter_insert P l k x y Hk) as Hl. rewrite decide_True, decide_False in Hl by done. lia.
Qed.

Lemma nfree_alloc v k :
  dfl v k = Some 120 → nfree v = S (nfree (vset_sb (<[(16 + k)%nat := 49]> (v_sb v)) v)).
Proof.
  unfold dfl, nfree. vsimpl. intros Hk. rewrite drop_insert_ge by lia.
  replace (16 + k - 16)%nat with k by lia. symmetry. apply length_filter_out with 120; [|done|done].
  by rewrite lookup_drop.
Qed.

Lemma nfree_pos v : (0 < nfree v)%nat → length (v_sb v) = 46%nat → ∃ k, (k < 30)%nat ∧ dfl v k = Some 120.
Proof.
  unfold nfree, dfl. intros Hpos Hl. destruct (filter _ _) as [|c l] eqn:E; [simpl in Hpos; lia|].
  assert (c ∈ filter (λ c, c = DATA_BLOCK_FREE) (drop 16 (v_sb v))) as Hc by (rewrite E; left).
  apply list_elem_of_filter in Hc as [-> Hc]. apply list_elem_of_lookup in Hc as [k Hk].
  exists k. rewrite lookup_drop in Hk. split; [|done]. apply lookup_lt_Some in Hk. lia.
Qed.

(** ** One block of a write *)

Lemma wp_copy_in n o curr nbytes buf tb Q s :
  length tb = (o + n)%nat → (curr < nbytes ≤ length buf)%nat → (0 < n)%nat →
  (let m := (n `min` (nbytes - curr))%nat in
   Q (bool_decide (nbytes - curr ≤ n)%nat, Z.of_nat (curr + m), put o (get curr m buf) tb) s) →
  wp (copy_in n o (Z.of_nat curr) (Z.of_nat nbytes) buf tb) Q s.
Proof.
  revert o curr tb. induction n as [|n IH]; intros o curr tb Hl Hc Hn H; [lia|]. cbn [copy_in].
  destruct (lookup_lt_is_Some_2 buf curr) as [x Hx]; [lia|].
  apply wp_bind, wp_of_option with x; [by rewrite getZ_nat|]. rewrite insert_put by lia.
  replace (Z.of_nat curr + 1) with (Z.of_nat (S curr)) by lia. cbv zeta in H.
  destruct (decide (n = 0 ∨ S curr = nbytes)%nat) as [Hlast|Hlast].
  - replace (S n `min` (nbytes - curr))%nat with 1%nat in H by lia.
    rewrite (get_cons _ _ x), get_0 in H by done.
    replace (curr + 1)%nat with (S curr) in H by lia.
    destruct (Z.eqb_spec (Z.of_nat (S curr)) (Z.of_nat nbytes)).
    + rewrite bool_decide_eq_true_2 in H by lia. by apply wp_ret.
    + destruct Hlast as [->|]; [|lia]. rewrite bool_decide_eq_false_2 in H by lia. by apply wp_ret.
  - rewrite (proj2 (Z.eqb_neq _ _)) by lia.
    apply IH; [rewrite length_put; simpl; lia|lia|lia|]. cbv zeta.
    rewrite put_cons by (rewrite length_get; lia). rewrite <- get_cons by done.
    rewrite (bool_decide_ext (nbytes - S curr ≤ n)%nat (nbytes - curr ≤ S n)%nat) by lia.
    by replace (S curr + n `min` (nbytes - S curr))%nat with (curr + S n `min` (nbytes - curr))%nat by lia;
      replace (S (n `min` (nbytes - S curr)))%nat with (S n `min` (nbytes - curr))%nat by lia.
Qed.

Lemma strlen_elem (b : list Z) : 0 ∈ b → ∃ n, strlen b = Some n ∧ (n < length b)%nat.
Proof.
  induction b as [|c b IH]; [by intros ?%elem_of_nil|]. intros [Hc|Hc]%elem_of_cons; simpl.
  - exists 0%nat. subst c. split; [done|lia].
  - destruct (Z.eqb_spec c 0); [exists 0%nat; split; [done|lia]|].
    destruct (IH Hc) as (n' & -> & ?). exists (S n'). split; [done|lia].
Qed.

Lemma strcpy_elem src dst :
  0 ∈ src → length src = length dst → ∃ d, strcpy 0 src dst = Some d ∧ length d = length dst.
Proof.
  intros Hin Hl. destruct (strlen_elem src Hin) as (n & Hn & Hlt). unfold strcpy. rewrite Hn.
  rewrite decide_True by lia. eexists. split; [done|]. apply length_put. rewrite length_take. lia.
Qed.

(** ** The write loop, at the end of the file *)

(** The inode as the finished write leaves it, once the file is [data]. *)
Definition pending (data tmp : list Z) : list Z := put_u32 in_file_size (lenZ data) tmp.

Lemma fsize_pending data tmp :
  length tmp = 32%nat → (length data ≤ 256)%nat → fsize (pending data tmp) = lenZ data.
Proof. intros. unfold pending. rewrite fsize_put by done. apply i32_small. unfold lenZ. lia. Qed.

Lemma direct_pending data tmp j : length tmp = 32%nat → direct (pending data tmp) j = direct tmp j.
Proof. intros. apply direct_put_other; [done|unfold in_file_size; lia]. Qed.

Lemma length_pending data tmp : length tmp = 32%nat → length (pending data tmp) = 32%nat.
Proof. intros. unfold pending. rewrite length_put_u32; unfold in_file_size; lia. Qed.

Section append.
Context (fh : Z) (ino : nat) (nm buf : list Z) (sz nbytes : nat).
Hypothesis Hino : (ino < 8)%nat.
Hypothesis Hbuf : (nbytes ≤ length buf)%nat.
Hypothesis Htotal : (sz + nbytes ≤ 256)%nat.

Lemma wp_write_finish F data tmp Q s (v := view_of s) :
  formatted s → rep (vset_ino ino (pending data tmp) v) F → F !! ino = Some (Some (nm, data)) →
  length tmp = 32%nat → fsize tmp = Z.of_nat sz → length data = (sz + nbytes)%nat →
  getZ (v_h v) fh = Some (FH (Z.of_nat sz) (Z.of_nat ino)) →
  (∀ s', formatted s' → rep (view_of s') F →
     v_h (view_of s') = setZ (v_h v) fh (FH (Z.of_nat (sz + nbytes)) (Z.of_nat ino)) → Q 0 s') →
  wp (ssufs_writeInode (Z.of_nat ino) (put_u32 in_file_size (fsize tmp + Z.of_nat nbytes) tmp);;
      ssufs_lseek fh (Z.of_nat nbytes);; mret 0) Q s.
Proof.
  intros Hf HR HF Htmp Hsz Hdata Hh H.
  assert (put_u32 in_file_size (fsize tmp + Z.of_nat nbytes) tmp = pending data tmp) as ->.
  { unfold pending. f_equal. unfold lenZ. lia. }
  apply wp_bind, wp_writeInode; [done|by apply length_pending|done|]. intros s1 Hv1 Hf1.
  apply wp_bind, (wp_lseek fh (Z.of_nat sz) ino (Z.of_nat nbytes) (pending data tmp)); [done|by rewrite Hv1| | |].
  - rewrite Hv1. vsimpl. apply list_lookup_insert_eq. by destruct (view_length s) as (_ & -> & _).
  - rewrite fsize_pending by (try done; lia). unfold lenZ. lia.
  - intros s2 Hv2 Hf2. apply wp_ret, H; [done| |].
    + rewrite Hv2, Hv1. by apply rep_handles.
    + rewrite Hv2, Hv1. vsimpl. do 2 f_equal. lia.
Qed.

(** What the loop needs before the round for block [i], when the file has
    grown to [data]. *)
Record ready (s : fs) (F : table) (data tmp : list Z) (curr : nat) : Prop := {
  rd_fmt : formatted s;
  rd_rep : rep (vset_ino ino (pending data tmp) (view_of s)) F;
  rd_file : F !! ino = Some (Some (nm, data));
  rd_tmp : length tmp = 32%nat;
  rd_sz : fsize tmp = Z.of_nat sz;
  rd_data : length data = (sz + curr)%nat;
  rd_curr : (curr < nbytes)%nat;
  rd_free : (need (length data) (nbytes - curr) ≤ nfree (view_of s))%nat;
  rd_nul : (length data `mod` 64 ≠ 0)%nat →
    ∃ k blk, direct tmp (length data / 64) = Z.of_nat k ∧ v_blk (view_of s) !! k = Some blk ∧ 0 ∈ blk;
  rd_h : getZ (v_h (view_of s)) fh = Some (FH (Z.of_nat sz) (Z.of_nat ino))
}.

Lemma ready_named s F data tmp curr : ready s F data tmp curr → named (pending data tmp) nm.
Proof.
  intros []. destruct (rep_file _ _ rd_rep0 _ _ _ rd_file0) as (_ & b & Hb & Hfa). vsimpl.
  rewrite list_lookup_insert_eq in Hb by (by destruct (view_length s) as (_ & -> & _)).
  injection Hb as <-. apply Hfa.
Qed.

(** After one block: the file has grown by what fits, and at most one block is
    taken. *)
Definition block_written (F : table) (data : list Z) (curr o : nat) (Q : option (bool * Z * list Z * list Z * Z) → fs → Prop) (s : fs) : Prop :=
  let m := ((64 - o) `min` (nbytes - curr))%nat in
  let data' := data ++ get curr m buf in
  ∀ s' tmp' rb' ri', formatted s' → length tmp' = 32%nat → length rb' = 64%nat → fsize tmp' = Z.of_nat sz →
    rep (vset_ino ino (pending data' tmp') (view_of s')) (<[ino := Some (nm, data')]> F) →
    v_h (view_of s') = v_h (view_of s) →
    (nfree (view_of s) = nfree (view_of s') + if decide (o = 0) then 1 else 0)%nat →
    Q (Some (bool_decide (nbytes - curr ≤ 64 - o)%nat, Z.of_nat (curr + m), tmp', rb', ri')) s'.

Lemma wp_write_new_block F data tmp curr i o tb rb ri used Q s :
  o = 0%nat →
  ready s F data tmp curr → length data = (64 * i + o)%nat → (o < 64)%nat → (i < 4)%nat →
  length tb = 64%nat → length rb = 64%nat → block_written F data curr o Q s →
  wp (write_block i buf (Z.of_nat nbytes) tmp (Z.of_nat o) (Z.of_nat curr) tb rb ri used) Q s.
Proof.
  intros Ho0.
  intros HD Hlen Ho Hi Htb Hrb H. unfold block_written in H. pose proof (ready_named _ _ _ _ _ HD) as Hnm.
  destruct HD as [Hf HR HF Htmp Hsz Hdata Hcurr Hfree Hnul Hh]. set (m := ((64 - o) `min` (nbytes - curr))%nat) in *.
  assert (length (get curr m buf) = m) as Hm by (apply length_get; lia).
  set (v := view_of s) in *. destruct (view_length s) as (Hvs & Hvi & Hvb). fold v in Hvs, Hvi, Hvb.
  assert (v_ino (vset_ino ino (pending data tmp) v) !! ino = Some (pending data tmp)) as Hb
    by (vsimpl; apply list_lookup_insert_eq; lia).
  destruct (rep_file _ _ HR _ _ _ HF) as (_ & b0 & Hb0 & Hfa). rewrite Hb in Hb0. injection Hb0 as <-.
  subst o. unfold write_block.
  rewrite (proj2 (Z.eqb_eq (direct tmp i) (-1)))
    by (rewrite <- (direct_pending data tmp) by done; apply (fa_none _ _ _ _ Hfa); lia).
  apply wp_bind, wp_allocDataBlock; [done| |].
  { intros s1 _ _ Hnone. exfalso. destruct (nfree_pos v) as (k & Hk & Hkf); [|done|by apply (Hnone k)].
    unfold need in Hfree. ndlia. }
  intros k s1 Hk Hkf Hv1 Hf1. fold v in Hkf, Hv1. rewrite (proj2 (Z.eqb_neq _ _)) by lia.
  apply wp_bind, wp_ret. rewrite Nat2Z.id.
  apply wp_bind, wp_copy_in; [done|lia|lia|]. fold m. cbv zeta.
  apply wp_bind, wp_writeDataBlock; [done|by rewrite length_put; lia|done|]. intros s2 Hv2 Hf2.
  apply wp_ret. set (tmp' := put_u32 (in_direct i) (Z.of_nat k) tmp).
  assert (length tmp' = 32%nat) as Htmp' by (unfold tmp'; rewrite length_put_u32; unfold in_direct; lia).
  apply H; [done..| | | |].
  + unfold tmp'. by rewrite fsize_put_other by (unfold in_direct; lia).
  + eapply rep_eq; [eapply (rep_grow_new _ F ino _ (pending (data ++ get curr m buf) tmp') nm data (get curr m buf) i k tb HR HF Hb)|];
      try done; try lia.
    * by apply length_pending.
    * unfold pending, tmp', in_file_size, in_direct in *. rewrite !named_put in * by (rewrite ?length_put_u32; lia). done.
    * apply fsize_pending; [done|]. rewrite length_app. lia.
    * rewrite direct_pending by done. unfold tmp'. rewrite direct_put, decide_True by done. apply i32_small. lia.
    * intros x Hx Hne. rewrite !direct_pending by done. unfold tmp'. by rewrite direct_put, decide_False by done.
    * rewrite Hv2, Hv1. unfold vset_ino, vset_blk, vset_sb. vsimpl. by rewrite list_insert_insert_eq.
  + by rewrite Hv2, Hv1.
  + rewrite decide_True by done. rewrite (nfree_alloc v k Hkf), Hv2, Hv1. unfold nfree; vsimpl. lia.
Qed.

Lemma wp_write_last_block F data tmp curr i o tb rb ri used Q s :
  o ≠ 0%nat →
  ready s F data tmp curr → length data = (64 * i + o)%nat → (o < 64)%nat → (i < 4)%nat →
  length tb = 64%nat → length rb = 64%nat → block_written F data curr o Q s →
  wp (write_block i buf (Z.of_nat nbytes) tmp (Z.of_nat o) (Z.of_nat curr) tb rb ri used) Q s.
Proof.
  intros Hno.
  intros HD Hlen Ho Hi Htb Hrb H. unfold block_written in H. pose proof (ready_named _ _ _ _ _ HD) as Hnm.
  destruct HD as [Hf HR HF Htmp Hsz Hdata Hcurr Hfree Hnul Hh]. set (m := ((64 - o) `min` (nbytes - curr))%nat) in *.
  assert (length (get curr m buf) = m) as Hm by (apply length_get; lia).
  set (v := view_of s) in *. destruct (view_length s) as (Hvs & Hvi & Hvb). fold v in Hvs, Hvi, Hvb.
  assert (v_ino (vset_ino ino (pending data tmp) v) !! ino = Some (pending data tmp)) as Hb
    by (vsimpl; apply list_lookup_insert_eq; lia).
  destruct (rep_file _ _ HR _ _ _ HF) as (_ & b0 & Hb0 & Hfa). rewrite Hb in Hb0. injection Hb0 as <-.
  unfold write_block.
  destruct (fa_block _ _ _ _ Hfa i) as (k & blk & Hd & Hblk & Hvl & _); [lia|]. vsimpl.
  rewrite direct_pending in Hd by done. fold v in Hblk.
  destruct (rep_blk _ _ _ _ HR Hblk) as [Hlb Hk].
  rewrite Hd, (proj2 (Z.eqb_neq (Z.of_nat o) 0)), (proj2 (Z.eqb_neq (Z.of_nat k) (-1))) by lia.
  apply wp_bind, wp_ret. rewrite (proj2 (Z.eqb_neq (Z.of_nat k) (-1))) by lia.
  apply wp_bind, wp_bind, wp_readDataBlock with blk; [done..|]. intros s1 Hv1 Hf1. fold v in Hv1.
  assert (0 ∈ blk) as Hz.
  { destruct Hnul as (k' & blk' & Hd' & Hblk' & Hin); [ndlia|].
    replace (length data / 64)%nat with i in Hd' by ndlia.
    assert (k' = k) as -> by lia. rewrite Hblk in Hblk'. by injection Hblk' as <-. }
  destruct (strcpy_elem blk rb Hz) as (rb' & Hrb' & Hlrb); [lia|].
  apply wp_bind, wp_of_option with rb'; [done|]. apply wp_ret. rewrite Nat2Z.id.
  apply wp_bind, wp_copy_in; [lia|lia|lia|]. fold m. cbv zeta.
  apply wp_bind, wp_writeDataBlock; [done|by rewrite length_put; lia|done|]. intros s2 Hv2 Hf2.
  apply wp_ret. set (tmp' := put_u32 (in_direct i) (Z.of_nat k) tmp).
  assert (length tmp' = 32%nat) as Htmp' by (unfold tmp'; rewrite length_put_u32; unfold in_direct; lia).
  apply H; [done..|lia| | | |].
  + unfold tmp'. by rewrite fsize_put_other by (unfold in_direct; lia).
  + eapply rep_eq; [eapply (rep_grow_old _ F ino _ (pending (data ++ get curr m buf) tmp') nm data (get curr m buf) i o k blk HR HF Hb)|];
      try done; try lia.
    * by rewrite direct_pending.
    * by apply length_pending.
    * unfold pending, tmp', in_file_size, in_direct in *. rewrite !named_put in * by (rewrite ?length_put_u32; lia). done.
    * apply fsize_pending; [done|]. rewrite length_app. lia.
    * intros x Hx. rewrite !direct_pending by done. unfold tmp'. rewrite direct_put by done.
      destruct (decide (i = x)) as [<-|]; [rewrite Hd; apply i32_small; lia|done].
    * rewrite Hv2, Hv1. unfold vset_ino, vset_blk, vset_sb. vsimpl. by rewrite list_insert_insert_eq.
  + by rewrite Hv2, Hv1.
  + rewrite decide_False by done. rewrite Hv2, Hv1. unfold nfree; vsimpl. lia.
Qed.

Lemma wp_write_block F data tmp curr i o tb rb ri used Q s :
  ready s F data tmp curr → length data = (64 * i + o)%nat → (o < 64)%nat → (i < 4)%nat →
  length tb = 64%nat → length rb = 64%nat → block_written F data curr o Q s →
  wp (write_block i buf (Z.of_nat nbytes) tmp (Z.of_nat o) (Z.of_nat curr) tb rb ri used) Q s.
Proof. destruct (decide (o = 0%nat)); [by apply wp_write_new_block|by apply wp_write_last_block]. Qed.

(** The loop: blocks before the end of the file are skipped, then the bytes
    go to the last block and to new ones. *)
Lemma wp_write_blocks n : ∀ F data tmp curr i tb rb ri used Q s,
  ready s F data tmp curr → (n + i = 4)%nat → (64 * i ≤ length data)%nat →
  length tb = 64%nat → length rb = 64%nat →
  (∀ s', formatted s' →
     rep (view_of s') (<[ino := Some (nm, data ++ get curr (nbytes - curr) buf)]> F) →
     v_h (view_of s') = setZ (v_h (view_of s)) fh (FH (Z.of_nat (sz + nbytes)) (Z.of_nat ino)) → Q 0 s') →
  wp (write_blocks n i fh (Z.of_nat ino) buf (Z.of_nat nbytes) tmp (lenZ data - 64 * Z.of_nat i)
        (Z.of_nat curr) tb rb ri used) Q s.
Proof.
  induction n as [|n IH]; intros F data tmp curr i tb rb ri used Q s HD Hni Hi Htb Hrb H.
  { destruct HD. lia. }
  cbn [write_blocks]. unfold lenZ. rewrite (proj2 (Z.leb_le _ _)) by lia. cbn [andb].
  pose proof (rd_data _ _ _ _ _ HD) as Hlen. pose proof (rd_curr _ _ _ _ _ HD) as Hcurr.
  destruct (Z.ltb_spec (Z.of_nat (length data) - 64 * Z.of_nat i) 64).
  - set (o := (length data - 64 * i)%nat).
    replace (Z.of_nat (length data) - 64 * Z.of_nat i) with (Z.of_nat o) by lia.
    apply wp_bind, (wp_write_block F data tmp curr i o); [done|lia|lia|lia|done..|].
    cbv beta delta [block_written]. intros m data' s' tmp' rb' ri' Hf' Htmp' Hrb' Hsz' HR' Hh' Hfree'.
    assert (length (get curr m buf) = m) as Hm by (apply length_get; lia).
    assert (<[ino := Some (nm, data')]> F !! ino = Some (Some (nm, data'))) as HF'.
    { apply list_lookup_insert_eq. rewrite (rep_len _ _ (rd_rep _ _ _ _ _ HD)). done. }
    case_bool_decide as Hdone.
    + eapply (wp_write_finish (<[ino := Some (nm, data')]> F) data'); try done.
      * unfold data'. rewrite length_app. lia.
      * rewrite Hh'. apply HD.
      * intros s2 Hf2 HR2 Hh2. apply H; [done| |by rewrite Hh2, Hh'].
        by replace (nbytes - curr)%nat with m by lia.
    + assert (length data' = 64 * S i)%nat as Hd' by (unfold data'; rewrite length_app; lia).
      replace 0 with (lenZ data' - 64 * Z.of_nat (S i)) by (unfold lenZ; lia).
      eapply (IH (<[ino := Some (nm, data')]> F) data'); [|lia|lia|done..|].
      * constructor; try done.
        -- lia.
        -- lia.
        -- pose proof (rd_free _ _ _ _ _ HD) as Hfr. unfold need in *. destruct (decide (o = 0)%nat); ndlia.
        -- intros Hmod. rewrite Hd' in Hmod. ndlia.
        -- rewrite Hh'. apply HD.
      * intros s2 Hf2 HR2 Hh2. apply H; [done| |by rewrite Hh2, Hh'].
        rewrite list_insert_insert_eq in HR2. unfold data' in HR2. rewrite <- app_assoc in HR2.
        rewrite get_app_get in HR2 by lia. by replace (m + (nbytes - (curr + m)))%nat with (nbytes - curr)%nat in HR2 by lia.
  - rewrite (proj2 (Z.eqb_neq _ _)) by lia. cbn [negb].
    replace (Z.of_nat (length data) - 64 * Z.of_nat i - 64) with (lenZ data - 64 * Z.of_nat (S i)) by (unfold lenZ; lia).
    apply (IH F); [done|lia|lia|done..].
Qed.
End append.

Lemma rep_pending v F i nm data b :
  rep v F → F !! i = Some (Some (nm, data)) → v_ino v !! i = Some b →
  rep (vset_ino i (pending data b) v) F.
Proof.
  intros HR HF Hb. destruct (rep_file _ _ HR _ _ _ HF) as (Hifl & b0 & Hb0 & Hfa).
  rewrite Hb in Hb0. injection Hb0 as <-. destruct (rep_ino _ _ _ _ HR Hb) as [Hl Hi].
  rewrite <- (list_insert_id F i _ HF). eapply (rep_upd_same v _ F i b (pending data b)); try done.
  - by apply length_pending.
  - apply HR.
  - intros j _. by apply direct_pending.
  - split; [done|]. destruct Hfa as [Hn Hs Hm Hbk Hno]. constructor.
    + unfold pending. apply named_put; [done|unfold in_file_size; lia|done].
    + by apply fsize_pending.
    + done.
    + intros j Hj. destruct (Hbk j Hj) as (k & blk & ?). exists k, blk. by rewrite direct_pending.
    + intros j Hj Hge. rewrite direct_pending by done. by apply Hno.
Qed.

Lemma write_appends fh ino nm data buf n F s :
  formatted s → rep (view_of s) F → F !! ino = Some (Some (nm, data)) →
  getZ (v_h (view_of s)) fh = Some (FH (lenZ data) (Z.of_nat ino)) →
  (0 < n ≤ length buf)%nat → (length data + n ≤ 256)%nat →
  (need (length data) n ≤ nfree (view_of s))%nat →
  ((length data `mod` 64 ≠ 0)%nat → ∀ b k blk, v_ino (view_of s) !! ino = Some b →
     direct b (length data / 64) = Z.of_nat k → v_blk (view_of s) !! k = Some blk → 0 ∈ blk) →
  wp (ssufs_write fh buf (Z.of_nat n)) (λ r s', r = 0 ∧ formatted s' ∧
    rep (view_of s') (<[ino := Some (nm, data ++ take n buf)]> F) ∧
    v_h (view_of s') = setZ (v_h (view_of s)) fh (FH (lenZ data + Z.of_nat n) (Z.of_nat ino))) s.
Proof.
  intros Hf HR HF Hh Hn Hmax Hfree Hnul.
  destruct (rep_file _ _ HR _ _ _ HF) as (_ & b & Hb & Hfa). destruct (rep_ino _ _ _ _ HR Hb) as [Hl Hi].
  apply wp_bind, wp_read_handle with (FH (lenZ data) (Z.of_nat ino)); [done|].
  apply wp_bind, wp_uninit; [|done]. intros tb s1 Htb _ Hv1 Hf1.
  apply wp_bind, wp_uninit; [|done]. intros rb s2 Hrb _ Hv2 Hf2.
  apply wp_bind, wp_uninit; [|done]. intros ri s3 _ _ Hv3 Hf3.
  assert (view_of s3 = view_of s) as Hv by congruence.
  cbn [fh_inode fh_offset]. apply wp_bind, wp_readInode with b; [done|by rewrite Hv|]. intros s4 Hv4 Hf4.
  rewrite Hv in Hv4. pose proof (fa_size _ _ _ _ Hfa) as Hsz. unfold lenZ in *.
  apply wp_bind, wp_int; [lia|]. rewrite Hsz, (proj2 (Z.ltb_ge _ _)) by lia.
  replace (Z.of_nat (length data)) with (lenZ data - 64 * Z.of_nat 0) at 1 by (unfold lenZ; lia).
  pose proof (rep_pending _ _ _ _ _ _ HR HF Hb) as HRp.
  eapply (wp_write_blocks fh ino nm buf (length data) n Hi ltac:(lia) ltac:(lia) 4 F data b 0); [|lia|lia|done..|].
  - constructor; try done; try lia.
    + by rewrite Hv4.
    + rewrite Hv4, Nat.sub_0_r. done.
    + intros Hmod. destruct (fa_block _ _ _ _ Hfa (length data / 64)) as (k & blk & ? & ? & _); [ndlia|].
      exists k, blk. rewrite Hv4. split_and!; [done..|]. by eapply Hnul.
    + by rewrite Hv4.
  - intros s5 Hf5 HR5 Hh5. rewrite Nat.sub_0_r in HR5. split_and!; [done..|].
    rewrite Hh5, Hv4. do 2 f_equal. lia.
Qed.

(** ** A last block that cannot be saved *)

(** The code saves the partly filled last block with strcpy, before it adds to
    it: there must be a 0 in it. *)
Definition savable (v : view) (ino : nat) (data : list Z) : Prop :=
  (length data `mod` 64 ≠ 0)%nat → ∀ b k blk, v_ino v !! ino = Some b →
    direct b (length data / 64) = Z.of_nat k → v_blk v !! k = Some blk → 0 ∈ blk.

Lemma strlen_none (l : list Z) : 0 ∉ l → strlen l = None.
Proof.
  induction l as [|c l IH]; [done|]. rewrite not_elem_of_cons. intros [Hc Hl]. cbn. destruct (Z.eqb_spec c 0); [congruence|]. by rewrite IH.
Qed.

Lemma write_blocks_overrun n : ∀ i fh ino buf nb tmp sz curr tb rb ri used k blk s,
  formatted s → (n + i = 4)%nat → (64 * i ≤ sz)%nat → (sz < 256)%nat → (sz `mod` 64 ≠ 0)%nat →
  direct tmp (sz / 64) = Z.of_nat k → (320 + 64 * k + 64 ≤ v_len (view_of s))%nat → v_blk (view_of s) !! k = Some blk → 0 ∉ blk →
  fails (write_blocks n i fh ino buf nb tmp (Z.of_nat sz - 64 * Z.of_nat i) curr tb rb ri used) Fault s.
Proof.
  induction n as [|n IH]; intros i fh ino buf nb tmp sz curr tb rb ri used k blk s Hf Hni Hi Hsz Hm Hd Hk Hblk Hz; [lia|].
  cbn [write_blocks]. rewrite (proj2 (Z.leb_le _ _)) by lia. cbn [andb].
  destruct (Z.ltb_spec (Z.of_nat sz - 64 * Z.of_nat i) 64) as [Hlt|Hge].
  - apply fails_bind_l. unfold write_block. replace (sz / 64)%nat with i in Hd by ndlia.
    rewrite Hd, (proj2 (Z.eqb_neq (Z.of_nat k) (-1))) by lia. apply fails_bind, wp_ret. rewrite (proj2 (Z.eqb_neq (Z.of_nat k) (-1))) by lia.
    apply fails_bind_l. rewrite (proj2 (Z.eqb_neq _ 0)) by ndlia. cbn [negb].
    apply fails_bind, wp_readDataBlock with blk; [done..|]. intros s1 _ _. apply fails_bind_l. unfold strcpy. rewrite strlen_none by done. apply fails_fail.
  - rewrite (proj2 (Z.eqb_neq _ _)) by lia. cbn [negb].
    replace (Z.of_nat sz - 64 * Z.of_nat i - 64) with (Z.of_nat sz - 64 * Z.of_nat (S i)) by lia. eapply IH; [done|lia|lia|done..].
Qed.

Lemma write_overruns fh ino nm data buf n F s :
  formatted s → rep (view_of s) F → F !! ino = Some (Some (nm, data)) →
  getZ (v_h (view_of s)) fh = Some (FH (lenZ data) (Z.of_nat ino)) →
  (length data + n ≤ 256)%nat → ¬ savable (view_of s) ino data → fails (ssufs_write fh buf (Z.of_nat n)) Fault s.
Proof.
  intros Hf HR HF Hh Hmax Hns. destruct (rep_file _ _ HR _ _ _ HF) as (_ & b & Hb & Hfa). destruct (rep_ino _ _ _ _ HR Hb) as [Hl Hi].
  destruct (decide (length data `mod` 64 = 0)%nat) as [Hm|Hm]; [exfalso; apply Hns; by intros ?|].
  destruct (fa_block _ _ _ _ Hfa (length data / 64)) as (k & blk & Hd & Hblk & Hk & _); [ndlia|].
  assert (0 ∉ blk) as Hz. { intros Hin. apply Hns. intros _ b' k' blk' Hb' Hd' Hblk'. simplify_eq. assert (k' = k) as -> by lia. congruence. }
  apply fails_bind, wp_read_handle with (FH (lenZ data) (Z.of_nat ino)); [done|].
  apply fails_bind, wp_uninit; [|done]. intros tb s1 Htb _ Hv1 Hf1.
  apply fails_bind, wp_uninit; [|done]. intros rb s2 Hrb _ Hv2 Hf2.
  apply fails_bind, wp_uninit; [|done]. intros ri s3 _ _ Hv3 Hf3. assert (view_of s3 = view_of s) as Hv by congruence.
  cbn [fh_inode fh_offset]. apply fails_bind, wp_readInode with b; [done|by rewrite Hv|]. intros s4 Hv4 Hf4. rewrite Hv in Hv4.
  pose proof (fa_size _ _ _ _ Hfa) as Hsz. pose proof (fa_max _ _ _ _ Hfa). unfold lenZ in *.
  apply fails_bind, wp_int; [lia|]. rewrite Hsz, (proj2 (Z.ltb_ge _ _)) by lia.
  replace (Z.of_nat (length data)) with (Z.of_nat (length data) - 64 * Z.of_nat 0) at 1 by lia.
  eapply (write_blocks_overrun 4); [done|lia|lia|ndlia|done|done|by rewrite Hv4|by rewrite Hv4|done].
Qed.
