(* ===== verification/SsufsRead.v ===== *)
(** * ssufs: reading, deleting and formatting *)

From S2P Require Import Prelude Bytes SsufsDisk SsufsOps SsufsView SsufsRep SsufsSpec SsufsWrite.

(** ** Reading *)

Lemma copy_out_spec rest (curr n : nat) acc :
  (curr < n)%nat →
  let m := (length rest `min` (n - curr))%nat in
  copy_out rest (Z.of_nat curr) (Z.of_nat n) acc =
    (bool_decide (n - curr ≤ length rest)%nat, Z.of_nat (curr + m), acc ++ take m rest).
Proof.
  revert curr acc. induction rest as [|x rest IH]; intros curr acc Hn; cbn [copy_out].
  - simpl. rewrite bool_decide_eq_false_2 by lia. by rewrite app_nil_r, Nat.add_0_r.
  - cbn [length]. replace (Z.of_nat curr + 1) with (Z.of_nat (S curr)) by lia.
    destruct (Z.eqb_spec (Z.of_nat (S curr)) (Z.of_nat n)).
    + replace (S (length rest) `min` (n - curr))%nat with 1%nat by lia.
      rewrite bool_decide_eq_true_2 by lia. cbn [take]. do 3 f_equal. lia.
    + rewrite IH by lia. cbv zeta.
      replace (S (length rest) `min` (n - curr))%nat with (S (length rest `min` (n - S curr))) by lia.
      cbn [take]. rewrite <- app_assoc.
      rewrite (bool_decide_ext (n - S curr ≤ length rest)%nat (n - curr ≤ S (length rest))%nat) by lia.
      do 2 f_equal. f_equal. lia.
Qed.

Lemma drop_block_at v b data j (p : nat) blk k :
  direct b j = Z.of_nat k → v_blk v !! k = Some blk → length blk = 64%nat →
  get 0 (length data - 64 * j) blk = get (64 * j) 64 data →
  (64 * j ≤ p < 64 * j + 64)%nat → ∀ m, (m ≤ 64 * j + 64 - p)%nat → (p + m ≤ length data)%nat →
  take m (drop (p - 64 * j) blk) = get p m data.
Proof.
  intros Hd Hb Hl Hg Hp m Hm Hlen. change (take m (drop ?o blk)) with (get o m blk).
  assert (get (p - 64 * j) m (get 0 (length data - 64 * j) blk) = get (p - 64 * j) m (get (64 * j) 64 data))
    as HE by (by rewrite Hg).
  rewrite !get_get in HE by lia. rewrite Nat.add_0_l in HE. rewrite HE. f_equal. lia.
Qed.

Lemma wp_read_blocks fh ino nm data b off n k : ∀ i curr Q s (v := view_of s),
  formatted s → (∃ F, rep v F ∧ F !! ino = Some (Some (nm, data))) → v_ino v !! ino = Some b →
  getZ (v_h v) fh = Some (FH (Z.of_nat off) (Z.of_nat ino)) →
  (k + i = 4)%nat → (64 * i ≤ off + curr)%nat → (curr < n)%nat → (off + n ≤ length data)%nat →
  (∀ s', formatted s' → view_of s' = vset_h (setZ (v_h v) fh (FH (Z.of_nat (off + n)) (Z.of_nat ino))) v →
     Q (0, get off n data) s') →
  wp (read_blocks k i fh b (Z.of_nat n) (Z.of_nat (off + curr) - 64 * Z.of_nat i) (Z.of_nat curr)
        (get off curr data)) Q s.
Proof.
  induction k as [|k IH]; intros i curr Q s v Hf HR Hb Hh Hi Hlow Hc Hn H.
  { destruct HR as (F & HR & HF). destruct (rep_file _ _ HR _ _ _ HF) as (_ & b0 & _ & Hfa).
    pose proof (fa_max _ _ _ _ Hfa). lia. }
  pose proof HR as (F & HR0 & HF). destruct (rep_file _ _ HR0 _ _ _ HF) as (_ & b0 & Hb0 & Hfa).
  rewrite Hb in Hb0. injection Hb0 as <-.
  cbn [read_blocks]. rewrite (proj2 (Z.leb_le _ _)) by lia. cbn [andb].
  destruct (Z.ltb_spec (Z.of_nat (off + curr) - 64 * Z.of_nat i) 64); cbn [andb].
  - destruct (fa_block _ _ _ _ Hfa i) as (kk & blk & Hd & Hblk & Hvl & Hg); [lia|].
    destruct (rep_blk _ _ _ _ HR0 Hblk) as [Hlb Hk].
    rewrite Hd, (proj2 (Z.eqb_neq _ _)) by lia. cbn [negb].
    apply wp_bind, wp_readDataBlock with blk; [done..|]. intros s1 Hv1 Hf1. fold v in Hv1.
    replace (Z.to_nat (Z.of_nat (off + curr) - 64 * Z.of_nat i)) with (off + curr - 64 * i)%nat by lia.
    pose proof (copy_out_spec (drop (off + curr - 64 * i) blk) curr n (get off curr data) Hc) as Hco.
    rewrite length_drop, Hlb in Hco. cbv zeta in Hco. rewrite Hco.
    rewrite (drop_block_at v b data i (off + curr) blk kk) by (try done; lia).
    rewrite get_app_get by lia. case_bool_decide as Hdone.
    + replace (curr + _)%nat with n by lia.
      apply wp_bind, (wp_lseek fh (Z.of_nat off) ino (Z.of_nat n) b); [done|by rewrite Hv1..| |].
      * rewrite (fa_size _ _ _ _ Hfa). unfold lenZ. lia.
      * intros s2 Hv2 Hf2. apply wp_ret, H; [done|]. rewrite Hv2, Hv1.
        by replace (Z.of_nat off + Z.of_nat n) with (Z.of_nat (off + n)) by lia.
    + set (m := (_ `min` _)%nat).
      replace 0 with (Z.of_nat (off + (curr + m)) - 64 * Z.of_nat (S i)) by lia.
      apply IH; rewrite ?Hv1; try done; try lia.
  - rewrite (proj2 (Z.eqb_neq _ _)) by lia. cbn [negb].
    replace (Z.of_nat (off + curr) - 64 * Z.of_nat i - 64) with (Z.of_nat (off + curr) - 64 * Z.of_nat (S i)) by lia.
    apply IH; try done; lia.
Qed.

Lemma read_slice fh ino nm data off n F s :
  formatted s → rep (view_of s) F → F !! ino = Some (Some (nm, data)) →
  getZ (v_h (view_of s)) fh = Some (FH (Z.of_nat off) (Z.of_nat ino)) →
  (0 < n)%nat → Z.of_nat (off + n) < 2 ^ 31 →
  wp (ssufs_read fh (Z.of_nat n)) (λ r s', formatted s' ∧
    if decide (off + n ≤ length data)%nat
    then r = (0, get off n data) ∧
         view_of s' = vset_h (setZ (v_h (view_of s)) fh (FH (Z.of_nat (off + n)) (Z.of_nat ino))) (view_of s)
    else r = (-1, []) ∧ view_of s' = view_of s) s.
Proof.
  intros Hf HR HF Hh Hn Hov. destruct (rep_file _ _ HR _ _ _ HF) as (_ & b & Hb & Hfa).
  apply wp_bind, wp_read_handle with (FH (Z.of_nat off) (Z.of_nat ino)); [done|].
  apply wp_bind, wp_readInode with b; [done..|]. intros s1 Hv1 Hf1. cbn [fh_offset].
  apply wp_bind, wp_int; [lia|]. rewrite (fa_size _ _ _ _ Hfa). unfold lenZ.
  destruct (decide (off + n ≤ length data)%nat) as [Hin|Hin].
  - rewrite (proj2 (Z.ltb_ge _ _)) by lia.
    replace (Z.of_nat off) with (Z.of_nat (off + 0) - 64 * Z.of_nat 0) at 1 by lia.
    eapply (wp_read_blocks fh ino nm data b off n 4 0 0); rewrite ?Hv1; try done; try lia.
    by exists F.
  - rewrite (proj2 (Z.ltb_lt _ _)) by lia. by apply wp_ret.
Qed.

(** ** Freeing an inode and its blocks *)

(** The rounds of [ssufs_freeInode]: the superblock in memory loses the block,
    whatever is on the disk meanwhile. *)
Definition free_used (sb : list Z) (d : Z) : list Z :=
  if d =? -1 then sb else <[(16 + Z.to_nat d)%nat := 120]> sb.

Lemma wp_free_round i sb ino Q s (v := view_of s) :
  formatted s → length sb = 46%nat →
  (direct ino i = -1 ∨ ∃ k, direct ino i = Z.of_nat k ∧ (k < 30)%nat ∧ sb !! (16 + k)%nat = Some 49) →
  (∀ s' x, formatted s' → view_of s' = vset_sb x v →
     Q (free_used sb (direct ino i), put_u32 (in_direct i) (-1) ino) s') →
  wp (free_round i sb ino) Q s.
Proof.
  intros Hf Hl Hd H. unfold free_round, free_used in *. destruct Hd as [Hd|(k & Hd & Hk & Hsb)]; rewrite Hd in *.
  - apply wp_bind, wp_ret, wp_ret, H with (v_sb v); [done|]. unfold v. by destruct (view_of s).
  - rewrite (proj2 (Z.eqb_neq _ _)) in * by lia. rewrite Nat2Z.id in H. cbn [negb].
    apply wp_bind, wp_bind, wp_writeSuperBlock; [done..|]. intros s1 Hv1 Hf1.
    apply wp_bind, wp_freeDataBlock; [done|done|unfold dfl; by rewrite Hv1|]. intros s2 Hv2 Hf2.
    apply wp_readSuperBlock; [done|]. intros s3 Hv3 Hf3. apply wp_ret.
    rewrite Hv2, Hv1. vsimpl. eapply H; [done|]. rewrite Hv3, Hv2, Hv1. done.
Qed.

Lemma length_free_used sb d : length (free_used sb d) = length sb.
Proof. unfold free_used. case_match; [done|]. by rewrite length_insert. Qed.

Lemma free_used_low sb d x : (x < 16)%nat → free_used sb d !! x = sb !! x.
Proof. intros. unfold free_used. case_match; [done|]. by rewrite list_lookup_insert_ne by lia. Qed.

Lemma free_used_eq sb k : (16 + k < length sb)%nat → free_used sb (Z.of_nat k) !! (16 + k)%nat = Some 120.
Proof.
  intros. unfold free_used. rewrite (proj2 (Z.eqb_neq _ _)) by lia. rewrite Nat2Z.id.
  by apply list_lookup_insert_eq.
Qed.

Lemma free_used_ne sb d k : d ≠ Z.of_nat k → -1 ≤ d → free_used sb d !! (16 + k)%nat = sb !! (16 + k)%nat.
Proof.
  intros. unfold free_used. destruct (Z.eqb_spec d (-1)); [done|]. by rewrite list_lookup_insert_ne by lia.
Qed.

Lemma foldl_free_used ds : ∀ sb k, Forall (λ d, -1 ≤ d) ds →
  length (foldl free_used sb ds) = length sb ∧
  (∀ x, (x < 16)%nat → foldl free_used sb ds !! x = sb !! x) ∧
  ((16 + k < length sb)%nat → foldl free_used sb ds !! (16 + k)%nat =
     if decide (Z.of_nat k ∈ ds) then Some 120 else sb !! (16 + k)%nat).
Proof.
  induction ds as [|d ds IH]; intros sb k Hds; cbn [foldl].
  { split_and!; [done..|]. intros _. rewrite decide_False; [done|]. apply not_elem_of_nil. }
  apply Forall_cons in Hds as [Hd Hds]. destruct (IH (free_used sb d) k Hds) as (Hl & Hlow & Hk).
  rewrite length_free_used in *. split_and!; [done| |].
  - intros x Hx. rewrite Hlow by done. by apply free_used_low.
  - intros Hkl. rewrite Hk by done. destruct (decide (Z.of_nat k ∈ ds)).
    { by rewrite decide_True by (by right). }
    destruct (decide (d = Z.of_nat k)) as [->|Hne].
    + rewrite decide_True by left. by apply free_used_eq.
    + rewrite free_used_ne by done. rewrite decide_False; [done|].
      intros [?|?]%elem_of_cons; [by subst|done].
Qed.

Definition directs (b : list Z) : list Z := direct b <$> seq 0 4.

Lemma elem_of_directs b d : d ∈ directs b ↔ ∃ j, (j < 4)%nat ∧ direct b j = d.
Proof.
  unfold directs. rewrite list_elem_of_fmap. split.
  - intros (j & -> & Hj%elem_of_seq). exists j. split; [lia|done].
  - intros (j & Hj & <-). exists j. split; [done|]. apply elem_of_seq. lia.
Qed.

(** [v'] differs from [v] at most in the contents of the blocks of inode [i]. *)
Record scrubbed (v v' : view) (i : nat) : Prop := {
  sc_sb : v_sb v' = v_sb v;
  sc_ino : v_ino v' = v_ino v;
  sc_h : v_h v' = v_h v;
  sc_len : (v_len v ≤ v_len v')%nat;
  sc_nb : length (v_blk v') = 30%nat;
  sc_lb : Forall (λ b, length b = 64%nat) (v_blk v');
  sc_blk k : (∀ j, ¬ owns v i j k) → v_blk v' !! k = v_blk v !! k
}.

Lemma file_directs v F i nm data b :
  rep v F → F !! i = Some (Some (nm, data)) → v_ino v !! i = Some b → ∀ j, (j < 4)%nat →
  direct b j = -1 ∨ ∃ k blk, direct b j = Z.of_nat k ∧ (k < 30)%nat ∧ dfl v k = Some 49 ∧
    v_blk v !! k = Some blk ∧ (320 + 64 * k + 64 ≤ v_len v)%nat.
Proof.
  intros HR HF Hb j Hj. destruct (rep_file _ _ HR _ _ _ HF) as (_ & b0 & Hb0 & Hfa).
  rewrite Hb in Hb0. injection Hb0 as <-.
  destruct (decide (length data ≤ 64 * j)%nat); [left; by apply (fa_none _ _ _ _ Hfa)|right].
  destruct (fa_block _ _ _ _ Hfa j) as (k & blk & Hk & Hblk & Hlen & _); [lia|].
  destruct (rep_blk _ _ _ _ HR Hblk) as [_ Hk30]. exists k, blk. split_and!; [done..| |done|done].
  apply (rep_owned v F i j k); [done| |done]. by eapply owns_direct.
Qed.

Lemma directs_ge v F i nm data b :
  rep v F → F !! i = Some (Some (nm, data)) → v_ino v !! i = Some b → Forall (λ d, -1 ≤ d) (directs b).
Proof.
  intros HR HF Hb. apply Forall_forall. intros d (j & Hj & <-)%elem_of_directs.
  destruct (file_directs _ _ _ _ _ _ HR HF Hb j Hj) as [?|(k & ? & ? & _)]; lia.
Qed.

(** The disk after inode [i] and its blocks are released. *)
Lemma rep_freed v v' F i nm data b b' :
  rep v F → F !! i = Some (Some (nm, data)) → v_ino v !! i = Some b → scrubbed v v' i →
  length b' = 32%nat → fsize b' = 0 → (∀ j, (j < 4)%nat → direct b' j = -1) →
  rep (vset_ino i b' (vset_sb (foldl free_used (<[(8 + i)%nat := 120]> (v_sb v)) (directs b)) v'))
    (<[i := None]> F).
Proof.
  intros HR HF Hb Hsc Hl Hsz Hd. destruct (rep_file _ _ HR _ _ _ HF) as (_ & b0 & Hb0 & Hfa).
  rewrite Hb in Hb0. injection Hb0 as <-. destruct (rep_ino _ _ _ _ HR Hb) as [_ Hi].
  pose proof (rep_sb _ _ HR) as Hsb.
  pose proof (directs_ge _ _ _ _ _ _ HR HF Hb) as Hge.
  pose proof (λ k, foldl_free_used (directs b) (<[(8 + i)%nat := 120]> (v_sb v)) k Hge) as Hfold.
  set (sb' := foldl _ _ _) in *. set (v2 := vset_ino i b' _).
  assert (∀ i' j k, owns v2 i' j k ↔ i' ≠ i ∧ owns v i' j k) as Hos.
  { intros i' j k. rewrite (owns_upd v v2 i b'); [|unfold v2; vsimpl; by rewrite (sc_ino _ _ _ Hsc)|by rewrite (rep_ni _ _ HR)].
    split; [|by right]. intros [(-> & Hj & HE)|?]; [|done]. rewrite Hd in HE by done. lia. }
  assert (∀ k, Z.of_nat k ∈ directs b ↔ ∃ j, owns v i j k) as Hiff.
  { intros k. rewrite elem_of_directs. unfold owns. split.
    - intros (j & ? & ?). by exists j; split; [|exists b].
    - intros (j & ? & b1 & Hb1 & ?). rewrite Hb in Hb1. injection Hb1 as <-. by exists j. }
  assert (∀ k, (k < 30)%nat → dfl v2 k = if decide (Z.of_nat k ∈ directs b) then Some 120 else dfl v k) as Hdfl.
  { intros k Hk. unfold dfl. destruct (Hfold k) as (_ & _ & HE). unfold v2; vsimpl.
    rewrite HE by (rewrite length_insert; lia). by rewrite list_lookup_insert_ne by lia. }
  apply (rep_upd v v2 F i b' None); try done.
  - destruct (Hfold 0%nat) as [HE _]. unfold v2; vsimpl. by rewrite HE, length_insert.
  - apply Hsc.
  - apply Hsc.
  - unfold v2; vsimpl. by rewrite (sc_ino _ _ _ Hsc).
  - intros i' Hne Hi'. unfold ifl, v2; vsimpl. destruct (Hfold 0%nat) as (_ & HE & _).
    rewrite HE by lia. by rewrite list_lookup_insert_ne by lia.
  - intros i' b1 nm1 data1 j Hne Hb1 HF1 Hj (k & blk & Hk & Hblk & Hlen & Hg). exists k, blk.
    unfold v2; vsimpl. rewrite (sc_blk _ _ _ Hsc).
    + pose proof (sc_len _ _ _ Hsc). split_and!; [done..|lia|done].
    + intros j' Ho. apply Hne.
      apply (rep_excl _ _ HR i' i j j' k); [by eapply owns_direct; [|lia|]|done].
  - split; [|done]. unfold ifl, v2; vsimpl. destruct (Hfold 0%nat) as (_ & HE & _).
    rewrite HE by lia. apply list_lookup_insert_eq. lia.
  - intros k Hk. rewrite Hdfl by done. destruct (decide _) as [Hin|Hin].
    + right. split; [done|]. apply Hiff in Hin as [j Hj]. intros i' j'. rewrite Hos. intros [Hne Ho'].
      apply Hne. by apply (rep_excl _ _ HR i' i j' j k).
    + destruct (rep_used _ _ HR k Hk) as [(? & i' & j & Ho)|[? Hno]].
      * left. split; [done|]. exists i', j. apply Hos. split; [|done]. intros ->. apply Hin, Hiff. by exists j.
      * right. split; [done|]. intros i' j. rewrite Hos. intros [_ Ho]. by eapply Hno.
  - intros j j' k Hj _ HE. rewrite Hd in HE by done. lia.
  - intros i' j j' k _ _ Hj'. rewrite Hd by done. lia.
Qed.

Lemma wp_free_rounds n : ∀ i sb b Q s (v := view_of s),
  (n + i = 4)%nat → formatted s → length sb = 46%nat → length b = 32%nat →
  (∀ j, (i ≤ j < 4)%nat → direct b j = -1 ∨
     ∃ k, direct b j = Z.of_nat k ∧ (k < 30)%nat ∧ sb !! (16 + k)%nat = Some 49) →
  (∀ j j', (i ≤ j < 4)%nat → (i ≤ j' < 4)%nat → direct b j ≠ -1 → direct b j = direct b j' → j = j') →
  (∀ s' x b', formatted s' → view_of s' = vset_sb x v → length b' = 32%nat → fsize b' = fsize b →
     (∀ j, (j < 4)%nat → direct b' j = if decide (i ≤ j)%nat then -1 else direct b j) →
     Q (foldl free_used sb (direct b <$> seq i n), b') s') →
  wp (free_rounds n i sb b) Q s.
Proof.
  induction n as [|n IH]; intros i sb b Q s v Hni Hf Hsb Hb Hd Hinj H; cbn [free_rounds].
  { apply wp_ret, H with (v_sb v); [done|unfold v; by destruct (view_of s)|done|done|].
    intros j Hj. by rewrite decide_False by lia. }
  apply wp_bind, wp_free_round; [done|done|apply Hd; lia|]. intros s1 x Hf1 Hv1. fold v in Hv1.
  assert (∀ j, (S i ≤ j < 4)%nat → direct (put_u32 (in_direct i) (-1) b) j = direct b j) as Hsame.
  { intros j Hj. by rewrite direct_put, decide_False by lia. }
  apply IH; [lia|done|by rewrite length_free_used|rewrite length_put_u32; unfold in_direct; lia|..].
  - intros j Hj. rewrite Hsame by done. destruct (Hd j) as [?|(k & Hk & Hk30 & Hs)]; [lia|by left|].
    right. exists k. split_and!; [done..|]. rewrite free_used_ne; [done| |].
    + intros Hik. assert (i = j); [|lia]. apply Hinj; [lia|lia| |congruence]. lia.
    + destruct (Hd i) as [?|(? & ? & _)]; lia.
  - intros j j' Hj Hj'. rewrite !Hsame by done. apply Hinj; lia.
  - intros s' y b' Hf' Hv' Hb' Hs' Hd'. cbn [seq fmap list_fmap foldl].
    assert (direct (put_u32 (in_direct i) (-1) b) <$> seq (S i) n = direct b <$> seq (S i) n) as ->.
    { apply list_fmap_ext. intros z j Hz. apply Hsame. apply lookup_seq in Hz. lia. }
    apply H with y; [done|by rewrite Hv', Hv1|done| |].
    + rewrite Hs'. apply fsize_put_other; [done|unfold in_direct; lia].
    + intros j Hj. rewrite Hd' by done. rewrite direct_put by lia. repeat case_decide; try lia; done.
Qed.

Lemma wp_freeInode i F nm data v Q s :
  formatted s → rep v F → F !! i = Some (Some (nm, data)) → scrubbed v (view_of s) i →
  (∀ s', formatted s' → rep (view_of s') (<[i := None]> F) → v_h (view_of s') = v_h v → Q tt s') →
  wp (ssufs_freeInode (Z.of_nat i)) Q s.
Proof.
  intros Hf HR HF Hsc H. destruct (rep_file _ _ HR _ _ _ HF) as (Hifl & b & Hb & Hfa).
  destruct (rep_ino _ _ _ _ HR Hb) as [Hl Hi]. pose proof (rep_sb _ _ HR) as Hsb.
  apply wp_bind, wp_assertb; [apply Z.ltb_lt; unfold NUM_INODES; lia|].
  apply wp_bind, wp_readSuperBlock; [done|]. intros s1 Hv1 Hf1.
  apply wp_bind, wp_readInode with b; [done|by rewrite Hv1, (sc_ino _ _ _ Hsc)|]. intros s2 Hv2 Hf2.
  rewrite (sc_sb _ _ _ Hsc). apply wp_bind, wp_of_option with 49.
  { rewrite getZ_nat, lookup_take_lt, lookup_drop by (unfold NUM_INODES; lia). done. }
  apply wp_bind, wp_assertb; [done|]. rewrite Nat2Z.id. cbv zeta.
  set (b0 := put_u32 in_file_size 0 (put_u32 in_status INODE_FREE b)).
  assert (length b0 = 32%nat) as Hb0l by (unfold b0; rewrite !length_put_u32; unfold in_file_size, in_status;
    rewrite ?length_put_u32; lia).
  assert (∀ j, direct b0 j = direct b j) as Hb0d.
  { intros j. unfold b0. rewrite !direct_put_other; [done|..]; unfold in_file_size, in_status;
      rewrite ?length_put_u32; lia. }
  apply wp_bind, wp_free_rounds; [done|done|by rewrite length_insert|done| | |].
  - intros j Hj. rewrite Hb0d. destruct (file_directs _ _ _ _ _ _ HR HF Hb j) as [?|(k & _ & ? & ? & ? & _)]; [lia|by left|].
    right. exists k. split_and!; [done..|]. unfold sb_inode_freelist. by rewrite list_lookup_insert_ne by lia.
  - intros j j' Hj Hj'. rewrite !Hb0d. intros Hne HE.
    destruct (file_directs _ _ _ _ _ _ HR HF Hb j) as [?|(k & _ & Hk & _)]; [lia|done|].
    apply (direct_inj v F i b j j' k); [done|done|lia|lia|done|congruence].
  - intros s3 x b' Hf3 Hv3 Hb' Hs' Hd'.
    assert (direct b0 <$> seq 0 MAX_FILE_SIZE = directs b) as -> by (apply list_fmap_ext; auto).
    assert (fsize b' = 0) as Hsz.
    { rewrite Hs'. unfold b0. rewrite fsize_put; [done|]. rewrite length_put_u32; unfold in_status; lia. }
    apply wp_bind, wp_writeSuperBlock; [done| |].
    { rewrite (proj1 (foldl_free_used _ _ 0 (directs_ge _ _ _ _ _ _ HR HF Hb))). by rewrite length_insert. }
    intros s4 Hv4 Hf4. apply wp_writeInode; [done..|]. intros s5 Hv5 Hf5.
    apply H; [done| |by rewrite Hv5, Hv4, Hv3, Hv2, Hv1; apply Hsc].
    eapply rep_eq; [eapply (rep_freed v (view_of s) F i nm data b b'); try done|].
    by rewrite Hv5, Hv4, Hv3, Hv2, Hv1.
Qed.

(** ** Deleting a file *)

Lemma scrubbed_refl v F i : rep v F → scrubbed v v i.
Proof. intros HR. constructor; try done; apply HR. Qed.

Lemma scrubbed_blk v v' i j k x :
  scrubbed v v' i → owns v i j k → length x = 64%nat → scrubbed v (vset_blk k x v') i.
Proof.
  intros [] Ho Hx. constructor; vsimpl; try done.
  - lia.
  - by rewrite length_insert.
  - by apply Forall_insert.
  - intros k' Hk'. rewrite list_lookup_insert_ne; [by apply sc_blk0|]. intros <-. by apply (Hk' j).
Qed.

Lemma delete_refines nm F s :
  formatted s → rep (view_of s) F → nonul nm → (length nm ≤ 8)%nat →
  wp (ssufs_delete (cstr nm)) (λ _ s', formatted s' ∧ v_h (view_of s') = v_h (view_of s) ∧
    match lookup_name nm F with
    | Some i => rep (view_of s') (<[i := None]> F)
    | None => view_of s' = view_of s
    end) s.
Proof.
  intros Hf HR Hnm Hlen. apply wp_bind, wp_open_namei with F; [done..|]. intros s1 Hv1 Hf1.
  destruct (lookup_name nm F) as [i|] eqn:HL; [|apply wp_ret; by rewrite Hv1].
  rewrite (proj2 (Z.eqb_neq _ _)) by lia.
  unfold lookup_name in HL. apply fmap_Some in HL as ([i' e] & HL & ->). cbn [fst].
  apply list_find_Some in HL as (HF & Hname & _). destruct e as [[nm' data]|]; [|done].
  destruct (rep_file _ _ HR _ _ _ HF) as (_ & b & Hb & Hfa).
  apply wp_bind, wp_readInode with b; [done|by rewrite Hv1|]. intros s2 Hv2 Hf2.
  set (v := view_of s) in *. apply wp_bind, wp_for with (I := λ _ s', formatted s' ∧ scrubbed v (view_of s') i').
  - split; [done|]. rewrite Hv2, Hv1. by eapply scrubbed_refl.
  - intros j s3 Hj [Hf3 Hsc]. unfold MAX_FILE_SIZE in Hj.
    destruct (file_directs _ _ _ _ _ _ HR HF Hb j) as [Hd|(k & blk & Hd & Hk & _ & Hblk & Hvl)]; [lia| |].
    + rewrite Hd. by apply wp_ret.
    + rewrite Hd, (proj2 (Z.eqb_neq _ _)) by lia. cbn [negb].
      destruct (lookup_lt_is_Some_2 (v_blk (view_of s3)) k) as [buf Hbuf]; [by rewrite (sc_nb _ _ _ Hsc)|].
      assert (length buf = 64%nat) as Hlb by apply (Forall_lookup_1 _ _ _ _ (sc_lb _ _ _ Hsc) Hbuf). pose proof (sc_len _ _ _ Hsc).
      apply wp_bind, wp_readDataBlock with buf; [done|done|lia|]. intros s4 Hv4 Hf4.
      assert (length (put 0 (replicate 8 0) buf) = 64%nat) by (rewrite length_put; rewrite ?length_replicate; lia).
      apply wp_bind, wp_writeDataBlock; [done..|]. intros s5 Hv5 Hf5. apply wp_ret. split; [done|].
      rewrite Hv5, Hv4. apply scrubbed_blk with j; [done| |done]. eapply owns_direct; [done|lia|done].
  - intros s3 [Hf3 Hsc]. apply (wp_freeInode i' F nm' data v); done.
Qed.

(** ** Formatting *)

Lemma format_inode ino : length ino = 32%nat →
  let b := put_u32 (in_direct 3) (-1) (put_u32 (in_direct 2) (-1) (put_u32 (in_direct 1) (-1)
    (put_u32 (in_direct 0) (-1) (put_u32 in_file_size 0 (put_u32 in_status INODE_FREE (put in_name [0] ino)))))) in
  length b = 32%nat ∧ fsize b = 0 ∧ ∀ j, (j < 4)%nat → direct b j = -1.
Proof.
  intros Hl b. assert (length (put in_name [0] ino) = 32%nat) as H0 by (rewrite length_put; unfold in_name; simpl; lia).
  unfold b. set (b0 := put_u32 in_file_size _ _). assert (length b0 = 32%nat) as Hb0 by (unfold b0; l32).
  assert (fsize b0 = 0) as Hs0 by (unfold b0; rewrite fsize_put; [done|l32]).
  split_and!; [l32| |].
  - by rewrite !fsize_put_other by (l32 || (unfold in_direct; lia)).
  - intros j Hj. rewrite !direct_put by (l32 || lia). repeat case_decide; try done. lia.
Qed.

Lemma format_superblock nmb sb :
  length nmb = 8%nat → length sb = 46%nat →
  let sb' := put (16 + 0) (replicate NUM_DATA_BLOCKS DATA_BLOCK_FREE)
               (put (8 + 0) (replicate NUM_INODES INODE_FREE) (put 0 nmb sb)) in
  length sb' = 46%nat ∧
  (∀ i, (i < 8)%nat → sb' !! (8 + i)%nat = Some 120) ∧ (∀ k, (k < 30)%nat → sb' !! (16 + k)%nat = Some 120) ∧
  length (filter (λ c, c = DATA_BLOCK_FREE) (drop 16 sb')) = 30%nat.
Proof.
  intros Hn Hs. cbv zeta. set (sb1 := put 0 nmb sb).
  assert (length sb1 = 46%nat) as H1 by (unfold sb1; rewrite length_put; lia).
  assert (length (put (8 + 0) (replicate NUM_INODES INODE_FREE) sb1) = 46%nat) as H2
    by (rewrite length_put by (rewrite length_replicate; unfold NUM_INODES; lia); done).
  split_and!.
  - rewrite length_put by (rewrite length_replicate; unfold NUM_DATA_BLOCKS; lia). done.
  - intros i Hi. rewrite lookup_put by (rewrite length_replicate; unfold NUM_DATA_BLOCKS; lia).
    rewrite decide_False by lia. rewrite lookup_put by (rewrite length_replicate; unfold NUM_INODES; lia).
    rewrite length_replicate, decide_True by (unfold NUM_INODES; lia). apply lookup_replicate_2. unfold NUM_INODES; lia.
  - intros k Hk. rewrite lookup_put by (rewrite length_replicate; unfold NUM_DATA_BLOCKS; lia).
    rewrite length_replicate, decide_True by (unfold NUM_DATA_BLOCKS; lia). apply lookup_replicate_2.
    unfold NUM_DATA_BLOCKS; lia.
  - unfold put at 1. rewrite drop_app_ge by (rewrite length_take; lia). rewrite length_take, H2.
    rewrite drop_ge with (n := (16 + 0 + _)%nat) by (rewrite length_replicate; unfold NUM_DATA_BLOCKS; lia).
    done.
Qed.

Lemma view_blk_lengths s : Forall (λ b, length b = 64%nat) (v_blk (view_of s)).
Proof. apply Forall_lookup. intros k b Hb. by eapply view_blk_length. Qed.

Lemma rep_blank v ino :
  length (v_sb v) = 46%nat → length (v_ino v) = 8%nat → length (v_blk v) = 30%nat →
  Forall (λ b, length b = 64%nat) (v_blk v) → (∀ j, (j < 8)%nat → v_ino v !! j = Some ino) →
  (∀ i, (i < 8)%nat → v_sb v !! (8 + i)%nat = Some 120) → (∀ k, (k < 30)%nat → v_sb v !! (16 + k)%nat = Some 120) →
  length ino = 32%nat → fsize ino = 0 → (∀ j, (j < 4)%nat → direct ino j = -1) →
  rep v (replicate 8 None).
Proof.
  intros Hsb Hni Hnb Hlb Hall Hif Hdf Hl Hs Hd.
  assert (∀ i b, v_ino v !! i = Some b → b = ino) as Heq.
  { intros i b Hb. rewrite Hall in Hb; [congruence|]. rewrite <- Hni. by eapply lookup_lt_Some. }
  assert (∀ i j k, ¬ owns v i j k) as Hno.
  { intros i j k (Hj & b & Hb & HE). rewrite (Heq _ _ Hb), Hd in HE by done. lia. }
  constructor; try done.
  - apply Forall_lookup. intros i b Hb. by rewrite (Heq _ _ Hb).
  - intros i nm data HF%lookup_replicate_1. by destruct HF.
  - intros i HF%lookup_replicate_1. destruct HF as [_ Hi]. split; [by apply Hif|]. exists ino. by rewrite Hall.
  - intros k Hk. right. split; [by apply Hdf|]. intros; apply Hno.
  - intros i i' j j' k Ho. by apply Hno in Ho.
Qed.

Lemma format_empty s :
  wp ssufs_formatDisk (λ _ s', formatted s' ∧ rep (view_of s') (replicate 8 None) ∧
    nfree (view_of s') = 30%nat ∧ v_h (view_of s') = replicate 20 (FH 0 (-1))) s.
Proof.
  apply wp_bind, wp_modify. set (s0 := set_disk [] 0 s).
  apply wp_bind, wp_uninit_any. intros sb s1 Hsb _ Hv1.
  apply wp_bind, wp_uninit_any. intros two s2 Htwo _ Hv2. cbv zeta. unfold sb_inode_freelist, sb_datablock_freelist.
  set (nmb := [115; 115; 117; 102; 115; 0] ++ two).
  assert (length nmb = 8%nat) as Hnmb by (unfold nmb; rewrite length_app, Htwo; done).
  destruct (format_superblock nmb sb Hnmb Hsb) as (Hsb' & Hif & Hdf & Hnf).
  set (sb' := put (16 + 0) _ _) in *.
  assert (v_len (view_of s0) = 0%nat) as Hl0 by done. rewrite Hv1 in Hv2.
  set (v0 := view_of s0) in *. clearbody v0 sb'.
  apply wp_bind, wp_writeSuperBlock_any; [rewrite Hv2, Hl0; unfold DISKSIZE; lia|done|].
  intros s3 Hv3. rewrite Hv2, Hl0 in Hv3.
  apply wp_bind, wp_uninit_any. intros ino s4 Hino _ Hv4. rewrite Hv3 in Hv4.
  destruct (format_inode ino Hino) as (Hil & His & Hid). set (ino1 := put_u32 (in_direct 3) _ _) in *.
  apply wp_bind, wp_for with (I := λ i s', length (v_ino (view_of s')) = 8%nat ∧
    (∀ j, (j < i)%nat → v_ino (view_of s') !! j = Some ino1) ∧ v_sb (view_of s') = sb' ∧
    length (disk s') = (64 + 32 * i)%nat).
  - destruct (view_length s4) as (_ & Hi4 & _). split; [exact Hi4|]. split; [intros j Hj; lia|].
    change (length (disk s4)) with (v_len (view_of s4)). rewrite Hv4. done.
  - intros i s5 Hi (Hni & Hall & Hsb5 & Hlen). unfold NUM_INODES in Hi.
    apply wp_bind, wp_writeInode_any; [change (length (disk s5) ≤ 2240)%nat; lia|done|lia|].
    intros s6 Hv6. apply wp_ret. rewrite Hv6. vsimpl. split_and!; [by rewrite length_insert| |done|].
    + intros j Hj. destruct (decide (j = i)) as [->|]; [apply list_lookup_insert_eq; lia|].
      rewrite list_lookup_insert_ne by done. apply Hall. lia.
    + change (length (disk s6)) with (v_len (view_of s6)). rewrite Hv6. vsimpl.
      change (v_len (view_of s5)) with (length (disk s5)). lia.
  - intros s5 (Hni & Hall & Hsb5 & Hlen). apply wp_modify.
    split; [unfold formatted, DISKSIZE; simpl; unfold NUM_INODES in *; lia|]. split; [|split; [|done]].
    + apply rep_handles with (h := replicate MAX_OPEN_FILES (FH 0 (-1))) (v := view_of s5).
      apply rep_blank with ino1; try done; rewrite ?Hsb5; try done. apply view_blk_lengths.
    + unfold nfree. change (v_sb (view_of (set_handles _ s5))) with (v_sb (view_of s5)). by rewrite Hsb5.
Qed.
