(* ===== verification/Ssufs.v ===== *)
(** * ssufs: the promises of the file system, and where it breaks them *)

From S2P Require Import Prelude Bytes SsufsDisk SsufsOps SsufsView SsufsRep SsufsSpec SsufsWrite SsufsRead.

(** ** Concrete disks, made by running the code *)

Definition blank : fs := Fs [] 0 [] (λ _, 0) 0.
Definition demo_name : list Z := [102; 49].
Definition demo0 : fs := final ssufs_formatDisk blank.
Definition demo1 : fs := final (ssufs_create (cstr demo_name)) demo0.
Definition demo2 : fs := final (ssufs_open (cstr demo_name)) demo1.
Definition demo_data : list Z := replicate 70 7.
Definition demo3 : fs := final (ssufs_write 0 demo_data 70) demo2.
Definition demo_table (data : list Z) : table := <[0%nat := Some (demo_name, data)]> (replicate 8 None).

Lemma demo0_ok : formatted demo0 ∧ rep (view_of demo0) (replicate 8 None).
Proof. destruct (wp_final _ _ _ (format_empty blank)) as (_ & ? & ? & _). done. Qed.

Lemma demo_name_ok : nonul demo_name ∧ (length demo_name ≤ 7)%nat ∧ (length demo_name ≤ 8)%nat.
Proof. split; [by repeat constructor|simpl; lia]. Qed.

Lemma demo1_ok : formatted demo1 ∧ rep (view_of demo1) (demo_table []).
Proof.
  destruct demo0_ok as [Hf HR], demo_name_ok as (Hn & Hl & Hl8).
  destruct (wp_final _ _ _ (create_refines demo_name _ demo0 Hf HR Hn Hl)) as (a & Hf' & _ & H).
  split; [exact Hf'|]. exact (proj2 H).
Qed.

Lemma demo2_ok : formatted demo2 ∧ rep (view_of demo2) (demo_table []) ∧
  getZ (v_h (view_of demo2)) 0 = Some (FH 0 0).
Proof.
  destruct demo1_ok as [Hf HR], demo_name_ok as (Hn & Hl & Hl8).
  assert (length (v_h (view_of demo1)) = 20%nat) as Hh by (vm_compute; reflexivity).
  destruct (wp_final _ _ _ (open_refines demo_name _ demo1 Hf HR Hn Hl8 Hh)) as (a & Hf' & H).
  split; [exact Hf'|]. split; [|vm_compute; reflexivity].
  assert (first_closed (v_h (view_of demo1)) = Some 0%nat) as Hc by (vm_compute; reflexivity).
  rewrite Hc in H. change (lookup_name demo_name (demo_table [])) with (Some 0%nat) in H. destruct H as [_ Hv].
  eapply rep_eq; [apply rep_handles; exact HR|symmetry; exact Hv].
Qed.

Lemma demo3_ok : formatted demo3 ∧ rep (view_of demo3) (demo_table demo_data) ∧
  getZ (v_h (view_of demo3)) 0 = Some (FH 70 0).
Proof.
  destruct demo2_ok as (Hf & HR & Hh).
  assert (wp (ssufs_write 0 demo_data 70) (λ r s', r = 0 ∧ formatted s' ∧
    rep (view_of s') (<[0%nat := Some (demo_name, [] ++ take 70 demo_data)]> (demo_table [])) ∧
    v_h (view_of s') = setZ (v_h (view_of demo2)) 0 (FH 70 0)) demo2) as H.
  { apply (write_appends 0 0 demo_name [] demo_data 70 _ demo2 Hf HR eq_refl Hh).
    - split; [apply Nat.lt_0_succ|apply Nat.le_refl].
    - apply Nat.leb_le. reflexivity.
    - apply Nat.leb_le. vm_compute. reflexivity.
    - intros []. reflexivity. }
  destruct (wp_final _ _ _ H) as (a & _ & Hf' & HR' & _).
  split; [exact Hf'|]. split; [exact HR'|vm_compute; reflexivity].
Qed.

(** [ssufs_formatDisk], from any state and whatever uninitialised memory
    holds, leaves a disk with no files: every inode and block is free, the
    invariant holds, and every handle is closed. *)
Theorem ssufs_format_empty s :
  wp ssufs_formatDisk (λ _ s', formatted s' ∧ rep (view_of s') (replicate 8 None) ∧
    nfree (view_of s') = 30%nat ∧ v_h (view_of s') = replicate 20 (FH 0 (-1))) s.
Proof. apply format_empty. Qed.

(** C14. [ssufs_create] refines creation in the table of files, for names of at
    most 7 characters (what fits in an inode with the terminator): it fails,
    and changes nothing, exactly when a file of that name exists or no inode is
    free; otherwise it returns the first free inode, which now holds an empty
    file of that name, and every other file is unchanged. *)
Theorem ssufs_create_refines nm F s :
  formatted s → rep (view_of s) F → nonul nm → (length nm ≤ 7)%nat →
  wp (ssufs_create (cstr nm)) (λ r s', formatted s' ∧ v_h (view_of s') = v_h (view_of s) ∧
    match lookup_name nm F, first_free F with
    | None, Some i => r = Z.of_nat i ∧ rep (view_of s') (<[i := Some (nm, [])]> F)
    | _, _ => r = -1 ∧ view_of s' = view_of s
    end) s.
Proof. apply create_refines. Qed.

Example ssufs_create_witness :
  formatted demo0 ∧ rep (view_of demo0) (replicate 8 None) ∧
  wp (ssufs_create (cstr demo_name)) (λ r s', r = 0 ∧ rep (view_of s') (demo_table [])) demo0.
Proof.
  destruct demo0_ok as [Hf HR], demo_name_ok as (Hn & Hl & Hl8). split; [exact Hf|]. split; [exact HR|].
  eapply wp_mono; [exact (ssufs_create_refines demo_name _ demo0 Hf HR Hn Hl)|].
  intros a s' (_ & _ & H). exact H.
Defined.

(** C13. Appending refines concatenation.  A write of [n] bytes, more than 0, at
    the end of a file whose size stays within 256 bytes, with enough free
    blocks for it, ends in one of two ways.  If the last block is full, or
    somewhere in its 64 bytes there is a 0, then it returns 0, the file is its
    old contents followed by the bytes, no other file changes, the
    representation invariant (no shared or leaked block) holds again, and the
    handle stands at the new end.  If the last block is partly filled and has no
    0 byte, the write overruns an array: the code saves the block with
    strcpy. *)
Theorem ssufs_write_appends fh ino nm data buf n F s :
  formatted s → rep (view_of s) F → F !! ino = Some (Some (nm, data)) →
  getZ (v_h (view_of s)) fh = Some (FH (lenZ data) (Z.of_nat ino)) →
  (0 < n ≤ length buf)%nat → (length data + n ≤ 256)%nat →
  (need (length data) n ≤ nfree (view_of s))%nat →
  (savable (view_of s) ino data →
   wp (ssufs_write fh buf (Z.of_nat n)) (λ r s', r = 0 ∧ formatted s' ∧
     rep (view_of s') (<[ino := Some (nm, data ++ take n buf)]> F) ∧
     v_h (view_of s') = setZ (v_h (view_of s)) fh (FH (lenZ data + Z.of_nat n) (Z.of_nat ino))) s) ∧
  (¬ savable (view_of s) ino data → fails (ssufs_write fh buf (Z.of_nat n)) Fault s).
Proof.
  intros Hf HR HF Hh Hn Hmax Hfree. split; [intros Hs; by apply write_appends|]. by eapply write_overruns.
Qed.

Lemma demo3_savable : savable (view_of demo3) 0 demo_data.
Proof.
  intros _ b k blk Hb Hd Hblk.
  assert (match v_ino (view_of demo3) !! 0%nat with
          | Some b => match v_blk (view_of demo3) !! Z.to_nat (direct b 1) with Some blk => bool_decide (0 ∈ blk) | None => false end
          | None => false end = true) as H by (vm_compute; reflexivity).
  rewrite Hb in H. change (length demo_data / 64)%nat with 1%nat in Hd. rewrite Hd, Nat2Z.id, Hblk in H. by apply bool_decide_eq_true_1 in H.
Qed.

(** Ten bytes more for a file of 70, whose second block is partly filled. *)
Example ssufs_write_witness :
  wp (ssufs_write 0 (replicate 10 8) 10) (λ r s', r = 0 ∧ rep (view_of s') (demo_table (demo_data ++ replicate 10 8))) demo3.
Proof.
  destruct demo3_ok as (Hf & HR & Hh).
  assert ((length demo_data + 10 ≤ 256)%nat ∧ (need (length demo_data) 10 ≤ nfree (view_of demo3))%nat) as [H1 H2]
    by (split; apply Nat.leb_le; vm_compute; reflexivity).
  destruct (ssufs_write_appends 0 0 demo_name demo_data (replicate 10 8) 10 _ demo3 Hf HR eq_refl Hh) as [Hw _];
    [split; [apply Nat.lt_0_succ|apply Nat.le_refl]|exact H1|exact H2|].
  eapply wp_mono; [exact (Hw demo3_savable)|]. intros a s' (-> & _ & HR' & _). split; [done|exact HR'].
Defined.

(** C32. [ssufs_read] refines taking a slice: reading [n] bytes at the handle's
    offset, inside the file, returns 0 and exactly the file's bytes there,
    whatever blocks they are spread over; the disk is unchanged and the handle
    moves by [n].  Reading past the end returns -1 and changes nothing. *)
Theorem ssufs_read_slice fh ino nm data off n F s :
  formatted s → rep (view_of s) F → F !! ino = Some (Some (nm, data)) →
  getZ (v_h (view_of s)) fh = Some (FH (Z.of_nat off) (Z.of_nat ino)) →
  (0 < n)%nat → Z.of_nat (off + n) < 2 ^ 31 →
  wp (ssufs_read fh (Z.of_nat n)) (λ r s', formatted s' ∧
    if decide (off + n ≤ length data)%nat
    then r = (0, get off n data) ∧
         view_of s' = vset_h (setZ (v_h (view_of s)) fh (FH (Z.of_nat (off + n)) (Z.of_nat ino))) (view_of s)
    else r = (-1, []) ∧ view_of s' = view_of s) s.
Proof. apply read_slice. Qed.

Example ssufs_read_witness :
  let s := final (ssufs_lseek 0 (-66)) demo3 in
  wp (ssufs_read 0 62) (λ r _, r = (0, replicate 62 7)) s.
Proof.
  destruct demo3_ok as (Hf & HR & Hh). intros s.
  assert (wp (ssufs_lseek 0 (-66)) (λ r s', formatted s' ∧ rep (view_of s') (demo_table demo_data) ∧
    getZ (v_h (view_of s')) 0 = Some (FH 4 0)) demo3) as Hs.
  { destruct (rep_file _ _ HR 0%nat _ _ eq_refl) as (_ & b & Hb & Hfa).
    eapply (wp_lseek 0 70 0%nat (-66) b); [exact Hf|exact Hh|exact Hb|rewrite (fa_size _ _ _ _ Hfa); split; discriminate|].
    intros s' Hv' Hf'. rewrite Hv'. split; [exact Hf'|]. split; [by apply rep_handles|].
    assert (lenZ (v_h (view_of demo3)) = 20) as Hl by (vm_compute; reflexivity).
    apply getZ_setZ_eq. rewrite Hl. lia. }
  destruct (wp_final _ _ _ Hs) as (a & Hf' & HR' & Hh'). fold s in Hf', HR', Hh'.
  eapply wp_mono; [apply (ssufs_read_slice 0 0 demo_name demo_data 4 62 _ s Hf' HR' eq_refl Hh')|].
  - apply Nat.lt_0_succ.
  - reflexivity.
  - intros r s' [_ H]. exact (proj1 H).
Defined.

(** C15. [ssufs_delete] removes exactly the named file: its inode and all its
    blocks are free again (none leaks, none of another file is freed), every
    other file keeps its name and contents, and an absent name changes
    nothing. *)
Theorem ssufs_delete_refines nm F s :
  formatted s → rep (view_of s) F → nonul nm → (length nm ≤ 8)%nat →
  wp (ssufs_delete (cstr nm)) (λ _ s', formatted s' ∧ v_h (view_of s') = v_h (view_of s) ∧
    match lookup_name nm F with
    | Some i => rep (view_of s') (<[i := None]> F)
    | None => view_of s' = view_of s
    end) s.
Proof. apply delete_refines. Qed.

Example ssufs_delete_witness :
  wp (ssufs_delete (cstr demo_name)) (λ _ s', rep (view_of s') (replicate 8 None)) demo3.
Proof.
  destruct demo3_ok as (Hf & HR & _), demo_name_ok as (Hn & Hl & Hl8).
  eapply wp_mono; [apply (ssufs_delete_refines demo_name _ demo3 Hf HR Hn Hl8)|].
  intros a s' (_ & _ & H). exact H.
Defined.


(** ** Where the code breaks the promise *)

(** Result of a run from nothing, with [g] as the bytes of uninitialised memory. *)
Definition run {A} (g : Z) (m : M fs A) : option A :=
  match m (Fs [] 0 [] (λ _, g) 0) with Ret a _ => Some a | Fail _ _ => None end.

(** A name of exactly 8 characters is accepted, but its terminator lies in
    the field [file_size]: after the first write the file can no longer be
    found (and a second file of the same name can be created). *)
Theorem ssufs_long_name_lost :
  let nm := cstr [97; 98; 99; 100; 101; 102; 103; 104] in
  run 0 (ssufs_formatDisk;;
       i ← ssufs_create nm; h ← ssufs_open nm; w ← ssufs_write h (replicate 10 65) 10;
       h' ← ssufs_open nm; i' ← ssufs_create nm;
       mret (i, h, w, h', i')) = Some (0, 0, 0, -1, 1).
Proof. vm_compute. reflexivity. Qed.







(** Overwriting grows the recorded size: after writing 10 bytes and then
    the same 10 bytes again at offset 0, the file is said to have 20 bytes. *)
Theorem ssufs_overwrite_inflates_size :
  run 0 (ssufs_formatDisk;;
       i ← ssufs_create [97; 0]; h ← ssufs_open [97; 0]; ssufs_write h (replicate 10 65) 10;;
       ssufs_lseek h (-10);; w ← ssufs_write h (replicate 10 66) 10;
       ino ← ssufs_readInode i; mret (w, fsize ino)) = Some (0, 20).
Proof. vm_compute. reflexivity. Qed.
